(** * Request dispatch layer of the NPC server: balancer, admission control,
      router, decision cache and batch aggregator.

    Shallow embedding of package llm ([internal/llm/provider.go] and the
    balancer and router that follow the adapter in
    [internal/llm/openai_adapter.go], with [balancer_test.go]) and of
    package api ([internal/api/manager.go], [internal/api/batch.go]),
    followed by the properties proved about it.

    Conventions
    - Go [int] and [time.Duration] values are integers [Z]; where the source
      can leave the 64-bit range the wrap-around is written with [wrap64].
      The balancer only ever subtracts a non-negative gcd from a weight and
      adds one to an index below the slice length, so no wrap is possible
      there and the plain [Z] operation is the Go operation.
    - Go [float64] is the kernel's binary64 [float].
    - [time.Time] is a clock reading in nanoseconds.
    - An [error] is its message ([err.Error()]); [nil] is [None].
    - Effects (clock, sleeping, outbound calls, map iteration order) are
      threaded through an explicit [World].  The clock moves when the code
      sleeps and while an outbound call is under way; computation itself
      takes no time.  Locks are not modelled: the functions are the
      critical sections, run one after the other. *)

From Stdlib Require Import ZArith Floats Uint63 Lia Bool Ascii String List.
From Stdlib Require Import DecimalString Strings.Byte.
From stdpp Require Import gmap strings list fin_maps sorting.

Set Warnings "-register-all".

Local Open Scope string_scope.
Local Open Scope Z_scope.

(* ===================================================================== *)
(** * Part I. The Go runtime as far as the dispatch layer uses it           *)
(* ===================================================================== *)

Module Go.

Definition error := string.

(** Two's complement reduction to the range of [int64]. *)
Definition wrap64 (z : Z) : Z := (z + 2 ^ 63) mod 2 ^ 64 - 2 ^ 63.

Definition int64_min : Z := - 2 ^ 63.
Definition int64_max : Z := 2 ^ 63 - 1.

(** [time.Second], [time.Duration] being a count of nanoseconds. *)
Definition Second : Z := 1000000000.

(** Outcome of a Go function that contains an unbounded [for] loop or an
    index expression: it returns, it panics, or the loop has not returned
    within the iterations granted by the model. *)
Inductive Res (A : Type) : Type :=
| Done (a : A)
| Panic
| OutOfFuel.
Arguments Done {A} a.
Arguments Panic {A}.
Arguments OutOfFuel {A}.

(** What the modelled code does to the outside. *)
Inductive Event : Type :=
| EvSleep (d : Z)                          (* time.Sleep(d) *)
| EvComplete (backend prompt : string)     (* llm.Provider.Complete invoked *)
| EvCallProvider (backend prompt : string) (* api.Manager.callProvider invoked *)
| EvCallWithContext (backend prompt : string). (* api callWithContext invoked *)

Record World : Type := mkWorld {
  clock : Z;            (* what time.Now() reads *)
  trace : list Event;   (* most recent event last *)
  ranges : nat          (* how many map range loops have started *)
}.

(** State monad over the world. *)
Definition M (A : Type) : Type := World -> A * World.

Definition ret {A} (a : A) : M A := fun w => (a, w).
Definition bind {A B} (m : M A) (k : A -> M B) : M B :=
  fun w => let (a, w') := m w in k a w'.

Definition emit (e : Event) : M unit :=
  fun w => (tt, mkWorld (clock w) (trace w ++ [e]) (ranges w)).

Definition advance_clock (d : Z) : M unit :=
  fun w => (tt, mkWorld (clock w + d) (trace w) (ranges w)).

Definition time_Now : M Z := fun w => (clock w, w).

(** [time.Sleep]: a non-positive duration returns at once. *)
Definition time_Sleep (d : Z) : M unit :=
  bind (emit (EvSleep d)) (fun _ => advance_clock (Z.max d 0)).

(** [context.Context] as the callers here use it: a context that may have
    been cancelled by its owner and may carry a deadline. *)
Record Context : Type := mkContext {
  cancelled : bool;
  deadline : option Z
}.

Definition Canceled : error := "context canceled".
Definition DeadlineExceeded : error := "context deadline exceeded".

Definition Context_Err (ctx : Context) (now : Z) : option error :=
  if cancelled ctx then Some Canceled
  else match deadline ctx with
       | Some d => if d <=? now then Some DeadlineExceeded else None
       | None => None
       end.

Definition ctx_Err (ctx : Context) : M (option error) :=
  fun w => (Context_Err ctx (clock w), w).

Definition context_WithTimeout (ctx : Context) (timeout : Z) : M Context :=
  fun w =>
    let d := clock w + timeout in
    (mkContext (cancelled ctx)
       (Some (match deadline ctx with
              | Some d0 => Z.min d0 d
              | None => d
              end)), w).

(** [float64(z)] for an [int64] [z] whose magnitude is below [2^63]. *)
Definition float64_of_int (z : Z) : float :=
  if z <? 0 then PrimFloat.opp (PrimFloat.of_uint63 (Uint63.of_Z (- z)))
  else PrimFloat.of_uint63 (Uint63.of_Z z).

(** The integer part of a finite float, [None] for infinities and NaN. *)
Definition float64_trunc (f : float) : option Z :=
  match Prim2SF f with
  | S754_zero _ => Some 0
  | S754_finite s m e =>
      let mag := match e with
                 | Z0 => Zpos m
                 | Zpos p => Z.shiftl (Zpos m) (Zpos p)
                 | Zneg p => Z.shiftr (Zpos m) (Zpos p)
                 end in
      Some (if s then - mag else mag)
  | S754_infinity _ => None
  | S754_nan => None
  end.

(** [Duration.Seconds]: whole seconds plus the fractional nanoseconds. *)
Definition Duration_Seconds (d : Z) : float :=
  let sec := Z.quot d Second in
  let nsec := Z.rem d Second in
  PrimFloat.add (float64_of_int sec)
                (PrimFloat.div (float64_of_int nsec) 1e9%float).

(** [strings.Contains]. *)
Fixpoint strings_Contains (s substr : string) : bool :=
  if String.prefix substr s then true
  else match s with
       | EmptyString => false
       | String _ s' => strings_Contains s' substr
       end.

(** What the language leaves to the implementation and the standard library. *)
Class Runtime : Type := {
  (** value of [int64(f)] when [f] is not representable *)
  float64_to_int64_unrepresentable : Z;
  (** order in which the [n]-th range loop visits the entries of a map *)
  map_range : forall {V : Type}, nat -> list (string * V) -> list (string * V);
  map_range_perm :
    forall (V : Type) (n : nat) (l : list (string * V)), map_range n l ≡ₚ l;
  (** [strings.ToLower] *)
  strings_ToLower : string -> string
}.

(** The conversion [int64(f)] (truncation toward zero). *)
Definition int64_of_float64 `{Runtime} (f : float) : Z :=
  match float64_trunc f with
  | Some z =>
      if (int64_min <=? z) && (z <=? int64_max) then z
      else float64_to_int64_unrepresentable
  | None => float64_to_int64_unrepresentable
  end.

(** A runtime to evaluate with: the amd64 conversion result, maps visited
    in the order in which the model lists them, and [strings.ToLower] on
    ASCII text. *)
Definition ascii_ToLower (a : ascii) : ascii :=
  let n := nat_of_ascii a in
  if (65 <=? n)%nat && (n <=? 90)%nat then ascii_of_nat (n + 32) else a.

Fixpoint ascii_string_ToLower (s : string) : string :=
  match s with
  | EmptyString => EmptyString
  | String a s' => String (ascii_ToLower a) (ascii_string_ToLower s')
  end.

Definition amd64 : Runtime :=
  {| float64_to_int64_unrepresentable := int64_min;
     map_range := fun V _ l => l;
     map_range_perm := fun V _ l => Permutation_refl l;
     strings_ToLower := ascii_string_ToLower |}.

(** [t.Sub(u)], which saturates at the ends of the range of a duration. *)
Definition time_Sub (t u : Z) : Z :=
  Z.max int64_min (Z.min int64_max (t - u)).

Definition Millisecond : Z := 1000000.

(** [strings.Index(s, c)] and [strings.LastIndex(s, c)] for a one-byte
    string [c]: the offset of the first and of the last occurrence of the
    byte, -1 when there is none. *)
Fixpoint index_byte (c : ascii) (s : string) : Z :=
  match s with
  | EmptyString => -1
  | String a s' =>
      if Ascii.eqb a c then 0
      else let r := index_byte c s' in if r <? 0 then -1 else r + 1
  end.

Fixpoint last_index_byte (c : ascii) (s : string) : Z :=
  match s with
  | EmptyString => -1
  | String a s' =>
      let r := last_index_byte c s' in
      if 0 <=? r then r + 1 else if Ascii.eqb a c then 0 else -1
  end.

(** The slice expression [s[lo:hi]] for [0 <= lo <= hi <= len(s)]. *)
Definition slice (s : string) (lo hi : Z) : string :=
  substring (Z.to_nat lo) (Z.to_nat (hi - lo)) s.

(** The process environment and further routines of the standard library. *)
Class Os : Type := {
  os_Getenv : string -> string;
  strings_ToUpper : string -> string;
  strings_EqualFold : string -> string -> bool;
  strings_TrimSpace : string -> string;
  (** [strings.Trim(s, cutset)] *)
  strings_Trim : string -> string -> string;
  strconv_Atoi : string -> option Z
}.

End Go.

Module GoNotations.
Notation "'let*' x ':=' m 'in' k" := (Go.bind m (fun x => k))
  (at level 10, x pattern, m at level 100, k at level 200).
End GoNotations.
Import GoNotations.

(* ===================================================================== *)
(** * Part II. Package llm                                                  *)
(* ===================================================================== *)

Module Llm.
Import Go.

(** ** provider.go *)

Record CompletionOpts : Type := mkCompletionOpts {
  MaxTokens : Z;
  Temperature : float
}.

Record CompletionResult : Type := mkCompletionResult {
  Content : string;
  ResultProvider : string;   (* field [Provider] *)
  Model : string;
  Latency : Z;
  TokensIn : Z;
  TokensOut : Z
}.

(** The [Provider] interface.  [Complete] performs an outbound request, so
    its answer is a function of the request and of the world it is issued
    in; the second component is how long the request took.  [Protocol] and
    [HealthCheck] are not used by the balancer or by [Router.Complete]. *)
Record Provider : Type := mkProvider {
  Name : string;
  Complete : Context -> string -> CompletionOpts -> World ->
             (CompletionResult + error) * Z
}.

(** The call [provider.Complete(ctx, prompt, opts)] as the world sees it. *)
Definition invoke (p : Provider) (ctx : Context) (prompt : string)
    (opts : CompletionOpts) : M (CompletionResult + error) :=
  fun w =>
    let (res, took) := Complete p ctx prompt opts w in
    let (_, w1) := emit (EvComplete (Name p) prompt) w in
    let (_, w2) := advance_clock (Z.max took 0) w1 in
    (res, w2).

(** ** balancer.go *)

Record weightedProvider : Type := mkWeightedProvider {
  provider : Provider;
  weight : Z
}.

Record Balancer : Type := mkBalancer {
  providers : list weightedProvider;
  currentWeight : Z;
  maxWeight : Z;
  bgcd : Z;          (* field [gcd] *)
  lastIndex : Z
}.

(** [for b != 0 { a, b = b, a%b }; return a], granted [fuel] iterations. *)
Fixpoint gcd_loop (fuel : nat) (a b : Z) : Z :=
  match fuel with
  | O => a
  | S fuel' => if b =? 0 then a else gcd_loop fuel' b (Z.rem a b)
  end.

(** The remainder shrinks in absolute value at every iteration, so
    [|b| + 1] iterations are enough ([gcd_loop_enough]). *)
Definition gcd (a b : Z) : Z := gcd_loop (S (Z.abs_nat b)) a b.

Definition normalize_weight (weights : gmap string Z) (p : Provider)
    : weightedProvider :=
  let weight := default 0 (weights !! Name p) in
  mkWeightedProvider p (if weight <=? 0 then 1 else weight).

Definition scan_weights (rest : list weightedProvider) (init : Z * Z)
    : Z * Z :=
  fold_left
    (fun (acc : Z * Z) (wp : weightedProvider) =>
       let w := weight wp in
       ((if w >? fst acc then w else fst acc), gcd (snd acc) w))
    rest init.

Definition NewBalancer (ps : list Provider) (weights : gmap string Z)
    : Balancer :=
  let wps := map (normalize_weight weights) ps in
  match wps with
  | [] => mkBalancer [] 0 0 0 (-1)
  | wp0 :: rest =>
      let '(mx, g) := scan_weights rest (weight wp0, weight wp0) in
      mkBalancer wps 0 mx g (-1)
  end.

(** One turn of the loop of [Next] up to the eligibility test. *)
Definition advance (b : Balancer) : Balancer :=
  let lastIndex' :=
    Z.rem (lastIndex b + 1) (Z.of_nat (length (providers b))) in
  let currentWeight' :=
    if lastIndex' =? 0 then
      let cw := currentWeight b - bgcd b in
      if cw <=? 0 then maxWeight b else cw
    else currentWeight b in
  mkBalancer (providers b) currentWeight' (maxWeight b) (bgcd b) lastIndex'.

Fixpoint Next_loop (fuel : nat) (b : Balancer)
    : Res (option Provider * Balancer) :=
  match fuel with
  | O => OutOfFuel
  | S fuel' =>
      let b1 := advance b in
      if lastIndex b1 <? 0 then Panic
      else match providers b1 !! Z.to_nat (lastIndex b1) with
           | None => Panic
           | Some wp =>
               if weight wp >=? currentWeight b1
               then Done (Some (provider wp), b1)
               else Next_loop fuel' b1
           end
  end.

(** [Next] with its loop granted [fuel] iterations. *)
Definition Next_fuel (fuel : nat) (b : Balancer)
    : Res (option Provider * Balancer) :=
  match providers b with
  | [] => Done (None, b)
  | [wp] => Done (Some (provider wp), b)
  | _ => Next_loop fuel b
  end.

(** Two passes over the slice; [Next_total] shows that a balancer built by
    [NewBalancer] never needs more. *)
Definition Next (b : Balancer) : Res (option Provider * Balancer) :=
  Next_fuel (2 * length (providers b)) b.

Definition GetAll (b : Balancer) : list Provider :=
  map provider (providers b).

Definition GetByName (b : Balancer) (name : string) : option Provider :=
  provider <$> find (fun wp => String.eqb (Name (provider wp)) name)
                    (providers b).

Definition Len (b : Balancer) : Z := Z.of_nat (length (providers b)).

(** [n] consecutive calls of [Next]: the providers returned, in order, and
    the balancer left behind. *)
Fixpoint Next_n (n : nat) (b : Balancer)
    : Res (list (option Provider) * Balancer) :=
  match n with
  | O => Done ([], b)
  | S n' =>
      match Next b with
      | Done (p, b1) =>
          match Next_n n' b1 with
          | Done (ps, b2) => Done (p :: ps, b2)
          | Panic => Panic
          | OutOfFuel => OutOfFuel
          end
      | Panic => Panic
      | OutOfFuel => OutOfFuel
      end
  end.

(** The balancers a program can hold: [b0] and whatever calls of [Next]
    leave behind, however many iterations each call was granted. *)
Inductive reachable (b0 : Balancer) : Balancer -> Prop :=
| reach_init : reachable b0 b0
| reach_Next (b b' : Balancer) (p : option Provider) (fuel : nat) :
    reachable b0 b -> Next_fuel fuel b = Done (p, b') -> reachable b0 b'.

(** ** router.go *)

Record RateLimiter : Type := mkRateLimiter {
  tokens : float;
  maxTokens : float;
  refillRate : float;    (* tokens per second *)
  lastRefill : Z
}.

Definition NewRateLimiter (maxTokens refillRate : float) : M RateLimiter :=
  let* now := time_Now in
  ret (mkRateLimiter maxTokens maxTokens refillRate now).

Definition min (a b : float) : float :=
  if PrimFloat.ltb a b then a else b.

(** The bucket after the refill with which [Wait] starts, read at [now]. *)
Definition refill (r : RateLimiter) (now : Z) : RateLimiter :=
  let elapsed := Duration_Seconds (now - lastRefill r) in
  mkRateLimiter
    (min (maxTokens r)
         (PrimFloat.add (tokens r) (PrimFloat.mul elapsed (refillRate r))))
    (maxTokens r) (refillRate r) now.

(** [Wait(n)]; the argument is called [tokens] in the source. *)
Definition Wait `{Runtime} (r : RateLimiter) (n : float) : M RateLimiter :=
  let* now := time_Now in
  let r1 := refill r now in
  if PrimFloat.ltb (tokens r1) n then
    let waitTime :=
      int64_of_float64
        (PrimFloat.mul
           (PrimFloat.div (PrimFloat.sub n (tokens r1)) (refillRate r1))
           (float64_of_int Second)) in
    let* _ := time_Sleep waitTime in
    ret (mkRateLimiter 0%float (maxTokens r1) (refillRate r1) (lastRefill r1))
  else
    ret (mkRateLimiter (PrimFloat.sub (tokens r1) n)
           (maxTokens r1) (refillRate r1) (lastRefill r1)).

Record Router : Type := mkRouter {
  balancer : Balancer;
  rateLimiter : RateLimiter;
  npcMapping : gmap string Provider;
  successCount : gmap string Z;
  errorCount : gmap string Z;
  lastError : gmap string string
}.

(** The value [NewRouter] returns once it has collected the enabled
    providers and their weights from the configuration. *)
Definition NewRouter_of (ps : list Provider) (weights : gmap string Z)
    : M Router :=
  let* rl := NewRateLimiter 5%float 1%float in
  ret (mkRouter (NewBalancer ps weights) rl ∅ ∅ ∅ ∅).

Definition incr (m : gmap string Z) (k : string) : gmap string Z :=
  <[k := default 0 (m !! k) + 1]> m.

Definition recordSuccess (r : Router) (name : string) : Router :=
  mkRouter (balancer r) (rateLimiter r) (npcMapping r)
    (incr (successCount r) name) (errorCount r) (lastError r).

Definition recordError (r : Router) (name : string) (err : error) : Router :=
  mkRouter (balancer r) (rateLimiter r) (npcMapping r)
    (successCount r) (incr (errorCount r) name) (<[name := err]> (lastError r)).

Definition no_providers : error := "no providers available".

(** [Router.Complete].  The result is the pair the method returns, as a sum,
    together with the router it leaves behind. *)
Definition Router_Complete `{Runtime} (r : Router) (ctx : Context)
    (prompt : string) (opts : CompletionOpts)
    : M (Res (CompletionResult + error) * Router) :=
  let* rl := Wait (rateLimiter r) 1%float in
  let with_balancer (b : Balancer) : Router :=
    mkRouter b rl (npcMapping r) (successCount r) (errorCount r)
      (lastError r) in
  match Next (balancer r) with
  | Done (None, b) => ret (Done (inr no_providers), with_balancer b)
  | Done (Some p, b) =>
      let* res := invoke p ctx prompt opts in
      match res with
      | inr err =>
          ret (Done (inr err), recordError (with_balancer b) (Name p) err)
      | inl result =>
          ret (Done (inl result), recordSuccess (with_balancer b) (Name p))
      end
  | Panic => ret (Panic, with_balancer (balancer r))
  | OutOfFuel => ret (OutOfFuel, with_balancer (balancer r))
  end.

(** [CompleteWithProvider]: the named provider, else the balancer's choice. *)
Definition Router_CompleteWithProvider `{Runtime} (r : Router) (ctx : Context)
    (providerName prompt : string) (opts : CompletionOpts)
    : M (Res (CompletionResult + error) * Router) :=
  let* rl := Wait (rateLimiter r) 1%float in
  let with_balancer (b : Balancer) : Router :=
    mkRouter b rl (npcMapping r) (successCount r) (errorCount r)
      (lastError r) in
  let chosen :=
    match GetByName (balancer r) providerName with
    | Some p => Done (Some p, balancer r)
    | None => Next (balancer r)
    end in
  match chosen with
  | Done (None, b) => ret (Done (inr no_providers), with_balancer b)
  | Done (Some p, b) =>
      let* res := invoke p ctx prompt opts in
      match res with
      | inr err =>
          ret (Done (inr err), recordError (with_balancer b) (Name p) err)
      | inl result =>
          ret (Done (inl result), recordSuccess (with_balancer b) (Name p))
      end
  | Panic => ret (Panic, with_balancer (balancer r))
  | OutOfFuel => ret (OutOfFuel, with_balancer (balancer r))
  end.

(** ** balancer_test.go *)

(** [mockProvider]: answers every request, whatever the context. *)
Definition mockProvider (name : string) : Provider :=
  mkProvider name
    (fun _ _ _ _ => (inl (mkCompletionResult "mock" name "" 0 0 0), 0)).

(** The fixture of [TestBalancer_WeightedRoundRobin]. *)
Definition test_providers : list Provider :=
  [mockProvider "heavy"; mockProvider "medium"; mockProvider "light"].

Definition test_weights : gmap string Z :=
  <["heavy" := 3]> (<["medium" := 2]> (<["light" := 1]> ∅)).

(** What the test counts, by weight instead of by name: how many of the
    selections [ws] (given by the weight of the entry selected) went to the
    entry of weight [w]. *)
Definition count_weight (w : Z) (ws : list Z) : nat :=
  length (filter (fun x => Z.eqb w x = true) ws).

(** Some three consecutive selections all went to the entry of weight [w]. *)
Fixpoint three_in_a_row (w : Z) (ws : list Z) : bool :=
  match ws with
  | a :: (b :: c :: _) as rest =>
      (Z.eqb w a && Z.eqb w b && Z.eqb w c) || three_in_a_row w rest
  | _ => false
  end.

(** With two providers or more, the index at which a call of [Next] stops
    is the position of the entry it returns: the positions selected by [n]
    consecutive calls. *)
Fixpoint selected_indices (n : nat) (b : Balancer) : list nat :=
  match n with
  | O => []
  | S n' =>
      match Next b with
      | Done (_, b1) => Z.to_nat (lastIndex b1) :: selected_indices n' b1
      | _ => []
      end
  end.

(** [b] and the balancers left by each of the next [n] calls of [Next]. *)
Fixpoint states (n : nat) (b : Balancer) : list Balancer :=
  b :: match n with
       | O => []
       | S n' => match Next b with
                 | Done (_, b1) => states n' b1
                 | _ => []
                 end
       end.

(** ** openai_adapter.go: [truncateString] *)

(** [s[:maxLen]] panics when [maxLen] is negative; a bound above [len(s)]
    does not reach the slice expression. *)
Definition truncateString (s : string) (maxLen : Z) : Res string :=
  if Z.of_nat (String.length s) <=? maxLen then Done s
  else if maxLen <? 0 then Panic
  else Done (substring 0 (Z.to_nat maxLen) s ++ "...").

(** ** router.go: the per-NPC mapping and the listings *)

Definition with_balancer (r : Router) (b : Balancer) : Router :=
  mkRouter b (rateLimiter r) (npcMapping r) (successCount r) (errorCount r)
    (lastError r).

(** [GetProviderForNPC]: the provider assigned to the NPC, else the
    balancer's next choice. *)
Definition GetProviderForNPC (r : Router) (npcName : string)
    : Res (option Provider) * Router :=
  match npcMapping r !! npcName with
  | Some p => (Done (Some p), r)
  | None =>
      match Next (balancer r) with
      | Done (p, b) => (Done p, with_balancer r b)
      | Panic => (Panic, r)
      | OutOfFuel => (OutOfFuel, r)
      end
  end.

Definition SetNPCProvider (r : Router) (npcName providerName : string)
    : Router :=
  match GetByName (balancer r) providerName with
  | None => r
  | Some p =>
      mkRouter (balancer r) (rateLimiter r) (<[npcName := p]> (npcMapping r))
        (successCount r) (errorCount r) (lastError r)
  end.

Definition GetActiveProviders (r : Router) : list string :=
  map Name (GetAll (balancer r)).

(** ** router.go: [NewRouter] *)

Definition Protocol : Type := string.
Definition ProtocolOpenAI : Protocol := "openai".
Definition ProtocolGemini : Protocol := "gemini".

Record ProviderConfig : Type := mkProviderConfig {
  cfgName : string;
  cfgProtocol : Protocol;
  cfgBaseURL : string;
  cfgAPIKey : string;
  cfgModel : string;
  cfgWeight : Z;
  cfgEnabled : bool
}.

(** The HTTP exchanges of the two adapters. *)
Class Adapters : Type := {
  openai_Complete :
    ProviderConfig -> Context -> string -> CompletionOpts -> World ->
    (CompletionResult + error) * Z;
  gemini_Complete :
    ProviderConfig -> Context -> string -> CompletionOpts -> World ->
    (CompletionResult + error) * Z
}.

Definition NewOpenAIAdapter `{Adapters} (cfg : ProviderConfig) : Provider :=
  mkProvider (cfgName cfg) (openai_Complete cfg).

Definition NewGeminiAdapter `{Adapters} (cfg : ProviderConfig) : Provider :=
  let model :=
    if String.eqb (cfgModel cfg) "" then "gemini-2.0-flash"
    else cfgModel cfg in
  mkProvider (cfgName cfg)
    (gemini_Complete
       (mkProviderConfig (cfgName cfg) (cfgProtocol cfg) (cfgBaseURL cfg)
          (cfgAPIKey cfg) model (cfgWeight cfg) (cfgEnabled cfg))).

Definition envMap : gmap string string :=
  list_to_map
    [("groq", "GROQ_API_KEY"); ("sambanova", "SAMBANOVA_API_KEY");
     ("openrouter", "OPENROUTER_API_KEY"); ("huggingface", "HF_API_KEY");
     ("nebius", "NEBIUS_API_KEY"); ("gemini", "GEMINI_API_KEY");
     ("openai", "OPENAI_API_KEY")].

Definition getEnvAPIKey `{Runtime} `{Os} (provider : string) : string :=
  match envMap !! strings_ToLower provider with
  | Some envName => os_Getenv envName
  | None => ""
  end.

(** The key a configuration ends up with: its own, else the environment's. *)
Definition resolved_key `{Runtime} `{Os} (cfg : ProviderConfig) : string :=
  if String.eqb (cfgAPIKey cfg) "" then getEnvAPIKey (cfgName cfg)
  else cfgAPIKey cfg.

(** The weight recorded for a configuration that is loaded. *)
Definition resolved_weight `{Os} (cfg : ProviderConfig) : Z :=
  let envWeight :=
    os_Getenv ("LLM_" ++ strings_ToUpper (cfgName cfg) ++ "_WEIGHT") in
  let weight :=
    if negb (String.eqb envWeight "") then
      match strconv_Atoi envWeight with
      | Some w => if 0 <? w then w else cfgWeight cfg
      | None => cfgWeight cfg
      end
    else cfgWeight cfg in
  if weight <=? 0 then 1 else weight.

Definition resolved_model `{Os} (cfg : ProviderConfig) : string :=
  let envModel := os_Getenv (strings_ToUpper (cfgName cfg) ++ "_MODEL") in
  if negb (String.eqb envModel "") then envModel else cfgModel cfg.

(** The body of the loop [for _, cfg := range configs] of [NewRouter]. *)
Definition NewRouter_step `{Runtime} `{Os} `{Adapters}
    (acc : list Provider * gmap string Z) (cfg : ProviderConfig)
    : list Provider * gmap string Z :=
  let '(loaded, weights) := acc in
  if negb (cfgEnabled cfg) then acc
  else
    let apiKey := resolved_key cfg in
    if String.eqb apiKey "" then acc
    else
      let weights := <[cfgName cfg := resolved_weight cfg]> weights in
      let model := resolved_model cfg in
      let provider :=
        if String.eqb (cfgProtocol cfg) ProtocolGemini then
          NewGeminiAdapter
            (mkProviderConfig (cfgName cfg) "" "" apiKey model 0 false)
        else
          NewOpenAIAdapter
            (mkProviderConfig (cfgName cfg) "" (cfgBaseURL cfg) apiKey model
               0 false) in
      ((loaded ++ [provider])%list, weights).

Definition NewRouter `{Runtime} `{Os} `{Adapters} (configs : list ProviderConfig)
    : M Router :=
  let '(loaded, weights) := fold_left NewRouter_step configs ([], ∅) in
  NewRouter_of loaded weights.

End Llm.

(* ===================================================================== *)
(** * Part III. Package api                                                 *)
(* ===================================================================== *)

Module Api.
Import Go.

(** A value held in a [map[string]interface{}]. *)
Inductive Value : Type :=
| VNil
| VBool (b : bool)
| VInt (z : Z)          (* an [int] *)
| VNumber (f : float)   (* a [float64], as JSON numbers decode *)
| VString (s : string)
| VArray (l : list Value)
| VObject (m : list (string * Value)).

(** Observations and decisions are [map[string]interface{}] values. *)
Definition Observation : Type := gmap string Value.
Definition Decision : Type := gmap string Value.

(** [obs[key]], which is [nil] for a missing key. *)
Definition index (m : gmap string Value) (key : string) : Value :=
  default VNil (m !! key).

(** ** manager.go *)

Record Provider : Type := mkProvider {
  Name : string;
  BaseURL : string;
  APIKey : string;
  Model : string;
  Enabled : bool
}.

(** The parts of [Manager] that the retry and fallback paths read. *)
Record Manager : Type := mkManager {
  slmProviders : list Provider;
  activeSLM : option Provider
}.

(** What lies outside the repository or outside sequential code:
    the HTTP exchange behind [callProvider], the goroutine and [select] of
    [callWithContext] (answer and time taken, as functions of the world the
    call is made in), [sha256.Sum256] of [json.Marshal] of a key, which is
    32 bytes long, and the routines that format the prompt and decode the
    answer with fmt and encoding/json. *)
Class External : Type := {
  callProvider_reply : World -> Provider -> string -> (string + error) * Z;
  callWithContext_reply :
    World -> Context -> Provider -> string -> (string + error) * Z;
  sha256_json : gmap string Value -> list byte;
  sha256_json_length : forall key, length (sha256_json key) = 32%nat;
  buildFlexibleMultiNPCPrompt : list Observation -> string;
  parseMultiNPCResponse : string -> list Observation -> Res (list Decision)
}.


Definition callWithContext `{External} (ctx : Context) (p : Provider)
    (prompt : string) : M (string + error) :=
  fun w =>
    let (res, took) := callWithContext_reply w ctx p prompt in
    let (_, w1) := emit (EvCallWithContext (Name p) prompt) w in
    let (_, w2) := advance_clock (Z.max took 0) w1 in
    (res, w2).





Definition DefaultDecision (obs : Observation) : Decision :=
  <["npc_id" := index obs "npc_id"]>
    (<["action" := VString "explore"]>
       (<["reason" := VString "Looking around..."]> ∅)).

(** ** Helper functions for safe type extraction *)

Definition getString (m : gmap string Value) (key : string) : string :=
  match m !! key with
  | Some (VString s) => s
  | _ => ""
  end.

Definition getFloat (m : gmap string Value) (key : string) : float :=
  match m !! key with
  | Some (VNumber f) => f
  | _ => 0%float
  end.

Definition getBool (m : gmap string Value) (key : string) : bool :=
  match m !! key with
  | Some (VBool b) => b
  | _ => false
  end.

Definition getArray (m : gmap string Value) (key : string) : list Value :=
  match m !! key with
  | Some (VArray arr) => arr
  | _ => [VInt 0; VInt 0]
  end.

(** The elements that are maps; an object is listed with distinct keys. *)
Definition getArrayOfMaps (m : gmap string Value) (key : string)
    : list (gmap string Value) :=
  match m !! key with
  | Some (VArray arr) =>
      omap (fun item => match item with
                        | VObject o => Some (list_to_map o)
                        | _ => None
                        end) arr
  | _ => []
  end.

(** ** batch.go: the fingerprint of an observation *)

(** [int(x/50) * 50]: rounding to the 50-unit grid. *)
Definition grid `{Runtime} (x : float) : Z :=
  wrap64 (int64_of_float64 (PrimFloat.div x 50%float) * 50).

(** [fmt.Sprintf("%d", z)]. *)
Definition decimal (z : Z) : string := NilZero.string_of_int (Z.to_int z).

(** [sort.Strings]: ascending, bytes compared as numbers. *)
Fixpoint insert_sorted (s : string) (l : list string) : list string :=
  match l with
  | [] => [s]
  | x :: rest =>
      if String.leb s x then s :: l else x :: insert_sorted s rest
  end.

Definition sort_Strings (l : list string) : list string :=
  foldr insert_sorted [] l.

(** [hex.EncodeToString]. *)
Definition hex_digit (n : N) : ascii :=
  match n with
  | 0%N => "0" | 1%N => "1" | 2%N => "2" | 3%N => "3" | 4%N => "4"
  | 5%N => "5" | 6%N => "6" | 7%N => "7" | 8%N => "8" | 9%N => "9"
  | 10%N => "a" | 11%N => "b" | 12%N => "c" | 13%N => "d" | 14%N => "e"
  | _ => "f"
  end%char.

Definition hex_byte (b : byte) : string :=
  let n := Byte.to_N b in
  String (hex_digit (n / 16)) (String (hex_digit (n mod 16)) EmptyString).

Definition hex_EncodeToString (bs : list byte) : string :=
  foldr (fun b acc => hex_byte b ++ acc) EmptyString bs.

(** [fmt.Sprintf("%s:%d", gateID, dist)] for a gate that is still locked. *)
Definition gate_key `{Runtime} (g : gmap string Value) : string :=
  getString g "id" ++ ":" ++ decimal (grid (getFloat g "distance")).

(** The key that is hashed: grid position, name, locked gates nearby. *)
Definition fingerprint_key `{Runtime} (obs : Observation)
    : gmap string Value :=
  let pos := getArray obs "pos" in
  let key0 : gmap string Value := ∅ in
  let key1 :=
    if (2 <=? length pos)%nat then
      let kx := match pos !! 0%nat with
                | Some (VNumber x) => <["x" := VInt (grid x)]> key0
                | _ => key0
                end in
      match pos !! 1%nat with
      | Some (VNumber y) => <["y" := VInt (grid y)]> kx
      | _ => kx
      end
    else key0 in
  let key2 := <["name" := VString (getString obs "name")]> key1 in
  let gateKeys :=
    map gate_key
      (filter (fun g => getBool g "unlocked" = false)
         (getArrayOfMaps obs "nearby_gates")) in
  <["gates" := VString (String.concat "," (sort_Strings gateKeys))]> key2.

Definition hashObservation `{Runtime} `{External} (obs : Observation)
    : string :=
  hex_EncodeToString (take 8 (sha256_json (fingerprint_key obs))).

(** ** batch.go: the decision cache *)

Record CachedDecision : Type := mkCachedDecision {
  CDecision : Decision;     (* field [Decision] *)
  CreatedAt : Z;
  HitCount : Z
}.

Record DecisionCache : Type := mkDecisionCache {
  entries : gmap string CachedDecision;
  maxSize : Z;
  ttl : Z
}.

Definition NewDecisionCache (maxSize ttl : Z) : DecisionCache :=
  mkDecisionCache ∅ maxSize ttl.

(** [Get]: the entry found (with its hit counter already incremented, the
    map holding a pointer to it) and the cache afterwards. *)
Definition Get (c : DecisionCache) (key : string)
    : M (option CachedDecision * DecisionCache) :=
  match entries c !! key with
  | None => ret (None, c)
  | Some entry =>
      let* now := time_Now in
      if now - CreatedAt entry >? ttl c then ret (None, c)
      else
        let entry' :=
          mkCachedDecision (CDecision entry) (CreatedAt entry)
            (HitCount entry + 1) in
        ret (Some entry',
             mkDecisionCache (<[key := entry']> (entries c))
               (maxSize c) (ttl c))
  end.

(** The zero [time.Time], January 1 of year 1, on a clock that counts from
    the Unix epoch. *)
Definition zero_Time : Z := -62135596800 * Second.

(** The body of the range loop of [evictOldest]. *)
Definition older (acc : string * Z) (kv : string * CachedDecision)
    : string * Z :=
  let '(oldestKey, oldestTime) := acc in
  let '(key, entry) := kv in
  if String.eqb oldestKey "" || (CreatedAt entry <? oldestTime)
  then (key, CreatedAt entry)
  else (oldestKey, oldestTime).

Definition evictOldest `{Runtime} (es : gmap string CachedDecision)
    : M (gmap string CachedDecision) :=
  fun w =>
    let visited := map_range (ranges w) (map_to_list es) in
    let '(oldestKey, _) := fold_left older visited ("", zero_Time) in
    (if negb (String.eqb oldestKey "") then delete oldestKey es else es,
     mkWorld (clock w) (trace w) (S (ranges w))).

Definition Set_ `{Runtime} (c : DecisionCache) (key : string)
    (decision : Decision) : M DecisionCache :=
  let* es :=
    (if Z.of_nat (size (entries c)) >=? maxSize c
     then evictOldest (entries c) else ret (entries c)) in
  let* now := time_Now in
  ret (mkDecisionCache (<[key := mkCachedDecision decision now 0]> es)
         (maxSize c) (ttl c)).

(** ** batch.go: the batch decision system *)

Record BatchDecisionSystem : Type := mkBatchDecisionSystem {
  manager : Manager;
  cache : DecisionCache;
  batchCalls : Z;
  cachHits : Z;
  fallbackUsed : Z;
  totalDecisions : Z
}.

Definition NewBatchDecisionSystem (m : Manager) : BatchDecisionSystem :=
  mkBatchDecisionSystem m (NewDecisionCache 100 (10 * Second)) 0 0 0 0.

(** A [nil] map in [Decisions] is [None]. *)
Record BatchDecisionResponse : Type := mkBatchDecisionResponse {
  Decisions : list (option Decision);
  Strategy : string;
  FromCache : list bool;
  Error : option error
}.

Definition error_response (err : error) : BatchDecisionResponse :=
  mkBatchDecisionResponse [] "" [] (Some err).

Definition all_providers_failed : error := "all providers failed".
Definition no_observations : error := "no observations provided".

(** The range loop of [callLLMWithFallback] over [slmProviders]; reading
    [activeSLM.Name] through a nil pointer panics. *)
Fixpoint fallback_loop `{External} (ps : list Provider)
    (active : option Provider) (ctx : Context) (prompt : string)
    : M (Res (string + error)) :=
  match ps with
  | [] => ret (Done (inr all_providers_failed))
  | p :: rest =>
      match active with
      | None => ret Panic
      | Some a =>
          if String.eqb (Name p) (Name a)
          then fallback_loop rest active ctx prompt
          else
            let* done := ctx_Err ctx in
            match done with
            | Some err => ret (Done (inr err))
            | None =>
                let* res := callWithContext ctx p prompt in
                match res with
                | inl response => ret (Done (inl response))
                | inr _ => fallback_loop rest active ctx prompt
                end
            end
      end
  end.

Definition callLLMWithFallback `{External} (m : Manager) (ctx : Context)
    (prompt : string) (expectedCount : Z) : M (Res (string + error)) :=
  match activeSLM m with
  | Some a =>
      let* res := callWithContext ctx a prompt in
      match res with
      | inl response => ret (Done (inl response))
      | inr _ => fallback_loop (slmProviders m) (activeSLM m) ctx prompt
      end
  | None => fallback_loop (slmProviders m) (activeSLM m) ctx prompt
  end.

(** State of phase 1 of [GetBatchDecisions]. *)
Record Probe : Type := mkProbe {
  pDecisions : list (option Decision);
  pFromCache : list bool;
  uncachedIndices : list nat;
  uncachedObs : list Observation;
  pCache : DecisionCache;
  pHits : Z
}.

(** Phase 1: the loop [for i, obs := range observations], at index [i]. *)
Fixpoint probe_loop `{Runtime} `{External} (i : nat)
    (obs : list Observation)
    (st : Probe) : M Probe :=
  match obs with
  | [] => ret st
  | o :: rest =>
      let hash := hashObservation o in
      let* (cached, c) := Get (pCache st) hash in
      match cached with
      | Some e =>
          probe_loop (S i) rest
            (mkProbe (<[i := Some (CDecision e)]> (pDecisions st))
               (<[i := true]> (pFromCache st))
               (uncachedIndices st) (uncachedObs st) c (pHits st + 1))
      | None =>
          probe_loop (S i) rest
            (mkProbe (pDecisions st) (pFromCache st)
               (uncachedIndices st ++ [i]) (uncachedObs st ++ [o])
               c (pHits st))
      end
  end.

(** [ds[idx] = d] on a slice: an index out of range panics. *)
Definition store {A} (ds : list A) (idx : nat) (d : A) : Res (list A) :=
  if (idx <? length ds)%nat then Done (<[idx := d]> ds) else Panic.

(** The loop that gives a default decision to every uncached index. *)
Fixpoint fill_defaults (observations : list Observation) (idxs : list nat)
    (ds : list (option Decision)) : Res (list (option Decision)) :=
  match idxs with
  | [] => Done ds
  | idx :: rest =>
      match observations !! idx with
      | None => Panic
      | Some o =>
          match store ds idx (Some (DefaultDecision o)) with
          | Done ds' => fill_defaults observations rest ds'
          | Panic => Panic
          | OutOfFuel => OutOfFuel
          end
      end
  end.

(** Phase 4: the loop [for i, idx := range uncachedIndices], at position
    [i], handing out the parsed [decisions] and caching them. *)
Fixpoint distribute `{Runtime} `{External} (observations : list Observation)
    (decisions : list Decision) (i : nat) (idxs : list nat)
    (ds : list (option Decision)) (c : DecisionCache)
    : M (Res (list (option Decision)) * DecisionCache) :=
  match idxs with
  | [] => ret (Done ds, c)
  | idx :: rest =>
      match observations !! idx with
      | None => ret (Panic, c)
      | Some o =>
          match decisions !! i with
          | Some d =>
              match store ds idx (Some d) with
              | Done ds' =>
                  let* c' := Set_ c (hashObservation o) d in
                  distribute observations decisions (S i) rest ds' c'
              | _ => ret (Panic, c)
              end
          | None =>
              match store ds idx (Some (DefaultDecision o)) with
              | Done ds' =>
                  distribute observations decisions (S i) rest ds' c
              | _ => ret (Panic, c)
              end
          end
      end
  end.

Definition GetBatchDecisions `{Runtime} `{External}
    (bds : BatchDecisionSystem) (ctx : Context)
    (observations : list Observation)
    : M (Res BatchDecisionResponse * BatchDecisionSystem) :=
  let n := length observations in
  if (n =? 0)%nat then ret (Done (error_response no_observations), bds)
  else
  let total := totalDecisions bds + Z.of_nat n in
  let* err0 := ctx_Err ctx in
  match err0 with
  | Some err =>
      ret (Done (error_response err),
           mkBatchDecisionSystem (manager bds) (cache bds) (batchCalls bds)
             (cachHits bds) (fallbackUsed bds) total)
  | None =>
  (* Phase 1: check cache for each NPC *)
  let* st :=
    probe_loop 0 observations
      (mkProbe (replicate n None) (replicate n false) [] []
         (cache bds) (cachHits bds)) in
  let bds1 :=
    mkBatchDecisionSystem (manager bds) (pCache st) (batchCalls bds)
      (pHits st) (fallbackUsed bds) total in
  if (length (uncachedObs st) =? 0)%nat then
    ret (Done (mkBatchDecisionResponse (pDecisions st) "" (pFromCache st)
                 None), bds1)
  else
  let* err1 := ctx_Err ctx in
  match err1 with
  | Some err => ret (Done (error_response err), bds1)
  | None =>
  (* Phase 2 and 3 *)
  let prompt := buildFlexibleMultiNPCPrompt (uncachedObs st) in
  let* callCtx := context_WithTimeout ctx (25 * Second) in
  let* llm :=
    callLLMWithFallback (manager bds) callCtx prompt
      (Z.of_nat (length (uncachedObs st))) in
  match llm with
  | Panic => ret (Panic, bds1)
  | OutOfFuel => ret (OutOfFuel, bds1)
  | Done (inr _) =>
      let bds2 :=
        mkBatchDecisionSystem (manager bds) (pCache st) (batchCalls bds)
          (pHits st) (fallbackUsed bds + 1) total in
      match fill_defaults observations (uncachedIndices st)
              (pDecisions st) with
      | Done ds =>
          ret (Done (mkBatchDecisionResponse ds "" (pFromCache st) None),
               bds2)
      | Panic => ret (Panic, bds2)
      | OutOfFuel => ret (OutOfFuel, bds2)
      end
  | Done (inl llmResponse) =>
      (* Phase 4 *)
      let bds3 (c : DecisionCache) :=
        mkBatchDecisionSystem (manager bds) c (batchCalls bds + 1)
          (pHits st) (fallbackUsed bds) total in
      match parseMultiNPCResponse llmResponse (uncachedObs st) with
      | Done decisions =>
          let* (res, c) :=
            distribute observations decisions 0 (uncachedIndices st)
              (pDecisions st) (pCache st) in
          match res with
          | Done ds =>
              ret (Done (mkBatchDecisionResponse ds "" (pFromCache st)
                           None), bds3 c)
          | Panic => ret (Panic, bds3 c)
          | OutOfFuel => ret (OutOfFuel, bds3 c)
          end
      | Panic => ret (Panic, bds3 (pCache st))
      | OutOfFuel => ret (OutOfFuel, bds3 (pCache st))
      end
  end
  end
  end.

(** ** batch.go: the answer of the model, decoded *)

(** One element of [decisions] as [parseBatchResponse] declares it. *)
Record BatchItem : Type := mkBatchItem {
  itemNPC : string;
  itemAction : string;
  itemTarget : Value;
  itemReason : string
}.

(** encoding/json and fmt as the parsers use them.  A decoder returns
    [None] when [json.Unmarshal] reports an error.  [json_Unmarshal_decisions]
    is the field [Decisions] after decoding into the struct of
    [parseMultiNPCResponse]; a JSON [null] in the array is a nil map,
    [None]. *)
Class Codec : Type := {
  json_Unmarshal_object : string -> option (gmap string Value);
  json_Unmarshal_decisions :
    string -> option (list (option (gmap string Value)));
  json_Unmarshal_batch : string -> option (list BatchItem);
  (** [fmt.Sprintf("%v", v)] *)
  fmt_v : Value -> string;
  buildActionPrompt : Observation -> string
}.

Definition generateDefaultDecisions (observations : list Observation)
    : list Decision :=
  map DefaultDecision observations.

(** The inner loop of [parseMultiNPCResponse]: the position of the first
    decision that matches by [npc_id] or by [npc].  Reading a nil map
    gives the zero value. *)
Fixpoint first_match (decs : list (option (gmap string Value)))
    (npcID npcName : string) (j : nat) : option nat :=
  match decs with
  | [] => None
  | dec :: rest =>
      let d := default ∅ dec in
      if String.eqb (getString d "npc_id") npcID
         || String.eqb (getString d "npc") npcName
      then Some j
      else first_match rest npcID npcName (S j)
  end.

(** [result[i]] holds either one of the maps of [parsed.Decisions], which
    the later iterations may still write to, or a map of its own. *)
Inductive Slot : Type :=
| SlotRef (j : nat)
| SlotOwn (d : Decision).

(** The outer loop.  [store] is [parsed.Decisions]; the assignment
    [dec["npc_id"] = npcID] writes to the map in the store and panics on a
    nil map. *)
Fixpoint match_loop (observations : list Observation)
    (store : list (option (gmap string Value))) (slots : list Slot)
    : Res (list Slot * list (option (gmap string Value))) :=
  match observations with
  | [] => Done (slots, store)
  | obs :: rest =>
      let npcID := getString obs "npc_id" in
      let npcName := getString obs "name" in
      match first_match store npcID npcName 0 with
      | Some j =>
          match store !! j with
          | Some (Some d) =>
              match_loop rest
                (<[j := Some (<["npc_id" := VString npcID]> d)]> store)
                (slots ++ [SlotRef j])%list
          | _ => Panic
          end
      | None =>
          match_loop rest store (slots ++ [SlotOwn (DefaultDecision obs)])%list
      end
  end.

Definition deref (store : list (option (gmap string Value))) (slot : Slot)
    : Decision :=
  match slot with
  | SlotRef j => default ∅ (default None (store !! j))
  | SlotOwn d => d
  end.

(** [parseMultiNPCResponse] as batch.go writes it. *)
Definition parseMultiNPCResponse_src `{Codec} (response : string)
    (observations : list Observation) : Res (list Decision) :=
  let start := index_byte "{" response in
  let end_ := last_index_byte "}" response in
  if (start <? 0) || (end_ <? start) then
    Done (generateDefaultDecisions observations)
  else
    match json_Unmarshal_decisions (slice response start (end_ + 1)) with
    | None => Done (generateDefaultDecisions observations)
    | Some decs =>
        match match_loop observations decs [] with
        | Done (slots, store) => Done (map (deref store) slots)
        | Panic => Panic
        | OutOfFuel => OutOfFuel
        end
    end.

(** ** manager.go: the parsers *)

(** The inner loop of [parseBatchResponse]. *)
Definition batch_decision (decs : list BatchItem) (obs : Observation)
    : Decision :=
  match find (fun dec => String.eqb (itemNPC dec) (getString obs "name"))
          decs with
  | Some dec =>
      <["npc_id" := index obs "npc_id"]>
        (<["action" := VString (itemAction dec)]>
           (<["target" := itemTarget dec]>
              (<["reason" := VString (itemReason dec)]> ∅)))
  | None => DefaultDecision obs
  end.

(** [parseBatchResponse]; the error it returns is always nil. *)
Definition parseBatchResponse `{Codec} (response : string)
    (observations : list Observation) : list Decision :=
  let start := index_byte "{" response in
  let end_ := last_index_byte "}" response in
  if (0 <=? start) && (start <? end_) then
    match json_Unmarshal_batch (slice response start (end_ + 1)) with
    | Some decs => map (batch_decision decs) observations
    | None => map DefaultDecision observations
    end
  else map DefaultDecision observations.

(** The scan [for i, c := range response] of [parseActionResponse]: the
    offset of the first ['{'] and one past the offset of the last ['}'].
    Both are single bytes that no multi-byte rune contains. *)
Definition first_brace (response : string) : Z := index_byte "{" response.
Definition past_last_brace (response : string) : Z :=
  let r := last_index_byte "}" response in if r <? 0 then -1 else r + 1.

(** [nearbyNPCs[0].(map[string]interface{})["name"].(string)]. *)
Definition first_nearby_name (obs : Observation) : option string :=
  match obs !! "nearby_npcs" with
  | Some (VArray (VObject o :: _)) =>
      match (list_to_map o : gmap string Value) !! "name" with
      | Some (VString name) => Some name
      | _ => None
      end
  | _ => None
  end.

(** The correction of a talk or taunt that is aimed at the speaker or at
    nobody. *)
Definition fix_self_target (action : gmap string Value) (obs : Observation)
    : gmap string Value :=
  let actionType := getString action "action" in
  if String.eqb actionType "talk" || String.eqb actionType "taunt" then
    let target := getString action "target" in
    let npcName := getString obs "name" in
    if String.eqb target npcName || String.eqb target "" then
      match first_nearby_name obs with
      | Some validTarget => <["target" := VString validTarget]> action
      | None => action
      end
    else action
  else action.

(** The cutset of [strings.Trim(trimmed, ...)]: the double and the single
    quote. *)
Definition quotes : string := String "034" (String "039" EmptyString).

(** [parseActionResponse]; the error it returns is always nil. *)
Definition parseActionResponse `{Os} `{Codec} (response : string)
    (obs : Observation) : Decision :=
  let start := first_brace response in
  let end_ := past_last_brace response in
  let decoded :=
    if (0 <=? start) && (start <? end_)
    then json_Unmarshal_object (slice response start end_)
    else None in
  match decoded with
  | Some action =>
      fix_self_target (<["npc_id" := index obs "npc_id"]> action) obs
  | None =>
      let trimmed := strings_TrimSpace response in
      if (5 <? String.length trimmed)%nat
         && negb (String.prefix "{" trimmed) then
        let target := default "opponent" (first_nearby_name obs) in
        let message := strings_Trim trimmed quotes in
        let message :=
          if (100 <? String.length message)%nat
          then substring 0 100 message ++ "..."
          else message in
        <["npc_id" := index obs "npc_id"]>
          (<["action" := VString "taunt"]>
             (<["target" := VString target]>
                (<["message" := VString message]> ∅)))
      else DefaultDecision obs
  end.

(** [simpleJudge].  The two loops range over the map [responses]. *)
Definition coordination_step `{Codec} (acc : string * bool * bool)
    (kv : string * Value) : string * bool * bool :=
  let '(firstResponse, allMatch, stopped) := acc in
  if stopped then acc
  else
    let resp := fmt_v (snd kv) in
    if String.eqb firstResponse "" then (resp, allMatch, false)
    else if negb (String.eqb resp firstResponse)
         then (firstResponse, false, true)
         else acc.

Definition judgment (correct : bool) (feedback : string) (score : float)
    : gmap string Value :=
  <["correct" := VBool correct]>
    (<["feedback" := VString feedback]> (<["score" := VNumber score]> ∅)).

Definition simpleJudge `{Runtime} `{Codec} (challenge responses : gmap string Value)
    : M (gmap string Value) :=
  fun w =>
    let challengeType := getString challenge "type" in
    if String.eqb challengeType "coordination" then
      let visited := map_range (ranges w) (map_to_list responses) in
      let '(firstResponse, allMatch, _) :=
        fold_left coordination_step visited ("", true, false) in
      (judgment (allMatch && negb (String.eqb firstResponse ""))
         (if allMatch then "Perfect coordination!"
          else "Different answers given")
         (if allMatch then 1%float else 0%float),
       mkWorld (clock w) (trace w) (S (ranges w)))
    else if String.eqb challengeType "memory" then
      let solution := getString challenge "solution" in
      let visited := map_range (ranges w) (map_to_list responses) in
      (if existsb (fun kv => String.eqb (fmt_v (snd kv)) solution) visited
       then judgment true "Correct recall!" 1%float
       else judgment false "Incorrect answer" 0%float,
       mkWorld (clock w) (trace w) (S (ranges w)))
    else (judgment true "Challenge completed" 0.5%float, w).

(** ** manager.go: log helpers *)

(** [strings.ReplaceAll(s, "\n", " ")]. *)
Fixpoint newlines_to_spaces (s : string) : string :=
  match s with
  | EmptyString => EmptyString
  | String c s' =>
      String (if Ascii.eqb c "010" then " " else c)%char
             (newlines_to_spaces s')
  end.

(** [s[:maxLen]] panics when [maxLen] is negative. *)
Definition truncateForLog (s : string) (maxLen : Z) : Res string :=
  let s := newlines_to_spaces s in
  if Z.of_nat (String.length s) >? maxLen then
    if maxLen <? 0 then Panic
    else Done (substring 0 (Z.to_nat maxLen) s ++ "...")
  else Done s.

Definition truncateError (err : error) : string :=
  if (100 <? String.length err)%nat then substring 0 100 err ++ "..."
  else err.

(** ** manager.go: the manager as a whole *)

Record ProviderConfig : Type := mkProviderConfig {
  cfgName : string;
  cfgEnabled : bool;
  cfgAPIKey : string;
  cfgBaseURL : string;
  cfgModel : string
}.

(** The fields of [Manager] besides the provider lists of [Manager] above.
    The type [RateLimiter] of this package repeats that of package llm
    line by line (with one more log line), so the model shares it. *)
Record ManagerState : Type := mkManagerState {
  core : Manager;                       (* slmProviders, activeSLM *)
  brainProviders : list Provider;
  activeBrain : option Provider;
  npcProviders : gmap string Provider;
  providerIndex : Z;
  rateLimiter : Llm.RateLimiter;
  lastCallTime : Z;
  minCallInterval : Z;
  successCount : gmap string Z;
  errorCount : gmap string Z;
  lastError : gmap string string
}.

Definition keyEnv : gmap string string :=
  list_to_map
    [("groq", "GROQ_API_KEY"); ("sambanova", "SAMBANOVA_API_KEY");
     ("openrouter", "OPENROUTER_API_KEY"); ("huggingface", "HF_API_KEY");
     ("nebius", "NEBIUS_API_KEY"); ("gemini", "GEMINI_API_KEY")].

Definition modelEnv : gmap string string :=
  list_to_map
    [("groq", "GROQ_MODEL"); ("sambanova", "SAMBANOVA_MODEL");
     ("openrouter", "OPENROUTER_MODEL"); ("huggingface", "HF_MODEL");
     ("nebius", "NEBIUS_MODEL"); ("gemini", "GEMINI_MODEL");
     ("openai", "OPENAI_MODEL")].

Definition getEnvKey `{Os} (provider : string) : string :=
  match keyEnv !! provider with
  | Some envName => os_Getenv envName
  | None => ""
  end.

Definition getEnvModel `{Os} (provider defaultModel : string) : string :=
  match modelEnv !! provider with
  | Some envName =>
      let model := os_Getenv envName in
      if negb (String.eqb model "") then model else defaultModel
  | None => defaultModel
  end.

(** The body of the loop over [cfg.SLMProviders], which the loop over
    [cfg.BrainProviders] repeats: the providers loaded so far and the
    active one. *)
Definition load_step `{Os} (acc : list Provider * option Provider)
    (p : ProviderConfig) : list Provider * option Provider :=
  let '(loaded, active) := acc in
  if negb (cfgEnabled p) then acc
  else
    let apiKey :=
      if String.eqb (cfgAPIKey p) "" then getEnvKey (cfgName p)
      else cfgAPIKey p in
    if String.eqb apiKey "" then acc
    else
      let model := getEnvModel (cfgName p) (cfgModel p) in
      let provider := mkProvider (cfgName p) (cfgBaseURL p) apiKey model true in
      ((loaded ++ [provider])%list,
       match active with
       | None => Some provider
       | Some _ => active
       end).

Definition load_providers `{Os} (cfgs : list ProviderConfig)
    : list Provider * option Provider :=
  fold_left load_step cfgs ([], None).

Definition npcNames : list string :=
  ["Explorer"; "Scout"; "Wanderer"; "Seeker"].

(** The body of the loop over [npcNames]. *)
Definition assign_step `{Os} (slm : list Provider)
    (npcs : gmap string Provider) (name : string) : gmap string Provider :=
  let providerName := os_Getenv ("NPC_" ++ strings_ToUpper name ++ "_PROVIDER") in
  let modelOverride := os_Getenv ("NPC_" ++ strings_ToUpper name ++ "_MODEL") in
  if negb (String.eqb providerName "") then
    match find (fun p => strings_EqualFold (Name p) providerName) slm with
    | Some p =>
        let npcProvider :=
          if negb (String.eqb modelOverride "")
          then mkProvider (Name p) (BaseURL p) (APIKey p) modelOverride
                 (Enabled p)
          else p in
        <[name := npcProvider]> npcs
    | None => npcs
    end
  else npcs.

Definition NewManager `{Os} (slmCfg brainCfg : list ProviderConfig)
    : M ManagerState :=
  let* rl := Llm.NewRateLimiter 5%float 1%float in
  let '(slm, active) := load_providers slmCfg in
  let '(brain, brainActive) := load_providers brainCfg in
  ret (mkManagerState (mkManager slm active) brain brainActive
         (fold_left (assign_step slm) npcNames ∅) 0 rl zero_Time
         (500 * Millisecond) ∅ ∅ ∅).

Definition with_index (m : ManagerState) (i : Z) : ManagerState :=
  mkManagerState (core m) (brainProviders m) (activeBrain m) (npcProviders m)
    i (rateLimiter m) (lastCallTime m) (minCallInterval m) (successCount m)
    (errorCount m) (lastError m).

(** [Manager.GetProviderForNPC]: the provider assigned to the NPC, else the
    providers in turn.  A negative remainder is an index out of range. *)
Definition GetProviderForNPC (m : ManagerState) (npcName : string)
    : Res (option Provider) * ManagerState :=
  match npcProviders m !! npcName with
  | Some p => (Done (Some p), m)
  | None =>
      let slm := slmProviders (core m) in
      if (length slm =? 0)%nat then (Done None, m)
      else
        let i := Z.rem (providerIndex m) (Z.of_nat (length slm)) in
        if i <? 0 then (Panic, m)
        else match slm !! Z.to_nat i with
             | Some p => (Done (Some p),
                          with_index m (wrap64 (providerIndex m + 1)))
             | None => (Panic, m)
             end
  end.

Definition with_limits (m : ManagerState) (rl : Llm.RateLimiter) (last : Z)
    : ManagerState :=
  mkManagerState (core m) (brainProviders m) (activeBrain m) (npcProviders m)
    (providerIndex m) rl last (minCallInterval m) (successCount m)
    (errorCount m) (lastError m).

(** [throttle]: at least [minCallInterval] between two calls. *)
Definition throttle (m : ManagerState) : M ManagerState :=
  let* now := time_Now in
  let elapsed := time_Sub now (lastCallTime m) in
  let* _ :=
    (if elapsed <? minCallInterval m
     then time_Sleep (wrap64 (minCallInterval m - elapsed))
     else ret tt) in
  let* now' := time_Now in
  ret (with_limits m (rateLimiter m) now').

Definition recordSuccess (m : ManagerState) (name : string) : ManagerState :=
  mkManagerState (core m) (brainProviders m) (activeBrain m) (npcProviders m)
    (providerIndex m) (rateLimiter m) (lastCallTime m) (minCallInterval m)
    (Llm.incr (successCount m) name) (errorCount m) (lastError m).

Definition recordError (m : ManagerState) (name : string) (err : error)
    : ManagerState :=
  mkManagerState (core m) (brainProviders m) (activeBrain m) (npcProviders m)
    (providerIndex m) (rateLimiter m) (lastCallTime m) (minCallInterval m)
    (successCount m) (Llm.incr (errorCount m) name)
    (<[name := err]> (lastError m)).



End Api.

(* ===================================================================== *)
(** * Fixtures used to evaluate the model                                   *)
(* ===================================================================== *)

Module Fixtures.
Import Go.

Definition w0 : World := mkWorld 0 [] 0.

Definition cancelled_ctx : Context := mkContext true None.
Definition live_ctx : Context := mkContext false None.

Definition opts : Llm.CompletionOpts := Llm.mkCompletionOpts 100 0.5%float.

Definition unavailable : error := "[a] HTTP 503: service unavailable".


(** A backend that gives up at once when its context is done, as an HTTP
    client built with [http.NewRequestWithContext] does. *)
Definition honouring (name : string) : Llm.Provider :=
  Llm.mkProvider name
    (fun ctx _ _ w =>
       match Context_Err ctx (clock w) with
       | Some err => (inr ("network error: " ++ err), 0)
       | None => (inl (Llm.mkCompletionResult "ok" name "" 0 0 0), 0)
       end).

Definition router_of (ps : list Llm.Provider) (weights : gmap string Z)
    : Llm.Router :=
  fst (Llm.NewRouter_of ps weights w0).

Definition unit_weights : gmap string Z := <["a" := 1]> (<["b" := 1]> ∅).

(** A stand-in for the digest: the bytes of the name in the key, padded
    with zeros to 32 bytes. *)
Definition name_digest (key : gmap string Api.Value) : list byte :=
  take 32 (list_byte_of_string (Api.getString key "name")
           ++ replicate 32 Byte.x00).

Lemma name_digest_length (key : gmap string Api.Value) :
  length (name_digest key) = 32%nat.
Proof.
  unfold name_digest.
  rewrite length_take, length_app, length_replicate. lia.
Qed.

(** An outside world in which every provider of the manager is down. *)
Definition all_down : Api.External :=
  {| Api.callProvider_reply := fun _ _ _ => (inr unavailable, 0);
     Api.callWithContext_reply := fun _ _ _ _ => (inr unavailable, 0);
     Api.sha256_json := name_digest;
     Api.sha256_json_length := name_digest_length;
     Api.buildFlexibleMultiNPCPrompt := fun _ => "prompt";
     Api.parseMultiNPCResponse :=
       fun _ obs => Done (map Api.DefaultDecision obs) |}.

Definition groq : Api.Provider :=
  Api.mkProvider "groq" "https://api.groq.com/openai/v1" "key" "llama" true.

(** Three observations as the batch system sees them, and their
    fingerprints in that world. *)
Definition obs_k1 : Api.Observation :=
  <["name" := Api.VString "k1"]>
    (<["npc_id" := Api.VString "npc-1"]>
       (<["pos" := Api.VArray [Api.VNumber 120%float; Api.VNumber 75%float]]>
          ∅)).
Definition obs_k2 : Api.Observation :=
  <["name" := Api.VString "k2"]> (<["npc_id" := Api.VString "npc-2"]> ∅).
Definition obs_new : Api.Observation :=
  <["name" := Api.VString "zed"]> (<["npc_id" := Api.VString "npc-3"]> ∅).

Definition fp (obs : Api.Observation) : string :=
  Api.hashObservation (H := amd64) (H0 := all_down) obs.

(** A cache of capacity two that is full: the entry of [obs_k2] is the
    older one. *)
Definition explore : Api.Decision := Api.DefaultDecision ∅.

Definition full_cache : Api.DecisionCache :=
  Api.mkDecisionCache
    (<[fp obs_k1 := Api.mkCachedDecision explore 5 0]>
       (<[fp obs_k2 := Api.mkCachedDecision explore 3 1]> ∅))
    2 (10 * Second).

Definition a_manager : Api.Manager := Api.mkManager [groq] (Some groq).

Definition a_system : Api.BatchDecisionSystem :=
  Api.mkBatchDecisionSystem a_manager full_cache 0 0 0 0.

End Fixtures.

(* ===================================================================== *)
(** * Part IV. Properties of the balancer                                   *)
(* ===================================================================== *)

Module BalancerFacts.
Import Go Llm.

(** ** Euclid's loop *)

Lemma gcd_loop_enough (fuel : nat) (a b : Z) :
  0 <= a -> 0 <= b -> (Z.abs_nat b < fuel)%nat ->
  gcd_loop fuel a b = Z.gcd a b.
Proof.
  revert a b.
  induction fuel as [|fuel IH]; intros a b Ha Hb Hfuel; [lia|].
  cbn [gcd_loop].
  destruct (Z.eqb_spec b 0) as [->|Hb0].
  - rewrite Z.gcd_0_r. lia.
  - assert (Hrem : 0 <= Z.rem a b < b) by (apply Z.rem_bound_pos; lia).
    rewrite IH by lia.
    rewrite (Z.gcd_comm b), Z.gcd_rem by lia.
    apply Z.gcd_comm.
Qed.

Lemma gcd_spec (a b : Z) : 0 <= a -> 0 <= b -> gcd a b = Z.gcd a b.
Proof. intros Ha Hb. apply gcd_loop_enough; lia. Qed.

Lemma gcd_nonneg (a b : Z) : 0 <= a -> 0 <= b -> 0 <= gcd a b.
Proof. intros Ha Hb. rewrite gcd_spec by lia. apply Z.gcd_nonneg. Qed.

(** ** What [NewBalancer] establishes and [Next] maintains *)

Record Balancer_ok (b : Balancer) : Prop := mkBalancer_ok {
  ok_index : -1 <= lastIndex b < Z.of_nat (length (providers b));
  ok_gcd : 0 <= bgcd b;
  ok_current : 0 <= currentWeight b <= maxWeight b;
  ok_max : exists wp, wp ∈ providers b /\ weight wp = maxWeight b;
  ok_weights : forall wp, wp ∈ providers b -> 1 <= weight wp
}.

Lemma normalize_weight_pos (weights : gmap string Z) (p : Provider) :
  1 <= weight (normalize_weight weights p).
Proof.
  unfold normalize_weight. cbn.
  destruct (Z.leb_spec (default 0 (weights !! Name p)) 0); lia.
Qed.

Lemma scan_weights_spec (rest : list weightedProvider) (mx g : Z) :
  (forall wp, wp ∈ rest -> 1 <= weight wp) -> 0 <= g ->
  let '(mx', g') := scan_weights rest (mx, g) in
  0 <= g' /\ mx <= mx' /\
  (mx' = mx \/ exists wp, wp ∈ rest /\ weight wp = mx').
Proof.
  revert mx g.
  induction rest as [|wp rest IH]; intros mx g Hpos Hg; cbn.
  - repeat split; [lia | lia | now left].
  - assert (Hwp : 1 <= weight wp) by (apply Hpos; left).
    specialize (IH (if weight wp >? mx then weight wp else mx)
                   (gcd g (weight wp))).
    unfold scan_weights in IH.
    destruct (fold_left _ rest _) as [mx' g'] eqn:E.
    destruct IH as (Hg' & Hmx & Hatt).
    + intros wp' Hin. apply Hpos. now right.
    + apply gcd_nonneg; lia.
    + repeat split; [exact Hg' | destruct (Z.gtb_spec (weight wp) mx); lia |].
      destruct Hatt as [Heq | (wp' & Hin & Heq)].
      * destruct (Z.gtb_spec (weight wp) mx).
        -- right. exists wp. split; [left | lia].
        -- left. exact Heq.
      * right. exists wp'. split; [now right | exact Heq].
Qed.

Lemma NewBalancer_providers (ps : list Provider) (weights : gmap string Z) :
  providers (NewBalancer ps weights) = map (normalize_weight weights) ps.
Proof.
  unfold NewBalancer.
  destruct (map (normalize_weight weights) ps) as [|wp0 rest]; [reflexivity|].
  destruct (scan_weights rest _). reflexivity.
Qed.

Lemma NewBalancer_ok (ps : list Provider) (weights : gmap string Z) :
  ps <> [] -> Balancer_ok (NewBalancer ps weights).
Proof.
  intros Hne.
  assert (Hpos : forall wp, wp ∈ map (normalize_weight weights) ps ->
                            1 <= weight wp).
  { intros wp Hin. apply list_elem_of_In, in_map_iff in Hin.
    destruct Hin as (p & <- & _). apply normalize_weight_pos. }
  unfold NewBalancer.
  destruct (map (normalize_weight weights) ps) as [|wp0 rest] eqn:E.
  { destruct ps; [congruence | discriminate]. }
  pose proof (scan_weights_spec rest (weight wp0) (weight wp0)) as Hscan.
  destruct (scan_weights rest _) as [mx g].
  assert (H0 : 1 <= weight wp0) by (apply Hpos; left).
  destruct Hscan as (Hg & Hmx & Hatt).
  { intros wp Hin. apply Hpos. now right. }
  { lia. }
  constructor; cbn [providers currentWeight maxWeight bgcd lastIndex].
  - cbn [length]. lia.
  - exact Hg.
  - lia.
  - destruct Hatt as [-> | (wp & Hin & Heq)].
    + exists wp0. split; [left | reflexivity].
    + exists wp. split; [now right | exact Heq].
  - exact Hpos.
Qed.

Lemma ok_nonempty (b : Balancer) :
  Balancer_ok b -> 1 <= Z.of_nat (length (providers b)).
Proof.
  intros [_ _ _ (wp & Hin & _) _].
  destruct (providers b); [inversion Hin | cbn [length]; lia].
Qed.

Lemma advance_nowrap (b : Balancer) :
  0 <= lastIndex b -> lastIndex b + 1 < Z.of_nat (length (providers b)) ->
  lastIndex (advance b) = lastIndex b + 1 /\
  currentWeight (advance b) = currentWeight b.
Proof.
  intros Hlo Hhi. unfold advance. cbn [lastIndex currentWeight].
  rewrite Z.rem_small by lia.
  destruct (Z.eqb_spec (lastIndex b + 1) 0); [lia | split; reflexivity].
Qed.

Lemma advance_wrap (b : Balancer) :
  1 <= Z.of_nat (length (providers b)) ->
  lastIndex b = -1 \/ lastIndex b = Z.of_nat (length (providers b)) - 1 ->
  lastIndex (advance b) = 0 /\
  currentWeight (advance b) =
    (if currentWeight b - bgcd b <=? 0 then maxWeight b
     else currentWeight b - bgcd b).
Proof.
  intros Hn Hli. unfold advance. cbn [lastIndex currentWeight].
  assert (Hrem : Z.rem (lastIndex b + 1) (Z.of_nat (length (providers b)))
                 = 0).
  { destruct Hli as [-> | ->].
    - apply Z.rem_0_l. lia.
    - replace (Z.of_nat (length (providers b)) - 1 + 1)
        with (Z.of_nat (length (providers b))) by lia.
      apply Z.rem_same. lia. }
  rewrite Hrem. split; reflexivity.
Qed.

Lemma advance_ok (b : Balancer) : Balancer_ok b -> Balancer_ok (advance b).
Proof.
  intros Hok. pose proof (ok_nonempty b Hok) as Hn.
  destruct Hok as [Hidx Hg Hcw Hmax Hw].
  assert (Hcases :
    (0 <= lastIndex b /\ lastIndex b + 1 < Z.of_nat (length (providers b)))
    \/ (lastIndex b = -1 \/
        lastIndex b = Z.of_nat (length (providers b)) - 1)) by lia.
  destruct Hcases as [[Hlo Hhi] | Hwrap].
  - destruct (advance_nowrap b Hlo Hhi) as [Hi Hc].
    constructor; cbn [providers bgcd maxWeight advance] in *;
      try assumption; [rewrite Hi | rewrite Hc]; lia.
  - destruct (advance_wrap b Hn Hwrap) as [Hi Hc].
    constructor; cbn [providers bgcd maxWeight advance] in *;
      try assumption; [rewrite Hi; lia | rewrite Hc].
    destruct Hmax as (wp & Hin & Heq). specialize (Hw wp Hin).
    destruct (Z.leb_spec (currentWeight b - bgcd b) 0); lia.
Qed.

Lemma advance_lookup (b : Balancer) :
  Balancer_ok b ->
  0 <= lastIndex (advance b) /\
  exists wp, providers (advance b) !! Z.to_nat (lastIndex (advance b))
             = Some wp.
Proof.
  intros Hok. destruct (advance_ok b Hok) as [Hidx _ _ _ _].
  pose proof (ok_nonempty b Hok) as Hn.
  assert (H0 : 0 <= lastIndex (advance b)).
  { destruct Hok as [Hi _ _ _ _].
    assert (Hcases :
      (0 <= lastIndex b /\
       lastIndex b + 1 < Z.of_nat (length (providers b)))
      \/ (lastIndex b = -1 \/
          lastIndex b = Z.of_nat (length (providers b)) - 1)) by lia.
    destruct Hcases as [[Hlo Hhi] | Hwrap].
    - destruct (advance_nowrap b Hlo Hhi) as [-> _]. lia.
    - destruct (advance_wrap b Hn Hwrap) as [-> _]. lia. }
  split; [exact H0|].
  apply lookup_lt_is_Some_2. lia.
Qed.

(** A call that returns leaves a well-formed balancer over the same
    providers and returns the entry its index points at, an eligible one. *)
Lemma Next_loop_Done (fuel : nat) (b b' : Balancer) (p : option Provider) :
  Balancer_ok b -> Next_loop fuel b = Done (p, b') ->
  Balancer_ok b' /\ providers b' = providers b /\
  maxWeight b' = maxWeight b /\ bgcd b' = bgcd b /\
  exists wp, providers b !! Z.to_nat (lastIndex b') = Some wp /\
             p = Some (provider wp) /\ currentWeight b' <= weight wp.
Proof.
  revert b.
  induction fuel as [|fuel IH]; intros b Hok Hrun; [discriminate|].
  cbn [Next_loop] in Hrun.
  pose proof (advance_ok b Hok) as Hok1.
  destruct (advance_lookup b Hok) as (H0 & wp & Hwp).
  destruct (Z.ltb_spec (lastIndex (advance b)) 0); [lia|].
  rewrite Hwp in Hrun.
  destruct (Z.geb_spec (weight wp) (currentWeight (advance b))).
  - inversion Hrun; subst.
    refine (conj Hok1 (conj eq_refl (conj eq_refl (conj eq_refl _)))).
    exists wp. split; [exact Hwp | split; [reflexivity | lia]].
  - destruct (IH (advance b) Hok1 Hrun) as (Hb' & Hps & Hmx & Hg & Hex).
    exact (conj Hb' (conj Hps (conj Hmx (conj Hg Hex)))).
Qed.

Lemma Next_loop_no_Panic (fuel : nat) (b : Balancer) :
  Balancer_ok b -> Next_loop fuel b <> Panic.
Proof.
  revert b.
  induction fuel as [|fuel IH]; intros b Hok; [discriminate|].
  cbn [Next_loop].
  destruct (advance_lookup b Hok) as (H0 & wp & Hwp).
  destruct (Z.ltb_spec (lastIndex (advance b)) 0); [lia|].
  rewrite Hwp.
  destruct (weight wp >=? currentWeight (advance b)); [discriminate|].
  apply IH, advance_ok, Hok.
Qed.

(** More iterations than needed change nothing. *)
Lemma Next_loop_mono (fuel fuel' : nat) (b : Balancer)
    (r : option Provider * Balancer) :
  Next_loop fuel b = Done r -> (fuel <= fuel')%nat ->
  Next_loop fuel' b = Done r.
Proof.
  revert fuel' b.
  induction fuel as [|fuel IH]; intros fuel' b Hrun Hle; [discriminate|].
  destruct fuel' as [|fuel']; [lia|].
  cbn [Next_loop] in *.
  destruct (lastIndex (advance b) <? 0); [discriminate|].
  destruct (providers (advance b) !! _) as [wp|]; [|discriminate].
  destruct (weight wp >=? currentWeight (advance b)); [exact Hrun|].
  apply IH; [exact Hrun | lia].
Qed.

(** ** Termination of the scan *)

(** An eligible entry [d + 1] places ahead in the current pass is reached,
    at the latest, after [d + 1] iterations. *)
Lemma scan_reaches_eligible (d : nat) :
  forall (b : Balancer) (wp : weightedProvider) (fuel : nat),
    Balancer_ok b -> 0 <= lastIndex b ->
    providers b !! Z.to_nat (lastIndex b + Z.of_nat (S d)) = Some wp ->
    currentWeight b <= weight wp ->
    (S d <= fuel)%nat ->
    exists r, Next_loop fuel b = Done r.
Proof.
  induction d as [|d IH]; intros b wp fuel Hok Hlo Hwp Hel Hfuel;
    (destruct fuel as [|fuel]; [lia|]);
    pose proof (lookup_lt_Some _ _ _ Hwp) as Hlt;
    (destruct (advance_nowrap b Hlo ltac:(lia)) as [Hi Hc]);
    pose proof (advance_ok b Hok) as Hok1;
    cbn [Next_loop];
    (destruct (Z.ltb_spec (lastIndex (advance b)) 0); [lia|]);
    (destruct (advance_lookup b Hok) as (_ & wp1 & Hwp1)); rewrite Hwp1;
    (destruct (Z.geb_spec (weight wp1) (currentWeight (advance b)));
       [eexists; reflexivity|]).
  - exfalso. rewrite Hi in Hwp1. cbn [advance providers] in Hwp1.
    replace (lastIndex b + Z.of_nat 1) with (lastIndex b + 1) in Hwp by lia.
    rewrite Hwp in Hwp1. inversion Hwp1; subst. lia.
  - apply (IH (advance b) wp fuel Hok1); [lia | | lia | lia].
    rewrite Hi. cbn [advance providers].
    replace (lastIndex b + 1 + Z.of_nat (S d))
      with (lastIndex b + Z.of_nat (S (S d))) by lia.
    exact Hwp.
Qed.

(** A pass that starts at index 0 finds an entry: the counter it has just
    set is at most [maxWeight], and some entry weighs [maxWeight]. *)
Lemma full_pass_finds (b : Balancer) (fuel : nat) :
  Balancer_ok b ->
  lastIndex b = -1 \/ lastIndex b = Z.of_nat (length (providers b)) - 1 ->
  (length (providers b) <= fuel)%nat ->
  exists r, Next_loop fuel b = Done r.
Proof.
  intros Hok Hwrap Hfuel.
  pose proof (ok_nonempty b Hok) as Hn.
  destruct (advance_wrap b Hn Hwrap) as [Hi Hc].
  pose proof (advance_ok b Hok) as Hok1.
  destruct fuel as [|fuel]; [lia|].
  cbn [Next_loop].
  destruct (Z.ltb_spec (lastIndex (advance b)) 0); [lia|].
  destruct (advance_lookup b Hok) as (_ & wp0 & Hwp0). rewrite Hwp0.
  destruct (Z.geb_spec (weight wp0) (currentWeight (advance b)));
    [eexists; reflexivity|].
  destruct Hok1 as [_ _ Hcw1 (wp & Hin & Heq) _].
  apply list_elem_of_lookup in Hin. destruct Hin as [j Hj].
  pose proof (lookup_lt_Some _ _ _ Hj) as Hjlt.
  cbn [advance providers] in Hjlt.
  destruct j as [|j].
  { rewrite Hi in Hwp0. change (Z.to_nat 0) with 0%nat in Hwp0.
    rewrite Hj in Hwp0. inversion Hwp0; subst. lia. }
  apply (scan_reaches_eligible j (advance b) wp fuel);
    [apply advance_ok, Hok | lia | | lia | lia].
  rewrite Hi. rewrite Z.add_0_l, Nat2Z.id. exact Hj.
Qed.

(** From anywhere in a pass: the rest of this pass and one full pass. *)
Lemma rest_then_full_pass (d : nat) :
  forall (b : Balancer) (fuel : nat),
    Balancer_ok b -> 0 <= lastIndex b ->
    Z.of_nat d = Z.of_nat (length (providers b)) - 1 - lastIndex b ->
    (d + length (providers b) <= fuel)%nat ->
    exists r, Next_loop fuel b = Done r.
Proof.
  induction d as [|d IH]; intros b fuel Hok Hlo Hd Hfuel.
  - apply full_pass_finds; [exact Hok | right; lia | lia].
  - destruct fuel as [|fuel]; [lia|].
    destruct (advance_nowrap b Hlo ltac:(lia)) as [Hi Hc].
    cbn [Next_loop].
    destruct (Z.ltb_spec (lastIndex (advance b)) 0); [lia|].
    destruct (advance_lookup b Hok) as (_ & wp1 & Hwp1). rewrite Hwp1.
    destruct (Z.geb_spec (weight wp1) (currentWeight (advance b)));
      [eexists; reflexivity|].
    apply IH; [apply advance_ok, Hok | lia | | ];
      cbn [advance providers]; [rewrite Hi |]; lia.
Qed.

(** Two passes over the slice are enough. *)
Lemma Next_loop_two_passes (b : Balancer) (fuel : nat) :
  Balancer_ok b -> (2 * length (providers b) <= fuel)%nat ->
  exists r, Next_loop fuel b = Done r.
Proof.
  intros Hok Hfuel.
  pose proof (ok_nonempty b Hok) as Hn.
  destruct (ok_index b Hok) as [Hlo Hhi].
  destruct (Z.eq_dec (lastIndex b) (-1)) as [Hm1 | Hm1].
  - apply full_pass_finds; [exact Hok | now left | lia].
  - apply (rest_then_full_pass
             (Z.to_nat (Z.of_nat (length (providers b)) - 1 - lastIndex b)));
      [exact Hok | lia | lia | lia].
Qed.

(** ** [Next] on a well-formed balancer *)

Lemma Next_fuel_Done (fuel : nat) (b b' : Balancer) (p : option Provider) :
  Balancer_ok b -> Next_fuel fuel b = Done (p, b') ->
  Balancer_ok b' /\ providers b' = providers b /\
  maxWeight b' = maxWeight b /\ bgcd b' = bgcd b /\
  exists wp, wp ∈ providers b /\ p = Some (provider wp).
Proof.
  intros Hok Hrun. unfold Next_fuel in Hrun.
  destruct (providers b) as [|wp0 [|wp1 rest]] eqn:E.
  - exfalso. pose proof (ok_nonempty b Hok) as Hn. rewrite E in Hn.
    cbn in Hn. lia.
  - inversion Hrun; subst. rewrite E.
    refine (conj Hok (conj eq_refl (conj eq_refl (conj eq_refl _)))).
    exists wp0. split; [left | reflexivity].
  - destruct (Next_loop_Done fuel b b' p Hok Hrun)
      as (Hb' & Hps & Hmx & Hg & wp & Hwp & Hp & _).
    rewrite <- E.
    refine (conj Hb' (conj Hps (conj Hmx (conj Hg _)))).
    exists wp. split; [|exact Hp].
    apply list_elem_of_lookup. eexists. exact Hwp.
Qed.

Lemma Next_fuel_enough (fuel : nat) (b : Balancer) :
  Balancer_ok b -> (2 * length (providers b) <= fuel)%nat ->
  Next_fuel fuel b = Next b.
Proof.
  intros Hok Hfuel. unfold Next, Next_fuel.
  destruct (providers b) as [|wp0 [|wp1 rest]] eqn:E; try reflexivity.
  destruct (Next_loop_two_passes b (2 * length (providers b)) Hok ltac:(lia))
    as [r Hr].
  rewrite E in Hr. rewrite Hr.
  apply (Next_loop_mono _ fuel) in Hr; [exact Hr | exact Hfuel].
Qed.

Lemma Next_total (b : Balancer) :
  Balancer_ok b ->
  exists p b', Next b = Done (Some p, b') /\ Balancer_ok b'.
Proof.
  intros Hok.
  assert (Hex : exists r, Next b = Done r).
  { unfold Next, Next_fuel.
    destruct (providers b) as [|wp0 [|wp1 rest]] eqn:E;
      [eexists; reflexivity | eexists; reflexivity |].
    rewrite <- E. apply Next_loop_two_passes; [exact Hok | lia]. }
  destruct Hex as [[p b'] Hr].
  destruct (Next_fuel_Done _ b b' p Hok Hr) as (Hb' & _ & _ & _ & wp & _ & ->).
  exists (provider wp), b'. split; [exact Hr | exact Hb'].
Qed.

Lemma reachable_ok (b0 b : Balancer) :
  Balancer_ok b0 -> reachable b0 b ->
  Balancer_ok b /\ providers b = providers b0 /\ maxWeight b = maxWeight b0.
Proof.
  intros Hok0 Hreach.
  induction Hreach as [|b b' p fuel Hreach IH Hstep].
  - exact (conj Hok0 (conj eq_refl eq_refl)).
  - destruct IH as (Hok & Hps & Hmx).
    destruct (Next_fuel_Done fuel b b' p Hok Hstep)
      as (Hok' & Hps' & Hmx' & _).
    refine (conj Hok' (conj _ _)); congruence.
Qed.

(** A balancer in use is either empty, as it was built, or well formed. *)
Lemma reachable_shape (ps : list Provider) (weights : gmap string Z)
    (b : Balancer) :
  reachable (NewBalancer ps weights) b ->
  (ps = [] /\ providers b = []) \/ (ps <> [] /\ Balancer_ok b).
Proof.
  intros Hreach. destruct ps as [|p ps].
  - left. split; [reflexivity|].
    induction Hreach as [|b b' q fuel Hreach IH Hstep]; [reflexivity|].
    unfold Next_fuel in Hstep. rewrite IH in Hstep.
    inversion Hstep; subst. exact IH.
  - right. split; [discriminate|].
    apply (reachable_ok (NewBalancer (p :: ps) weights) b);
      [apply NewBalancer_ok; discriminate | exact Hreach].
Qed.

(** ** Runs of calls that stay inside a finite set of balancers *)

Definition closed_under_Next (C : list Balancer) : Prop :=
  Forall (fun s => exists p s', Next s = Done (p, s') /\ s' ∈ C) C.

Lemma Next_n_stays (C : list Balancer) (k : nat) :
  closed_under_Next C ->
  forall b, b ∈ C ->
    exists picked s, Next_n k b = Done (picked, s) /\ s ∈ C.
Proof.
  intros Hclosed.
  induction k as [|k IH]; intros b Hb.
  - exists [], b. split; [reflexivity | exact Hb].
  - pose proof (proj1 (Forall_forall _ _) Hclosed b Hb) as (p & b1 & Hp & Hb1).
    destruct (IH b1 Hb1) as (picked & s & Hrun & Hs).
    exists (p :: picked), s. cbn [Next_n]. rewrite Hp, Hrun.
    split; [reflexivity | exact Hs].
Qed.

(** What the test checks of the 60 selections that start at [s], the
    entries being those of [b0]: the selections are the entries at positions
    [idxs]; by weight, they are 30, 20 and 10 up to 5, and never three in a
    row for the entry of weight 3. *)
Definition window_ok (b0 s : Balancer) : Prop :=
  exists (idxs : list nat) window s',
    Next_n 60 s = Done (window, s') /\
    window = map (fun i => provider <$> providers b0 !! i) idxs /\
    let ws := map (fun i => default 0 (weight <$> providers b0 !! i)) idxs in
    (25 <= count_weight 3 ws <= 35)%nat /\
    (15 <= count_weight 2 ws <= 25)%nat /\
    (5 <= count_weight 1 ws <= 15)%nat /\
    three_in_a_row 3 ws = false.

Ltac in_list :=
  repeat first [apply list_elem_of_here | apply list_elem_of_further].

Ltac check_closed :=
  repeat (apply List.Forall_cons;
          [do 2 eexists; split; [vm_compute; reflexivity | in_list] |]);
  apply List.Forall_nil.

Ltac check_window :=
  lazymatch goal with
  | |- window_ok _ ?s =>
      exists (selected_indices 60 s); do 2 eexists;
      split; [vm_compute; reflexivity |
              split; [vm_compute; reflexivity | vm_compute; repeat split; lia]]
  end.

Ltac check_windows :=
  repeat (apply List.Forall_cons; [check_window |]);
  apply List.Forall_nil.

(** With weights 3, 2 and 1, in whatever order, the balancer moves through
    at most seven states; each of them starts a window of 60 selections
    that the test accepts. *)
Lemma weights_321_cycle (pa pb pc : Provider) (wa wb wc : Z) :
  [wa; wb; wc] ≡ₚ [3; 2; 1] ->
  let b0 :=
    mkBalancer [mkWeightedProvider pa wa; mkWeightedProvider pb wb;
                mkWeightedProvider pc wc] 0 3 1 (-1) in
  closed_under_Next (states 6 b0) /\ Forall (window_ok b0) (states 6 b0).
Proof.
  intros Hperm.
  symmetry in Hperm.
  apply permutations_Permutation in Hperm.
  let l := eval vm_compute in (permutations [3; 2; 1]) in
    change (permutations [3; 2; 1]) with l in Hperm.
  repeat (apply elem_of_cons in Hperm;
          destruct Hperm as [Hperm | Hperm];
          [injection Hperm as -> -> -> |]);
    [.. | inversion Hperm].
  all: intros b0; subst b0;
    match goal with
    | |- context [states 6 ?b] =>
        let C := eval vm_compute in (states 6 b) in
        change (states 6 b) with C
    end;
    split; [unfold closed_under_Next; check_closed | check_windows].
Qed.

(** A balancer built from three providers, in terms of the weights it
    stores. *)
Lemma NewBalancer_three (ps : list Provider) (weights : gmap string Z) :
  map weight (providers (NewBalancer ps weights)) ≡ₚ [3; 2; 1] ->
  exists pa pb pc wa wb wc,
    [wa; wb; wc] ≡ₚ [3; 2; 1] /\
    NewBalancer ps weights
    = mkBalancer [mkWeightedProvider pa wa; mkWeightedProvider pb wb;
                  mkWeightedProvider pc wc] 0 3 1 (-1).
Proof.
  rewrite NewBalancer_providers. intros Hperm.
  pose proof (Permutation_length Hperm) as Hlen.
  rewrite !length_map in Hlen.
  destruct ps as [|pa [|pb [|pc [|pd rest]]]]; try discriminate Hlen.
  cbn [map] in Hperm.
  exists pa, pb, pc, (weight (normalize_weight weights pa)),
    (weight (normalize_weight weights pb)),
    (weight (normalize_weight weights pc)).
  split; [exact Hperm|].
  change (NewBalancer [pa; pb; pc] weights)
    with (let '(mx, g) :=
            scan_weights
              [mkWeightedProvider pb (weight (normalize_weight weights pb));
               mkWeightedProvider pc (weight (normalize_weight weights pc))]
              (weight (normalize_weight weights pa),
               weight (normalize_weight weights pa)) in
          mkBalancer
            [mkWeightedProvider pa (weight (normalize_weight weights pa));
             mkWeightedProvider pb (weight (normalize_weight weights pb));
             mkWeightedProvider pc (weight (normalize_weight weights pc))]
            0 mx g (-1)).
  generalize dependent (weight (normalize_weight weights pa)).
  generalize dependent (weight (normalize_weight weights pb)).
  generalize dependent (weight (normalize_weight weights pc)).
  intros wc wb wa Hperm.
  symmetry in Hperm.
  apply permutations_Permutation in Hperm.
  let l := eval vm_compute in (permutations [3; 2; 1]) in
    change (permutations [3; 2; 1]) with l in Hperm.
  repeat (apply elem_of_cons in Hperm;
          destruct Hperm as [Hperm | Hperm];
          [injection Hperm as -> -> -> |]);
    [.. | inversion Hperm]; reflexivity.
Qed.

Lemma states_head (n : nat) (b : Balancer) : b ∈ states n b.
Proof. destruct n; apply list_elem_of_here. Qed.

Lemma Next_n_single (p : Provider) (weights : gmap string Z) (n : nat) :
  Next_n n (NewBalancer [p] weights)
  = Done (replicate n (Some p), NewBalancer [p] weights).
Proof.
  assert (Hnext : Next (NewBalancer [p] weights)
                  = Done (Some p, NewBalancer [p] weights)) by reflexivity.
  induction n as [|n IH]; [reflexivity|].
  cbn [Next_n replicate]. rewrite Hnext, IH. reflexivity.
Qed.

Lemma Next_n_empty (weights : gmap string Z) (n : nat) :
  Next_n n (NewBalancer [] weights)
  = Done (replicate n None, NewBalancer [] weights).
Proof.
  assert (Hnext : Next (NewBalancer [] weights)
                  = Done (None, NewBalancer [] weights)) by reflexivity.
  induction n as [|n IH]; [reflexivity|].
  cbn [Next_n replicate]. rewrite Hnext, IH. reflexivity.
Qed.

(** ** The claims about the balancer *)

(** C3: a balancer built from three backends whose weights are 3, 2 and 1
    (in any order, whatever the backends are) selects, in any 60
    consecutive calls of [Next] (after any number [k] of earlier calls),
    the backend of weight 3 between 25 and 35 times, the backend of weight
    2 between 15 and 25 times and the backend of weight 1 between 5 and 15
    times, and never the backend of weight 3 three times in a row.  The
    selections are given by position in the provider list ([idxs]) and by
    weight ([ws]). *)
Theorem C3_weighted_distribution (ps : list Provider)
    (weights : gmap string Z) (k : nat) :
  map weight (providers (NewBalancer ps weights)) ≡ₚ [3; 2; 1] ->
  exists before s (idxs : list nat) window s',
    Next_n k (NewBalancer ps weights) = Done (before, s) /\
    Next_n 60 s = Done (window, s') /\
    window
    = map (fun i => provider <$> providers (NewBalancer ps weights) !! i)
          idxs /\
    let ws :=
      map (fun i =>
             default 0 (weight <$> providers (NewBalancer ps weights) !! i))
          idxs in
    (25 <= count_weight 3 ws <= 35)%nat /\
    (15 <= count_weight 2 ws <= 25)%nat /\
    (5 <= count_weight 1 ws <= 15)%nat /\
    three_in_a_row 3 ws = false.
Proof.
  intros Hperm.
  destruct (NewBalancer_three ps weights Hperm)
    as (pa & pb & pc & wa & wb & wc & Hw & ->).
  destruct (weights_321_cycle pa pb pc wa wb wc Hw) as [Hclosed Hwin].
  destruct (Next_n_stays _ k Hclosed _ (states_head 6 _))
    as (before & s & Hrun & Hs).
  pose proof (proj1 (Forall_forall _ _) Hwin s Hs)
    as (idxs & window & s' & Hw60 & Hwindow & Hcounts).
  exists before, s, idxs, window, s'.
  split; [exact Hrun|]. split; [exact Hw60|]. split; [exact Hwindow|].
  exact Hcounts.
Qed.

(** The fixture of the test, after seven earlier calls. *)
Lemma C3_weighted_distribution_witness :
  exists before s (idxs : list nat) window s',
    Next_n 7 (NewBalancer test_providers test_weights) = Done (before, s) /\
    Next_n 60 s = Done (window, s') /\
    window
    = map (fun i =>
             provider
               <$> providers (NewBalancer test_providers test_weights) !! i)
          idxs /\
    let ws :=
      map (fun i =>
             default 0
               (weight
                  <$> providers (NewBalancer test_providers test_weights)
                        !! i))
          idxs in
    (25 <= count_weight 3 ws <= 35)%nat /\
    (15 <= count_weight 2 ws <= 25)%nat /\
    (5 <= count_weight 1 ws <= 15)%nat /\
    three_in_a_row 3 ws = false.
Proof.
  apply (C3_weighted_distribution test_providers test_weights 7).
  vm_compute. reflexivity.
Defined.

(** On the fixture of the test the 60 selections of the test itself are
    30, 20 and 10, in the repeating order heavy, heavy, medium, heavy,
    medium, light. *)
Example test_fixture_counts :
  exists window s,
    Next_n 60 (NewBalancer test_providers test_weights) = Done (window, s) /\
    take 6 (omap (fmap Name) window)
    = ["heavy"; "heavy"; "medium"; "heavy"; "medium"; "light"] /\
    length (filter (fun n => n = "heavy") (omap (fmap Name) window)) = 30%nat /\
    length (filter (fun n => n = "medium") (omap (fmap Name) window)) = 20%nat /\
    length (filter (fun n => n = "light") (omap (fmap Name) window)) = 10%nat.
Proof.
  do 2 eexists. split; [vm_compute; reflexivity|].
  vm_compute. repeat split; reflexivity.
Qed.

(** C9: with no backend [Next] returns nil and does not panic; with one
    backend it returns that backend on every call, however many; and a
    weight that is missing, zero or negative is stored as 1, any other
    weight as it is. *)
Theorem C9_balancer_special_cases :
  (forall (weights : gmap string Z) (fuel n : nat),
      Next_fuel fuel (NewBalancer [] weights)
      = Done (None, NewBalancer [] weights) /\
      Next_n n (NewBalancer [] weights)
      = Done (replicate n None, NewBalancer [] weights)) /\
  (forall (p : Provider) (weights : gmap string Z) (fuel n : nat),
      Next_fuel fuel (NewBalancer [p] weights)
      = Done (Some p, NewBalancer [p] weights) /\
      Next_n n (NewBalancer [p] weights)
      = Done (replicate n (Some p), NewBalancer [p] weights)) /\
  (forall (ps : list Provider) (weights : gmap string Z) (i : nat)
          (p : Provider),
      ps !! i = Some p ->
      (default 0 (weights !! Name p) <= 0 ->
       providers (NewBalancer ps weights) !! i
       = Some (mkWeightedProvider p 1)) /\
      (0 < default 0 (weights !! Name p) ->
       providers (NewBalancer ps weights) !! i
       = Some (mkWeightedProvider p (default 0 (weights !! Name p))))).
Proof.
  split; [|split].
  - intros weights fuel n. split; [reflexivity | apply Next_n_empty].
  - intros p weights fuel n. split; [reflexivity | apply Next_n_single].
  - intros ps weights i p Hp.
    rewrite NewBalancer_providers, list_lookup_fmap, Hp.
    unfold normalize_weight. cbn.
    split; intros Hw;
      destruct (Z.leb_spec (default 0 (weights !! Name p)) 0);
      try lia; reflexivity.
Qed.

Lemma C9_balancer_special_cases_witness :
  providers (NewBalancer [mockProvider "a"; mockProvider "b"]
               (<["a" := -4]> (<["b" := 7]> ∅))) !! 0%nat
  = Some (mkWeightedProvider (mockProvider "a") 1) /\
  providers (NewBalancer [mockProvider "a"; mockProvider "b"]
               (<["a" := -4]> (<["b" := 7]> ∅))) !! 1%nat
  = Some (mkWeightedProvider (mockProvider "b") 7).
Proof.
  pose proof (proj2 (proj2 C9_balancer_special_cases)
                [mockProvider "a"; mockProvider "b"]
                (<["a" := -4]> (<["b" := 7]> ∅))) as H.
  split.
  - apply (proj1 (H 0%nat (mockProvider "a") eq_refl)).
    vm_compute. discriminate.
  - apply (proj2 (H 1%nat (mockProvider "b") eq_refl)).
    vm_compute. reflexivity.
Defined.

(** C10: on a balancer built by [NewBalancer] from a non-empty list, and on
    every balancer later calls leave behind, [Next] returns a provider, its
    loop taking at most [2 * len(providers)] iterations (two passes); more
    iterations granted give the same result.  The reason: the counter never
    exceeds [maxWeight] (a reset sets it to [maxWeight]) and some entry
    weighs [maxWeight]. *)
Theorem C10_Next_terminates_in_two_passes
    (ps : list Provider) (weights : gmap string Z) (b : Balancer) :
  ps <> [] -> reachable (NewBalancer ps weights) b ->
  0 <= currentWeight b <= maxWeight b /\
  (exists wp, wp ∈ providers b /\ weight wp = maxWeight b) /\
  (lastIndex b = -1 \/ lastIndex b = Z.of_nat (length (providers b)) - 1 ->
   currentWeight b - bgcd b <= 0 ->
   currentWeight (advance b) = maxWeight b) /\
  exists p b',
    Next_fuel (2 * length (providers b)) b = Done (Some p, b') /\
    forall fuel, (2 * length (providers b) <= fuel)%nat ->
                 Next_fuel fuel b = Done (Some p, b').
Proof.
  intros Hne Hreach.
  destruct (reachable_ok _ b (NewBalancer_ok ps weights Hne) Hreach)
    as (Hok & _ & _).
  split; [apply (ok_current b Hok) | split; [apply (ok_max b Hok) |]].
  split.
  { intros Hwrap Hreset.
    destruct (advance_wrap b (ok_nonempty b Hok) Hwrap) as [_ ->].
    destruct (Z.leb_spec (currentWeight b - bgcd b) 0); [reflexivity | lia]. }
  destruct (Next_total b Hok) as (p & b' & Hrun & _).
  exists p, b'. split; [exact Hrun|].
  intros fuel Hfuel. rewrite Next_fuel_enough by assumption. exact Hrun.
Qed.

Lemma C10_Next_terminates_in_two_passes_witness :
  exists p b',
    Next_fuel 6 (NewBalancer test_providers test_weights)
    = Done (Some p, b').
Proof.
  destruct (C10_Next_terminates_in_two_passes test_providers test_weights
              (NewBalancer test_providers test_weights)
              ltac:(discriminate) (reach_init _))
    as (_ & _ & _ & p & b' & Hrun & _).
  exists p, b'. exact Hrun.
Defined.

End BalancerFacts.

(* ===================================================================== *)
(** * Part V. Properties of the admission controller                        *)
(* ===================================================================== *)

Module RateLimiterFacts.
Import Go Llm.

(** [Wait] written as one case distinction on the refilled bucket. *)
Lemma Wait_unfold `{Runtime} (r : RateLimiter) (cost : float) (w : World) :
  Wait r cost w =
  let r1 := refill r (clock w) in
  if PrimFloat.ltb (tokens r1) cost then
    let d := int64_of_float64
               (PrimFloat.mul
                  (PrimFloat.div (PrimFloat.sub cost (tokens r1))
                     (refillRate r))
                  1e9%float) in
    (mkRateLimiter 0%float (maxTokens r) (refillRate r) (clock w),
     mkWorld (clock w + Z.max d 0) (trace w ++ [EvSleep d]) (ranges w))
  else
    (mkRateLimiter (PrimFloat.sub (tokens r1) cost) (maxTokens r)
       (refillRate r) (clock w), w).
Proof.
  unfold Wait, bind, time_Now, time_Sleep, bind, emit, advance_clock, ret.
  cbn [refill tokens maxTokens refillRate lastRefill].
  destruct (PrimFloat.ltb _ cost); reflexivity.
Qed.

(** ** A second call shortly after the bucket was emptied *)

(** What [Wait(1)] computes [e] nanoseconds after a [Wait(5)] has emptied a
    bucket of capacity 5 and rate 1: the refilled bucket and the product
    that is converted into the sleeping time. *)
Definition refilled_after (e : Z) : float :=
  min 5%float
      (PrimFloat.add 0%float (PrimFloat.mul (Duration_Seconds e) 1%float)).

Definition deficit_after (e : Z) : float :=
  PrimFloat.mul
    (PrimFloat.div (PrimFloat.sub 1%float (refilled_after e)) 1%float)
    (float64_of_int Second).

(** The call sleeps, and for the remaining time up to one second, give or
    take a nanosecond. *)
Definition sleeps_the_rest (e : Z) : bool :=
  PrimFloat.ltb (refilled_after e) 1%float &&
  match float64_trunc (deficit_after e) with
  | Some d =>
      (int64_min <=? d) && (d <=? int64_max) &&
      (Z.abs (d - (Second - e)) <=? 1)
  | None => false
  end.

(** [sleeps_the_rest] checked for every [e] from 0 up to [n - 1]. *)
Definition checked_below (n : N) : bool :=
  snd (N.iter n
         (fun st : Z * bool => (fst st + 1, snd st && sleeps_the_rest (fst st)))
         (0, true)).

Lemma checked_below_spec (n : N) :
  checked_below n = true ->
  forall e, 0 <= e < Z.of_N n -> sleeps_the_rest e = true.
Proof.
  unfold checked_below.
  assert (Hfst : forall m,
            fst (N.iter m
                   (fun st : Z * bool =>
                      (fst st + 1, snd st && sleeps_the_rest (fst st)))
                   (0, true)) = Z.of_N m).
  { intros m. induction m as [|m IH] using N.peano_ind; [reflexivity|].
    rewrite N.iter_succ. cbn [fst]. rewrite IH. lia. }
  induction n as [|n IH] using N.peano_ind; intros Hall e He; [lia|].
  rewrite N.iter_succ in Hall. cbn [snd] in Hall.
  apply andb_prop in Hall. destruct Hall as [Hbelow Hlast].
  rewrite Hfst in Hlast.
  destruct (Z.eq_dec e (Z.of_N n)) as [-> | Hne]; [exact Hlast|].
  apply IH; [exact Hbelow | lia].
Qed.

Lemma checked_100_microseconds : checked_below 100001 = true.
Proof. vm_compute. reflexivity. Qed.

Lemma Wait_shortly_after `{Runtime} (t e : Z) (tr : list Event) (n : nat) :
  sleeps_the_rest e = true ->
  exists d,
    Z.abs (d - (Second - e)) <= 1 /\
    Wait (mkRateLimiter 0%float 5%float 1%float t) 1%float
      (mkWorld (t + e) tr n)
    = (mkRateLimiter 0%float 5%float 1%float (t + e),
       mkWorld (t + e + Z.max d 0) (tr ++ [EvSleep d]) n).
Proof.
  unfold sleeps_the_rest. intros Hok.
  apply andb_prop in Hok. destruct Hok as [Hlt Hd].
  destruct (float64_trunc (deficit_after e)) as [d|] eqn:Htrunc;
    [|discriminate].
  apply andb_prop in Hd. destruct Hd as [Hrange Hclose].
  exists d. split; [apply Z.leb_le, Hclose|].
  rewrite Wait_unfold. unfold refill.
  cbn [tokens maxTokens refillRate lastRefill clock trace ranges].
  replace (t + e - t) with e by lia.
  change (min 5%float
            (PrimFloat.add 0%float
               (PrimFloat.mul (Duration_Seconds e) 1%float)))
    with (refilled_after e).
  rewrite Hlt.
  change (PrimFloat.mul
            (PrimFloat.div (PrimFloat.sub 1%float (refilled_after e)) 1%float)
            1e9%float) with (deficit_after e).
  unfold int64_of_float64. rewrite Htrunc, Hrange. reflexivity.
Qed.

(** [a < a] is false for every float, the NaNs included. *)
Lemma ltb_irrefl (x : float) : PrimFloat.ltb x x = false.
Proof.
  rewrite FloatAxioms.ltb_spec. unfold SpecFloat.SFltb.
  destruct (Prim2SF x) as [s|s| |s m e]; cbn; try reflexivity.
  - destruct s; reflexivity.
  - destruct s; rewrite Z.compare_refl; try rewrite Pos.compare_refl;
      try reflexivity.
    all: cbn; try rewrite Pos.compare_refl; try reflexivity.
Qed.

(** ** A first call after a pause *)

(** A bucket of capacity 5 and rate 1 that was full [k] milliseconds ago
    would hold more than 5 tokens if the refill were not capped. *)
Definition overfull_after (k : Z) : bool :=
  PrimFloat.ltb 5%float
    (PrimFloat.add 5%float
       (PrimFloat.mul (Duration_Seconds (k * Millisecond)) 1%float)).

(** [f] checked for every argument from 0 up to [n - 1]. *)
Definition all_below (f : Z -> bool) (n : N) : bool :=
  snd (N.iter n (fun st : Z * bool => (fst st + 1, snd st && f (fst st)))
         (0, true)).

Lemma all_below_spec (f : Z -> bool) (n : N) :
  all_below f n = true -> forall k, 0 <= k < Z.of_N n -> f k = true.
Proof.
  unfold all_below.
  assert (Hfst : forall m,
            fst (N.iter m
                   (fun st : Z * bool => (fst st + 1, snd st && f (fst st)))
                   (0, true)) = Z.of_N m).
  { intros m. induction m as [|m IH] using N.peano_ind; [reflexivity|].
    rewrite N.iter_succ. cbn [fst]. rewrite IH. lia. }
  induction n as [|n IH] using N.peano_ind; intros Hall k Hk; [lia|].
  rewrite N.iter_succ in Hall. cbn [snd] in Hall.
  apply andb_prop in Hall. destruct Hall as [Hbelow Hlast].
  rewrite Hfst in Hlast.
  destruct (Z.eq_dec k (Z.of_N n)) as [-> | Hne]; [exact Hlast|].
  apply IH; [exact Hbelow | lia].
Qed.

Lemma overfull_100_seconds :
  all_below (fun k => overfull_after (k + 1)) 100000 = true.
Proof. vm_compute. reflexivity. Qed.

(** C4: [Wait] always returns (it is a total function of the bucket, the
    cost and the clock).  It first refills the bucket with
    [elapsed * refillRate] tokens, capped at [maxTokens]: the bucket holds
    [maxTokens] when the sum exceeds it and the sum otherwise, so never
    more than [maxTokens].  If that is less than the cost it sleeps
    [(cost - available) / refillRate] seconds (converted to whole
    nanoseconds) and leaves the bucket empty, otherwise it takes the cost
    out of the bucket without sleeping; in particular a bucket whose refill
    exceeds the capacity lets exactly [maxTokens] through at once.  A
    bucket of capacity 5 refilled at 1 token per second lets [Wait(5)]
    through at once and leaves it empty; a [Wait(1)] issued at the same
    instant sleeps exactly one second, and one issued up to 100
    microseconds later sleeps the rest of that second, give or take a
    nanosecond.  The same bucket first used after a pause of any whole
    number of milliseconds up to 100 seconds still holds 5 tokens, not
    more: [Wait(5)] empties it and a [Wait(1)] at the same instant sleeps
    one second. *)
Theorem C4_Wait_token_bucket `{Runtime} :
  (forall (r : RateLimiter) (cost : float) (w : World),
      let elapsed := Duration_Seconds (clock w - lastRefill r) in
      let refilled :=
        PrimFloat.add (tokens r) (PrimFloat.mul elapsed (refillRate r)) in
      let available :=
        if PrimFloat.ltb (maxTokens r) refilled then maxTokens r
        else refilled in
      let deficit :=
        int64_of_float64
          (PrimFloat.mul
             (PrimFloat.div (PrimFloat.sub cost available) (refillRate r))
             (float64_of_int Second)) in
      PrimFloat.ltb (maxTokens r) available = false /\
      exists r' w',
        Wait r cost w = (r', w') /\
        maxTokens r' = maxTokens r /\ refillRate r' = refillRate r /\
        lastRefill r' = clock w /\
        if PrimFloat.ltb available cost
        then trace w' = (trace w ++ [EvSleep deficit])%list /\
             clock w' = clock w + Z.max deficit 0 /\
             tokens r' = 0%float
        else w' = w /\ tokens r' = PrimFloat.sub available cost) /\
  (forall (r : RateLimiter) (w : World),
      PrimFloat.ltb (maxTokens r)
        (PrimFloat.add (tokens r)
           (PrimFloat.mul (Duration_Seconds (clock w - lastRefill r))
              (refillRate r))) = true ->
      exists r',
        Wait r (maxTokens r) w = (r', w) /\
        tokens r' = PrimFloat.sub (maxTokens r) (maxTokens r)) /\
  (forall (w : World),
      exists r0 r1 r2 w2,
        NewRateLimiter 5%float 1%float w = (r0, w) /\
        Wait r0 5%float w = (r1, w) /\
        Wait r1 1%float w = (r2, w2) /\
        trace w2 = (trace w ++ [EvSleep (1 * Second)])%list /\
        clock w2 = clock w + 1 * Second /\
        tokens r1 = 0%float /\ tokens r2 = 0%float) /\
  (forall (w : World) (e : Z),
      0 <= e <= 100000 ->
      exists r0 r1 r2 d,
        NewRateLimiter 5%float 1%float w = (r0, w) /\
        Wait r0 5%float w = (r1, w) /\
        Wait r1 1%float (mkWorld (clock w + e) (trace w) (ranges w))
        = (r2, mkWorld (clock w + e + d) (trace w ++ [EvSleep d]) (ranges w)) /\
        Z.abs (d - (1 * Second - e)) <= 1) /\
  (forall (w : World) (k : Z),
      0 <= k <= 100000 ->
      let later :=
        mkWorld (clock w + k * Millisecond) (trace w) (ranges w) in
      exists r0 r1 r2 w2,
        NewRateLimiter 5%float 1%float w = (r0, w) /\
        Wait r0 5%float later = (r1, later) /\
        tokens r1 = 0%float /\
        Wait r1 1%float later = (r2, w2) /\
        trace w2 = (trace w ++ [EvSleep (1 * Second)])%list /\
        clock w2 = clock later + 1 * Second).
Proof.
  assert (Hfirst : forall w : World,
            Wait (mkRateLimiter 5%float 5%float 1%float (clock w)) 5%float w
            = (mkRateLimiter 0%float 5%float 1%float (clock w), w)).
  { intros w. rewrite Wait_unfold. unfold refill.
    cbn [tokens maxTokens refillRate lastRefill].
    rewrite Z.sub_diag. destruct w as [c t n]. vm_compute. reflexivity. }
  assert (Hsecond : forall (t : Z) (w : World),
            clock w = t ->
            Wait (mkRateLimiter 0%float 5%float 1%float t) 1%float w
            = (mkRateLimiter 0%float 5%float 1%float t,
               mkWorld (clock w + 1 * Second)
                 (trace w ++ [EvSleep (1 * Second)]) (ranges w))).
  { intros t w <-. rewrite Wait_unfold. unfold refill.
    cbn [tokens maxTokens refillRate lastRefill].
    rewrite Z.sub_diag.
    replace (int64_of_float64 _) with (1 * Second)
      by (vm_compute; reflexivity).
    replace (PrimFloat.ltb _ 1%float) with true by (vm_compute; reflexivity).
    cbn zeta. reflexivity. }
  split; [|split; [|split; [|split]]].
  - intros r cost w elapsed refilled available deficit. split.
    + subst available.
      destruct (PrimFloat.ltb (maxTokens r) refilled) eqn:Hcap;
        [apply ltb_irrefl | exact Hcap].
    + rewrite Wait_unfold. cbn zeta.
      change (tokens (refill r (clock w))) with available.
      change (int64_of_float64
                (PrimFloat.mul
                   (PrimFloat.div (PrimFloat.sub cost available)
                      (refillRate r))
                   1e9%float)) with deficit.
      destruct (PrimFloat.ltb available cost); do 2 eexists;
        (split; [reflexivity|]); cbn; repeat split; reflexivity.
  - intros r w Hover. rewrite Wait_unfold. cbn zeta.
    unfold refill, min. cbn [tokens]. rewrite Hover, ltb_irrefl.
    eexists. split; reflexivity.
  - intros w.
    exists (mkRateLimiter 5%float 5%float 1%float (clock w)),
           (mkRateLimiter 0%float 5%float 1%float (clock w)),
           (mkRateLimiter 0%float 5%float 1%float (clock w)),
           (mkWorld (clock w + 1 * Second)
                    (trace w ++ [EvSleep (1 * Second)]) (ranges w)).
    split; [reflexivity|].
    split; [apply Hfirst|]. split; [now apply Hsecond|].
    repeat split; reflexivity.
  - intros w e He.
    destruct (Wait_shortly_after (clock w) e (trace w) (ranges w))
      as (d & Hd & Hrun).
    { apply (checked_below_spec 100001 checked_100_microseconds). lia. }
    assert (Hd0 : 0 <= d) by (unfold Second in Hd; lia).
    rewrite Z.max_l in Hrun by exact Hd0.
    exists (mkRateLimiter 5%float 5%float 1%float (clock w)),
           (mkRateLimiter 0%float 5%float 1%float (clock w)),
           (mkRateLimiter 0%float 5%float 1%float (clock w + e)), d.
    split; [reflexivity|]. split; [apply Hfirst|].
    split; [exact Hrun | exact Hd].
  - intros w k Hk later.
    assert (Hcap : Wait (mkRateLimiter 5%float 5%float 1%float (clock w))
                     5%float later
                   = (mkRateLimiter 0%float 5%float 1%float (clock later),
                      later)).
    { destruct (Z.eq_dec k 0) as [-> | Hk0].
      - subst later. replace (clock w + 0 * Millisecond) with (clock w) by lia.
        rewrite <- (Hfirst (mkWorld (clock w) (trace w) (ranges w))).
        reflexivity.
      - assert (Hover : overfull_after k = true).
        { replace k with ((k - 1) + 1) by lia.
          apply (all_below_spec (fun k => overfull_after (k + 1)) 100000
                   overfull_100_seconds). lia. }
        rewrite Wait_unfold. cbn zeta. unfold refill, min.
        cbn [tokens maxTokens refillRate lastRefill clock].
        subst later. cbn [clock].
        replace (clock w + k * Millisecond - clock w) with (k * Millisecond)
          by lia.
        unfold overfull_after in Hover. rewrite Hover.
        replace (PrimFloat.ltb 5%float 5%float) with false
          by (vm_compute; reflexivity).
        replace (PrimFloat.sub 5%float 5%float) with 0%float
          by (vm_compute; reflexivity).
        reflexivity. }
    exists (mkRateLimiter 5%float 5%float 1%float (clock w)),
           (mkRateLimiter 0%float 5%float 1%float (clock later)),
           (mkRateLimiter 0%float 5%float 1%float (clock later)),
           (mkWorld (clock later + 1 * Second)
                    (trace later ++ [EvSleep (1 * Second)]) (ranges later)).
    split; [reflexivity|]. split; [exact Hcap|]. split; [reflexivity|].
    split; [now apply Hsecond|]. split; reflexivity.
Qed.

Lemma C4_Wait_token_bucket_witness :
  exists r0 r1 r2 d,
    NewRateLimiter 5%float 1%float (mkWorld 0 [] 0) = (r0, mkWorld 0 [] 0) /\
    Wait (H := amd64) r0 5%float (mkWorld 0 [] 0) = (r1, mkWorld 0 [] 0) /\
    Wait (H := amd64) r1 1%float (mkWorld (0 + 2500) [] 0)
    = (r2, mkWorld (0 + 2500 + d) ([] ++ [EvSleep d]) 0) /\
    Z.abs (d - (1 * Second - 2500)) <= 1.
Proof.
  apply (proj1 (proj2 (proj2 (proj2 (C4_Wait_token_bucket (H := amd64)))))
           (mkWorld 0 [] 0) 2500).
  lia.
Defined.

(** The same bucket when time has passed: created at 0 and first used
    three seconds later, it is still capped at 5; a [Wait(1)] that follows
    the [Wait(5)] by a millisecond sleeps the remaining 999 ms. *)
Example Wait_after_a_pause :
  let at_ (t : Z) := mkWorld t [] 0 in
  let r0 := fst (NewRateLimiter 5%float 1%float (at_ 0)) in
  let r1 := fst (Wait (H := amd64) r0 5%float (at_ (3 * Second))) in
  tokens r1 = 0%float /\
  snd (Wait (H := amd64) r0 5%float (at_ (3 * Second))) = at_ (3 * Second) /\
  trace (snd (Wait (H := amd64) r1 1%float (at_ (3 * Second))))
  = [EvSleep (1 * Second)] /\
  trace (snd (Wait (H := amd64) r1 1%float (at_ (3 * Second + 1000000))))
  = [EvSleep 999000000].
Proof. vm_compute. repeat split; reflexivity. Qed.

End RateLimiterFacts.

(* ===================================================================== *)
(** * Part VI. Properties of the router and of the manager's retry loop     *)
(* ===================================================================== *)

Module RouterFacts.
Import Go Llm BalancerFacts Fixtures.

Definition is_cancellation (err : error) : Prop :=
  strings_Contains err Canceled = true \/
  strings_Contains err DeadlineExceeded = true.

(** The events a call appended to the trace. *)
Definition new_events (w w' : World) : list Event :=
  drop (length (trace w)) (trace w').

Definition backend_calls (evs : list Event) : list string :=
  omap (fun e => match e with EvComplete b _ => Some b | _ => None end) evs.


(** The second claim in the specification's words: with a context that is
    already done, the admission wait is skipped, a cancellation error comes
    back, and no backend has been called. *)
Definition C2_as_stated `{Runtime} (r : Router) (ctx : Context)
    (prompt : string) (opts : CompletionOpts) (w : World) : Prop :=
  Context_Err ctx (clock w) <> None ->
  let '(res, r', w') := Router_Complete r ctx prompt opts w in
  rateLimiter r' = rateLimiter r /\
  (exists err, res = Done (inr err) /\ is_cancellation err) /\
  backend_calls (new_events w w') = [].




Lemma new_events_app (w w' : World) (evs : list Event) :
  trace w' = (trace w ++ evs)%list -> new_events w w' = evs.
Proof. unfold new_events. intros ->. apply drop_app_length. Qed.

Lemma Router_Complete_unfold `{Runtime} (r : Router) (ctx : Context)
    (prompt : string) (opts : CompletionOpts) (w : World) :
  Router_Complete r ctx prompt opts w =
  let (rl, w1) := Wait (rateLimiter r) 1%float w in
  let with_balancer (b : Balancer) : Router :=
    mkRouter b rl (npcMapping r) (successCount r) (errorCount r)
      (lastError r) in
  match Next (balancer r) with
  | Done (None, b) => ((Done (inr no_providers), with_balancer b), w1)
  | Done (Some p, b) =>
      let w2 := mkWorld (clock w1 + Z.max (snd (Complete p ctx prompt opts w1)) 0)
                  (trace w1 ++ [EvComplete (Name p) prompt]) (ranges w1) in
      match fst (Complete p ctx prompt opts w1) with
      | inr err =>
          ((Done (inr err), recordError (with_balancer b) (Name p) err), w2)
      | inl result =>
          ((Done (inl result), recordSuccess (with_balancer b) (Name p)), w2)
      end
  | Panic => ((Panic, with_balancer (balancer r)), w1)
  | OutOfFuel => ((OutOfFuel, with_balancer (balancer r)), w1)
  end.
Proof.
  unfold Router_Complete, bind.
  destruct (Wait (rateLimiter r) 1%float w) as [rl w1].
  destruct (Next (balancer r)) as [[[p|] b]| |]; try reflexivity.
  unfold invoke, emit, advance_clock, ret.
  destruct (Complete p ctx prompt opts w1) as [[result|err] took];
    reflexivity.
Qed.

(** ** [Router.Complete] *)

Lemma Next_of_empty (b : Balancer) :
  providers b = [] -> Next b = Done (None, b).
Proof. intros Hnil. unfold Next, Next_fuel. rewrite Hnil. reflexivity. Qed.

(** Whatever the context and whatever the backend answers, the router
    waits for admission, asks the balancer once and calls the backend it
    got exactly once. *)
Lemma Router_Complete_one_call `{Runtime} (r : Router) (ctx : Context)
    (prompt : string) (opts : CompletionOpts) (w : World) :
  Balancer_ok (balancer r) ->
  exists rl w1 p b' r' w',
    Wait (rateLimiter r) 1%float w = (rl, w1) /\
    Next (balancer r) = Done (Some p, b') /\
    Router_Complete r ctx prompt opts w
    = ((Done (fst (Complete p ctx prompt opts w1)), r'), w') /\
    rateLimiter r' = rl /\ balancer r' = b' /\
    trace w' = (trace w1 ++ [EvComplete (Name p) prompt])%list /\
    match fst (Complete p ctx prompt opts w1) with
    | inr err =>
        errorCount r' !! Name p
        = Some (default 0 (errorCount r !! Name p) + 1) /\
        lastError r' !! Name p = Some err /\
        successCount r' = successCount r
    | inl _ =>
        successCount r' !! Name p
        = Some (default 0 (successCount r !! Name p) + 1) /\
        errorCount r' = errorCount r /\ lastError r' = lastError r
    end.
Proof.
  intros Hok.
  destruct (Next_total (balancer r) Hok) as (p & b' & Hnext & _).
  rewrite Router_Complete_unfold.
  destruct (Wait (rateLimiter r) 1%float w) as [rl w1].
  rewrite Hnext. cbn zeta.
  exists rl, w1, p, b'.
  destruct (fst (Complete p ctx prompt opts w1)) as [result|err];
    do 2 eexists; (split; [reflexivity|]); (split; [reflexivity|]);
    (split; [reflexivity|]); cbn;
    repeat split; try reflexivity; unfold incr; apply lookup_insert_eq.
Qed.

(** C2, amended: [Router.Complete] does not look at the context.  Also with
    a context that is already done it first performs the admission wait;
    with no backend configured it then fails with "no providers available"
    and calls nothing, and otherwise it calls the backend chosen by the
    balancer exactly once, handing it the context, and returns that
    backend's answer as it is: a cancellation error exactly when the
    backend reports one. *)
Theorem C2_Complete_waits_then_delegates `{Runtime} (r : Router)
    (ps : list Provider) (weights : gmap string Z)
    (ctx : Context) (prompt : string) (opts : CompletionOpts) (w : World) :
  reachable (NewBalancer ps weights) (balancer r) ->
  exists rl w1 res r' w',
    Wait (rateLimiter r) 1%float w = (rl, w1) /\
    Router_Complete r ctx prompt opts w = ((res, r'), w') /\
    rateLimiter r' = rl /\ lastRefill rl = clock w /\
    (ps = [] -> res = Done (inr no_providers) /\ w' = w1) /\
    (ps <> [] ->
       exists p b',
         Next (balancer r) = Done (Some p, b') /\
         res = Done (fst (Complete p ctx prompt opts w1)) /\
         backend_calls (new_events w1 w') = [Name p]).
Proof.
  intros Hreach.
  assert (Hlast : lastRefill (fst (Wait (rateLimiter r) 1%float w))
                  = clock w).
  { rewrite RateLimiterFacts.Wait_unfold. cbn zeta.
    destruct (PrimFloat.ltb _ _); reflexivity. }
  destruct (reachable_shape ps weights _ Hreach) as [[Hps Hnil] | [Hps Hok]].
  - rewrite Router_Complete_unfold.
    destruct (Wait (rateLimiter r) 1%float w) as [rl w1].
    rewrite (Next_of_empty _ Hnil). cbn zeta.
    do 5 eexists. split; [reflexivity|]. split; [reflexivity|].
    split; [reflexivity|]. split; [exact Hlast|].
    split; [intros _; split; reflexivity | intros Hne; contradiction].
  - destruct (Router_Complete_one_call r ctx prompt opts w Hok)
      as (rl & w1 & p & b' & r' & w' & Hwait & Hnext & Hrun & Hrl & _ &
          Htrace & _).
    exists rl, w1, (Done (fst (Complete p ctx prompt opts w1))), r', w'.
    rewrite Hwait in Hlast.
    split; [exact Hwait|]. split; [exact Hrun|]. split; [exact Hrl|].
    split; [exact Hlast|].
    split; [intros Hnil; contradiction|].
    intros _. exists p, b'. split; [exact Hnext|]. split; [reflexivity|].
    rewrite (new_events_app _ _ _ Htrace). reflexivity.
Qed.

(** The router of the witness: one backend that honours its context. *)
Lemma C2_Complete_waits_then_delegates_witness :
  exists rl r' w',
    Wait (H := amd64) (rateLimiter (router_of [honouring "a"] unit_weights))
      1%float w0 = (rl, w0) /\
    Router_Complete (H := amd64) (router_of [honouring "a"] unit_weights)
      cancelled_ctx "hello" opts w0
    = ((Done (inr "network error: context canceled"), r'), w') /\
    rateLimiter r' = rl /\ tokens rl = 4%float /\
    backend_calls (new_events w0 w') = ["a"].
Proof.
  destruct (C2_Complete_waits_then_delegates (H := amd64)
              (router_of [honouring "a"] unit_weights)
              [honouring "a"] unit_weights cancelled_ctx "hello" opts w0
              (reach_init _))
    as (rl & w1 & res & r' & w' & Hwait & Hrun & Hrl & _ & _ & Hcall).
  assert (Hw : Wait (H := amd64)
                 (rateLimiter (router_of [honouring "a"] unit_weights))
                 1%float w0
               = (mkRateLimiter 4%float 5%float 1%float 0, w0))
    by (vm_compute; reflexivity).
  rewrite Hw in Hwait.
  assert (Hrl' : rl = mkRateLimiter 4%float 5%float 1%float 0)
    by congruence.
  assert (Hw1 : w1 = w0) by congruence.
  destruct Hcall as (p & b' & Hnext & Hres & Hcalls); [discriminate|].
  assert (Hp : p = honouring "a").
  { vm_compute in Hnext. inversion Hnext. reflexivity. }
  rewrite Hp, Hw1 in *.
  exists (mkRateLimiter 4%float 5%float 1%float 0), r', w'.
  split; [exact Hw|]. split; [rewrite Hrun, Hres; reflexivity|].
  split; [congruence|]. split; [reflexivity | exact Hcalls].
Defined.

(** The claim as stated fails on the stub of balancer_test.go, which
    answers whatever the context: the router waits (a token is taken),
    calls the stub, and returns its answer, not an error. *)
Lemma C2_counterexample :
  Context_Err cancelled_ctx (clock w0) = Some Canceled /\
  (exists r' w',
     Router_Complete (H := amd64) (router_of [mockProvider "only"] ∅)
       cancelled_ctx "hello" opts w0
     = ((Done (inl (mkCompletionResult "mock" "only" "" 0 0 0)), r'), w') /\
     tokens (rateLimiter (router_of [mockProvider "only"] ∅)) = 5%float /\
     tokens (rateLimiter r') = 4%float /\
     backend_calls (new_events w0 w') = ["only"]) /\
  ~ C2_as_stated (H := amd64) (router_of [mockProvider "only"] ∅)
      cancelled_ctx "hello" opts w0.
Proof.
  split; [reflexivity|]. split.
  - do 2 eexists. split; [vm_compute; reflexivity|].
    split; [reflexivity|]. split; reflexivity.
  - intros Hclaim. unfold C2_as_stated in Hclaim.
    specialize (Hclaim ltac:(discriminate)).
    vm_compute in Hclaim.
    destruct Hclaim as (_ & _ & Hcalls). discriminate Hcalls.
Qed.

(** ** [Manager.callProviderWithRetry] *)











Lemma wrap64_small (z : Z) : - 2 ^ 63 <= z < 2 ^ 63 -> wrap64 z = z.
Proof. intros Hz. unfold wrap64. rewrite Z.mod_small; lia. Qed.


(** ** The first claim *)






End RouterFacts.

(* ===================================================================== *)
(** * Part VII. Properties of the decision cache                            *)
(* ===================================================================== *)

Module CacheFacts.
Import Go Api Fixtures.

Lemma Get_unfold (c : DecisionCache) (key : string) (w : World) :
  Get c key w =
  match entries c !! key with
  | None => ((None, c), w)
  | Some entry =>
      if clock w - CreatedAt entry >? ttl c then ((None, c), w)
      else
        let entry' :=
          mkCachedDecision (CDecision entry) (CreatedAt entry)
            (HitCount entry + 1) in
        ((Some entry',
          mkDecisionCache (<[key := entry']> (entries c)) (maxSize c) (ttl c)),
         w)
  end.
Proof.
  unfold Get. destruct (entries c !! key) as [entry|]; [|reflexivity].
  unfold bind, time_Now, ret.
  destruct (clock w - CreatedAt entry >? ttl c); reflexivity.
Qed.

(** ** The scan of [evictOldest] *)

Lemma older_nonempty (k0 : string) (t0 : Z) (kv : string * CachedDecision) :
  k0 <> "" ->
  older (k0, t0) kv
  = if CreatedAt kv.2 <? t0 then (kv.1, CreatedAt kv.2) else (k0, t0).
Proof.
  intros Hk0. destruct kv as [key entry]. cbn.
  destruct (String.eqb_spec k0 ""); [contradiction | reflexivity].
Qed.

Lemma fold_older_min (l : list (string * CachedDecision)) :
  (forall kv, kv ∈ l -> kv.1 <> "") ->
  forall (k0 : string) (t0 : Z), k0 <> "" ->
  exists k t,
    fold_left older l (k0, t0) = (k, t) /\
    k <> "" /\ t <= t0 /\
    (forall kv, kv ∈ l -> t <= CreatedAt kv.2) /\
    ((k, t) = (k0, t0) \/ exists e, (k, e) ∈ l /\ CreatedAt e = t).
Proof.
  induction l as [|kv l IH]; intros Hkeys k0 t0 Hk0.
  - exists k0, t0. split; [reflexivity|]. split; [exact Hk0|].
    split; [lia|]. split; [intros kv Hin; inversion Hin | now left].
  - cbn [fold_left]. rewrite (older_nonempty k0 t0 kv Hk0).
    assert (Hkv : kv.1 <> "") by (apply Hkeys; left).
    assert (Hrest : forall kv', kv' ∈ l -> kv'.1 <> "")
      by (intros kv' Hin; apply Hkeys; now right).
    destruct (Z.ltb_spec (CreatedAt kv.2) t0) as [Hlt | Hge].
    + destruct (IH Hrest kv.1 (CreatedAt kv.2) Hkv)
        as (k & t & Hfold & Hk & Ht & Hmin & Hatt).
      exists k, t. split; [exact Hfold|]. split; [exact Hk|].
      split; [lia|]. split.
      * intros kv' Hin. apply elem_of_cons in Hin.
        destruct Hin as [-> | Hin]; [lia | apply Hmin, Hin].
      * right. destruct Hatt as [Heq | (e & Hin & He)].
        -- inversion Heq; subst. exists kv.2. split; [|reflexivity].
           destruct kv; left.
        -- exists e. split; [now right | exact He].
    + destruct (IH Hrest k0 t0 Hk0) as (k & t & Hfold & Hk & Ht & Hmin & Hatt).
      exists k, t. split; [exact Hfold|]. split; [exact Hk|].
      split; [lia|]. split.
      * intros kv' Hin. apply elem_of_cons in Hin.
        destruct Hin as [-> | Hin]; [lia | apply Hmin, Hin].
      * destruct Hatt as [Heq | (e & Hin & He)]; [now left | right].
        exists e. split; [now right | exact He].
Qed.

(** Started from the empty key, the scan of a non-empty list of entries
    with non-empty keys ends on an entry of least creation time. *)
Lemma fold_older_oldest (l : list (string * CachedDecision)) :
  l <> [] -> (forall kv, kv ∈ l -> kv.1 <> "") ->
  exists k e,
    fst (fold_left older l ("", zero_Time)) = k /\
    k <> "" /\ (k, e) ∈ l /\
    (forall kv, kv ∈ l -> CreatedAt e <= CreatedAt kv.2).
Proof.
  intros Hne Hkeys. destruct l as [|[key entry] l]; [congruence|].
  cbn [fold_left].
  change (older ("", zero_Time) (key, entry)) with (key, CreatedAt entry).
  assert (Hkey : key <> "") by (apply (Hkeys (key, entry)); left).
  destruct (fold_older_min l
              (fun kv Hin => Hkeys kv (list_elem_of_further _ _ _ Hin))
              key (CreatedAt entry) Hkey)
    as (k & t & Hfold & Hk & Ht & Hmin & Hatt).
  rewrite Hfold. cbn [fst].
  destruct Hatt as [Heq | (e & Hin & He)].
  - inversion Heq; subst. exists key, entry.
    split; [reflexivity|]. split; [exact Hkey|]. split; [left|].
    intros kv Hin. apply elem_of_cons in Hin.
    destruct Hin as [-> | Hin]; [cbn; lia | apply Hmin, Hin].
  - exists k, e. split; [reflexivity|]. split; [exact Hk|].
    split; [now right|]. subst t.
    intros kv Hkv. apply elem_of_cons in Hkv.
    destruct Hkv as [-> | Hkv]; [cbn; lia | apply Hmin, Hkv].
Qed.

Lemma evictOldest_spec `{Runtime} (es : gmap string CachedDecision)
    (w : World) :
  es <> ∅ -> (forall k, is_Some (es !! k) -> k <> "") ->
  exists victim e,
    es !! victim = Some e /\
    (forall k e', es !! k = Some e' -> CreatedAt e <= CreatedAt e') /\
    evictOldest es w
    = (delete victim es, mkWorld (clock w) (trace w) (S (ranges w))).
Proof.
  intros Hne Hkeys.
  pose proof (map_range_perm _ (ranges w) (map_to_list es)) as Hperm.
  assert (Hin : forall kv : string * CachedDecision, kv ∈ map_range (ranges w) (map_to_list es)
                           <-> es !! kv.1 = Some kv.2).
  { intros [k e]. rewrite Hperm. apply elem_of_map_to_list. }
  destruct (fold_older_oldest (map_range (ranges w) (map_to_list es)))
    as (victim & e & Hfst & Hvictim & Hmem & Hmin).
  - intros Hnil. rewrite Hnil in Hperm.
    apply Permutation_nil_l in Hperm. symmetry in Hperm.
    apply map_to_list_empty_iff in Hperm. contradiction.
  - intros kv Hkv. apply Hkeys. apply Hin in Hkv. eauto.
  - exists victim, e. split; [apply (Hin (victim, e)), Hmem|].
    split.
    + intros k e' Hk. apply (Hmin (k, e')). apply Hin. exact Hk.
    + unfold evictOldest.
      destruct (fold_left older _ _) as [oldestKey oldestTime].
      cbn [fst] in Hfst. subst oldestKey.
      destruct (String.eqb_spec victim ""); [contradiction | reflexivity].
Qed.

Lemma Set_unfold `{Runtime} (c : DecisionCache) (key : string)
    (decision : Decision) (w : World) :
  Set_ c key decision w =
  let (es, w1) :=
    if Z.of_nat (size (entries c)) >=? maxSize c
    then evictOldest (entries c) w else (entries c, w) in
  (mkDecisionCache (<[key := mkCachedDecision decision (clock w1) 0]> es)
     (maxSize c) (ttl c), w1).
Proof.
  unfold Set_, bind, time_Now, ret.
  destruct (Z.of_nat (size (entries c)) >=? maxSize c); [|reflexivity].
  destruct (evictOldest (entries c) w). reflexivity.
Qed.

(** ** The claims about the cache *)

(** ** Fingerprints *)

Lemma hex_EncodeToString_length (bs : list byte) :
  String.length (hex_EncodeToString bs) = (2 * length bs)%nat.
Proof.
  induction bs as [|b bs IH]; [reflexivity|].
  change (hex_EncodeToString (b :: bs))
    with (hex_byte b ++ hex_EncodeToString bs)%string.
  change (S (S (String.length (hex_EncodeToString bs)))
          = (2 * S (length bs))%nat).
  rewrite IH. lia.
Qed.

(** A fingerprint is sixteen hexadecimal digits, so never the empty key. *)
Lemma hashObservation_length `{Runtime} `{External} (obs : Observation) :
  String.length (hashObservation obs) = 16%nat.
Proof.
  unfold hashObservation.
  rewrite hex_EncodeToString_length, length_take, sha256_json_length.
  reflexivity.
Qed.

Lemma hashObservation_nonempty `{Runtime} `{External} (obs : Observation) :
  hashObservation obs <> "".
Proof.
  intros Heq. pose proof (hashObservation_length obs) as Hlen.
  rewrite Heq in Hlen. discriminate Hlen.
Qed.

(** ** [Set] on a full cache *)

Lemma Set_evicts_oldest_key `{Runtime} (c : DecisionCache) (key : string)
    (d : Decision) (w : World) :
  0 < maxSize c -> Z.of_nat (size (entries c)) = maxSize c ->
  entries c !! key = None ->
  (forall k, is_Some (entries c !! k) -> k <> "") ->
  exists victim e c' w',
    entries c !! victim = Some e /\
    (forall k e', entries c !! k = Some e' -> CreatedAt e <= CreatedAt e') /\
    Set_ c key d w = (c', w') /\
    entries c'
    = <[key := mkCachedDecision d (clock w) 0]> (delete victim (entries c)) /\
    size (entries c') = size (entries c) /\
    maxSize c' = maxSize c /\ ttl c' = ttl c /\ clock w' = clock w /\
    (0 <= ttl c ->
     exists e2 c2, Get c' key w' = ((Some e2, c2), w') /\ CDecision e2 = d) /\
    forall w2, clock w2 - clock w <= ttl c ->
      exists e2 c2, Get c' key w2 = ((Some e2, c2), w2) /\ CDecision e2 = d.
Proof.
  intros Hpos Hfull Hnew Hkeys.
  assert (Hne : entries c <> ∅).
  { apply map_size_non_empty_iff. lia. }
  destruct (evictOldest_spec (entries c) w Hne Hkeys)
    as (victim & e & Hvictim & Hmin & Hevict).
  exists victim, e. do 2 eexists.
  split; [exact Hvictim|]. split; [exact Hmin|].
  rewrite Set_unfold.
  destruct (Z.geb_spec (Z.of_nat (size (entries c))) (maxSize c)); [|lia].
  rewrite Hevict. cbn [clock].
  split; [reflexivity|]. cbn [entries maxSize ttl clock].
  split; [reflexivity|]. split.
  - rewrite map_size_insert_None
      by (rewrite lookup_delete_ne by congruence; exact Hnew).
    rewrite map_size_delete_Some by eauto.
    destruct (size (entries c)); [cbn in *; lia | reflexivity].
  - repeat (split; [reflexivity|]).
    assert (Hfound : forall w2, clock w2 - clock w <= ttl c ->
              exists e2 c2,
                Get (mkDecisionCache
                       (<[key := mkCachedDecision d (clock w) 0]>
                          (delete victim (entries c)))
                       (maxSize c) (ttl c)) key w2
                = ((Some e2, c2), w2) /\ CDecision e2 = d).
    { intros w2 Hage. rewrite Get_unfold. cbn [entries ttl maxSize].
      rewrite lookup_insert_eq. cbn [CreatedAt].
      destruct (Z.gtb_spec (clock w2 - clock w) (ttl c)); [lia|].
      do 2 eexists. split; reflexivity. }
    split; [|exact Hfound].
    intros Httl. apply Hfound. cbn [clock]. lia.
Qed.

(** ** The claims about the cache *)

(** C5: when the cache holds exactly [maxSize] entries ([maxSize >= 1]),
    all stored under fingerprints, [Set] of a fingerprint that is not in
    the cache removes exactly one entry, one whose creation time is the
    least of all (whichever of the oldest the map iteration meets first),
    then inserts the new one, so that the size is unchanged; and [Get]
    finds the new entry at once (the time to live not being negative) and
    as long as its age does not exceed the time to live. *)
Theorem C5_Set_evicts_oldest `{Runtime} `{External} (c : DecisionCache)
    (obs : Observation) (d : Decision) (w : World) :
  0 < maxSize c -> Z.of_nat (size (entries c)) = maxSize c ->
  (forall k, is_Some (entries c !! k) -> exists o, k = hashObservation o) ->
  entries c !! hashObservation obs = None ->
  exists victim e c' w',
    entries c !! victim = Some e /\
    (forall k e', entries c !! k = Some e' -> CreatedAt e <= CreatedAt e') /\
    Set_ c (hashObservation obs) d w = (c', w') /\
    entries c'
    = <[hashObservation obs := mkCachedDecision d (clock w) 0]>
        (delete victim (entries c)) /\
    size (entries c') = size (entries c) /\
    maxSize c' = maxSize c /\ ttl c' = ttl c /\ clock w' = clock w /\
    (0 <= ttl c ->
     exists e2 c2,
       Get c' (hashObservation obs) w' = ((Some e2, c2), w') /\
       CDecision e2 = d) /\
    forall w2, clock w2 - clock w <= ttl c ->
      exists e2 c2,
        Get c' (hashObservation obs) w2 = ((Some e2, c2), w2) /\
        CDecision e2 = d.
Proof.
  intros Hpos Hfull Hkeys Hnew.
  apply Set_evicts_oldest_key; try assumption.
  intros k Hk. destruct (Hkeys k Hk) as [o ->].
  apply hashObservation_nonempty.
Qed.

Lemma full_cache_keys (k : string) :
  is_Some (entries full_cache !! k) -> k = fp obs_k1 \/ k = fp obs_k2.
Proof.
  intros [e He]. unfold full_cache in He. cbn [entries] in He.
  destruct (decide (k = fp obs_k1)) as [-> | H1]; [now left|].
  destruct (decide (k = fp obs_k2)) as [-> | H2]; [now right|].
  rewrite !lookup_insert_ne in He by congruence.
  rewrite lookup_empty in He. discriminate He.
Qed.

Lemma C5_Set_evicts_oldest_witness :
  exists victim e c' w',
    entries full_cache !! victim = Some e /\
    (forall k e', entries full_cache !! k = Some e' ->
                  CreatedAt e <= CreatedAt e') /\
    Set_ (H := amd64) full_cache (fp obs_new) explore (mkWorld 7 [] 0)
    = (c', w') /\
    entries c'
    = <[fp obs_new := mkCachedDecision explore 7 0]>
        (delete victim (entries full_cache)) /\
    size (entries c') = size (entries full_cache) /\
    maxSize c' = maxSize full_cache /\ ttl c' = ttl full_cache /\
    clock w' = 7 /\
    (0 <= ttl full_cache ->
     exists e2 c2,
       Get c' (fp obs_new) w' = ((Some e2, c2), w') /\
       CDecision e2 = explore) /\
    forall w2, clock w2 - 7 <= ttl full_cache ->
      exists e2 c2,
        Get c' (fp obs_new) w2 = ((Some e2, c2), w2) /\
        CDecision e2 = explore.
Proof.
  apply (C5_Set_evicts_oldest (H := amd64) (H0 := all_down) full_cache
           obs_new explore (mkWorld 7 [] 0)).
  - reflexivity.
  - vm_compute. reflexivity.
  - intros k Hk. destruct (full_cache_keys k Hk) as [-> | ->]; eauto.
  - vm_compute. reflexivity.
Defined.

(** The entry that goes is that of [obs_k2], the older one. *)
Example Set_on_full_cache :
  entries (fst (Set_ (H := amd64) full_cache (fp obs_new) explore
                  (mkWorld 7 [] 0)))
  = <[fp obs_new := mkCachedDecision explore 7 0]>
      (<[fp obs_k1 := mkCachedDecision explore 5 0]> ∅) /\
  fp obs_k1 = "6b31000000000000".
Proof. vm_compute. split; reflexivity. Qed.

(** Outside the domain of fingerprints: [evictOldest] uses the empty string
    for "no candidate yet".  When the oldest entry is stored under the empty
    key and is visited last, the scan ends on the empty key and nothing is
    removed. *)
Example evictOldest_empty_key :
  let es : gmap string CachedDecision :=
    <["" := mkCachedDecision explore 1 0]>
      (<["k" := mkCachedDecision explore 5 0]> ∅) in
  fst (evictOldest (H := amd64) es w0) = es.
Proof. vm_compute. reflexivity. Qed.

(** C6: an entry created at time [T] (by [Set], which stamps it with the
    clock) is found by [Get] at every time before [T + ttl], with its hit
    counter incremented, and is reported absent at every time after
    [T + ttl]; in the second case [Get] returns the cache as it was, the
    entry still in the map. *)
Theorem C6_ttl_lazy_expiry `{Runtime} :
  (forall (c : DecisionCache) (key : string) (d : Decision) (w0 : World),
      exists c1 w1,
        Set_ c key d w0 = (c1, w1) /\ ttl c1 = ttl c /\
        entries c1 !! key = Some (mkCachedDecision d (clock w0) 0)) /\
  (forall (c : DecisionCache) (key : string) (e : CachedDecision) (w : World),
      entries c !! key = Some e ->
      (clock w < CreatedAt e + ttl c ->
       exists e' c',
         Get c key w = ((Some e', c'), w) /\
         CDecision e' = CDecision e /\ CreatedAt e' = CreatedAt e /\
         entries c' = <[key := e']> (entries c)) /\
      (CreatedAt e + ttl c < clock w ->
       Get c key w = ((None, c), w))).
Proof.
  split.
  - intros c key d w0. rewrite Set_unfold.
    destruct (Z.of_nat (size (entries c)) >=? maxSize c).
    + unfold evictOldest.
      destruct (fold_left older _ _) as [oldestKey oldestTime].
      do 2 eexists. split; [reflexivity|]. split; [reflexivity|].
      cbn [entries clock]. apply lookup_insert_eq.
    + do 2 eexists. split; [reflexivity|]. split; [reflexivity|].
      cbn [entries]. apply lookup_insert_eq.
  - intros c key e w He. rewrite Get_unfold, He. split; intros Ht.
    + destruct (Z.gtb_spec (clock w - CreatedAt e) (ttl c)); [lia|].
      do 2 eexists. split; [reflexivity|]. repeat split; reflexivity.
    + destruct (Z.gtb_spec (clock w - CreatedAt e) (ttl c)); [|lia].
      reflexivity.
Qed.

Lemma C6_ttl_lazy_expiry_witness :
  (exists e' c',
     Get full_cache (fp obs_k1) (mkWorld (5 + 10 * Second - 1) [] 0)
     = ((Some e', c'), mkWorld (5 + 10 * Second - 1) [] 0) /\
     CDecision e' = explore /\ CreatedAt e' = 5 /\
     entries c' = <[fp obs_k1 := e']> (entries full_cache)) /\
  Get full_cache (fp obs_k1) (mkWorld (5 + 10 * Second + 1) [] 0)
  = ((None, full_cache), mkWorld (5 + 10 * Second + 1) [] 0).
Proof.
  pose proof (proj2 (C6_ttl_lazy_expiry (H := amd64)) full_cache
                (fp obs_k1) (mkCachedDecision explore 5 0)) as Hget.
  split.
  - apply (proj1 (Hget (mkWorld (5 + 10 * Second - 1) [] 0) eq_refl)).
    reflexivity.
  - apply (proj2 (Hget (mkWorld (5 + 10 * Second + 1) [] 0) eq_refl)).
    reflexivity.
Defined.

End CacheFacts.

(* ===================================================================== *)
(** * Part VIII. Properties of the batch decision system                    *)
(* ===================================================================== *)

Module BatchFacts.
Import Go Api Fixtures.

(** What [Get] decides: the key is present and its entry has not outlived
    the time to live. *)
Definition fresh (c : DecisionCache) (now : Z) (key : string) : bool :=
  match entries c !! key with
  | Some e => negb (now - CreatedAt e >? ttl c)
  | None => false
  end.

(** Two caches that differ at most in hit counters. *)
Definition same_entry (e0 e : CachedDecision) : Prop :=
  CDecision e = CDecision e0 /\ CreatedAt e = CreatedAt e0.

Definition cache_sim (c0 c : DecisionCache) : Prop :=
  ttl c = ttl c0 /\
  forall k, match entries c0 !! k, entries c !! k with
            | Some e0, Some e => same_entry e0 e
            | None, None => True
            | _, _ => False
            end.

Lemma cache_sim_refl (c : DecisionCache) : cache_sim c c.
Proof.
  split; [reflexivity|]. intros k.
  destruct (entries c !! k); [split; reflexivity | exact I].
Qed.

Lemma Get_sim (c0 c : DecisionCache) (key : string) (w : World) :
  cache_sim c0 c ->
  if fresh c0 (clock w) key
  then exists e0 e' c',
         entries c0 !! key = Some e0 /\
         Get c key w = ((Some e', c'), w) /\
         CDecision e' = CDecision e0 /\ cache_sim c0 c'
  else Get c key w = ((None, c), w).
Proof.
  intros [Httl Hsim]. unfold fresh. rewrite CacheFacts.Get_unfold.
  pose proof (Hsim key) as Hkey.
  destruct (entries c0 !! key) as [e0|] eqn:E0,
           (entries c !! key) as [e|] eqn:E;
    try contradiction; [|reflexivity].
  destruct Hkey as [Hd Ht]. rewrite Httl, Ht.
  destruct (clock w - CreatedAt e0 >? ttl c0); cbn [negb]; [reflexivity|].
  do 3 eexists. split; [reflexivity|]. split; [reflexivity|].
  split; [exact Hd|]. split; [reflexivity|].
  intros k. cbn [entries].
  destruct (decide (key = k)) as [<- | Hne].
  - rewrite lookup_insert_eq, E0. split; [exact Hd | reflexivity].
  - rewrite lookup_insert_ne by exact Hne. apply Hsim.
Qed.

Section Probe.
Context `{Runtime} `{External}.
Variables (c0 : DecisionCache) (now : Z).

(** The observations that miss the cache [c0] at time [now], and their
    positions when the list starts at position [i]. *)
Fixpoint uncached (obs : list Observation) : list Observation :=
  match obs with
  | [] => []
  | o :: rest =>
      if fresh c0 now (hashObservation o) then uncached rest
      else o :: uncached rest
  end.

Fixpoint uncached_indices (i : nat) (obs : list Observation) : list nat :=
  match obs with
  | [] => []
  | o :: rest =>
      if fresh c0 now (hashObservation o) then uncached_indices (S i) rest
      else i :: uncached_indices (S i) rest
  end.

Lemma elem_of_uncached_indices (obs : list Observation) :
  forall (i idx : nat),
    idx ∈ uncached_indices i obs <->
    exists j o, idx = (i + j)%nat /\ obs !! j = Some o /\
                fresh c0 now (hashObservation o) = false.
Proof.
  induction obs as [|o rest IH]; intros i idx; cbn [uncached_indices].
  - split; [intros Hin; inversion Hin | intros (j & o & _ & Hj & _)].
    destruct j; discriminate Hj.
  - destruct (fresh c0 now (hashObservation o)) eqn:Hfresh.
    + rewrite IH. split.
      * intros (j & o' & -> & Hj & Hmiss). exists (S j), o'.
        split; [lia | split; assumption].
      * intros (j & o' & -> & Hj & Hmiss). destruct j as [|j].
        -- cbn in Hj. inversion Hj; subst. congruence.
        -- exists j, o'. split; [lia | split; assumption].
    + rewrite elem_of_cons, IH. split.
      * intros [-> | (j & o' & -> & Hj & Hmiss)].
        -- exists 0%nat, o. split; [lia | split; [reflexivity | exact Hfresh]].
        -- exists (S j), o'. split; [lia | split; assumption].
      * intros (j & o' & -> & Hj & Hmiss). destruct j as [|j].
        -- left. lia.
        -- right. exists j, o'. split; [lia | split; assumption].
Qed.

(** Phase 1 leaves the world alone, changes only hit counters in the
    cache, and sorts the observations by what [Get] decides on [c0]. *)
Lemma probe_loop_spec (obs : list Observation) :
  forall (i : nat) (st : Probe) (w : World),
    clock w = now -> cache_sim c0 (pCache st) ->
    exists st',
      probe_loop i obs st w = (st', w) /\
      cache_sim c0 (pCache st') /\
      uncachedObs st' = (uncachedObs st ++ uncached obs)%list /\
      uncachedIndices st'
      = (uncachedIndices st ++ uncached_indices i obs)%list /\
      length (pDecisions st') = length (pDecisions st) /\
      length (pFromCache st') = length (pFromCache st) /\
      (forall j, (j < i)%nat ->
         pDecisions st' !! j = pDecisions st !! j /\
         pFromCache st' !! j = pFromCache st !! j) /\
      (forall j o, obs !! j = Some o ->
         (i + j < length (pDecisions st))%nat ->
         (i + j < length (pFromCache st))%nat ->
         if fresh c0 now (hashObservation o)
         then exists e0,
                entries c0 !! hashObservation o = Some e0 /\
                pDecisions st' !! (i + j)%nat = Some (Some (CDecision e0)) /\
                pFromCache st' !! (i + j)%nat = Some true
         else pDecisions st' !! (i + j)%nat = pDecisions st !! (i + j)%nat /\
              pFromCache st' !! (i + j)%nat = pFromCache st !! (i + j)%nat).
Proof.
  induction obs as [|o rest IH]; intros i st w Hnow Hsim.
  - exists st. split; [reflexivity|]. split; [exact Hsim|].
    cbn [uncached uncached_indices]. rewrite !app_nil_r.
    repeat (split; [reflexivity|]).
    split; [intros j _; split; reflexivity|].
    intros j o Hj. destruct j; discriminate Hj.
  - cbn [probe_loop uncached uncached_indices]. unfold bind at 1.
    pose proof (Get_sim c0 (pCache st) (hashObservation o) w Hsim) as Hget.
    rewrite Hnow in Hget.
    destruct (fresh c0 now (hashObservation o)) eqn:Hfresh.
    + destruct Hget as (e0 & e' & c' & He0 & Hget & Hd & Hsim').
      rewrite Hget.
      destruct (IH (S i)
                  (mkProbe (<[i := Some (CDecision e')]> (pDecisions st))
                     (<[i := true]> (pFromCache st))
                     (uncachedIndices st) (uncachedObs st) c'
                     (pHits st + 1)) w Hnow Hsim')
        as (st' & Hrun & Hsim'' & Hobs & Hidx & Hlen1 & Hlen2 & Hlow & Hpos).
      cbn [pDecisions pFromCache uncachedIndices uncachedObs pCache] in *.
      rewrite length_insert in Hlen1. rewrite length_insert in Hlen2.
      exists st'. split; [exact Hrun|]. split; [exact Hsim''|].
      split; [exact Hobs|]. split; [exact Hidx|].
      split; [exact Hlen1|]. split; [exact Hlen2|]. split.
      * intros j Hj. destruct (Hlow j ltac:(lia)) as [H1 H2].
        rewrite H1, H2, !list_lookup_insert_ne by lia. split; reflexivity.
      * intros j o' Hj Hb1 Hb2. destruct j as [|j].
        -- cbn in Hj. inversion Hj; subst o'. rewrite Hfresh.
           replace (i + 0)%nat with i in * by lia.
           destruct (Hlow i ltac:(lia)) as [H1 H2].
           exists e0. split; [exact He0|].
           rewrite H1, H2, !list_lookup_insert_eq by lia.
           rewrite Hd. split; reflexivity.
        -- cbn in Hj. specialize (Hpos j o' Hj).
           rewrite !length_insert in Hpos.
           replace (i + S j)%nat with (S i + j)%nat in * by lia.
           specialize (Hpos Hb1 Hb2).
           destruct (fresh c0 now (hashObservation o')); [exact Hpos|].
           rewrite !list_lookup_insert_ne in Hpos by lia. exact Hpos.
    + rewrite Hget.
      destruct (IH (S i)
                  (mkProbe (pDecisions st) (pFromCache st)
                     (uncachedIndices st ++ [i]) (uncachedObs st ++ [o])
                     (pCache st) (pHits st)) w Hnow Hsim)
        as (st' & Hrun & Hsim'' & Hobs & Hidx & Hlen1 & Hlen2 & Hlow & Hpos).
      cbn [pDecisions pFromCache uncachedIndices uncachedObs pCache] in *.
      exists st'. split; [exact Hrun|]. split; [exact Hsim''|].
      split; [rewrite Hobs, <- app_assoc; reflexivity|].
      split; [rewrite Hidx, <- app_assoc; reflexivity|].
      split; [exact Hlen1|]. split; [exact Hlen2|]. split.
      * intros j Hj. apply Hlow. lia.
      * intros j o' Hj Hb1 Hb2. destruct j as [|j].
        -- cbn in Hj. inversion Hj; subst o'. rewrite Hfresh.
           replace (i + 0)%nat with i by lia. apply Hlow. lia.
        -- cbn in Hj. specialize (Hpos j o' Hj).
           replace (i + S j)%nat with (S i + j)%nat in * by lia.
           exact (Hpos Hb1 Hb2).
Qed.

End Probe.

Lemma uncached_nil `{Runtime} `{External} (c0 : DecisionCache) (now : Z)
    (obs : list Observation) :
  Forall (fun o => fresh c0 now (hashObservation o) = true) obs ->
  uncached c0 now obs = [].
Proof.
  induction 1 as [|o rest Ho _ IH]; [reflexivity|].
  cbn [uncached]. rewrite Ho. exact IH.
Qed.

Lemma fill_defaults_spec (observations : list Observation)
    (idxs : list nat) :
  forall ds : list (option Decision),
    (forall idx, idx ∈ idxs ->
       (idx < length ds)%nat /\ is_Some (observations !! idx)) ->
    exists ds',
      fill_defaults observations idxs ds = Done ds' /\
      length ds' = length ds /\
      (forall j, j ∉ idxs -> ds' !! j = ds !! j) /\
      (forall j o, j ∈ idxs -> observations !! j = Some o ->
         ds' !! j = Some (Some (DefaultDecision o))).
Proof.
  induction idxs as [|idx rest IH]; intros ds Hidx.
  - exists ds. split; [reflexivity|]. split; [reflexivity|].
    split; [reflexivity|]. intros j o Hin. inversion Hin.
  - destruct (Hidx idx ltac:(left)) as [Hlt [o Ho]].
    cbn [fill_defaults]. rewrite Ho. unfold store.
    destruct (Nat.ltb_spec idx (length ds)); [|lia].
    destruct (IH (<[idx := Some (DefaultDecision o)]> ds))
      as (ds' & Hrun & Hlen & Hout & Hin).
    { intros idx' Hin'. rewrite length_insert. apply Hidx. now right. }
    exists ds'. split; [exact Hrun|].
    split; [rewrite Hlen; apply length_insert|]. split.
    + intros j Hj. rewrite not_elem_of_cons in Hj. destruct Hj as [Hne Hj].
      rewrite (Hout j Hj). apply list_lookup_insert_ne. congruence.
    + intros j o' Hj Ho'.
      destruct (decide (j ∈ rest)) as [Hrest | Hrest];
        [apply Hin; assumption|].
      apply elem_of_cons in Hj. destruct Hj as [-> | Hj]; [|contradiction].
      rewrite (Hout idx Hrest). rewrite Ho in Ho'. inversion Ho'; subst o'.
      apply list_lookup_insert_eq. exact Hlt.
Qed.

(** What [DefaultDecision] holds. *)
Lemma DefaultDecision_holds (o : Observation) :
  DefaultDecision o !! "npc_id" = Some (default VNil (o !! "npc_id")) /\
  DefaultDecision o !! "action" = Some (VString "explore") /\
  DefaultDecision o !! "reason" = Some (VString "Looking around...") /\
  forall key, key <> "npc_id" -> key <> "action" -> key <> "reason" ->
              DefaultDecision o !! key = None.
Proof.
  unfold DefaultDecision, index, Decision.
  split; [apply lookup_insert_eq|].
  split; [rewrite lookup_insert_ne by discriminate; apply lookup_insert_eq|].
  split.
  - do 2 (rewrite lookup_insert_ne by discriminate). apply lookup_insert_eq.
  - intros key H1 H2 H3.
    do 3 (rewrite lookup_insert_ne by congruence). apply lookup_empty.
Qed.

(** ** The claims about the batch decision system *)

(** The eighth claim in the specification's words: whenever every
    observation is answered by the cache, no outbound call is made, every
    observation gets a decision and every flag is [true]. *)
Definition C8_as_stated `{Runtime} `{External} (bds : BatchDecisionSystem)
    (ctx : Context) (observations : list Observation) (w : World) : Prop :=
  Forall (fun o => fresh (cache bds) (clock w) (hashObservation o) = true)
    observations ->
  let '((res, _), w') := GetBatchDecisions bds ctx observations w in
  trace w' = trace w /\
  exists resp,
    res = Done resp /\
    length (Decisions resp) = length observations /\
    Forall (fun d => d <> None) (Decisions resp) /\
    length (FromCache resp) = length observations /\
    Forall (fun b => b = true) (FromCache resp).

(** C8, amended: a call whose context is not yet done when the call starts
    and all of whose observations are answered by the cache makes no
    outbound call (it leaves the world as it found it and does not count a
    batch call), and returns, for every observation, the cached decision
    with its flag set; it reports no error unless the list is empty.  With
    a non-empty list and a context that is already done, the call returns
    the context's error and no decisions before looking at the cache: the
    cache and its hit counters are as they were and only the observations
    are counted.  With an empty list the call returns the error "no
    observations provided", whatever the context, and changes nothing. *)
Theorem C8_all_cached_no_call `{Runtime} `{External}
    (bds : BatchDecisionSystem) (ctx : Context)
    (observations : list Observation) (w : World) :
  (Context_Err ctx (clock w) = None ->
   Forall (fun o => fresh (cache bds) (clock w) (hashObservation o) = true)
     observations ->
   exists resp bds',
     GetBatchDecisions bds ctx observations w = ((Done resp, bds'), w) /\
     batchCalls bds' = batchCalls bds /\
     fallbackUsed bds' = fallbackUsed bds /\
     (observations <> [] -> Error resp = None) /\
     length (Decisions resp) = length observations /\
     length (FromCache resp) = length observations /\
     forall i o, observations !! i = Some o ->
       exists e,
         entries (cache bds) !! hashObservation o = Some e /\
         Decisions resp !! i = Some (Some (CDecision e)) /\
         FromCache resp !! i = Some true) /\
  (forall err, observations <> [] ->
     Context_Err ctx (clock w) = Some err ->
     exists resp bds',
       GetBatchDecisions bds ctx observations w = ((Done resp, bds'), w) /\
       Error resp = Some err /\
       Decisions resp = [] /\ FromCache resp = [] /\
       cache bds' = cache bds /\ cachHits bds' = cachHits bds /\
       manager bds' = manager bds /\
       batchCalls bds' = batchCalls bds /\
       fallbackUsed bds' = fallbackUsed bds /\
       totalDecisions bds'
       = totalDecisions bds + Z.of_nat (length observations)) /\
  (observations = [] ->
   exists resp,
     GetBatchDecisions bds ctx observations w = ((Done resp, bds), w) /\
     Error resp = Some "no observations provided" /\
     Decisions resp = [] /\ FromCache resp = []).
Proof.
  split; [|split].
  - intros Hctx Hall.
    destruct observations as [|o0 rest] eqn:Eobs.
    { do 2 eexists. split; [reflexivity|].
      repeat (split; [reflexivity || congruence|]).
      intros i o Hi. destruct i; discriminate Hi. }
    rewrite <- Eobs in *.
    assert (Hlen : (length observations =? 0)%nat = false)
      by (rewrite Eobs; reflexivity).
    destruct (probe_loop_spec (cache bds) (clock w) observations 0
                (mkProbe (replicate (length observations) None)
                   (replicate (length observations) false) [] []
                   (cache bds) (cachHits bds)) w eq_refl
                (cache_sim_refl _))
      as (st & Hprobe & _ & Hobs & _ & Hlen1 & Hlen2 & _ & Hpos).
    cbn [pDecisions pFromCache uncachedObs] in *.
    rewrite length_replicate in Hlen1. rewrite length_replicate in Hlen2.
    rewrite (uncached_nil _ _ _ Hall) in Hobs. cbn in Hobs.
    unfold GetBatchDecisions. cbn zeta. rewrite Hlen.
    unfold bind at 1. unfold ctx_Err at 1. rewrite Hctx.
    unfold bind at 1. rewrite Hprobe, Hobs. cbn [length Nat.eqb].
    do 2 eexists. split; [reflexivity|].
    cbn [batchCalls fallbackUsed Error Decisions FromCache].
    split; [reflexivity|]. split; [reflexivity|]. split; [reflexivity|].
    split; [exact Hlen1|]. split; [exact Hlen2|].
    intros i o Hi.
    pose proof (lookup_lt_Some _ _ _ Hi) as Hlt.
    specialize (Hpos i o Hi).
    rewrite !length_replicate in Hpos. cbn [Nat.add] in Hpos.
    specialize (Hpos Hlt Hlt).
    rewrite (proj1 (Forall_forall _ _) Hall o) in Hpos
      by (apply list_elem_of_lookup; eauto).
    exact Hpos.
  - intros err Hne Hctx.
    assert (Hlen : (length observations =? 0)%nat = false)
      by (destruct observations; [congruence | reflexivity]).
    unfold GetBatchDecisions. cbn zeta. rewrite Hlen.
    unfold bind at 1. unfold ctx_Err at 1. rewrite Hctx.
    do 2 eexists. split; [reflexivity|].
    cbn. repeat split; reflexivity.
  - intros ->. eexists. split; [reflexivity|].
    cbn. repeat split; reflexivity.
Qed.

Lemma C8_all_cached_no_call_witness :
  (exists resp bds',
     GetBatchDecisions (H := amd64) (H0 := all_down) a_system live_ctx
       [obs_k1] (mkWorld 7 [] 0)
     = ((Done resp, bds'), mkWorld 7 [] 0) /\
     batchCalls bds' = batchCalls a_system /\
     fallbackUsed bds' = fallbackUsed a_system /\
     ([obs_k1] <> [] -> Error resp = None) /\
     length (Decisions resp) = length [obs_k1] /\
     length (FromCache resp) = length [obs_k1] /\
     forall i o, [obs_k1] !! i = Some o ->
       exists e,
         entries (cache a_system) !! fp o
         = Some e /\
         Decisions resp !! i = Some (Some (CDecision e)) /\
         FromCache resp !! i = Some true) /\
  (exists resp bds',
     GetBatchDecisions (H := amd64) (H0 := all_down) a_system cancelled_ctx
       [obs_k1] (mkWorld 7 [] 0)
     = ((Done resp, bds'), mkWorld 7 [] 0) /\
     Error resp = Some Canceled /\ Decisions resp = [] /\
     cache bds' = cache a_system).
Proof.
  split.
  - apply (proj1 (C8_all_cached_no_call (H := amd64) (H0 := all_down)
                    a_system live_ctx [obs_k1] (mkWorld 7 [] 0))).
    + reflexivity.
    + apply List.Forall_cons;
        [vm_compute; reflexivity | apply List.Forall_nil].
  - destruct (proj1 (proj2 (C8_all_cached_no_call (H := amd64)
                              (H0 := all_down) a_system cancelled_ctx
                              [obs_k1] (mkWorld 7 [] 0)))
                Canceled ltac:(discriminate) eq_refl)
      as (resp & bds' & Hrun & Herr & Hds & _ & Hcache & _).
    exists resp, bds'. repeat split; assumption.
Defined.

(** The claim as stated fails when the context is already cancelled: the
    call returns the context's error and no decision, although the one
    observation is in the cache. *)
Lemma C8_counterexample :
  fresh (cache a_system) 7 (fp obs_k1)
  = true /\
  (exists bds',
     GetBatchDecisions (H := amd64) (H0 := all_down) a_system cancelled_ctx
       [obs_k1] (mkWorld 7 [] 0)
     = ((Done (error_response Canceled), bds'), mkWorld 7 [] 0)) /\
  ~ C8_as_stated (H := amd64) (H0 := all_down) a_system cancelled_ctx
      [obs_k1] (mkWorld 7 [] 0).
Proof.
  split; [vm_compute; reflexivity|]. split.
  - eexists. vm_compute. reflexivity.
  - intros Hclaim. unfold C8_as_stated in Hclaim.
    assert (Hall : Forall
              (fun o => fresh (cache a_system) (clock (mkWorld 7 [] 0))
                          (fp o) = true)
              [obs_k1])
      by (apply List.Forall_cons;
          [vm_compute; reflexivity | apply List.Forall_nil]).
    specialize (Hclaim Hall).
    change (GetBatchDecisions (H := amd64) (H0 := all_down) a_system
              cancelled_ctx [obs_k1] (mkWorld 7 [] 0))
      with ((Done (error_response Canceled),
             mkBatchDecisionSystem a_manager full_cache 0 0 0 1),
            mkWorld 7 [] 0) in Hclaim.
    destruct Hclaim as (_ & resp & Hres & Hlen & _).
    inversion Hres; subst resp. discriminate Hlen.
Qed.

(** C7: when the observation list is not empty, the context is live and
    some observation misses the cache, so that the combined call is made,
    and that call fails (whatever the error), the response carries no
    error and one entry per observation: the default decision, flag
    [false], for every observation that missed the cache, and the cached
    decision, flag [true], for the others; the failure is only counted in
    [fallbackUsed].  The default decision of an observation holds its
    [npc_id], the action [explore] and the reason "Looking around...",
    and nothing else. *)
Theorem C7_failed_call_gives_defaults `{Runtime} `{External}
    (bds : BatchDecisionSystem) (ctx : Context)
    (observations : list Observation) (w w2 : World) (err : error) :
  observations <> [] ->
  Context_Err ctx (clock w) = None ->
  uncached (cache bds) (clock w) observations <> [] ->
  callLLMWithFallback (manager bds)
    (fst (context_WithTimeout ctx (25 * Second) w))
    (buildFlexibleMultiNPCPrompt
       (uncached (cache bds) (clock w) observations))
    (Z.of_nat (length (uncached (cache bds) (clock w) observations))) w
  = (Done (inr err), w2) ->
  exists resp bds',
    GetBatchDecisions bds ctx observations w = ((Done resp, bds'), w2) /\
    Error resp = None /\
    fallbackUsed bds' = fallbackUsed bds + 1 /\
    batchCalls bds' = batchCalls bds /\
    length (Decisions resp) = length observations /\
    length (FromCache resp) = length observations /\
    forall i o, observations !! i = Some o ->
      if fresh (cache bds) (clock w) (hashObservation o)
      then exists e,
             entries (cache bds) !! hashObservation o = Some e /\
             Decisions resp !! i = Some (Some (CDecision e)) /\
             FromCache resp !! i = Some true
      else Decisions resp !! i = Some (Some (DefaultDecision o)) /\
           FromCache resp !! i = Some false /\
           DefaultDecision o !! "npc_id" = Some (default VNil (o !! "npc_id")) /\
           DefaultDecision o !! "action" = Some (VString "explore") /\
           DefaultDecision o !! "reason"
           = Some (VString "Looking around...") /\
           forall key, key <> "npc_id" -> key <> "action" ->
                       key <> "reason" -> DefaultDecision o !! key = None.
Proof.
  intros Hne Hctx Hsome Hcall.
  assert (Hlen : (length observations =? 0)%nat = false)
    by (destruct observations; [congruence | reflexivity]).
  assert (Hlen' : (length (uncached (cache bds) (clock w) observations)
                   =? 0)%nat = false)
    by (destruct (uncached _ _ observations); [congruence | reflexivity]).
  destruct (probe_loop_spec (cache bds) (clock w) observations 0
              (mkProbe (replicate (length observations) None)
                 (replicate (length observations) false) [] []
                 (cache bds) (cachHits bds)) w eq_refl
              (cache_sim_refl _))
    as (st & Hprobe & _ & Hobs & Hidx & Hlen1 & Hlen2 & _ & Hpos).
  cbn [pDecisions pFromCache uncachedObs uncachedIndices] in *.
  rewrite length_replicate in Hlen1. rewrite length_replicate in Hlen2.
  cbn [app] in Hobs, Hidx.
  destruct (fill_defaults_spec observations (uncachedIndices st)
              (pDecisions st))
    as (ds & Hfill & Hlends & Hout & Hin).
  { intros idx Hin. rewrite Hidx in Hin.
    apply elem_of_uncached_indices in Hin.
    destruct Hin as (j & o & -> & Hj & _). cbn [Nat.add].
    split; [rewrite Hlen1; eapply lookup_lt_Some, Hj | eauto]. }
  unfold GetBatchDecisions. cbn zeta. rewrite Hlen.
  unfold bind at 1. unfold ctx_Err at 1. rewrite Hctx.
  unfold bind at 1. rewrite Hprobe, Hobs, Hlen'.
  unfold bind at 1. unfold ctx_Err at 1. rewrite Hctx.
  unfold bind at 1. unfold context_WithTimeout at 1.
  unfold context_WithTimeout in Hcall. cbn [fst] in Hcall.
  unfold bind at 1. rewrite Hcall, Hfill.
  do 2 eexists. split; [reflexivity|].
  cbn [batchCalls fallbackUsed Error Decisions FromCache].
  split; [reflexivity|]. split; [reflexivity|]. split; [reflexivity|].
  split; [rewrite Hlends; exact Hlen1|]. split; [exact Hlen2|].
  intros i o Hi.
  pose proof (lookup_lt_Some _ _ _ Hi) as Hlt.
  specialize (Hpos i o Hi).
  rewrite !length_replicate in Hpos. cbn [Nat.add] in Hpos.
  specialize (Hpos Hlt Hlt).
  destruct (fresh (cache bds) (clock w) (hashObservation o)) eqn:Hfresh.
  - destruct Hpos as (e & He & Hd & Hf). exists e.
    split; [exact He|]. split; [|exact Hf].
    rewrite Hout; [exact Hd|].
    rewrite Hidx. intros Hmem. apply elem_of_uncached_indices in Hmem.
    destruct Hmem as (j & o' & Hij & Hj & Hmiss). cbn [Nat.add] in Hij.
    subst j. rewrite Hi in Hj. inversion Hj; subst o'. congruence.
  - destruct Hpos as [_ Hf]. split.
    + apply Hin; [|exact Hi]. rewrite Hidx.
      apply elem_of_uncached_indices. exists i, o.
      split; [reflexivity | split; assumption].
    + split; [rewrite Hf; apply lookup_replicate_2; exact Hlt|].
      apply DefaultDecision_holds.
Qed.

Lemma C7_failed_call_gives_defaults_witness :
  exists resp bds',
    GetBatchDecisions (H := amd64) (H0 := all_down) a_system live_ctx
      [obs_k1; obs_new] (mkWorld 7 [] 0)
    = ((Done resp, bds'),
       mkWorld 7 [EvCallWithContext "groq" "prompt"] 0) /\
    Error resp = None /\
    fallbackUsed bds' = fallbackUsed a_system + 1 /\
    batchCalls bds' = batchCalls a_system /\
    length (Decisions resp) = 2%nat /\
    length (FromCache resp) = 2%nat /\
    forall i o, [obs_k1; obs_new] !! i = Some o ->
      if fresh (cache a_system) 7 (fp o)
      then exists e,
             entries (cache a_system)
               !! fp o = Some e /\
             Decisions resp !! i = Some (Some (CDecision e)) /\
             FromCache resp !! i = Some true
      else Decisions resp !! i = Some (Some (DefaultDecision o)) /\
           FromCache resp !! i = Some false /\
           DefaultDecision o !! "npc_id" = Some (default VNil (o !! "npc_id")) /\
           DefaultDecision o !! "action" = Some (VString "explore") /\
           DefaultDecision o !! "reason"
           = Some (VString "Looking around...") /\
           forall key, key <> "npc_id" -> key <> "action" ->
                       key <> "reason" -> DefaultDecision o !! key = None.
Proof.
  apply (C7_failed_call_gives_defaults (H := amd64) (H0 := all_down)
           a_system live_ctx [obs_k1; obs_new] (mkWorld 7 [] 0)
           (mkWorld 7 [EvCallWithContext "groq" "prompt"] 0)
           all_providers_failed).
  - discriminate.
  - reflexivity.
  - vm_compute. discriminate.
  - vm_compute. reflexivity.
Defined.

End BatchFacts.

(* ===================================================================== *)
(** * Part IX. The balancer: construction, lookup and the full cycle        *)
(* ===================================================================== *)

Module BalancerCycle.
Import Go Llm BalancerFacts.

(** ** Euclid's loop on any two integers *)

Lemma gcd_loop_abs (fuel : nat) (a b : Z) :
  (Z.abs_nat b < fuel)%nat -> Z.abs (gcd_loop fuel a b) = Z.gcd a b.
Proof.
  revert a b.
  induction fuel as [|fuel IH]; intros a b Hfuel; [lia|].
  cbn [gcd_loop].
  destruct (Z.eqb_spec b 0) as [->|Hb0].
  - now rewrite Z.gcd_0_r.
  - pose proof (Z.rem_bound_abs a b Hb0) as Hrem.
    rewrite IH by lia.
    rewrite (Z.gcd_comm b), Z.gcd_rem by lia.
    apply Z.gcd_comm.
Qed.

(** ** What [NewBalancer] computes *)

Lemma scan_weights_fold (rest : list weightedProvider) (mx g : Z) :
  (forall wp, wp ∈ rest -> 1 <= weight wp) -> 0 <= g ->
  scan_weights rest (mx, g)
  = (fold_left Z.max (map weight rest) mx,
     fold_left Z.gcd (map weight rest) g).
Proof.
  revert mx g.
  induction rest as [|wp rest IH]; intros mx g Hpos Hg; [reflexivity|].
  assert (Hwp : 1 <= weight wp) by (apply Hpos; left).
  unfold scan_weights in *. cbn [fold_left map fst snd].
  rewrite IH.
  - f_equal; f_equal.
    + destruct (Z.gtb_spec (weight wp) mx); lia.
    + apply gcd_spec; lia.
  - intros wp' Hin. apply Hpos. now right.
  - apply gcd_nonneg; lia.
Qed.

Lemma fold_max_spec (l : list Z) (mx : Z) :
  mx <= fold_left Z.max l mx /\
  (forall x, x ∈ l -> x <= fold_left Z.max l mx).
Proof.
  revert mx. induction l as [|y l IH]; intros mx; cbn [fold_left].
  - split; [lia | intros x Hx; inversion Hx].
  - destruct (IH (Z.max mx y)) as [H1 H2]. split; [lia|].
    intros x Hx. apply elem_of_cons in Hx. destruct Hx as [-> | Hx].
    + lia.
    + now apply H2.
Qed.

Lemma fold_gcd_spec (l : list Z) (g : Z) :
  (fold_left Z.gcd l g | g) /\
  (forall x, x ∈ l -> (fold_left Z.gcd l g | x)) /\
  (forall d, (d | g) -> (forall x, x ∈ l -> (d | x)) ->
             (d | fold_left Z.gcd l g)).
Proof.
  revert g. induction l as [|y l IH]; intros g; cbn [fold_left].
  - split; [reflexivity|]. split; [intros x Hx; inversion Hx|].
    intros d Hd _. exact Hd.
  - destruct (IH (Z.gcd g y)) as (H1 & H2 & H3).
    split; [|split].
    + etransitivity; [exact H1 | apply Z.gcd_divide_l].
    + intros x Hx. apply elem_of_cons in Hx. destruct Hx as [-> | Hx].
      * etransitivity; [exact H1 | apply Z.gcd_divide_r].
      * now apply H2.
    + intros d Hd Hall. apply H3.
      * apply Z.gcd_greatest; [exact Hd | apply Hall; left].
      * intros x Hx. apply Hall. now right.
Qed.

Lemma fold_gcd_nonneg (l : list Z) (g : Z) :
  0 <= g -> 0 <= fold_left Z.gcd l g.
Proof.
  revert g. induction l as [|y l IH]; intros g Hg; cbn [fold_left];
    [exact Hg | apply IH, Z.gcd_nonneg].
Qed.

(** The state [NewBalancer] leaves for a non-empty list. *)
Lemma NewBalancer_fields (p : Provider) (ps : list Provider)
    (weights : gmap string Z) :
  let ws := map (fun q => weight (normalize_weight weights q)) (p :: ps) in
  NewBalancer (p :: ps) weights
  = mkBalancer (map (normalize_weight weights) (p :: ps)) 0
      (fold_left Z.max (tl ws) (hd 0 ws))
      (fold_left Z.gcd (tl ws) (hd 0 ws)) (-1).
Proof.
  cbn zeta. unfold NewBalancer. cbn [map hd tl].
  rewrite scan_weights_fold.
  - rewrite map_map. reflexivity.
  - intros wp Hin. apply list_elem_of_In, in_map_iff in Hin.
    destruct Hin as (q & <- & _). apply normalize_weight_pos.
  - pose proof (normalize_weight_pos weights p). lia.
Qed.

(** Well-formedness together with what the gcd contributes. *)
Record Balancer_aligned (b : Balancer) : Prop := mkBalancer_aligned {
  al_ok : Balancer_ok b;
  al_pos : 0 < bgcd b;
  al_div : forall wp, wp ∈ providers b -> (bgcd b | weight wp);
  al_greatest :
    forall d, (forall wp, wp ∈ providers b -> (d | weight wp)) ->
              (d | bgcd b);
  al_le : forall wp, wp ∈ providers b -> weight wp <= maxWeight b
}.

Lemma NewBalancer_aligned (ps : list Provider) (weights : gmap string Z) :
  ps <> [] -> Balancer_aligned (NewBalancer ps weights).
Proof.
  intros Hne. pose proof (NewBalancer_ok ps weights Hne) as Hok.
  destruct ps as [|p ps]; [congruence|].
  pose proof (NewBalancer_fields p ps weights) as Hf. cbn zeta in Hf.
  set (ws := map (fun q => weight (normalize_weight weights q)) (p :: ps))
    in *.
  assert (Hws : map weight (providers (NewBalancer (p :: ps) weights)) = ws).
  { rewrite NewBalancer_providers, map_map. reflexivity. }
  assert (Hin : forall wp, wp ∈ providers (NewBalancer (p :: ps) weights) ->
                           weight wp ∈ ws).
  { intros wp Hwp. rewrite <- Hws. now apply list_elem_of_fmap_2. }
  assert (Hhd : ws = hd 0 ws :: tl ws) by reflexivity.
  assert (Hh1 : 1 <= hd 0 ws) by apply normalize_weight_pos.
  destruct (fold_gcd_spec (tl ws) (hd 0 ws)) as (Hg1 & Hg2 & Hg3).
  destruct (fold_max_spec (tl ws) (hd 0 ws)) as (Hm1 & Hm2).
  assert (Hgcd : bgcd (NewBalancer (p :: ps) weights)
                 = fold_left Z.gcd (tl ws) (hd 0 ws)) by now rewrite Hf.
  assert (Hmax : maxWeight (NewBalancer (p :: ps) weights)
                 = fold_left Z.max (tl ws) (hd 0 ws)) by now rewrite Hf.
  constructor.
  - exact Hok.
  - rewrite Hgcd.
    pose proof (fold_gcd_nonneg (tl ws) (hd 0 ws) ltac:(lia)) as Hnn.
    destruct (Z.eq_dec (fold_left Z.gcd (tl ws) (hd 0 ws)) 0) as [H0|H0];
      [|lia].
    rewrite H0 in Hg1. apply Z.divide_0_l in Hg1. lia.
  - intros wp Hwp. rewrite Hgcd. specialize (Hin wp Hwp).
    rewrite Hhd in Hin. apply elem_of_cons in Hin.
    destruct Hin as [-> | Hin]; [exact Hg1 | now apply Hg2].
  - intros d Hd. rewrite Hgcd.
    assert (Hall : forall x, x ∈ ws -> (d | x)).
    { intros x Hx. rewrite <- Hws in Hx.
      apply list_elem_of_fmap in Hx. destruct Hx as (wp & -> & Hwp).
      now apply Hd. }
    apply Hg3.
    + apply Hall. rewrite Hhd at 2. left.
    + intros x Hx. apply Hall. rewrite Hhd. now right.
  - intros wp Hwp. rewrite Hmax. specialize (Hin wp Hwp).
    rewrite Hhd in Hin. apply elem_of_cons in Hin.
    destruct Hin as [-> | Hin]; [exact Hm1 | now apply Hm2].
Qed.

(** ** The iterations of the loop of [Next] *)

(** The test [b.providers[b.lastIndex].weight >= b.currentWeight]. *)
Definition eligible (b : Balancer) : bool :=
  match providers b !! Z.to_nat (lastIndex b) with
  | Some wp => weight wp >=? currentWeight b
  | None => false
  end.

Definition pick (b : Balancer) : option Provider :=
  provider <$> providers b !! Z.to_nat (lastIndex b).

(** The balancer after [T] iterations, and the balancers after
    1, 2, ..., [T] iterations. *)
Fixpoint after (T : nat) (b : Balancer) : Balancer :=
  match T with
  | O => b
  | S T' => after T' (advance b)
  end.

Fixpoint trail (T : nat) (b : Balancer) : list Balancer :=
  match T with
  | O => []
  | S T' => advance b :: trail T' (advance b)
  end.

Lemma after_add (a c : nat) (b : Balancer) :
  after (a + c) b = after c (after a b).
Proof. revert b. induction a as [|a IH]; intros b; [reflexivity | apply IH]. Qed.

Lemma trail_add (a c : nat) (b : Balancer) :
  trail (a + c) b = (trail a b ++ trail c (after a b))%list.
Proof.
  revert b. induction a as [|a IH]; intros b; [reflexivity|].
  cbn [Nat.add trail after app]. now rewrite IH.
Qed.

Lemma trail_S (t : nat) (b : Balancer) :
  trail (S t) b = (trail t b ++ [after (S t) b])%list.
Proof.
  replace (S t) with (t + 1)%nat at 1 by lia.
  rewrite trail_add. cbn [trail]. f_equal.
  replace (S t) with (t + 1)%nat by lia. now rewrite after_add.
Qed.

Lemma after_in_trail (T t : nat) (b : Balancer) :
  (1 <= T <= t)%nat -> In (after T b) (trail t b).
Proof.
  revert T b. induction t as [|t IH]; intros T b HT; [lia|].
  cbn [trail]. destruct T as [|[|T]]; [lia | now left |].
  right. apply (IH (S T) (advance b)). lia.
Qed.

(** A call that returns stops at the first iteration that passes the
    test. *)
Lemma Next_loop_first (fuel : nat) (b b' : Balancer) (p : option Provider) :
  Next_loop fuel b = Done (p, b') ->
  exists t, (t < fuel)%nat /\ b' = after (S t) b /\ eligible b' = true /\
            List.filter eligible (trail t b) = [] /\ p = pick b'.
Proof.
  revert b.
  induction fuel as [|fuel IH]; intros b Hrun; [discriminate|].
  cbn [Next_loop] in Hrun.
  destruct (Z.ltb_spec (lastIndex (advance b)) 0); [discriminate|].
  destruct (providers (advance b) !! Z.to_nat (lastIndex (advance b)))
    as [wp|] eqn:Hwp; [|discriminate].
  destruct (weight wp >=? currentWeight (advance b)) eqn:Hel.
  - inversion Hrun; subst. exists 0%nat.
    split; [lia|]. split; [reflexivity|].
    unfold eligible, pick. cbn [after]. rewrite Hwp.
    split; [exact Hel | split; reflexivity].
  - destruct (IH (advance b) Hrun) as (t & Ht & Hb' & He & Hnone & Hp).
    exists (S t). split; [lia|]. split; [exact Hb'|]. split; [exact He|].
    split; [|exact Hp].
    cbn [trail List.filter]. unfold eligible at 1. rewrite Hwp, Hel.
    exact Hnone.
Qed.

(** The calls of [Next] return, in order, the entries at which the
    iterations pass the test. *)
Lemma trail_run (T : nat) :
  forall b, Balancer_ok b -> (2 <= length (providers b))%nat ->
    T = 0%nat \/ eligible (after T b) = true ->
    Next_n (length (List.filter eligible (trail T b))) b
    = Done (map pick (List.filter eligible (trail T b)), after T b).
Proof.
  induction T as [T IH] using lt_wf_ind. intros b Hok Hn HT.
  destruct T as [|T]; [reflexivity|].
  destruct HT as [HT | HT]; [discriminate|].
  assert (Hnext : Next b = Next_loop (2 * length (providers b)) b).
  { unfold Next, Next_fuel.
    destruct (providers b) as [|wp0 [|wp1 rest]]; cbn [length] in Hn;
      [lia | lia | reflexivity]. }
  destruct (Next_loop_two_passes b _ Hok (Nat.le_refl _)) as [[p b'] Hrun].
  destruct (Next_loop_Done _ b b' p Hok Hrun) as (Hok' & Hps & _).
  destruct (Next_loop_first _ b b' p Hrun) as (t & _ & Hb' & He & Hnone & Hp).
  assert (Ht : (S t <= S T)%nat).
  { destruct (Nat.le_gt_cases (S t) (S T)) as [Hle | Hgt]; [exact Hle|].
    exfalso.
    pose proof (after_in_trail (S T) t b ltac:(lia)) as Hin.
    assert (Hf : In (after (S T) b) (List.filter eligible (trail t b))).
    { apply List.filter_In. split; [exact Hin | exact HT]. }
    rewrite Hnone in Hf. exact Hf. }
  replace (S T) with (S t + (T - t))%nat by lia.
  rewrite trail_add, after_add, List.filter_app, trail_S, List.filter_app.
  rewrite Hnone. cbn [List.filter app]. rewrite <- Hb', He.
  cbn [app length map Next_n]. rewrite Hnext, Hrun.
  rewrite (IH (T - t)%nat ltac:(lia) b' Hok').
  - rewrite Hp. reflexivity.
  - rewrite Hps. exact Hn.
  - destruct (Nat.eq_dec (T - t)%nat 0%nat) as [H0 | H0]; [now left | right].
    rewrite Hb', <- after_add.
    replace (S t + (T - t))%nat with (S T) by lia. exact HT.
Qed.

(** ** One full cycle, level by level *)

Section Cycle.
Variables (ps : list weightedProvider) (mx g : Z).

Let n : nat := length ps.

(** The balancer over [ps] with the counter at level [L] and the index at
    position [i]. *)
Definition st (L : Z) (i : nat) : Balancer :=
  mkBalancer ps L mx g (Z.of_nat i).

(** The level a pass starts with, the previous one having run at [L]. *)
Definition next_level (L : Z) : Z := if L - g <=? 0 then mx else L - g.

(** Weight of the entry at position [i]. *)
Definition wt (i : nat) : Z := default 0 (weight <$> ps !! i).

Lemma advance_st (L : Z) (i : nat) :
  (S i < n)%nat -> advance (st L i) = st L (S i).
Proof.
  intros Hi. unfold advance, st. cbn [lastIndex providers currentWeight
    maxWeight bgcd]. fold n.
  rewrite Z.rem_small by lia.
  destruct (Z.eqb_spec (Z.of_nat i + 1) 0); [lia|].
  f_equal. lia.
Qed.

Lemma advance_wrap_st (L : Z) (li : Z) :
  (1 <= n)%nat -> li = -1 \/ li = Z.of_nat n - 1 ->
  advance (mkBalancer ps L mx g li) = st (next_level L) 0.
Proof.
  intros Hn Hli. unfold advance, st, next_level.
  cbn [lastIndex providers currentWeight maxWeight bgcd]. fold n.
  assert (Hrem : Z.rem (li + 1) (Z.of_nat n) = 0).
  { destruct Hli as [-> | ->].
    - apply Z.rem_0_l. lia.
    - replace (Z.of_nat n - 1 + 1) with (Z.of_nat n) by lia.
      apply Z.rem_same. lia. }
  rewrite Hrem. reflexivity.
Qed.

Lemma trail_within (k : nat) :
  forall (L : Z) (i : nat), (i + k < n)%nat ->
    trail k (st L i) = map (st L) (seq (S i) k) /\
    after k (st L i) = st L (i + k).
Proof.
  induction k as [|k IH]; intros L i Hk.
  - cbn. now rewrite Nat.add_0_r.
  - cbn [trail after seq map]. rewrite advance_st by lia.
    destruct (IH L (S i) ltac:(lia)) as [-> ->].
    split; [reflexivity | f_equal; lia].
Qed.

(** A pass: the [n] iterations that follow a wrap of the index. *)
Lemma trail_pass (L li : Z) :
  (1 <= n)%nat -> li = -1 \/ li = Z.of_nat n - 1 ->
  trail n (mkBalancer ps L mx g li) = map (st (next_level L)) (seq 0 n) /\
  after n (mkBalancer ps L mx g li) = st (next_level L) (n - 1).
Proof.
  intros Hn Hli. destruct n as [|n'] eqn:En; [lia|].
  cbn [trail after seq map].
  assert (Hw : advance (mkBalancer ps L mx g li) = st (next_level L) 0).
  { apply advance_wrap_st; [fold n; lia | fold n; rewrite En; exact Hli]. }
  rewrite Hw.
  destruct (trail_within n' (next_level L) 0) as [-> ->];
    [fold n; lia|].
  split; [reflexivity | f_equal; lia].
Qed.

(** The multipliers [k - 1, k - 2, ..., k - q] of the levels of [q]
    consecutive passes, the previous pass having run at level [k * g]. *)
Fixpoint down (q : nat) (k : Z) : list Z :=
  match q with
  | O => []
  | S q' => (k - 1) :: down q' (k - 1)
  end.

Definition pass (j : Z) : list Balancer := map (st (j * g)) (seq 0 n).

Lemma trail_down (q : nat) :
  forall k : Z, (1 <= n)%nat -> 0 < g -> Z.of_nat q < k ->
    trail (q * n) (st (k * g) (n - 1)) = concat (map pass (down q k)) /\
    after (q * n) (st (k * g) (n - 1)) = st ((k - Z.of_nat q) * g) (n - 1).
Proof.
  induction q as [|q IH]; intros k Hn Hg Hq.
  - cbn. split; [reflexivity | f_equal; lia].
  - cbn [Nat.mul down map concat].
    rewrite trail_add, after_add.
    destruct (trail_pass (k * g) (Z.of_nat (n - 1)) Hn ltac:(right; lia))
      as [Ht Ha].
    fold (st (k * g) (n - 1)) in Ht, Ha.
    assert (Hlev : next_level (k * g) = (k - 1) * g).
    { unfold next_level. destruct (Z.leb_spec (k * g - g) 0); nia. }
    rewrite Hlev in Ht, Ha. rewrite Ht, Ha.
    destruct (IH (k - 1) Hn Hg ltac:(lia)) as [-> ->].
    split; [reflexivity | f_equal; lia].
Qed.

(** The multipliers of one cycle: [m, m - 1, ..., 1]. *)
Definition cycle_levels (m : Z) : list Z := m :: down (Z.to_nat (m - 1)) m.

(** The cycle that starts when the index wraps and the counter is reset. *)
Lemma trail_cycle (m L li : Z) :
  (1 <= n)%nat -> 0 < g -> 1 <= m -> mx = m * g ->
  li = -1 \/ li = Z.of_nat n - 1 -> L - g <= 0 ->
  trail (Z.to_nat m * n) (mkBalancer ps L mx g li)
  = concat (map pass (cycle_levels m)) /\
  after (Z.to_nat m * n) (mkBalancer ps L mx g li) = st g (n - 1).
Proof.
  intros Hn Hg Hm Hmx Hli HL.
  replace (Z.to_nat m * n)%nat with (n + Z.to_nat (m - 1) * n)%nat by nia.
  rewrite trail_add, after_add.
  destruct (trail_pass L li Hn Hli) as [Ht Ha].
  assert (Hlev : next_level L = m * g).
  { unfold next_level. destruct (Z.leb_spec (L - g) 0); lia. }
  rewrite Hlev in Ht, Ha. rewrite Ht, Ha.
  destruct (trail_down (Z.to_nat (m - 1)) m Hn Hg ltac:(lia)) as [-> ->].
  unfold cycle_levels. cbn [map concat].
  split; [reflexivity|]. rewrite Z2Nat.id by lia. f_equal. lia.
Qed.

(** The positions selected by the pass at level [j * g], and by a cycle. *)
Definition picked_at (j : Z) : list nat :=
  List.filter (fun i => wt i >=? j * g) (seq 0 n).

Definition cycle_picks (m : Z) : list nat :=
  concat (map picked_at (cycle_levels m)).

Lemma eligible_st (L : Z) (i : nat) :
  (i < n)%nat -> eligible (st L i) = (wt i >=? L).
Proof.
  intros Hi. unfold eligible, st, wt.
  cbn [providers lastIndex currentWeight]. rewrite Nat2Z.id.
  destruct (ps !! i) as [wp|] eqn:E; [reflexivity|].
  apply lookup_ge_None in E. fold n in E. lia.
Qed.

Lemma pick_st (L : Z) (i : nat) : pick (st L i) = provider <$> ps !! i.
Proof. unfold pick, st. cbn [providers lastIndex]. now rewrite Nat2Z.id. Qed.

Lemma filter_states (L : Z) (l : list nat) :
  List.Forall (fun i => (i < n)%nat) l ->
  List.filter eligible (map (st L) l)
  = map (st L) (List.filter (fun i => wt i >=? L) l).
Proof.
  induction l as [|i l IH]; intros Hl; [reflexivity|].
  inversion Hl as [|? ? Hi Hl']; subst.
  cbn [map List.filter]. rewrite eligible_st by exact Hi.
  destruct (wt i >=? L); cbn [map]; now rewrite IH.
Qed.

Lemma seq_below : List.Forall (fun i => (i < n)%nat) (seq 0 n).
Proof. apply List.Forall_forall. intros i Hi. apply in_seq in Hi. lia. Qed.

Lemma picks_of_levels (levels : list Z) :
  map pick (List.filter eligible (concat (map pass levels)))
  = map (fun i => provider <$> ps !! i) (concat (map picked_at levels)).
Proof.
  induction levels as [|j levels IH]; [reflexivity|].
  cbn [map concat]. rewrite List.filter_app, !map_app, IH. f_equal.
  unfold pass. rewrite filter_states by apply seq_below.
  rewrite map_map. unfold picked_at.
  apply map_ext. intros i. apply pick_st.
Qed.

Lemma picked_below (levels : list Z) :
  List.Forall (fun i => (i < n)%nat) (concat (map picked_at levels)).
Proof.
  apply List.Forall_forall. intros i Hi.
  apply in_concat in Hi. destruct Hi as (l & Hl & Hi).
  apply in_map_iff in Hl. destruct Hl as (j & <- & _).
  apply List.filter_In in Hi. destruct Hi as [Hi _].
  apply in_seq in Hi. lia.
Qed.

Lemma count_picked_at (j : Z) (i : nat) :
  (i < n)%nat ->
  count_occ Nat.eq_dec (picked_at j) i
  = if wt i >=? j * g then 1%nat else 0%nat.
Proof.
  intros Hi. unfold picked_at.
  destruct (wt i >=? j * g) eqn:E.
  - apply NoDup_count_occ'.
    + apply List.NoDup_filter, seq_NoDup.
    + apply List.filter_In. split; [apply in_seq; lia | exact E].
  - apply count_occ_not_In. intros Hin.
    apply List.filter_In in Hin. destruct Hin as [_ Hin]. congruence.
Qed.

Lemma count_down (q : nat) :
  forall (k c : Z) (i : nat),
    (i < n)%nat -> wt i = c * g -> 0 < g -> Z.of_nat q < k ->
    Z.of_nat (count_occ Nat.eq_dec (concat (map picked_at (down q k))) i)
    = Z.max 0 (Z.min c (k - 1) - (k - Z.of_nat q) + 1).
Proof.
  induction q as [|q IH]; intros k c i Hi Hw Hg Hq.
  - cbn. lia.
  - cbn [down map concat]. rewrite count_occ_app, Nat2Z.inj_add.
    rewrite (IH (k - 1) c i Hi Hw Hg ltac:(lia)).
    rewrite count_picked_at by exact Hi. rewrite Hw.
    destruct (Z.geb_spec (c * g) ((k - 1) * g)) as [Hge | Hlt].
    + assert (k - 1 <= c) by nia. lia.
    + assert (c < k - 1) by nia. lia.
Qed.

(** In one cycle the entry at position [i], of weight [c * g], is selected
    [c] times. *)
Lemma count_cycle (m c : Z) (i : nat) :
  (i < n)%nat -> wt i = c * g -> 0 < g -> 1 <= c <= m ->
  Z.of_nat (count_occ Nat.eq_dec (cycle_picks m) i) = c.
Proof.
  intros Hi Hw Hg Hc. unfold cycle_picks, cycle_levels.
  cbn [map concat]. rewrite count_occ_app, Nat2Z.inj_add.
  rewrite (count_down (Z.to_nat (m - 1)) m c i Hi Hw Hg ltac:(lia)).
  rewrite count_picked_at by exact Hi. rewrite Hw.
  destruct (Z.geb_spec (c * g) (m * g)) as [Hge | Hlt].
  - assert (m <= c) by nia. lia.
  - assert (c < m) by nia. lia.
Qed.

End Cycle.

(** ** Runs of calls *)

Lemma Next_n_length (k : nat) :
  forall b l s, Next_n k b = Done (l, s) -> length l = k.
Proof.
  induction k as [|k IH]; intros b l s Hrun; cbn [Next_n] in Hrun.
  - now inversion Hrun.
  - destruct (Next b) as [[p b1]| |]; try discriminate.
    destruct (Next_n k b1) as [[l1 b2]| |] eqn:E; try discriminate.
    inversion Hrun; subst. cbn [length]. f_equal. exact (IH _ _ _ E).
Qed.

Lemma Next_n_add (a c : nat) :
  forall b l1 b1 l2 b2,
    Next_n a b = Done (l1, b1) -> Next_n c b1 = Done (l2, b2) ->
    Next_n (a + c) b = Done ((l1 ++ l2)%list, b2).
Proof.
  induction a as [|a IH]; intros b l1 b1 l2 b2 H1 H2; cbn [Next_n] in H1.
  - inversion H1; subst. exact H2.
  - cbn [Nat.add Next_n].
    destruct (Next b) as [[p b']| |]; try discriminate.
    destruct (Next_n a b') as [[l b'']| |] eqn:E; try discriminate.
    inversion H1; subst. now rewrite (IH _ _ _ _ _ E H2).
Qed.

Lemma Next_n_split (a c : nat) :
  forall b l b2,
    Next_n (a + c) b = Done (l, b2) ->
    exists b1, Next_n a b = Done (take a l, b1) /\
               Next_n c b1 = Done (drop a l, b2).
Proof.
  induction a as [|a IH]; intros b l b2 Hrun.
  - exists b. split; [reflexivity | exact Hrun].
  - cbn [Nat.add Next_n] in *.
    destruct (Next b) as [[p b']| |]; try discriminate.
    destruct (Next_n (a + c) b') as [[l' b'']| |] eqn:E; try discriminate.
    inversion Hrun; subst.
    destruct (IH _ _ _ E) as (b1 & H1 & H2).
    exists b1. rewrite H1. split; [reflexivity | exact H2].
Qed.

Lemma count_occ_rotate (l : list nat) (r i : nat) :
  count_occ Nat.eq_dec (drop r l ++ take r l) i = count_occ Nat.eq_dec l i.
Proof.
  rewrite count_occ_app, Nat.add_comm, <- count_occ_app.
  now rewrite take_drop.
Qed.

(** A balancer at the start of a cycle: the index is about to wrap and the
    counter is about to be reset. *)
Definition cycle_start (ps : list weightedProvider) (mx g : Z)
    (b : Balancer) : Prop :=
  exists L li, b = mkBalancer ps L mx g li /\
               (li = -1 \/ li = Z.of_nat (length ps) - 1) /\
               0 <= L /\ L - g <= 0.

Section Runs.
Variables (ps : list weightedProvider) (mx g m : Z).
Hypothesis Hn : (2 <= length ps)%nat.
Hypothesis Hg : 0 < g.
Hypothesis Hm : 1 <= m.
Hypothesis Hmx : mx = m * g.
Hypothesis Hmax : exists wp, wp ∈ ps /\ weight wp = mx.
Hypothesis Hdiv : forall wp, wp ∈ ps -> (g | weight wp) /\ 1 <= weight wp.

Let picks : list nat := cycle_picks ps g m.
Let shown (idxs : list nat) : list (option Provider) :=
  map (fun i => provider <$> ps !! i) idxs.

Lemma cycle_start_ok (b : Balancer) :
  cycle_start ps mx g b -> Balancer_ok b.
Proof.
  intros (L & li & -> & Hli & HL0 & HL).
  constructor; cbn [providers lastIndex bgcd currentWeight maxWeight].
  - lia.
  - lia.
  - nia.
  - exact Hmax.
  - intros wp Hwp. now apply Hdiv.
Qed.

Lemma weight_ge_gcd (i : nat) : (i < length ps)%nat -> g <= wt ps i.
Proof.
  intros Hi. unfold wt.
  destruct (ps !! i) as [wp|] eqn:E;
    [|apply lookup_ge_None in E; lia].
  cbn. assert (Hin : wp ∈ ps) by (apply list_elem_of_lookup; eauto).
  destruct (Hdiv wp Hin) as [Hd Hpos].
  apply Z.divide_pos_le; [lia | exact Hd].
Qed.

(** From the start of a cycle, [length picks] calls select the positions
    [picks] and end at the start of the next cycle. *)
Lemma cycle_run (b : Balancer) :
  cycle_start ps mx g b ->
  exists b', Next_n (length picks) b = Done (shown picks, b') /\
             cycle_start ps mx g b'.
Proof.
  intros Hstart. pose proof (cycle_start_ok b Hstart) as Hok.
  destruct Hstart as (L & li & -> & Hli & HL0 & HL).
  destruct (trail_cycle ps mx g m L li ltac:(lia) Hg Hm Hmx Hli HL)
    as [Htrail Hafter].
  pose proof (trail_run (Z.to_nat m * length ps) _ Hok Hn) as Hrun.
  rewrite Hafter, Htrail in Hrun.
  rewrite picks_of_levels in Hrun.
  assert (Hlen : length (List.filter eligible
                           (concat (map (pass ps mx g) (cycle_levels m))))
                 = length picks).
  { rewrite <- (List.length_map pick), picks_of_levels, List.length_map.
    reflexivity. }
  rewrite Hlen in Hrun.
  exists (st ps mx g g (length ps - 1)). split.
  - apply Hrun. right. rewrite eligible_st by lia.
    pose proof (weight_ge_gcd (length ps - 1) ltac:(lia)).
    destruct (Z.geb_spec (wt ps (length ps - 1)) g); [reflexivity | lia].
  - exists g, (Z.of_nat (length ps - 1)).
    split; [reflexivity|]. split; [right; lia | lia].
Qed.

(** Any [length picks] consecutive calls select a rotation of [picks]. *)
Lemma window_run (k : nat) :
  forall b, cycle_start ps mx g b ->
    exists before s widx s',
      Next_n k b = Done (before, s) /\
      Next_n (length picks) s = Done (shown widx, s') /\
      forall i, count_occ Nat.eq_dec widx i = count_occ Nat.eq_dec picks i.
Proof.
  induction k as [k IH] using lt_wf_ind. intros b Hb.
  destruct (cycle_run b Hb) as (b1 & Hrun & Hb1).
  destruct (Nat.lt_ge_cases k (length picks)) as [Hlt | Hge].
  - replace (length picks) with (k + (length picks - k))%nat in Hrun by lia.
    destruct (Next_n_split _ _ _ _ _ Hrun) as (s & Hpre & Hrest).
    destruct (cycle_run b1 Hb1) as (b2 & Hrun2 & _).
    replace (length picks) with (k + (length picks - k))%nat in Hrun2
      by lia.
    destruct (Next_n_split _ _ _ _ _ Hrun2) as (s' & Hpre2 & _).
    exists (take k (shown picks)), s, (drop k picks ++ take k picks)%list, s'.
    split; [exact Hpre|]. split.
    + replace (length picks) with ((length picks - k) + k)%nat at 1 by lia.
      unfold shown at 1. rewrite map_app. fold (shown (drop k picks)).
      fold (shown (take k picks)).
      apply (Next_n_add _ _ _ _ b1).
      * unfold shown in *. rewrite <- List.skipn_map. exact Hrest.
      * unfold shown in *. rewrite <- List.firstn_map. exact Hpre2.
    + intros i. apply count_occ_rotate.
  - destruct (IH (k - length picks)%nat) with (b := b1)
      as (before & s & widx & s' & Hpre & Hwin & Hcount).
    + assert (0 < length picks)%nat; [|lia].
      pose proof (Next_n_length _ _ _ _ Hrun) as Hl.
      destruct picks as [|x l] eqn:E; [|cbn; lia].
      exfalso. clear IH Hge.
      cbn in Hrun. inversion Hrun; subst.
      destruct Hb as (L & li & -> & Hli & HL0 & HL).
      destruct Hb1 as (L' & li' & Heq & Hli' & _).
      pose proof (count_cycle ps g m m (length ps - 1)) as Hc.
      fold picks in Hc. rewrite E in Hc. cbn in Hc.
      destruct Hmax as (wp & Hwp & Hw).
      apply list_elem_of_lookup in Hwp. destruct Hwp as [j Hj].
      pose proof (lookup_lt_Some _ _ _ Hj) as Hjlt.
      pose proof (count_cycle ps g m m j Hjlt) as Hc'.
      fold picks in Hc'. rewrite E in Hc'. cbn in Hc'.
      unfold wt in Hc'. rewrite Hj in Hc'. cbn in Hc'.
      specialize (Hc' ltac:(lia) Hg ltac:(lia)). lia.
    + exact Hb1.
    + exists (shown picks ++ before)%list, s, widx, s'.
      split; [|split; [exact Hwin | exact Hcount]].
      replace k with (length picks + (k - length picks))%nat at 1 by lia.
      exact (Next_n_add _ _ _ _ _ _ _ Hrun Hpre).
Qed.

End Runs.

(** ** How many calls a cycle takes *)

Lemma list_sum_count_cons (x : nat) (l L : list nat) :
  list_sum (map (count_occ Nat.eq_dec (x :: l)) L)
  = (count_occ Nat.eq_dec L x + list_sum (map (count_occ Nat.eq_dec l) L))%nat.
Proof.
  unfold list_sum.
  induction L as [|y L IH]; [reflexivity|].
  cbn [map fold_right]. rewrite IH.
  destruct (Nat.eq_dec x y) as [->|Hxy].
  - rewrite !count_occ_cons_eq by reflexivity. lia.
  - rewrite !count_occ_cons_neq by congruence. lia.
Qed.

Lemma length_counts (n : nat) (l : list nat) :
  List.Forall (fun i => (i < n)%nat) l ->
  length l = list_sum (map (count_occ Nat.eq_dec l) (seq 0 n)).
Proof.
  induction l as [|x l IH]; intros Hl.
  - cbn [length]. induction (seq 0 n) as [|y L IHL]; [reflexivity|].
    cbn. exact IHL.
  - inversion Hl as [|? ? Hx Hl']; subst.
    rewrite list_sum_count_cons, <- IH by exact Hl'.
    assert (Hone : count_occ Nat.eq_dec (seq 0 n) x = 1%nat).
    { apply NoDup_count_occ'; [apply seq_NoDup | apply in_seq; lia]. }
    rewrite Hone. reflexivity.
Qed.

Lemma sum_scaled (g : Z) (f : nat -> nat) (h : nat -> Z) (L : list nat) :
  (forall i, In i L -> Z.of_nat (f i) * g = h i) ->
  Z.of_nat (list_sum (map f L)) * g = fold_right Z.add 0 (map h L).
Proof.
  unfold list_sum.
  induction L as [|y L IH]; intros Hall; [reflexivity|].
  cbn [map fold_right].
  rewrite Nat2Z.inj_add, Z.mul_add_distr_r.
  rewrite IH by (intros i Hi; apply Hall; now right).
  rewrite (Hall y) by now left. reflexivity.
Qed.

Lemma map_wt (ps : list weightedProvider) :
  map (wt ps) (seq 0 (length ps)) = map weight ps.
Proof.
  induction ps as [|wp ps IH]; [reflexivity|].
  cbn [length seq map]. rewrite <- seq_shift, map_map. f_equal.
  rewrite <- IH. apply map_ext. intros i. reflexivity.
Qed.

(** The sum of the stored weights. *)
Definition total_weight (b : Balancer) : Z :=
  fold_right Z.add 0 (map weight (providers b)).

Lemma cycle_length (ps : list weightedProvider) (g m : Z) :
  0 < g ->
  (forall wp, wp ∈ ps -> (g | weight wp) /\ 1 <= weight wp <= m * g) ->
  Z.of_nat (length (cycle_picks ps g m)) * g
  = fold_right Z.add 0 (map weight ps).
Proof.
  intros Hg Hall.
  rewrite (length_counts (length ps)) by apply picked_below.
  rewrite <- map_wt. apply sum_scaled.
  intros i Hi. apply in_seq in Hi.
  destruct (ps !! i) as [wp|] eqn:E;
    [|apply lookup_ge_None in E; lia].
  assert (Hin : wp ∈ ps) by (apply list_elem_of_lookup; eauto).
  destruct (Hall wp Hin) as ((c & Hc) & Hw).
  assert (Hwt : wt ps i = c * g) by (unfold wt; rewrite E; exact Hc).
  rewrite (count_cycle ps g m c i); [now rewrite Hwt | lia | exact Hwt
    | exact Hg | nia].
Qed.

(** ** The balancer over one provider *)

Lemma NewBalancer_one (p : Provider) (weights : gmap string Z) :
  NewBalancer [p] weights
  = mkBalancer [normalize_weight weights p] 0
      (weight (normalize_weight weights p))
      (weight (normalize_weight weights p)) (-1).
Proof. reflexivity. Qed.

(** ** Theorems *)

(** [gcd] is Euclid's algorithm: on any two integers, of either sign, it
    returns a greatest common divisor up to sign, and on their absolute
    values the greatest common divisor itself. *)
Theorem gcd_is_greatest_common_divisor (a b : Z) :
  Z.abs (gcd a b) = Z.gcd a b /\
  gcd (Z.abs a) (Z.abs b) = Z.gcd a b /\
  gcd a 0 = a.
Proof.
  split; [|split].
  - apply gcd_loop_abs. lia.
  - rewrite gcd_spec by lia. now rewrite Z.gcd_abs_l, Z.gcd_abs_r.
  - reflexivity.
Qed.

(** [NewBalancer] keeps the providers in the order given, so that [GetAll]
    returns them and [Len] counts them, and starts with the counter at 0 and
    the index at -1; for a non-empty list every stored weight is between 1
    and [maxWeight], some entry weighs [maxWeight], and the field [gcd] is
    the greatest common divisor of the stored weights. *)
Theorem NewBalancer_computes_max_and_gcd (ps : list Provider)
    (weights : gmap string Z) :
  let b := NewBalancer ps weights in
  GetAll b = ps /\ Len b = Z.of_nat (length ps) /\
  currentWeight b = 0 /\ lastIndex b = -1 /\
  (ps <> [] ->
   (forall wp, wp ∈ providers b -> 1 <= weight wp <= maxWeight b) /\
   (exists wp, wp ∈ providers b /\ weight wp = maxWeight b) /\
   0 < bgcd b /\
   (forall wp, wp ∈ providers b -> (bgcd b | weight wp)) /\
   (forall d, (forall wp, wp ∈ providers b -> (d | weight wp)) ->
              (d | bgcd b))).
Proof.
  cbn zeta. unfold GetAll, Len. rewrite NewBalancer_providers.
  split; [|split; [|split; [|split]]].
  - rewrite map_map. cbn. apply map_id.
  - now rewrite List.length_map.
  - destruct ps; [reflexivity|]. now rewrite NewBalancer_fields.
  - destruct ps; [reflexivity|]. now rewrite NewBalancer_fields.
  - intros Hne. rewrite <- NewBalancer_providers.
    destruct (NewBalancer_aligned ps weights Hne)
      as [Hok Hpos Hdiv Hgr Hle].
    split; [|split; [|split; [|split]]].
    + intros wp Hwp. split; [now apply (ok_weights _ Hok) | now apply Hle].
    + apply (ok_max _ Hok).
    + exact Hpos.
    + exact Hdiv.
    + exact Hgr.
Qed.

Lemma NewBalancer_computes_max_and_gcd_witness :
  let b := NewBalancer test_providers test_weights in
  (forall wp, wp ∈ providers b -> 1 <= weight wp <= maxWeight b) /\
  (exists wp, wp ∈ providers b /\ weight wp = maxWeight b) /\
  0 < bgcd b /\
  (forall wp, wp ∈ providers b -> (bgcd b | weight wp)) /\
  (forall d, (forall wp, wp ∈ providers b -> (d | weight wp)) ->
             (d | bgcd b)).
Proof.
  apply (NewBalancer_computes_max_and_gcd test_providers test_weights).
  discriminate.
Defined.

Lemma find_first {A} (f : A -> bool) (l : list A) :
  match find f l with
  | Some x => exists i, l !! i = Some x /\ f x = true /\
                        forall j y, (j < i)%nat -> l !! j = Some y ->
                                    f y = false
  | None => forall y, y ∈ l -> f y = false
  end.
Proof.
  induction l as [|a l IH]; cbn [find].
  - intros y Hy. inversion Hy.
  - destruct (f a) eqn:Ea.
    + exists 0%nat. split; [reflexivity|]. split; [exact Ea|]. intros; lia.
    + destruct (find f l) as [x|].
      * destruct IH as (i & Hi & Hx & Hbefore).
        exists (S i). split; [exact Hi|]. split; [exact Hx|].
        intros [|j] y Hj Hy; [cbn in Hy; congruence|].
        apply (Hbefore j); [lia | exact Hy].
      * intros y Hy. apply elem_of_cons in Hy.
        destruct Hy as [-> | Hy]; [exact Ea | now apply IH].
Qed.

(** [GetByName] returns the first provider, in the order given to
    [NewBalancer], whose name is the one asked for, and nil exactly when no
    provider has that name. *)
Theorem GetByName_returns_first_match (ps : list Provider)
    (weights : gmap string Z) (name : string) :
  match GetByName (NewBalancer ps weights) name with
  | Some p =>
      exists i, ps !! i = Some p /\ Name p = name /\
                forall j q, (j < i)%nat -> ps !! j = Some q -> Name q <> name
  | None => forall q, q ∈ ps -> Name q <> name
  end.
Proof.
  unfold GetByName. rewrite NewBalancer_providers.
  pose proof (find_first
                (fun wp => String.eqb (Name (provider wp)) name)
                (map (normalize_weight weights) ps)) as Hfind.
  destruct (find _ _) as [wp|]; cbn [fmap option_fmap option_map].
  - destruct Hfind as (i & Hi & Hname & Hbefore).
    change (map (normalize_weight weights) ps)
      with (normalize_weight weights <$> ps) in Hi, Hbefore.
    rewrite list_lookup_fmap in Hi.
    destruct (ps !! i) as [p|] eqn:Ep; [|discriminate].
    cbn in Hi. inversion Hi; subst. cbn [provider normalize_weight] in *.
    exists i. split; [exact Ep|]. split; [now apply String.eqb_eq|].
    intros j q Hj Hq.
    specialize (Hbefore j (normalize_weight weights q) Hj).
    rewrite list_lookup_fmap, Hq in Hbefore.
    specialize (Hbefore eq_refl). cbn in Hbefore.
    now apply String.eqb_neq.
  - intros q Hq.
    specialize (Hfind (normalize_weight weights q)).
    apply String.eqb_neq. apply Hfind.
    change (map (normalize_weight weights) ps)
      with (normalize_weight weights <$> ps).
    now apply list_elem_of_fmap_2.
Qed.

(** Weighted round robin is exact over a cycle.  For a balancer built by
    [NewBalancer] from a non-empty list, let [N] be the sum of the stored
    weights divided by their gcd.  In any [N] consecutive calls of [Next],
    after any number [k] of earlier calls, every call returns a provider
    and the entry at position [i] is selected exactly [weight / gcd]
    times. *)
Theorem Next_selects_in_proportion_to_weight (ps : list Provider)
    (weights : gmap string Z) :
  ps <> [] ->
  let b0 := NewBalancer ps weights in
  exists N : nat,
    Z.of_nat N * bgcd b0 = total_weight b0 /\
    forall k : nat,
      exists before s (widx : list nat) s',
        Next_n k b0 = Done (before, s) /\
        Next_n N s
        = Done (map (fun i => provider <$> providers b0 !! i) widx, s') /\
        forall i wp,
          providers b0 !! i = Some wp ->
          Z.of_nat (count_occ Nat.eq_dec widx i) * bgcd b0 = weight wp.
Proof.
  intros Hne. cbn zeta.
  destruct ps as [|p [|q rest]]; [congruence | |].
  - (* one provider: the loop does not run *)
    exists 1%nat. rewrite NewBalancer_one.
    split; [cbn; lia|].
    intros k. rewrite <- NewBalancer_one.
    exists (replicate k (Some p)), (NewBalancer [p] weights), [0%nat],
      (NewBalancer [p] weights).
    split; [apply Next_n_single|]. split; [reflexivity|].
    intros [|i] wp Hwp; cbn in Hwp; [|discriminate].
    inversion Hwp; subst. cbn. lia.
  - destruct (NewBalancer_aligned (p :: q :: rest) weights Hne)
      as [Hok Hpos Hdiv Hgr Hle].
    pose proof (NewBalancer_fields p (q :: rest) weights) as Hf.
    cbn zeta in Hf.
    set (b0 := NewBalancer (p :: q :: rest) weights) in *.
    set (wps := map (normalize_weight weights) (p :: q :: rest)) in *.
    assert (Hps : providers b0 = wps) by now rewrite Hf.
    assert (Hshape : b0 = mkBalancer wps 0 (maxWeight b0) (bgcd b0) (-1)).
    { rewrite Hf. reflexivity. }
    destruct (ok_max _ Hok) as (wpm & Hwpm & Hmaxw).
    destruct (Hdiv wpm Hwpm) as [m Hm].
    rewrite Hmaxw in Hm.
    assert (Hm1 : 1 <= m).
    { pose proof (ok_weights _ Hok wpm Hwpm). nia. }
    assert (Hall : forall wp, wp ∈ wps ->
                     (bgcd b0 | weight wp) /\ 1 <= weight wp).
    { intros wp Hwp. rewrite <- Hps in Hwp.
      split; [now apply Hdiv | now apply (ok_weights _ Hok)]. }
    assert (Hle' : forall wp, wp ∈ wps -> weight wp <= maxWeight b0).
    { intros wp Hwp. rewrite <- Hps in Hwp. now apply Hle. }
    rewrite Hps in Hwpm. clear Hdiv Hle.
    exists (length (cycle_picks wps (bgcd b0) m)).
    split.
    + unfold total_weight. rewrite Hps. apply cycle_length; [exact Hpos|].
      intros wp Hwp. destruct (Hall wp Hwp) as [Hd H1].
      split; [exact Hd|]. split; [exact H1|].
      rewrite <- Hm. now apply Hle'.
    + intros k.
      destruct (window_run wps (maxWeight b0) (bgcd b0) m
                  ltac:(subst wps; cbn; lia) Hpos Hm1 Hm
                  ltac:(exists wpm; split; assumption) Hall k b0)
        as (before & s & widx & s' & Hpre & Hwin & Hcount).
      { exists 0, (-1). split; [exact Hshape|]. split; [now left | lia]. }
      exists before, s, widx, s'.
      split; [exact Hpre|]. split; [rewrite Hps; exact Hwin|].
      intros i wp Hwp. rewrite Hcount. rewrite Hps in Hwp.
      assert (Hin : wp ∈ wps) by (apply list_elem_of_lookup; eauto).
      destruct (Hall wp Hin) as ((c & Hc) & H1).
      rewrite (count_cycle wps (bgcd b0) m c i);
        [now rewrite Hc | now apply lookup_lt_Some in Hwp
         | unfold wt; rewrite Hwp; exact Hc | exact Hpos |].
      specialize (Hle' wp Hin). rewrite Hm in Hle'. nia.
Qed.

Lemma Next_selects_in_proportion_to_weight_witness :
  let b0 := NewBalancer test_providers test_weights in
  exists N : nat,
    Z.of_nat N * bgcd b0 = total_weight b0 /\
    forall k : nat,
      exists before s (widx : list nat) s',
        Next_n k b0 = Done (before, s) /\
        Next_n N s
        = Done (map (fun i => provider <$> providers b0 !! i) widx, s') /\
        forall i wp,
          providers b0 !! i = Some wp ->
          Z.of_nat (count_occ Nat.eq_dec widx i) * bgcd b0 = weight wp.
Proof.
  apply (Next_selects_in_proportion_to_weight test_providers test_weights).
  discriminate.
Defined.

End BalancerCycle.

(* ===================================================================== *)
(** * Part X. The router besides [Complete]                                 *)
(* ===================================================================== *)

Module RouterMore.
Import Go Llm BalancerFacts Fixtures RouterFacts.

(** ** Byte strings *)

Lemma length_append (s t : string) :
  String.length (s ++ t) = (String.length s + String.length t)%nat.
Proof.
  induction s as [|a s IH]; [reflexivity|].
  change (String a s ++ t) with (String a (s ++ t)).
  cbn [String.length]. now rewrite IH.
Qed.

Lemma length_substring_0 (n : nat) (s : string) :
  (n <= String.length s)%nat -> String.length (substring 0 n s) = n.
Proof.
  revert s. induction n as [|n IH]; intros s Hn.
  - destruct s; reflexivity.
  - destruct s as [|a s]; cbn [String.length] in Hn; [lia|].
    cbn [substring String.length]. rewrite IH by lia. reflexivity.
Qed.

Lemma substring_0_all (s : string) :
  substring 0 (String.length s) s = s.
Proof.
  induction s as [|a s IH]; [reflexivity|].
  cbn [String.length substring]. now rewrite IH.
Qed.

(** ** [truncateString] *)

(** [truncateString] panics exactly when the bound is negative.  Otherwise
    it returns a string of at most [maxLen + 3] bytes: [s] itself when [s]
    is not longer than the bound, else the first [maxLen] bytes of [s]
    followed by three dots. *)
Theorem truncateString_bounds (s : string) (maxLen : Z) :
  (maxLen < 0 -> truncateString s maxLen = Panic) /\
  (0 <= maxLen ->
   exists t, truncateString s maxLen = Done t /\
             Z.of_nat (String.length t) <= maxLen + 3 /\
             (Z.of_nat (String.length s) <= maxLen -> t = s) /\
             (maxLen < Z.of_nat (String.length s) ->
              t = substring 0 (Z.to_nat maxLen) s ++ "..." /\
              Z.of_nat (String.length t) = maxLen + 3)).
Proof.
  unfold truncateString. split; intros Hm.
  - destruct (Z.leb_spec (Z.of_nat (String.length s)) maxLen); [lia|].
    destruct (Z.ltb_spec maxLen 0); [reflexivity | lia].
  - destruct (Z.leb_spec (Z.of_nat (String.length s)) maxLen).
    + exists s. split; [reflexivity|]. split; [lia|].
      split; [reflexivity | lia].
    + destruct (Z.ltb_spec maxLen 0); [lia|].
      eexists. split; [reflexivity|].
      rewrite length_append, length_substring_0 by lia.
      cbn [String.length]. split; [lia|]. split; [lia|].
      intros _. split; [reflexivity | lia].
Qed.

Lemma truncateString_bounds_witness :
  truncateString "abc" (-1) = Panic /\
  exists t, truncateString "service unavailable" 7 = Done t /\
            Z.of_nat (String.length t) <= 7 + 3 /\
            (Z.of_nat (String.length "service unavailable") <= 7 ->
             t = "service unavailable") /\
            (7 < Z.of_nat (String.length "service unavailable") ->
             t = substring 0 (Z.to_nat 7) "service unavailable" ++ "..." /\
             Z.of_nat (String.length t) = 7 + 3).
Proof.
  split.
  - apply (proj1 (truncateString_bounds "abc" (-1))). lia.
  - apply (proj2 (truncateString_bounds "service unavailable" 7)). lia.
Defined.

(** ** [CompleteWithProvider] *)

Lemma GetByName_name (b : Balancer) (name : string) (p : Provider) :
  GetByName b name = Some p -> Name p = name /\ p ∈ GetAll b.
Proof.
  unfold GetByName, GetAll. intros Hget.
  destruct (find _ (providers b)) as [wp|] eqn:Hfind; [|discriminate].
  cbn in Hget. inversion Hget; subst.
  apply find_some in Hfind. destruct Hfind as [Hin Hname].
  split; [now apply String.eqb_eq|].
  apply list_elem_of_In, in_map, Hin.
Qed.

(** What a call of the backend [p] leaves in the router [r0], the answer
    being [answer]. *)
Definition recorded (r0 r' : Router) (p : Provider)
    (answer : CompletionResult + error) : Prop :=
  match answer with
  | inl _ =>
      successCount r' = incr (successCount r0) (Name p) /\
      errorCount r' = errorCount r0 /\ lastError r' = lastError r0
  | inr err =>
      errorCount r' = incr (errorCount r0) (Name p) /\
      lastError r' = <[Name p := err]> (lastError r0) /\
      successCount r' = successCount r0
  end.

(** [CompleteWithProvider] with the name of a registered provider waits for
    admission, calls that provider exactly once and returns its answer,
    leaving the balancer as it was, so that the rotation is not advanced;
    the call is counted as a success or as an error of that provider.  With
    any other name it is [Complete]. *)
Theorem CompleteWithProvider_named_or_balanced `{Runtime} (r : Router)
    (ctx : Context) (providerName prompt : string) (opts : CompletionOpts)
    (w : World) :
  (GetByName (balancer r) providerName = None ->
   Router_CompleteWithProvider r ctx providerName prompt opts w
   = Router_Complete r ctx prompt opts w) /\
  (forall p, GetByName (balancer r) providerName = Some p ->
     Name p = providerName /\
     exists rl w1 r' w',
       Wait (rateLimiter r) 1%float w = (rl, w1) /\
       Router_CompleteWithProvider r ctx providerName prompt opts w
       = ((Done (fst (Complete p ctx prompt opts w1)), r'), w') /\
       balancer r' = balancer r /\ rateLimiter r' = rl /\
       npcMapping r' = npcMapping r /\
       trace w' = (trace w1 ++ [EvComplete (Name p) prompt])%list /\
       recorded r r' p (fst (Complete p ctx prompt opts w1))).
Proof.
  split.
  - intros Hnone. unfold Router_CompleteWithProvider, Router_Complete.
    rewrite Hnone. reflexivity.
  - intros p Hsome. split; [apply (GetByName_name _ _ _ Hsome)|].
    unfold Router_CompleteWithProvider, bind. rewrite Hsome.
    destruct (Wait (rateLimiter r) 1%float w) as [rl w1].
    exists rl, w1.
    unfold invoke, emit, advance_clock, ret.
    destruct (Complete p ctx prompt opts w1) as [[result|err] took];
      do 2 eexists; (split; [reflexivity|]); (split; [reflexivity|]);
      cbn; repeat split; reflexivity.
Qed.

Lemma CompleteWithProvider_named_or_balanced_witness :
  let r := router_of [mockProvider "a"; mockProvider "b"] unit_weights in
  Router_CompleteWithProvider (H := amd64) r live_ctx "zed" "hello" opts w0
  = Router_Complete (H := amd64) r live_ctx "hello" opts w0 /\
  exists rl w1 r' w',
    Wait (H := amd64) (rateLimiter r) 1%float w0 = (rl, w1) /\
    Router_CompleteWithProvider (H := amd64) r live_ctx "b" "hello" opts w0
    = ((Done (fst (Complete (mockProvider "b") live_ctx "hello" opts w1)),
        r'), w') /\
    balancer r' = balancer r /\ rateLimiter r' = rl /\
    npcMapping r' = npcMapping r /\
    trace w' = (trace w1 ++ [EvComplete "b" "hello"])%list /\
    recorded r r' (mockProvider "b")
      (fst (Complete (mockProvider "b") live_ctx "hello" opts w1)).
Proof.
  cbn zeta.
  pose proof (CompleteWithProvider_named_or_balanced (H := amd64)
                (router_of [mockProvider "a"; mockProvider "b"] unit_weights)
                live_ctx "zed" "hello" opts w0) as [Hnone _].
  pose proof (CompleteWithProvider_named_or_balanced (H := amd64)
                (router_of [mockProvider "a"; mockProvider "b"] unit_weights)
                live_ctx "b" "hello" opts w0) as [_ Hsome].
  split.
  - apply Hnone. reflexivity.
  - apply (Hsome (mockProvider "b")). reflexivity.
Defined.

(** ** The per-NPC mapping *)

(** [SetNPCProvider] with the name of a registered provider assigns it to
    the NPC: [GetProviderForNPC] then returns that provider for this NPC
    without advancing the balancer, and the other NPCs keep what they had.
    With an unknown provider name [SetNPCProvider] changes nothing.  An NPC
    without assignment gets the balancer's next choice. *)
Theorem SetNPCProvider_then_GetProviderForNPC (r : Router)
    (npcName providerName : string) :
  (GetByName (balancer r) providerName = None ->
   SetNPCProvider r npcName providerName = r) /\
  (forall p, GetByName (balancer r) providerName = Some p ->
     let r' := SetNPCProvider r npcName providerName in
     Name p = providerName /\
     GetProviderForNPC r' npcName = (Done (Some p), r') /\
     balancer r' = balancer r /\
     (forall other, other <> npcName ->
        npcMapping r' !! other = npcMapping r !! other)) /\
  (npcMapping r !! npcName = None ->
   forall p b, Next (balancer r) = Done (p, b) ->
     GetProviderForNPC r npcName = (Done p, with_balancer r b)).
Proof.
  split; [|split].
  - intros Hnone. unfold SetNPCProvider. now rewrite Hnone.
  - intros p Hsome. cbn zeta. unfold SetNPCProvider. rewrite Hsome.
    split; [apply (GetByName_name _ _ _ Hsome)|].
    unfold GetProviderForNPC. cbn [npcMapping balancer].
    rewrite lookup_insert_eq.
    split; [reflexivity|]. split; [reflexivity|].
    intros other Hother. now rewrite lookup_insert_ne.
  - intros Hnone p b Hnext. unfold GetProviderForNPC.
    now rewrite Hnone, Hnext.
Qed.

Lemma SetNPCProvider_then_GetProviderForNPC_witness :
  let r := router_of [mockProvider "a"; mockProvider "b"] unit_weights in
  SetNPCProvider r "Scout" "zed" = r /\
  (let r' := SetNPCProvider r "Scout" "b" in
   Name (mockProvider "b") = "b" /\
   GetProviderForNPC r' "Scout" = (Done (Some (mockProvider "b")), r') /\
   balancer r' = balancer r /\
   (forall other, other <> "Scout" ->
      npcMapping r' !! other = npcMapping r !! other)) /\
  GetProviderForNPC r "Scout"
  = (Done (Some (mockProvider "a")),
     with_balancer r
       (mkBalancer (providers (balancer r)) 1 1 1 0)).
Proof.
  cbn zeta.
  pose proof (SetNPCProvider_then_GetProviderForNPC
                (router_of [mockProvider "a"; mockProvider "b"] unit_weights)
                "Scout" "zed") as (Hnone & _ & _).
  pose proof (SetNPCProvider_then_GetProviderForNPC
                (router_of [mockProvider "a"; mockProvider "b"] unit_weights)
                "Scout" "b") as (_ & Hsome & Hfree).
  split; [apply Hnone; reflexivity|].
  split; [apply (Hsome (mockProvider "b")); reflexivity|].
  apply Hfree; reflexivity.
Defined.

(** ** [NewRouter] *)

(** A configuration is loaded when it is enabled and has a key, its own or
    the environment's. *)
Definition is_loaded `{Runtime} `{Os} (cfg : ProviderConfig) : bool :=
  cfgEnabled cfg && negb (String.eqb (resolved_key cfg) "").

Lemma resolved_weight_pos `{Os} (cfg : ProviderConfig) :
  1 <= resolved_weight cfg.
Proof.
  unfold resolved_weight.
  destruct (Z.leb_spec
              (if negb (os_Getenv ("LLM_" ++ strings_ToUpper (cfgName cfg)
                                   ++ "_WEIGHT") =? "")%string
               then match strconv_Atoi
                            (os_Getenv ("LLM_" ++ strings_ToUpper (cfgName cfg)
                                        ++ "_WEIGHT")) with
                    | Some w => if 0 <? w then w else cfgWeight cfg
                    | None => cfgWeight cfg
                    end
               else cfgWeight cfg) 0); lia.
Qed.

Lemma NewRouter_step_spec `{Runtime} `{Os} `{Adapters}
    (loaded : list Provider) (weights : gmap string Z)
    (cfg : ProviderConfig) :
  NewRouter_step (loaded, weights) cfg
  = if is_loaded cfg
    then ((loaded ++ [if String.eqb (cfgProtocol cfg) ProtocolGemini
                      then NewGeminiAdapter
                             (mkProviderConfig (cfgName cfg) "" ""
                                (resolved_key cfg) (resolved_model cfg) 0
                                false)
                      else NewOpenAIAdapter
                             (mkProviderConfig (cfgName cfg) ""
                                (cfgBaseURL cfg) (resolved_key cfg)
                                (resolved_model cfg) 0 false)])%list,
          <[cfgName cfg := resolved_weight cfg]> weights)
    else (loaded, weights).
Proof.
  unfold NewRouter_step, is_loaded.
  destruct (cfgEnabled cfg); [|reflexivity]. cbn [negb andb].
  destruct (String.eqb (resolved_key cfg) ""); reflexivity.
Qed.

Lemma NewRouter_fold `{Runtime} `{Os} `{Adapters}
    (configs : list ProviderConfig) :
  forall (loaded : list Provider) (weights : gmap string Z),
    let '(ps, ws) := fold_left NewRouter_step configs (loaded, weights) in
    map Name ps
    = (map Name loaded ++ map cfgName (List.filter is_loaded configs))%list /\
    (forall n w, ws !! n = Some w ->
       weights !! n = Some w \/
       exists cfg, cfg ∈ configs /\ is_loaded cfg = true /\
                   cfgName cfg = n /\ w = resolved_weight cfg) /\
    (forall n, is_Some (weights !! n) -> is_Some (ws !! n)) /\
    (forall cfg, cfg ∈ configs -> is_loaded cfg = true ->
                 is_Some (ws !! cfgName cfg)).
Proof.
  induction configs as [|cfg configs IH]; intros loaded weights.
  - cbn. rewrite app_nil_r.
    split; [reflexivity|]. split; [now left|]. split; [trivial|].
    intros cfg Hin. inversion Hin.
  - cbn [fold_left List.filter]. rewrite NewRouter_step_spec.
    destruct (is_loaded cfg) eqn:Hl.
    + specialize (IH (loaded ++ [if String.eqb (cfgProtocol cfg) ProtocolGemini
                      then NewGeminiAdapter
                             (mkProviderConfig (cfgName cfg) "" ""
                                (resolved_key cfg) (resolved_model cfg) 0
                                false)
                      else NewOpenAIAdapter
                             (mkProviderConfig (cfgName cfg) ""
                                (cfgBaseURL cfg) (resolved_key cfg)
                                (resolved_model cfg) 0 false)])%list
                     (<[cfgName cfg := resolved_weight cfg]> weights)).
      destruct (fold_left NewRouter_step configs _) as [ps ws].
      destruct IH as (Hnames & Hws & Hkeep & Hall).
      split; [|split; [|split]].
      * rewrite Hnames, map_app, <- app_assoc. cbn [map app].
        destruct (String.eqb (cfgProtocol cfg) ProtocolGemini); reflexivity.
      * intros n w Hn. destruct (Hws n w Hn) as [Hold | (c & Hc & Hcl & Hcn & Hcw)].
        -- destruct (decide (cfgName cfg = n)) as [<- | Hne].
           ++ rewrite lookup_insert_eq in Hold. inversion Hold; subst.
              right. exists cfg. repeat split; [left | exact Hl].
           ++ rewrite lookup_insert_ne in Hold by exact Hne. now left.
        -- right. exists c. repeat split; [now right | exact Hcl | exact Hcn
             | exact Hcw].
      * intros n Hn. apply Hkeep.
        destruct (decide (cfgName cfg = n)) as [<- | Hne].
        -- rewrite lookup_insert_eq. eauto.
        -- now rewrite lookup_insert_ne.
      * intros c Hc Hcl. apply elem_of_cons in Hc.
        destruct Hc as [-> | Hc]; [|now apply Hall].
        apply Hkeep. rewrite lookup_insert_eq. eauto.
    + specialize (IH loaded weights).
      destruct (fold_left NewRouter_step configs _) as [ps ws].
      destruct IH as (Hnames & Hws & Hkeep & Hall).
      split; [exact Hnames|]. split; [|split; [exact Hkeep|]].
      * intros n w Hn. destruct (Hws n w Hn) as [Hold | (c & Hc & Hrest)];
          [now left | right; exists c; split; [now right | exact Hrest]].
      * intros c Hc Hcl. apply elem_of_cons in Hc.
        destruct Hc as [-> | Hc]; [congruence | now apply Hall].
Qed.

(** The variable [getEnvAPIKey] reads for a provider name. *)
Lemma envMap_lookup (name var : string) :
  envMap !! name = Some var <->
  (name, var) ∈ [("groq", "GROQ_API_KEY"); ("sambanova", "SAMBANOVA_API_KEY");
                 ("openrouter", "OPENROUTER_API_KEY");
                 ("huggingface", "HF_API_KEY"); ("nebius", "NEBIUS_API_KEY");
                 ("gemini", "GEMINI_API_KEY"); ("openai", "OPENAI_API_KEY")].
Proof.
  unfold envMap. symmetry. apply elem_of_list_to_map.
  apply (bool_decide_unpack _). vm_compute. exact I.
Qed.

(** [NewRouter] registers exactly the configurations that are enabled and
    have a key, in the order given.  The key is the configured one, else
    what the environment holds under the variable of the provider
    ([GROQ_API_KEY] for [groq], and so on, the name compared in lower
    case).  The weight stored for a provider is at least 1: it is the
    weight resolved for a loaded configuration of the same name, which is
    the value of [LLM_<NAME>_WEIGHT] when that parses to a positive number,
    else the configured weight, else 1.  The router starts with a full
    bucket of five tokens refilled at one per second, no NPC assignment and
    empty statistics. *)
Theorem NewRouter_loads_enabled_with_key `{Runtime} `{Os} `{Adapters}
    (configs : list ProviderConfig) (w : World) :
  let r := fst (NewRouter configs w) in
  GetActiveProviders r = map cfgName (List.filter is_loaded configs) /\
  (forall cfg,
     is_loaded cfg = true <->
     cfgEnabled cfg = true /\
     (cfgAPIKey cfg <> "" \/
      exists var,
        (strings_ToLower (cfgName cfg), var)
        ∈ [("groq", "GROQ_API_KEY"); ("sambanova", "SAMBANOVA_API_KEY");
           ("openrouter", "OPENROUTER_API_KEY");
           ("huggingface", "HF_API_KEY"); ("nebius", "NEBIUS_API_KEY");
           ("gemini", "GEMINI_API_KEY"); ("openai", "OPENAI_API_KEY")] /\
        os_Getenv var <> "")) /\
  (forall wp, wp ∈ providers (balancer r) ->
     1 <= weight wp /\
     exists cfg, cfg ∈ configs /\ is_loaded cfg = true /\
                 cfgName cfg = Name (provider wp) /\
                 weight wp = resolved_weight cfg) /\
  (forall cfg,
     let envWeight :=
       os_Getenv ("LLM_" ++ strings_ToUpper (cfgName cfg) ++ "_WEIGHT") in
     (forall n, envWeight <> "" -> strconv_Atoi envWeight = Some n ->
                0 < n -> resolved_weight cfg = n) /\
     (envWeight = "" \/ strconv_Atoi envWeight = None \/
      (exists n, strconv_Atoi envWeight = Some n /\ n <= 0) ->
      resolved_weight cfg = Z.max 1 (cfgWeight cfg))) /\
  rateLimiter r = mkRateLimiter 5%float 5%float 1%float (clock w) /\
  npcMapping r = ∅ /\ successCount r = ∅ /\ errorCount r = ∅ /\
  lastError r = ∅ /\ snd (NewRouter configs w) = w.
Proof.
  cbn zeta. unfold NewRouter.
  pose proof (NewRouter_fold configs [] ∅) as Hfold.
  destruct (fold_left NewRouter_step configs ([], ∅)) as [ps ws].
  destruct Hfold as (Hnames & Hws & _ & Hall).
  cbn [map app] in Hnames.
  unfold NewRouter_of, NewRateLimiter, bind, ret, time_Now.
  cbn [fst snd balancer rateLimiter npcMapping successCount errorCount
       lastError].
  split; [|split; [|split; [|split; [|repeat split]]]].
  - unfold GetActiveProviders, GetAll. cbn [balancer].
    rewrite NewBalancer_providers, !map_map. cbn [provider normalize_weight].
    exact Hnames.
  - intros cfg. unfold is_loaded, resolved_key, getEnvAPIKey.
    rewrite andb_true_iff, negb_true_iff.
    apply and_iff_compat_l.
    destruct (String.eqb_spec (cfgAPIKey cfg) "") as [Hempty | Hkey].
    + destruct (envMap !! strings_ToLower (cfgName cfg)) as [var|] eqn:Hvar.
      * rewrite String.eqb_neq. split.
        -- intros Hset. right. exists var.
           split; [now apply envMap_lookup | exact Hset].
        -- intros [Hown | (var' & Hin & Hset)]; [contradiction|].
           apply envMap_lookup in Hin. congruence.
      * split; [discriminate|].
        intros [Hown | (var' & Hin & Hset)]; [contradiction|].
        apply envMap_lookup in Hin. congruence.
    + rewrite String.eqb_neq. split; [now left | trivial].
  - intros wp Hwp. cbn [balancer] in Hwp.
    rewrite NewBalancer_providers in Hwp.
    apply list_elem_of_In, in_map_iff in Hwp.
    destruct Hwp as (p & <- & Hp).
    split; [apply normalize_weight_pos|].
    assert (Hname : In (Name p) (map cfgName (List.filter is_loaded configs))).
    { rewrite <- Hnames. now apply in_map. }
    apply in_map_iff in Hname. destruct Hname as (c & Hcn & Hc).
    apply List.filter_In in Hc. destruct Hc as [Hc Hcl].
    destruct (Hall c ltac:(now apply list_elem_of_In) Hcl) as [wgt Hwgt].
    rewrite Hcn in Hwgt.
    destruct (Hws _ _ Hwgt) as [Hold | (c' & Hc' & Hcl' & Hcn' & Hcw')];
      [rewrite lookup_empty in Hold; discriminate|].
    exists c'. split; [exact Hc'|]. split; [exact Hcl'|].
    cbn [provider normalize_weight weight]. split; [exact Hcn'|].
    subst wgt. rewrite Hwgt. unfold default. cbn [from_option id].
    pose proof (resolved_weight_pos c').
    destruct (Z.leb_spec (resolved_weight c') 0); [lia | reflexivity].
  - intros cfg. unfold resolved_weight. cbn zeta. split.
    + intros n Hset Hparse Hpos.
      apply String.eqb_neq in Hset. rewrite Hset, Hparse. cbn [negb].
      destruct (Z.ltb_spec 0 n); [|lia].
      destruct (Z.leb_spec n 0); [lia | reflexivity].
    + intros Hnone.
      assert (Hw : (if negb (String.eqb
                               (os_Getenv ("LLM_" ++ strings_ToUpper (cfgName cfg)
                                           ++ "_WEIGHT")) "")
                    then match strconv_Atoi
                                 (os_Getenv ("LLM_"
                                             ++ strings_ToUpper (cfgName cfg)
                                             ++ "_WEIGHT")) with
                         | Some w0 => if 0 <? w0 then w0 else cfgWeight cfg
                         | None => cfgWeight cfg
                         end
                    else cfgWeight cfg) = cfgWeight cfg).
      { destruct Hnone as [Hempty | [Hbad | (n & Hparse & Hn)]].
        - rewrite Hempty. reflexivity.
        - rewrite Hbad. now destruct (negb _).
        - rewrite Hparse. destruct (Z.ltb_spec 0 n); [lia|].
          now destruct (negb _). }
      rewrite Hw. destruct (Z.leb_spec (cfgWeight cfg) 0); lia.
Qed.

(** An environment that holds a key and a weight for [groq] only. *)
Definition groq_env : Os :=
  {| os_Getenv :=
       fun name =>
         if String.eqb name "GROQ_API_KEY" then "gsk"
         else if String.eqb name "LLM_GROQ_WEIGHT" then "3" else "";
     strings_ToUpper := fun s => if String.eqb s "groq" then "GROQ" else s;
     strings_EqualFold := String.eqb;
     strings_TrimSpace := fun s => s;
     strings_Trim := fun s _ => s;
     strconv_Atoi := fun s => if String.eqb s "3" then Some 3 else None |}.

Definition no_backend : Adapters :=
  {| openai_Complete := fun _ _ _ _ _ => (inr unavailable, 0);
     gemini_Complete := fun _ _ _ _ _ => (inr unavailable, 0) |}.

(** [groq] without a key of its own is loaded with the environment's;
    [nebius] has no key anywhere and [openai] is disabled. *)
Definition three_configs : list ProviderConfig :=
  [mkProviderConfig "groq" ProtocolOpenAI "" "" "llama" 0 true;
   mkProviderConfig "nebius" ProtocolOpenAI "" "" "m" 2 true;
   mkProviderConfig "openai" ProtocolOpenAI "" "sk" "gpt" 1 false].

Lemma NewRouter_loads_enabled_with_key_witness :
  GetActiveProviders
    (fst (NewRouter (H := amd64) (H0 := groq_env) (H1 := no_backend)
            three_configs w0)) = ["groq"] /\
  resolved_weight (H := groq_env)
    (mkProviderConfig "groq" ProtocolOpenAI "" "" "llama" 0 true) = 3.
Proof.
  destruct (NewRouter_loads_enabled_with_key (H := amd64) (H0 := groq_env)
              (H1 := no_backend) three_configs w0)
    as (Hactive & _ & _ & Hweight & _).
  split.
  - rewrite Hactive. vm_compute. reflexivity.
  - apply (proj1 (Hweight (mkProviderConfig "groq" ProtocolOpenAI "" "" "llama"
                             0 true)) 3);
      [discriminate | reflexivity | lia].
Defined.

End RouterMore.

(* ===================================================================== *)
(** * Part XI. The decision cache and the fingerprint                       *)
(* ===================================================================== *)

Module CacheMore.
Import Go Api Fixtures CacheFacts.

(** ** Capacity *)

(** A cache in use: room for at least one entry, not more entries than
    [maxSize], and no entry under the empty key (fingerprints are sixteen
    digits long). *)
Definition within_capacity (c : DecisionCache) : Prop :=
  1 <= maxSize c /\ Z.of_nat (size (entries c)) <= maxSize c /\
  forall k, is_Some (entries c !! k) -> k <> "".

Lemma Set_within_capacity `{Runtime} (c : DecisionCache) (key : string)
    (d : Decision) (w : World) :
  within_capacity c -> key <> "" ->
  within_capacity (fst (Set_ c key d w)) /\
  maxSize (fst (Set_ c key d w)) = maxSize c /\
  ttl (fst (Set_ c key d w)) = ttl c /\
  (forall k, is_Some (entries (fst (Set_ c key d w)) !! k) ->
             k = key \/ is_Some (entries c !! k)) /\
  (Z.of_nat (size (entries c)) < maxSize c ->
   forall k, k <> key ->
             entries (fst (Set_ c key d w)) !! k = entries c !! k).
Proof.
  intros (Hmax & Hsize & Hkeys) Hkey. rewrite Set_unfold.
  destruct (Z.geb_spec (Z.of_nat (size (entries c))) (maxSize c)) as [Hfull|Hroom].
  - assert (Hne : entries c <> ∅).
    { apply map_size_non_empty_iff. lia. }
    destruct (evictOldest_spec (entries c) w Hne Hkeys)
      as (victim & e & Hvictim & _ & ->).
    cbn [fst entries maxSize ttl clock].
    assert (Hdel : size (delete victim (entries c))
                   = pred (size (entries c))).
    { apply map_size_delete_Some. eauto. }
    split; [|split; [reflexivity|split; [reflexivity|split; [|intros Hlt; lia]]]].
    + split; [exact Hmax|]. cbn [entries maxSize]. split.
      * pose proof (map_size_insert key (mkCachedDecision d (clock w) 0)
                      (delete victim (entries c))) as Hins.
        destruct (delete victim (entries c) !! key); unfold id in Hins; lia.
      * intros k [x Hk].
        destruct (decide (k = key)) as [-> | Hne']; [exact Hkey|].
        rewrite lookup_insert_ne in Hk by congruence.
        apply Hkeys. apply lookup_delete_Some in Hk. destruct Hk; eauto.
    + intros k [x Hk].
      destruct (decide (k = key)) as [-> | Hne']; [now left | right].
      rewrite lookup_insert_ne in Hk by congruence.
      apply lookup_delete_Some in Hk. destruct Hk; eauto.
  - cbn [fst entries maxSize ttl].
    split; [|split; [reflexivity|split; [reflexivity|split]]].
    + split; [exact Hmax|]. cbn [entries maxSize]. split.
      * pose proof (map_size_insert key (mkCachedDecision d (clock w) 0)
                      (entries c)) as Hins.
        destruct (entries c !! key); unfold id in Hins; lia.
      * intros k [x Hk].
        destruct (decide (k = key)) as [-> | Hne']; [exact Hkey|].
        rewrite lookup_insert_ne in Hk by congruence. apply Hkeys. eauto.
    + intros k [x Hk].
      destruct (decide (k = key)) as [-> | Hne']; [now left | right].
      rewrite lookup_insert_ne in Hk by congruence. eauto.
    + intros _ k Hk. apply lookup_insert_ne. congruence.
Qed.

Lemma Get_within_capacity (c : DecisionCache) (key : string) (w : World) :
  within_capacity c ->
  within_capacity (snd (fst (Get c key w))) /\
  size (entries (snd (fst (Get c key w)))) = size (entries c) /\
  forall k, is_Some (entries (snd (fst (Get c key w))) !! k)
            <-> is_Some (entries c !! k).
Proof.
  intros (Hmax & Hsize & Hkeys). rewrite Get_unfold.
  destruct (entries c !! key) as [entry|] eqn:E;
    [|cbn; repeat split; auto].
  destruct (clock w - CreatedAt entry >? ttl c);
    [cbn; repeat split; auto|].
  cbn [fst snd entries maxSize].
  assert (Hdom : forall k,
            is_Some (<[key := mkCachedDecision (CDecision entry)
                                 (CreatedAt entry) (HitCount entry + 1)]>
                       (entries c) !! k)
            <-> is_Some (entries c !! k)).
  { intros k. destruct (decide (k = key)) as [-> | Hne].
    - rewrite lookup_insert_eq, E. split; eauto.
    - now rewrite lookup_insert_ne by congruence. }
  assert (Hsz : size (<[key := mkCachedDecision (CDecision entry)
                                 (CreatedAt entry) (HitCount entry + 1)]>
                        (entries c)) = size (entries c)).
  { apply map_size_insert_Some. eauto. }
  split; [|split; [exact Hsz | exact Hdom]].
  split; [exact Hmax|]. cbn [entries maxSize]. split; [lia|].
  intros k Hk. apply Hkeys, Hdom, Hk.
Qed.

(** The cache never outgrows its capacity.  A cache built by
    [NewDecisionCache] with room for at least one entry is within capacity;
    [Set] under a fingerprint and [Get] keep it so, [Set] keeping the
    configuration and adding no key but its own, and [Get] keeping the set
    of keys.  While there is room, [Set] touches no other entry. *)
Theorem cache_stays_within_capacity `{Runtime} `{External} :
  (forall maxSize ttl, 1 <= maxSize ->
     within_capacity (NewDecisionCache maxSize ttl)) /\
  (forall (c : DecisionCache) (obs : Observation) (d : Decision) (w : World),
     within_capacity c ->
     let c' := fst (Set_ c (hashObservation obs) d w) in
     within_capacity c' /\ maxSize c' = maxSize c /\ ttl c' = ttl c /\
     (forall k, is_Some (entries c' !! k) ->
                k = hashObservation obs \/ is_Some (entries c !! k)) /\
     (Z.of_nat (size (entries c)) < maxSize c ->
      forall k, k <> hashObservation obs ->
                entries c' !! k = entries c !! k)) /\
  (forall (c : DecisionCache) (key : string) (w : World),
     within_capacity c ->
     let c' := snd (fst (Get c key w)) in
     within_capacity c' /\ size (entries c') = size (entries c) /\
     forall k, is_Some (entries c' !! k) <-> is_Some (entries c !! k)).
Proof.
  split; [|split].
  - intros maxSize ttl Hmax. unfold within_capacity, NewDecisionCache.
    cbn [Api.maxSize entries]. rewrite map_size_empty.
    split; [exact Hmax|]. split; [lia|].
    intros k [x Hk]. rewrite lookup_empty in Hk. discriminate.
  - intros c obs d w Hc. cbn zeta.
    apply Set_within_capacity; [exact Hc | apply hashObservation_nonempty].
  - intros c key w Hc. cbn zeta. now apply Get_within_capacity.
Qed.

Lemma full_cache_within_capacity : within_capacity full_cache.
Proof.
  split; [vm_compute; discriminate|]. split; [vm_compute; discriminate|].
  intros k Hk. destruct (full_cache_keys k Hk) as [-> | ->];
    vm_compute; discriminate.
Qed.

Lemma cache_stays_within_capacity_witness :
  within_capacity (NewDecisionCache 100 (10 * Second)) /\
  within_capacity (fst (Set_ (H := amd64) full_cache (fp obs_new) explore w0)) /\
  within_capacity (snd (fst (Get full_cache (fp obs_k1) w0))).
Proof.
  destruct (cache_stays_within_capacity (H := amd64) (H0 := all_down))
    as (Hnew & Hset & Hget).
  split; [apply Hnew; lia|].
  split.
  - apply (Hset full_cache obs_new explore w0 full_cache_within_capacity).
  - apply (Hget full_cache (fp obs_k1) w0 full_cache_within_capacity).
Defined.

(** ** [Set] and then [Get] *)

(** Whatever the cache holds, after [Set] of a key the entry under this key
    is the decision just set, created at the time of the call and with no
    hit; [Set] takes no time and calls nothing.  [Get] of the key at any
    time at which the age does not exceed the time to live returns this
    decision and counts the first hit. *)
Theorem Set_then_Get `{Runtime} (c : DecisionCache) (key : string)
    (d : Decision) (w w2 : World) :
  clock w2 - clock w <= ttl c ->
  exists c' w',
    Set_ c key d w = (c', w') /\
    entries c' !! key = Some (mkCachedDecision d (clock w) 0) /\
    clock w' = clock w /\ trace w' = trace w /\
    Get c' key w2
    = ((Some (mkCachedDecision d (clock w) 1),
        mkDecisionCache
          (<[key := mkCachedDecision d (clock w) 1]> (entries c'))
          (maxSize c) (ttl c)), w2).
Proof.
  intros Hage. rewrite Set_unfold.
  assert (Hw : exists es w1,
            (if Z.of_nat (size (entries c)) >=? maxSize c
             then evictOldest (entries c) w else (entries c, w)) = (es, w1) /\
            clock w1 = clock w /\ trace w1 = trace w).
  { destruct (Z.of_nat (size (entries c)) >=? maxSize c).
    - unfold evictOldest.
      destruct (fold_left older _ _) as [k t].
      do 2 eexists. split; [reflexivity|]. split; reflexivity.
    - do 2 eexists. split; [reflexivity|]. split; reflexivity. }
  destruct Hw as (es & w1 & -> & Hc & Ht).
  do 2 eexists. split; [reflexivity|].
  cbn [entries]. rewrite lookup_insert_eq, Hc.
  split; [reflexivity|]. split; [reflexivity|]. split; [exact Ht|].
  rewrite Get_unfold. cbn [entries ttl maxSize].
  rewrite lookup_insert_eq. cbn [CreatedAt CDecision HitCount].
  destruct (Z.gtb_spec (clock w2 - clock w) (ttl c)); [lia|].
  reflexivity.
Qed.

Lemma Set_then_Get_witness :
  exists c' w',
    Set_ (H := amd64) full_cache (fp obs_new) explore (mkWorld 7 [] 0)
    = (c', w') /\
    entries c' !! fp obs_new = Some (mkCachedDecision explore 7 0) /\
    clock w' = 7 /\ trace w' = [] /\
    Get c' (fp obs_new) (mkWorld 9 [] 0)
    = ((Some (mkCachedDecision explore 7 1),
        mkDecisionCache
          (<[fp obs_new := mkCachedDecision explore 7 1]> (entries c'))
          (maxSize full_cache) (ttl full_cache)), mkWorld 9 [] 0).
Proof.
  apply (Set_then_Get (H := amd64) full_cache (fp obs_new) explore
           (mkWorld 7 [] 0) (mkWorld 9 [] 0)).
  vm_compute. discriminate.
Defined.

(** ** What the fingerprint depends on *)

Lemma fingerprint_key_agree `{Runtime} (obs1 obs2 : Observation) :
  obs1 !! "pos" = obs2 !! "pos" ->
  obs1 !! "name" = obs2 !! "name" ->
  obs1 !! "nearby_gates" = obs2 !! "nearby_gates" ->
  fingerprint_key obs1 = fingerprint_key obs2.
Proof.
  intros Hpos Hname Hgates.
  unfold fingerprint_key, getArray, getString, getArrayOfMaps.
  cbn zeta. unfold Observation in *.
  rewrite Hpos, Hname, Hgates. reflexivity.
Qed.

(** The fingerprint is sixteen bytes long and reads only the position, the
    name and the nearby gates: two observations that agree on these three
    fields have the same fingerprint, whatever else they hold, the
    [npc_id] included. *)
Theorem hashObservation_reads_three_fields `{Runtime} `{External}
    (obs1 obs2 : Observation) :
  String.length (hashObservation obs1) = 16%nat /\
  (obs1 !! "pos" = obs2 !! "pos" ->
   obs1 !! "name" = obs2 !! "name" ->
   obs1 !! "nearby_gates" = obs2 !! "nearby_gates" ->
   hashObservation obs1 = hashObservation obs2).
Proof.
  split; [apply hashObservation_length|].
  intros Hpos Hname Hgates. unfold hashObservation.
  now rewrite (fingerprint_key_agree obs1 obs2).
Qed.

Lemma hashObservation_reads_three_fields_witness :
  hashObservation (H := amd64) (H0 := all_down) obs_k2
  = hashObservation (H := amd64) (H0 := all_down)
      (<["npc_id" := VString "npc-9"]> (<["energy" := VInt 40]> obs_k2)).
Proof.
  apply (hashObservation_reads_three_fields (H := amd64) (H0 := all_down)
           obs_k2
           (<["npc_id" := VString "npc-9"]> (<["energy" := VInt 40]> obs_k2)));
    reflexivity.
Defined.

(** ** The order of the gates *)

Lemma ascii_compare_trans (a b c : ascii) :
  Ascii.compare a b <> Gt -> Ascii.compare b c <> Gt ->
  Ascii.compare a c <> Gt.
Proof.
  unfold Ascii.compare. rewrite !N.compare_le_iff. lia.
Qed.

Lemma ascii_compare_Eq (a b : ascii) : Ascii.compare a b = Eq -> a = b.
Proof.
  unfold Ascii.compare. intros Heq. apply N.compare_eq in Heq.
  rewrite <- (ascii_N_embedding a), <- (ascii_N_embedding b). now f_equal.
Qed.

Lemma ascii_compare_Lt_trans (a b c : ascii) :
  Ascii.compare a b = Lt -> Ascii.compare b c <> Gt -> Ascii.compare a c = Lt.
Proof.
  unfold Ascii.compare. rewrite !N.compare_le_iff, !N.compare_lt_iff. lia.
Qed.

Lemma ascii_compare_le_Lt_trans (a b c : ascii) :
  Ascii.compare a b <> Gt -> Ascii.compare b c = Lt -> Ascii.compare a c = Lt.
Proof.
  unfold Ascii.compare. rewrite !N.compare_le_iff, !N.compare_lt_iff. lia.
Qed.

Lemma string_compare_trans (s1 : string) :
  forall s2 s3, String.compare s1 s2 <> Gt -> String.compare s2 s3 <> Gt ->
                String.compare s1 s3 <> Gt.
Proof.
  induction s1 as [|a s1 IH]; intros [|b s2] [|c s3]; cbn [String.compare];
    try congruence.
  destruct (Ascii.compare a b) eqn:Eab; try congruence;
    destruct (Ascii.compare b c) eqn:Ebc; try congruence; intros H12 H23.
  - apply ascii_compare_Eq in Eab, Ebc. subst.
    replace (Ascii.compare c c) with Eq
      by (symmetry; unfold Ascii.compare; apply N.compare_refl).
    now apply (IH s2 s3).
  - apply ascii_compare_Eq in Eab. subst. rewrite Ebc. congruence.
  - apply ascii_compare_Eq in Ebc. subst. rewrite Eab. congruence.
  - rewrite (ascii_compare_Lt_trans a b c Eab) by congruence. congruence.
Qed.

Lemma leb_compare (s1 s2 : string) :
  String.leb s1 s2 = true <-> String.compare s1 s2 <> Gt.
Proof.
  unfold String.leb. destruct (String.compare s1 s2); split; congruence.
Qed.

Definition le_string (s1 s2 : string) : Prop := String.leb s1 s2 = true.

#[local] Instance le_string_trans : Transitive le_string.
Proof.
  intros s1 s2 s3. unfold le_string. rewrite !leb_compare.
  apply string_compare_trans.
Qed.

#[local] Instance le_string_antisym : AntiSymm eq le_string.
Proof. intros s1 s2. apply String.leb_antisym. Qed.

Lemma insert_sorted_perm (s : string) (l : list string) :
  insert_sorted s l ≡ₚ s :: l.
Proof.
  induction l as [|x l IH]; [reflexivity|].
  cbn [insert_sorted]. destruct (String.leb s x); [reflexivity|].
  rewrite IH. apply Permutation_swap.
Qed.

Lemma insert_sorted_Sorted (s : string) (l : list string) :
  Sorted le_string l -> Sorted le_string (insert_sorted s l).
Proof.
  induction l as [|x l IH]; intros Hl.
  - repeat constructor.
  - cbn [insert_sorted]. destruct (String.leb s x) eqn:E.
    + constructor; [exact Hl | constructor; exact E].
    + assert (Hxs : le_string x s).
      { destruct (String.leb_total s x) as [H1 | H1]; [congruence | exact H1]. }
      inversion Hl as [|? ? Hl' Hhd]; subst.
      constructor; [now apply IH|].
      destruct l as [|y l]; cbn [insert_sorted].
      * constructor. exact Hxs.
      * inversion Hhd; subst.
        destruct (String.leb s y); constructor; assumption.
Qed.

Lemma sort_Strings_spec (l : list string) :
  Sorted le_string (sort_Strings l) /\ sort_Strings l ≡ₚ l.
Proof.
  induction l as [|s l [IH1 IH2]]; [split; [constructor | reflexivity]|].
  cbn [sort_Strings foldr]. fold (sort_Strings l).
  split; [now apply insert_sorted_Sorted|].
  rewrite insert_sorted_perm. now rewrite IH2.
Qed.

Lemma sort_Strings_perm (l1 l2 : list string) :
  l1 ≡ₚ l2 -> sort_Strings l1 = sort_Strings l2.
Proof.
  intros Hperm.
  destruct (sort_Strings_spec l1) as [S1 P1].
  destruct (sort_Strings_spec l2) as [S2 P2].
  apply (Sorted_unique le_string); [exact S1 | exact S2|].
  now rewrite P1, P2.
Qed.

(** The entries of [gateKeys] before sorting: one for every nearby gate
    that is a map and is not unlocked. *)
Definition locked_gate_keys `{Runtime} (obs : Observation) : list string :=
  map gate_key
    (filter (fun g => getBool g "unlocked" = false)
       (getArrayOfMaps obs "nearby_gates")).

(** The fingerprint does not depend on the order of the nearby gates, nor
    on the gates that are unlocked: two observations with the same position
    and name whose locked gates give the same keys (identifier and
    distance rounded down to the grid), in any order, have the same
    fingerprint. *)
Theorem hashObservation_ignores_gate_order `{Runtime} `{External}
    (obs1 obs2 : Observation) :
  obs1 !! "pos" = obs2 !! "pos" ->
  obs1 !! "name" = obs2 !! "name" ->
  locked_gate_keys obs1 ≡ₚ locked_gate_keys obs2 ->
  hashObservation obs1 = hashObservation obs2.
Proof.
  intros Hpos Hname Hgates.
  unfold hashObservation. f_equal. f_equal. f_equal.
  unfold fingerprint_key, getArray, getString. cbn zeta.
  unfold Observation in *. rewrite Hpos, Hname.
  fold (locked_gate_keys obs1). fold (locked_gate_keys obs2).
  now rewrite (sort_Strings_perm _ _ Hgates).
Qed.

(** Two gates listed in either order, and an unlocked gate besides. *)
Definition gate (id : string) (distance : float) (unlocked : bool) : Value :=
  VObject [("id", VString id); ("distance", VNumber distance);
           ("unlocked", VBool unlocked)].

Lemma hashObservation_ignores_gate_order_witness :
  hashObservation (H := amd64) (H0 := all_down)
    (<["nearby_gates" :=
         VArray [gate "g2" 180%float false; gate "g1" 60%float false]]>
       obs_k1)
  = hashObservation (H := amd64) (H0 := all_down)
      (<["nearby_gates" :=
           VArray [gate "g1" 99%float false; gate "g9" 10%float true;
                   gate "g2" 151%float false]]>
         obs_k1).
Proof.
  apply (hashObservation_ignores_gate_order (H := amd64) (H0 := all_down));
    [reflexivity | reflexivity |].
  vm_compute. apply Permutation_swap.
Defined.

End CacheMore.

(* ===================================================================== *)
(** * Part XII. The batch decision system: fallback and distribution        *)
(* ===================================================================== *)

Module BatchMore.
Import Go Api Fixtures CacheFacts BatchFacts.

(** ** [callLLMWithFallback] *)

Definition call_events (prompt : string) (names : list string)
    : list Event :=
  map (fun name => EvCallWithContext name prompt) names.

(** The providers the fallback loop may try, in order: those whose name is
    not that of the primary. *)
Definition others (a : Provider) (ps : list Provider) : list string :=
  filter (fun name => name <> Name a) (map Name ps).

Lemma others_cons (a p : Provider) (ps : list Provider) :
  others a (p :: ps)
  = if String.eqb (Name p) (Name a) then others a ps
    else Name p :: others a ps.
Proof.
  unfold others. cbn [map]. rewrite filter_cons.
  destruct (String.eqb_spec (Name p) (Name a)) as [Heq | Hne];
    destruct (decide (Name p <> Name a)); try reflexivity; contradiction.
Qed.

Lemma callWithContext_unfold `{External} (ctx : Context) (p : Provider)
    (prompt : string) (w : World) :
  callWithContext ctx p prompt w
  = (fst (callWithContext_reply w ctx p prompt),
     mkWorld (clock w + Z.max (snd (callWithContext_reply w ctx p prompt)) 0)
       (trace w ++ [EvCallWithContext (Name p) prompt]) (ranges w)).
Proof.
  unfold callWithContext, emit, advance_clock.
  destruct (callWithContext_reply w ctx p prompt) as [res took]. reflexivity.
Qed.

(** The loop over [slmProviders], the primary being [a]. *)
Lemma fallback_loop_order `{External} (ps : list Provider) (a : Provider)
    (ctx : Context) (prompt : string) :
  forall w : World,
  exists called res w',
    fallback_loop ps (Some a) ctx prompt w = (Done res, w') /\
    trace w' = (trace w ++ call_events prompt called)%list /\
    ranges w' = ranges w /\ clock w <= clock w' /\
    called `prefix_of` others a ps /\
    match res with
    | inl response =>
        exists (p : Provider) (w1 : World),
          p ∈ ps /\ last called = Some (Name p) /\
          fst (callWithContext_reply w1 ctx p prompt) = inl response
    | inr err =>
        (err = all_providers_failed /\ called = others a ps) \/
        Context_Err ctx (clock w') = Some err
    end.
Proof.
  induction ps as [|p ps IH]; intros w.
  - exists [], (inr all_providers_failed), w.
    split; [reflexivity|]. split; [now rewrite app_nil_r|].
    split; [reflexivity|]. split; [lia|].
    split; [reflexivity | now left].
  - cbn [fallback_loop]. rewrite others_cons.
    destruct (String.eqb (Name p) (Name a)).
    + destruct (IH w) as (called & res & w' & Hrun & Htr & Hrg & Hclk & Hpre & Hres).
      exists called, res, w'. split; [exact Hrun|].
      split; [exact Htr|]. split; [exact Hrg|]. split; [exact Hclk|].
      split; [exact Hpre|].
      destruct res as [response | err]; [|exact Hres].
      destruct Hres as (q & w1 & Hq & Hlast & Hreply).
      exists q, w1. split; [now right | split; assumption].
    + unfold bind at 1. unfold ctx_Err at 1.
      destruct (Context_Err ctx (clock w)) as [err|] eqn:Hctx.
      * exists [], (inr err), w.
        split; [reflexivity|]. split; [now rewrite app_nil_r|].
        split; [reflexivity|]. split; [lia|].
        split; [apply prefix_nil | now right].
      * unfold bind at 1. rewrite callWithContext_unfold.
        destruct (fst (callWithContext_reply w ctx p prompt))
          as [response | err] eqn:Hreply.
        -- eexists [Name p], (inl response), _.
           split; [reflexivity|]. cbn [trace ranges clock call_events map].
           split; [reflexivity|]. split; [reflexivity|]. split; [lia|].
           split; [apply prefix_cons, prefix_nil|].
           exists p, w. split; [left | split; [reflexivity | exact Hreply]].
        -- match goal with |- context [fallback_loop ps _ _ _ ?w1] =>
             destruct (IH w1)
               as (called & res & w' & Hrun & Htr & Hrg & Hclk & Hpre & Hres)
           end.
           cbn [trace ranges clock] in Htr, Hrg, Hclk.
           exists (Name p :: called), res, w'. split; [exact Hrun|].
           split; [rewrite Htr, <- app_assoc; reflexivity|].
           split; [exact Hrg|]. split; [lia|].
           split; [now apply prefix_cons|].
           destruct res as [response | err'].
           ++ destruct Hres as (q & w1 & Hq & Hlast & Hq').
              exists q, w1. split; [now right|]. split; [|exact Hq'].
              destruct called as [|c called]; [discriminate Hlast|].
              exact Hlast.
           ++ destruct Hres as [[-> ->] | Hdone]; [now left | now right].
Qed.

(** ** Trying candidates in order until one answers *)

(** How a run over the candidates ends: with an answer, with the error of
    the last candidate when all have failed, or with the error that stopped
    it before a further candidate was asked. *)
Inductive Outcome : Type :=
| Answered (response : string)
| Exhausted (last : error)
| Interrupted (err : error).

Section FirstAnswer.
Context {P : Type}.
Variable ask : P -> World -> (string + error) * World.
Variable stop : World -> option error.

(** [first_answer candidates w tried out w']: starting in [w], the
    candidates are asked in order, each in the world its predecessor left;
    [tried] are those asked, [out] is how the run ends and [w'] where.
    The run ends at the first answer.  After a failure it goes on to the
    next candidate unless [stop] holds an error. *)
Inductive first_answer
    : list P -> World -> list P -> Outcome -> World -> Prop :=
| fa_answered p rest w response w' :
    ask p w = (inl response, w') ->
    first_answer (p :: rest) w [p] (Answered response) w'
| fa_exhausted p w err w' :
    ask p w = (inr err, w') ->
    first_answer [p] w [p] (Exhausted err) w'
| fa_interrupted p q rest w err w' err' :
    ask p w = (inr err, w') -> stop w' = Some err' ->
    first_answer (p :: q :: rest) w [p] (Interrupted err') w'
| fa_next p q rest w err w1 tried out w' :
    ask p w = (inr err, w1) -> stop w1 = None ->
    first_answer (q :: rest) w1 tried out w' ->
    first_answer (p :: q :: rest) w (p :: tried) out w'.

(** The relation leaves no choice. *)
Lemma first_answer_unique (candidates : list P) (w : World)
    (tried1 tried2 : list P) (out1 out2 : Outcome) (w1 w2 : World) :
  first_answer candidates w tried1 out1 w1 ->
  first_answer candidates w tried2 out2 w2 ->
  tried1 = tried2 /\ out1 = out2 /\ w1 = w2.
Proof.
  intros H1. revert tried2 out2 w2.
  induction H1 as [p rest w response w' Hask
                  | p w err w' Hask
                  | p q rest w err w' err' Hask Hstop
                  | p q rest w err w1' tried out w' Hask Hstop Hrest IH];
    intros tried2 out2 w2 H2; inversion H2; subst;
    try (rewrite Hask in *; congruence);
    try match goal with
        | Ha : ask ?p ?w = _, Hb : ask ?p ?w = _ |- _ =>
            rewrite Ha in Hb; inversion Hb; subst
        end;
    try congruence; try (repeat split; congruence).
  match goal with
  | Hr : first_answer (q :: rest) _ _ _ _ |- _ =>
      destruct (IH _ _ _ Hr) as (-> & -> & ->)
  end.
  repeat split; reflexivity.
Qed.

(** Those asked are the first candidates, and at least one. *)
Lemma first_answer_prefix (candidates : list P) (w : World)
    (tried : list P) (out : Outcome) (w' : World) :
  first_answer candidates w tried out w' ->
  tried `prefix_of` candidates /\ tried <> [] /\
  (forall last, out = Exhausted last -> tried = candidates).
Proof.
  induction 1 as [p rest w response w' Hask
                 | p w err w' Hask
                 | p q rest w err w' err' Hask Hstop
                 | p q rest w err w1' tried out w' Hask Hstop Hrest IH].
  - split; [apply prefix_cons, prefix_nil|]. split; discriminate.
  - split; [reflexivity|]. split; [discriminate | reflexivity].
  - split; [apply prefix_cons, prefix_nil|]. split; discriminate.
  - destruct IH as (Hpre & _ & Hall).
    split; [now apply prefix_cons|]. split; [discriminate|].
    intros last Hlast. now rewrite (Hall last Hlast).
Qed.

End FirstAnswer.

(** The providers that are tried after [provider] has failed: those of the
    list that bear another name. *)
Definition backups (provider : Provider) (ps : list Provider)
    : list Provider :=
  List.filter (fun p => negb (String.eqb (Name p) (Name provider))) ps.

(** What [callLLMWithFallback] returns for an outcome. *)
Definition fallback_result (out : Outcome) : string + error :=
  match out with
  | Answered response => inl response
  | Exhausted _ => inr all_providers_failed
  | Interrupted err => inr err
  end.

Lemma first_answer_call_events `{External} (ctx : Context) (prompt : string)
    (stop : World -> option error) (candidates : list Provider) (w : World)
    (tried : list Provider) (out : Outcome) (w' : World) :
  first_answer (fun p => callWithContext ctx p prompt) stop candidates w
    tried out w' ->
  trace w' = (trace w ++ call_events prompt (map Name tried))%list.
Proof.
  induction 1 as [p rest w response w' Hask
                 | p w err w' Hask
                 | p q rest w err w' err' Hask Hstop
                 | p q rest w err w1' tried out w' Hask Hstop Hrest IH];
    rewrite callWithContext_unfold in Hask; inversion Hask; subst;
    try reflexivity.
  rewrite IH. cbn [trace map call_events]. now rewrite <- app_assoc.
Qed.

(** The loop over [slmProviders] after the primary [a] has failed. *)
Lemma fallback_loop_first_answer `{External} (ps : list Provider)
    (a : Provider) (ctx : Context) (prompt : string) :
  forall w : World,
  (backups a ps = [] ->
   fallback_loop ps (Some a) ctx prompt w
   = (Done (inr all_providers_failed), w)) /\
  (backups a ps <> [] ->
   forall err, Context_Err ctx (clock w) = Some err ->
   fallback_loop ps (Some a) ctx prompt w = (Done (inr err), w)) /\
  (backups a ps <> [] -> Context_Err ctx (clock w) = None ->
   exists tried out w',
     first_answer (fun p => callWithContext ctx p prompt)
       (fun w1 => Context_Err ctx (clock w1)) (backups a ps) w tried out w' /\
     fallback_loop ps (Some a) ctx prompt w
     = (Done (fallback_result out), w')).
Proof.
  induction ps as [|p ps IH]; intros w.
  - split; [reflexivity|]. split; intros Hne; now contradiction Hne.
  - cbn [fallback_loop backups List.filter].
    fold (backups a ps).
    destruct (String.eqb (Name p) (Name a)); cbn [negb]; [apply IH|].
    split; [discriminate|]. unfold bind, ctx_Err. cbv beta iota.
    split.
    + intros _ err Hctx. now rewrite Hctx.
    + intros _ Hctx. rewrite Hctx.
      destruct (callWithContext ctx p prompt w) as [[response | err] w1]
        eqn:Hask; cbv beta iota.
      * exists [p], (Answered response), w1.
        split; [apply fa_answered; exact Hask | reflexivity].
      * destruct (IH w1) as (Hnone & Hstop & Hgo).
        destruct (backups a ps) as [|q rest] eqn:Hbackups.
        -- exists [p], (Exhausted err), w1.
           split; [apply fa_exhausted; exact Hask | apply Hnone; reflexivity].
        -- destruct (Context_Err ctx (clock w1)) as [err'|] eqn:Hctx1.
           ++ exists [p], (Interrupted err'), w1.
              split; [eapply fa_interrupted; [exact Hask | exact Hctx1]|].
              apply Hstop; [discriminate | reflexivity].
           ++ destruct (Hgo ltac:(discriminate) eq_refl)
                as (tried & out & w' & Hfirst & Hrun).
              exists (p :: tried), out, w'.
              split; [eapply fa_next; [exact Hask | exact Hctx1 | exact Hfirst]
                    | exact Hrun].
Qed.

(** [callLLMWithFallback] asks the primary provider first and then the
    other providers in the order of [slmProviders], skipping every provider
    that bears the primary's name, each in the world its predecessor left.
    It stops at the first answer and returns it.  After a failure it goes
    on to the next provider unless the context is done, in which case it
    returns the context's error; when every provider has failed it returns
    "all providers failed".  The events are the calls to the providers
    asked, in order.  Without a primary it panics on the first provider of
    a non-empty list and fails at once on an empty one. *)
Theorem callLLMWithFallback_tries_in_order `{External} (m : Manager)
    (ctx : Context) (prompt : string) (expectedCount : Z) (w : World) :
  (forall a, activeSLM m = Some a ->
     exists tried out w',
       first_answer (fun p => callWithContext ctx p prompt)
         (fun w1 => Context_Err ctx (clock w1))
         (a :: backups a (slmProviders m)) w tried out w' /\
       callLLMWithFallback m ctx prompt expectedCount w
       = (Done (match out with
                | Answered response => inl response
                | Exhausted _ => inr "all providers failed"
                | Interrupted err => inr err
                end), w') /\
       trace w' = (trace w ++ call_events prompt (map Name tried))%list /\
       tried `prefix_of` (a :: backups a (slmProviders m)) /\
       (forall last, out = Exhausted last ->
          tried = a :: backups a (slmProviders m))) /\
  (activeSLM m = None -> slmProviders m = [] ->
   callLLMWithFallback m ctx prompt expectedCount w
   = (Done (inr all_providers_failed), w)) /\
  (activeSLM m = None -> slmProviders m <> [] ->
   callLLMWithFallback m ctx prompt expectedCount w = (Panic, w)).
Proof.
  split; [|split].
  - intros a Ha.
    assert (Hrun : exists tried out w',
               first_answer (fun p => callWithContext ctx p prompt)
                 (fun w1 => Context_Err ctx (clock w1))
                 (a :: backups a (slmProviders m)) w tried out w' /\
               callLLMWithFallback m ctx prompt expectedCount w
               = (Done (fallback_result out), w')).
    { unfold callLLMWithFallback. rewrite Ha. unfold bind at 1.
      destruct (callWithContext ctx a prompt w) as [[response | err] w1]
        eqn:Hask; cbv beta iota.
      - exists [a], (Answered response), w1.
        split; [apply fa_answered; exact Hask | reflexivity].
      - destruct (fallback_loop_first_answer (slmProviders m) a ctx prompt w1)
          as (Hnone & Hstop & Hgo).
        destruct (backups a (slmProviders m)) as [|q rest] eqn:Hbackups.
        + exists [a], (Exhausted err), w1.
          split; [apply fa_exhausted; exact Hask | apply Hnone; reflexivity].
        + destruct (Context_Err ctx (clock w1)) as [err'|] eqn:Hctx1.
          * exists [a], (Interrupted err'), w1.
            split; [eapply fa_interrupted; [exact Hask | exact Hctx1]
                  | apply Hstop; [discriminate | reflexivity]].
          * destruct (Hgo ltac:(discriminate) eq_refl)
              as (tried & out & w' & Hfirst & Hrun).
            exists (a :: tried), out, w'.
            split; [eapply fa_next; [exact Hask | exact Hctx1 | exact Hfirst]
                    | exact Hrun]. }
    destruct Hrun as (tried & out & w' & Hfirst & Hrun).
    exists tried, out, w'. split; [exact Hfirst|].
    split; [rewrite Hrun; now destruct out|].
    split; [exact (first_answer_call_events _ _ _ _ _ _ _ _ Hfirst)|].
    destruct (first_answer_prefix _ _ _ _ _ _ _ Hfirst) as (Hpre & _ & Hall).
    split; assumption.
  - intros Ha Hps. unfold callLLMWithFallback. rewrite Ha, Hps. reflexivity.
  - intros Ha Hps. unfold callLLMWithFallback. rewrite Ha.
    destruct (slmProviders m); [congruence | reflexivity].
Qed.

(** An outside world in which only [nebius] answers, after one second. *)
Definition nebius : Provider := mkProvider "nebius" "" "key" "m" true.

Definition only_nebius : External :=
  {| callProvider_reply :=
       fun _ p _ =>
         if String.eqb (Name p) "nebius" then (inl "{}", Second)
         else (inr unavailable, 0);
     callWithContext_reply :=
       fun _ _ p _ =>
         if String.eqb (Name p) "nebius" then (inl "{}", Second)
         else (inr unavailable, 0);
     sha256_json := name_digest;
     sha256_json_length := name_digest_length;
     buildFlexibleMultiNPCPrompt := fun _ => "prompt";
     parseMultiNPCResponse := fun _ obs => Done (map DefaultDecision obs) |}.

(** The primary [groq] is down and [nebius], the third of the list,
    answers: [groq] is asked once, then [other], then [nebius]. *)
Definition three_providers : Manager :=
  mkManager [groq; mkProvider "other" "" "key" "m" true; nebius] (Some groq).

Lemma callLLMWithFallback_tries_in_order_witness :
  exists w',
    callLLMWithFallback (H := only_nebius) three_providers live_ctx "prompt"
      1 w0
    = (Done (inl "{}"), w') /\
    trace w' = [EvCallWithContext "groq" "prompt";
                EvCallWithContext "other" "prompt";
                EvCallWithContext "nebius" "prompt"].
Proof.
  destruct (proj1 (callLLMWithFallback_tries_in_order (H := only_nebius)
                     three_providers live_ctx "prompt" 1 w0) groq eq_refl)
    as (tried & out & w' & Hfirst & Hrun & Htrace & _).
  exists w'.
  assert (Hthis : first_answer
                    (fun p => callWithContext (H := only_nebius) live_ctx p
                                "prompt")
                    (fun w1 => Context_Err live_ctx (clock w1))
                    (groq :: backups groq (slmProviders three_providers)) w0
                    [groq; mkProvider "other" "" "key" "m" true; nebius]
                    (Answered "{}")
                    (mkWorld Second
                       [EvCallWithContext "groq" "prompt";
                        EvCallWithContext "other" "prompt";
                        EvCallWithContext "nebius" "prompt"] 0)).
  { eapply fa_next; [reflexivity | reflexivity|].
    eapply fa_next; [reflexivity | reflexivity|].
    eapply fa_answered. reflexivity. }
  destruct (first_answer_unique _ _ _ _ _ _ _ _ _ _ Hfirst Hthis)
    as (-> & -> & ->).
  split; [exact Hrun | reflexivity].
Defined.

(** ** [NewManager] *)

(** The key a configuration ends up with, whether it is loaded, and the
    provider it is loaded as. *)
Definition loaded_key `{Os} (cfg : ProviderConfig) : string :=
  if String.eqb (cfgAPIKey cfg) "" then getEnvKey (cfgName cfg)
  else cfgAPIKey cfg.

Definition has_key `{Os} (cfg : ProviderConfig) : bool :=
  cfgEnabled cfg && negb (String.eqb (loaded_key cfg) "").

Definition as_provider `{Os} (cfg : ProviderConfig) : Provider :=
  mkProvider (cfgName cfg) (cfgBaseURL cfg) (loaded_key cfg)
    (getEnvModel (cfgName cfg) (cfgModel cfg)) true.

Lemma load_fold `{Os} (cfgs : list ProviderConfig) :
  forall (loaded : list Provider) (active : option Provider),
    fold_left load_step cfgs (loaded, active)
    = ((loaded ++ map as_provider (List.filter has_key cfgs))%list,
       match active with
       | Some _ => active
       | None => head (map as_provider (List.filter has_key cfgs))
       end).
Proof.
  induction cfgs as [|cfg cfgs IH]; intros loaded active.
  - cbn. rewrite app_nil_r. destruct active; reflexivity.
  - cbn [fold_left List.filter].
    assert (Hstep : load_step (loaded, active) cfg
                    = if has_key cfg
                      then ((loaded ++ [as_provider cfg])%list,
                            match active with
                            | None => Some (as_provider cfg)
                            | Some _ => active
                            end)
                      else (loaded, active)).
    { unfold load_step, has_key, loaded_key, as_provider.
      destruct (cfgEnabled cfg); [|reflexivity]. cbn [negb andb].
      destruct (String.eqb (if String.eqb (cfgAPIKey cfg) ""
                            then getEnvKey (cfgName cfg)
                            else cfgAPIKey cfg) ""); reflexivity. }
    rewrite Hstep. destruct (has_key cfg); rewrite IH.
    + cbn [map head]. rewrite <- app_assoc.
      destruct active; reflexivity.
    + reflexivity.
Qed.

Lemma assign_fold `{Os} (slm : list Provider) (names : list string) :
  forall npcs : gmap string Provider,
    (forall npc p, npcs !! npc = Some p ->
       exists q, q ∈ slm /\ Name p = Name q /\ BaseURL p = BaseURL q /\
                 APIKey p = APIKey q /\ Enabled p = Enabled q) ->
    forall npc p,
      fold_left (assign_step slm) names npcs !! npc = Some p ->
      (npc ∈ names \/ is_Some (npcs !! npc)) /\
      exists q, q ∈ slm /\ Name p = Name q /\ BaseURL p = BaseURL q /\
                APIKey p = APIKey q /\ Enabled p = Enabled q.
Proof.
  induction names as [|name names IH]; intros npcs Hinv npc p Hp.
  - cbn in Hp. split; [right; eauto | eapply Hinv, Hp].
  - cbn [fold_left] in Hp.
    apply IH in Hp.
    + destruct Hp as [[Hin | Hsome] Hq]; (split; [|exact Hq]).
      * left. now right.
      * unfold assign_step in Hsome.
        destruct (negb _); [|now right].
        destruct (find _ slm); [|now right].
        destruct (decide (npc = name)) as [-> | Hne]; [left; left|].
        rewrite lookup_insert_ne in Hsome by congruence. now right.
    + intros npc' p' Hp'. unfold assign_step in Hp'.
      destruct (negb (os_Getenv _ =? "")%string); [|eapply Hinv, Hp'].
      destruct (find _ slm) as [q|] eqn:Hfind; [|eapply Hinv, Hp'].
      destruct (decide (npc' = name)) as [-> | Hne].
      * rewrite lookup_insert_eq in Hp'. inversion Hp'; subst p'.
        apply find_some in Hfind. destruct Hfind as [Hq _].
        exists q. split; [now apply list_elem_of_In|].
        destruct (negb _); repeat split; reflexivity.
      * rewrite lookup_insert_ne in Hp' by congruence. eapply Hinv, Hp'.
Qed.

Lemma fallback_loop_no_panic `{External} (m : Manager) (ctx : Context)
    (prompt : string) (n : Z) (w : World) :
  activeSLM m = head (slmProviders m) ->
  exists res w', callLLMWithFallback m ctx prompt n w = (Done res, w').
Proof.
  intros Hactive. unfold callLLMWithFallback.
  destruct (activeSLM m) as [a|] eqn:Ha.
  - unfold bind at 1. rewrite callWithContext_unfold.
    destruct (fst (callWithContext_reply w ctx a prompt)) as [r | e].
    + do 2 eexists. reflexivity.
    + match goal with |- context [fallback_loop _ _ _ _ ?w1] =>
        destruct (fallback_loop_order (slmProviders m) a ctx prompt w1)
          as (called & res & w' & Hrun & _)
      end.
      exists res, w'. exact Hrun.
  - destruct (slmProviders m); [|discriminate].
    do 2 eexists. reflexivity.
Qed.

(** The variables [getEnvKey] and [getEnvModel] read for a provider. *)
Lemma keyEnv_lookup (name var : string) :
  keyEnv !! name = Some var <->
  (name, var) ∈ [("groq", "GROQ_API_KEY"); ("sambanova", "SAMBANOVA_API_KEY");
                 ("openrouter", "OPENROUTER_API_KEY");
                 ("huggingface", "HF_API_KEY"); ("nebius", "NEBIUS_API_KEY");
                 ("gemini", "GEMINI_API_KEY")].
Proof.
  unfold keyEnv. symmetry. apply elem_of_list_to_map.
  apply (bool_decide_unpack _). vm_compute. exact I.
Qed.

Lemma modelEnv_lookup (name var : string) :
  modelEnv !! name = Some var <->
  (name, var) ∈ [("groq", "GROQ_MODEL"); ("sambanova", "SAMBANOVA_MODEL");
                 ("openrouter", "OPENROUTER_MODEL");
                 ("huggingface", "HF_MODEL"); ("nebius", "NEBIUS_MODEL");
                 ("gemini", "GEMINI_MODEL"); ("openai", "OPENAI_MODEL")].
Proof.
  unfold modelEnv. symmetry. apply elem_of_list_to_map.
  apply (bool_decide_unpack _). vm_compute. exact I.
Qed.

(** The provider the loop over [npcNames] assigns to an NPC, if any. *)
Definition assigned `{Os} (slm : list Provider) (name : string)
    : option Provider :=
  let providerName :=
    os_Getenv ("NPC_" ++ strings_ToUpper name ++ "_PROVIDER") in
  let modelOverride :=
    os_Getenv ("NPC_" ++ strings_ToUpper name ++ "_MODEL") in
  if String.eqb providerName "" then None
  else match find (fun q => strings_EqualFold (Name q) providerName) slm with
       | Some q =>
           Some (mkProvider (Name q) (BaseURL q) (APIKey q)
                   (if String.eqb modelOverride "" then Model q
                    else modelOverride) (Enabled q))
       | None => None
       end.

Lemma assign_step_assigned `{Os} (slm : list Provider)
    (npcs : gmap string Provider) (name : string) :
  assign_step slm npcs name
  = match assigned slm name with
    | Some p => <[name := p]> npcs
    | None => npcs
    end.
Proof.
  unfold assign_step, assigned.
  destruct (String.eqb (os_Getenv _) ""); cbn [negb]; [reflexivity|].
  destruct (find _ slm) as [q|]; [|reflexivity].
  destruct (String.eqb (os_Getenv _) ""); cbn [negb]; [|reflexivity].
  now destruct q.
Qed.

Lemma assign_fold_lookup `{Os} (slm : list Provider) (names : list string) :
  NoDup names ->
  forall (npcs : gmap string Provider) (npc : string),
    fold_left (assign_step slm) names npcs !! npc
    = if bool_decide (npc ∈ names)
      then match assigned slm npc with
           | Some p => Some p
           | None => npcs !! npc
           end
      else npcs !! npc.
Proof.
  induction 1 as [|name names Hnotin Hnodup IH]; intros npcs npc.
  - cbn [fold_left]. rewrite bool_decide_eq_false_2; [reflexivity|].
    apply not_elem_of_nil.
  - cbn [fold_left]. rewrite IH, assign_step_assigned.
    destruct (decide (npc = name)) as [-> | Hne].
    + rewrite (bool_decide_eq_false_2 (name ∈ names)) by exact Hnotin.
      rewrite (bool_decide_eq_true_2 (name ∈ name :: names))
        by (apply elem_of_cons; now left).
      destruct (assigned slm name); [apply lookup_insert_eq | reflexivity].
    + assert (Hsame : match assigned slm name with
                      | Some p => <[name := p]> npcs
                      | None => npcs
                      end !! npc = npcs !! npc).
      { destruct (assigned slm name); [|reflexivity].
        apply lookup_insert_ne. congruence. }
      rewrite Hsame.
      destruct (decide (npc ∈ names)) as [Hin | Hout].
      * rewrite !bool_decide_eq_true_2; [reflexivity | now right | exact Hin].
      * rewrite !bool_decide_eq_false_2; [reflexivity | | exact Hout].
        rewrite elem_of_cons. tauto.
Qed.

(** [NewManager] loads, in the order given, the configurations that are
    enabled and have a key; the key is the configured one, else what the
    environment holds under the variable of the provider ([GROQ_API_KEY]
    for [groq], and so on), and the model is what the environment holds
    under the provider's model variable, else the configured one.  The
    active provider of each kind is the first one loaded, so there is an
    active provider exactly when the list is not empty.  Each of the four
    NPC names whose [NPC_<NAME>_PROVIDER] is set gets the first loaded
    provider of that name, letter case apart, with the model of
    [NPC_<NAME>_MODEL] if that is set; no other NPC gets one.  The round
    robin starts at 0 and the statistics are empty.  On such a manager
    [callLLMWithFallback] never panics. *)
Theorem NewManager_loads_enabled_with_key `{Os} `{External}
    (slmCfg brainCfg : list ProviderConfig) (w : World) :
  let m := fst (NewManager slmCfg brainCfg w) in
  slmProviders (core m) = map as_provider (List.filter has_key slmCfg) /\
  activeSLM (core m) = head (slmProviders (core m)) /\
  brainProviders m = map as_provider (List.filter has_key brainCfg) /\
  activeBrain m = head (brainProviders m) /\
  (forall cfg,
     has_key cfg = true <->
     cfgEnabled cfg = true /\
     (cfgAPIKey cfg <> "" \/
      exists var,
        (cfgName cfg, var)
        ∈ [("groq", "GROQ_API_KEY"); ("sambanova", "SAMBANOVA_API_KEY");
           ("openrouter", "OPENROUTER_API_KEY");
           ("huggingface", "HF_API_KEY"); ("nebius", "NEBIUS_API_KEY");
           ("gemini", "GEMINI_API_KEY")] /\
        os_Getenv var <> "")) /\
  (forall cfg,
     Name (as_provider cfg) = cfgName cfg /\
     BaseURL (as_provider cfg) = cfgBaseURL cfg /\
     Enabled (as_provider cfg) = true /\
     (cfgAPIKey cfg <> "" -> APIKey (as_provider cfg) = cfgAPIKey cfg) /\
     (forall var,
        cfgAPIKey cfg = "" ->
        (cfgName cfg, var)
        ∈ [("groq", "GROQ_API_KEY"); ("sambanova", "SAMBANOVA_API_KEY");
           ("openrouter", "OPENROUTER_API_KEY");
           ("huggingface", "HF_API_KEY"); ("nebius", "NEBIUS_API_KEY");
           ("gemini", "GEMINI_API_KEY")] ->
        APIKey (as_provider cfg) = os_Getenv var) /\
     (forall var,
        (cfgName cfg, var)
        ∈ [("groq", "GROQ_MODEL"); ("sambanova", "SAMBANOVA_MODEL");
           ("openrouter", "OPENROUTER_MODEL"); ("huggingface", "HF_MODEL");
           ("nebius", "NEBIUS_MODEL"); ("gemini", "GEMINI_MODEL");
           ("openai", "OPENAI_MODEL")] ->
        Model (as_provider cfg)
        = if String.eqb (os_Getenv var) "" then cfgModel cfg
          else os_Getenv var) /\
     ((forall var,
         (cfgName cfg, var)
         ∉ [("groq", "GROQ_MODEL"); ("sambanova", "SAMBANOVA_MODEL");
            ("openrouter", "OPENROUTER_MODEL"); ("huggingface", "HF_MODEL");
            ("nebius", "NEBIUS_MODEL"); ("gemini", "GEMINI_MODEL");
            ("openai", "OPENAI_MODEL")]) ->
      Model (as_provider cfg) = cfgModel cfg)) /\
  (forall p, p ∈ slmProviders (core m) ->
             Enabled p = true /\ APIKey p <> "") /\
  (forall npc p, npcProviders m !! npc = Some p ->
     npc ∈ npcNames /\
     exists q, q ∈ slmProviders (core m) /\ Name p = Name q /\
               BaseURL p = BaseURL q /\ APIKey p = APIKey q /\
               Enabled p = Enabled q) /\
  (forall npc,
     let providerName :=
       os_Getenv ("NPC_" ++ strings_ToUpper npc ++ "_PROVIDER") in
     let modelOverride :=
       os_Getenv ("NPC_" ++ strings_ToUpper npc ++ "_MODEL") in
     npcProviders m !! npc
     = if bool_decide (npc ∈ ["Explorer"; "Scout"; "Wanderer"; "Seeker"])
          && negb (String.eqb providerName "")
       then match find (fun q => strings_EqualFold (Name q) providerName)
                    (slmProviders (core m)) with
            | Some q =>
                Some (mkProvider (Name q) (BaseURL q) (APIKey q)
                        (if String.eqb modelOverride "" then Model q
                         else modelOverride) (Enabled q))
            | None => None
            end
       else None) /\
  providerIndex m = 0 /\ lastCallTime m = zero_Time /\
  minCallInterval m = 500 * Millisecond /\
  successCount m = ∅ /\ errorCount m = ∅ /\ lastError m = ∅ /\
  snd (NewManager slmCfg brainCfg w) = w /\
  forall ctx prompt n w1,
    exists res w', callLLMWithFallback (core m) ctx prompt n w1
                   = (Done res, w').
Proof.
  cbn zeta. unfold NewManager, load_providers, bind, Llm.NewRateLimiter, ret,
    time_Now.
  rewrite !load_fold. cbn [app fst snd core slmProviders activeSLM
    brainProviders activeBrain npcProviders providerIndex lastCallTime
    minCallInterval successCount errorCount lastError].
  split; [reflexivity|]. split; [reflexivity|].
  split; [reflexivity|]. split; [reflexivity|].
  split; [|split; [|split; [|split; [|split;
    [|repeat (split; [reflexivity|])]]]]].
  - intros cfg. unfold has_key, loaded_key, getEnvKey.
    rewrite andb_true_iff, negb_true_iff.
    apply and_iff_compat_l.
    destruct (String.eqb_spec (cfgAPIKey cfg) "") as [Hempty | Hkey].
    + destruct (keyEnv !! cfgName cfg) as [var|] eqn:Hvar.
      * rewrite String.eqb_neq. split.
        -- intros Hset. right. exists var.
           split; [now apply keyEnv_lookup | exact Hset].
        -- intros [Hown | (var' & Hin & Hset)]; [contradiction|].
           apply keyEnv_lookup in Hin. congruence.
      * split; [discriminate|].
        intros [Hown | (var' & Hin & Hset)]; [contradiction|].
        apply keyEnv_lookup in Hin. congruence.
    + rewrite String.eqb_neq. split; [now left | trivial].
  - intros cfg. unfold as_provider, loaded_key, getEnvKey, getEnvModel.
    cbn [Name BaseURL Enabled APIKey Model].
    split; [reflexivity|]. split; [reflexivity|]. split; [reflexivity|].
    split; [|split; [|split]].
    + intros Hkey. apply String.eqb_neq in Hkey. now rewrite Hkey.
    + intros var -> Hin. apply keyEnv_lookup in Hin. now rewrite Hin.
    + intros var Hin. apply modelEnv_lookup in Hin. rewrite Hin.
      now destruct (String.eqb (os_Getenv var) "").
    + intros Hnone.
      destruct (modelEnv !! cfgName cfg) as [var|] eqn:Hvar; [|reflexivity].
      apply modelEnv_lookup in Hvar. now destruct (Hnone var).
  - intros p Hp. apply list_elem_of_In, in_map_iff in Hp.
    destruct Hp as (cfg & <- & Hcfg).
    apply List.filter_In in Hcfg. destruct Hcfg as [_ Hl].
    split; [reflexivity|]. cbn [APIKey as_provider].
    unfold has_key in Hl. apply andb_prop in Hl. destruct Hl as [_ Hl].
    intros Heq. rewrite Heq in Hl. discriminate Hl.
  - intros npc p Hp.
    apply assign_fold in Hp.
    + destruct Hp as [[Hin | [x Hx]] Hq];
        [split; assumption | rewrite lookup_empty in Hx; discriminate].
    + intros npc' p' Hp'. rewrite lookup_empty in Hp'. discriminate.
  - intros npc. cbn zeta. unfold bind.
    cbn [fst snd npcProviders core slmProviders].
    assert (Hnodup : NoDup npcNames)
      by (apply (bool_decide_unpack _); vm_compute; exact I).
    rewrite (assign_fold_lookup _ npcNames Hnodup ∅ npc).
    unfold npcNames, assigned. rewrite lookup_empty.
    destruct (bool_decide _); cbn [andb]; [|reflexivity].
    destruct (String.eqb (os_Getenv _) ""); cbn [negb]; [reflexivity|].
    now destruct (find _ _).
  - intros ctx prompt n w1. apply fallback_loop_no_panic. reflexivity.
Qed.

(** An environment with a key and a model for [groq] and an assignment for
    the NPC [Scout]. *)
Definition scout_env : Os :=
  {| os_Getenv :=
       fun name =>
         if String.eqb name "GROQ_API_KEY" then "gsk"
         else if String.eqb name "GROQ_MODEL" then "llama-70b"
         else if String.eqb name "NPC_SCOUT_PROVIDER" then "GROQ"
         else if String.eqb name "NPC_SCOUT_MODEL" then "llama-8b"
         else "";
     strings_ToUpper := fun s => if String.eqb s "Scout" then "SCOUT" else s;
     strings_EqualFold :=
       fun s t => String.eqb s t
                  || (String.eqb s "groq" && String.eqb t "GROQ");
     strings_TrimSpace := fun s => s;
     strings_Trim := fun s _ => s;
     strconv_Atoi := fun _ => None |}.

Lemma NewManager_loads_enabled_with_key_witness :
  let m := fst (NewManager (H := scout_env)
                  [mkProviderConfig "nebius" true "" "" "m";
                   mkProviderConfig "groq" true "" "url" "llama"]
                  [] w0) in
  slmProviders (core m) = [mkProvider "groq" "url" "gsk" "llama-70b" true] /\
  npcProviders m !! "Scout"
  = Some (mkProvider "groq" "url" "gsk" "llama-8b" true) /\
  npcProviders m !! "Seeker" = None.
Proof.
  cbn zeta.
  destruct (NewManager_loads_enabled_with_key (H := scout_env)
              (H0 := all_down)
              [mkProviderConfig "nebius" true "" "" "m";
               mkProviderConfig "groq" true "" "url" "llama"] [] w0)
    as (Hslm & _ & _ & _ & _ & _ & _ & _ & Hnpc & _).
  split; [rewrite Hslm; vm_compute; reflexivity|].
  split.
  - rewrite (Hnpc "Scout"), Hslm. vm_compute. reflexivity.
  - rewrite (Hnpc "Seeker"), Hslm. vm_compute. reflexivity.
Defined.

(** ** Phase 4: handing out and caching the decisions *)

Lemma Set_sound `{Runtime} (c : DecisionCache) (key : string) (d : Decision)
    (w : World) :
  clock (snd (Set_ c key d w)) = clock w /\
  trace (snd (Set_ c key d w)) = trace w /\
  maxSize (fst (Set_ c key d w)) = maxSize c /\
  ttl (fst (Set_ c key d w)) = ttl c /\
  forall k e, entries (fst (Set_ c key d w)) !! k = Some e ->
    (k = key /\ e = mkCachedDecision d (clock w) 0) \/
    entries c !! k = Some e.
Proof.
  rewrite Set_unfold.
  assert (Hw : exists es w1,
            (if Z.of_nat (size (entries c)) >=? maxSize c
             then evictOldest (entries c) w else (entries c, w)) = (es, w1) /\
            clock w1 = clock w /\ trace w1 = trace w /\
            forall k e, es !! k = Some e -> entries c !! k = Some e).
  { destruct (Z.of_nat (size (entries c)) >=? maxSize c).
    - unfold evictOldest.
      destruct (fold_left older _ _) as [k0 t0].
      do 2 eexists. split; [reflexivity|].
      split; [reflexivity|]. split; [reflexivity|].
      intros k e Hk. destruct (negb (String.eqb k0 "")); [|exact Hk].
      apply lookup_delete_Some in Hk. tauto.
    - do 2 eexists. split; [reflexivity|].
      split; [reflexivity|]. split; [reflexivity|]. auto. }
  destruct Hw as (es & w1 & -> & Hc & Ht & Hsub).
  cbn [fst snd entries maxSize ttl].
  split; [exact Hc|]. split; [exact Ht|].
  split; [reflexivity|]. split; [reflexivity|].
  intros k e Hk. destruct (decide (k = key)) as [-> | Hne].
  - rewrite lookup_insert_eq in Hk. inversion Hk; subst. left.
    split; [reflexivity | now rewrite Hc].
  - rewrite lookup_insert_ne in Hk by congruence. right. now apply Hsub.
Qed.

Lemma distribute_spec `{Runtime} `{External}
    (observations : list Observation) (decisions : list Decision)
    (idxs : list nat) :
  forall (i : nat) (ds : list (option Decision)) (c : DecisionCache)
         (w : World),
    (forall idx, idx ∈ idxs ->
       (idx < length ds)%nat /\ is_Some (observations !! idx)) ->
    NoDup idxs ->
    exists ds' c' w',
      distribute observations decisions i idxs ds c w = ((Done ds', c'), w') /\
      clock w' = clock w /\ trace w' = trace w /\
      length ds' = length ds /\ maxSize c' = maxSize c /\ ttl c' = ttl c /\
      (forall j, j ∉ idxs -> ds' !! j = ds !! j) /\
      (forall k idx o, idxs !! k = Some idx -> observations !! idx = Some o ->
         ds' !! idx
         = Some (Some (default (DefaultDecision o)
                         (decisions !! (i + k)%nat)))) /\
      (forall key e, entries c' !! key = Some e ->
         entries c !! key = Some e \/
         (CreatedAt e = clock w /\ HitCount e = 0 /\
          exists k idx o,
            idxs !! k = Some idx /\ observations !! idx = Some o /\
            key = hashObservation o /\
            decisions !! (i + k)%nat = Some (CDecision e))).
Proof.
  induction idxs as [|idx rest IH]; intros i ds c w Hidx Hnd.
  - exists ds, c, w. split; [reflexivity|].
    repeat (split; [reflexivity|]).
    split; [intros k idx o Hk; destruct k; discriminate Hk|].
    intros key e He. now left.
  - destruct (Hidx idx ltac:(left)) as [Hlt [o Ho]].
    apply NoDup_cons in Hnd. destruct Hnd as [Hnotin Hnd].
    cbn [distribute]. rewrite Ho. unfold store.
    destruct (Nat.ltb_spec idx (length ds)); [|lia].
    destruct (decisions !! i) as [d|] eqn:Hd.
    + unfold bind at 1.
      destruct (Set_sound c (hashObservation o) d w)
        as (Hclk & Htr & Hmx & Httl & Hsnd).
      destruct (Set_ c (hashObservation o) d w) as [c1 w1].
      cbn [fst snd] in *.
      destruct (IH (S i) (<[idx := Some d]> ds) c1 w1)
        as (ds' & c' & w' & Hrun & Hclk' & Htr' & Hlen & Hmx' & Httl'
            & Hout & Hin & Hcache).
      { intros idx' Hin'. rewrite length_insert. apply Hidx. now right. }
      { exact Hnd. }
      exists ds', c', w'. split; [exact Hrun|].
      split; [congruence|]. split; [congruence|].
      split; [rewrite Hlen; apply length_insert|].
      split; [congruence|]. split; [congruence|]. split; [|split].
      * intros j Hj. rewrite not_elem_of_cons in Hj. destruct Hj as [Hne Hj].
        rewrite (Hout j Hj). apply list_lookup_insert_ne. congruence.
      * intros k idx' o' Hk Ho'. destruct k as [|k].
        -- cbn in Hk. inversion Hk; subst idx'.
           rewrite Ho in Ho'. inversion Ho'; subst o'.
           rewrite (Hout idx Hnotin), Nat.add_0_r, Hd.
           apply list_lookup_insert_eq. exact Hlt.
        -- cbn in Hk. replace (i + S k)%nat with (S i + k)%nat by lia.
           apply Hin; assumption.
      * intros key e He. destruct (Hcache key e He) as [Hold | Hnew].
        -- destruct (Hsnd key e Hold) as [[-> ->] | Hold']; [|now left].
           right. cbn [CreatedAt HitCount CDecision].
           split; [reflexivity|]. split; [reflexivity|].
           exists 0%nat, idx, o. rewrite Nat.add_0_r.
           repeat split; [exact Ho | exact Hd].
        -- destruct Hnew as (Hc & Hh & k & idx' & o' & Hk & Ho' & Hkey & Hdk).
           right. split; [congruence|]. split; [exact Hh|].
           exists (S k), idx', o'.
           replace (i + S k)%nat with (S i + k)%nat by lia.
           repeat split; assumption.
    + destruct (IH (S i) (<[idx := Some (DefaultDecision o)]> ds) c w)
        as (ds' & c' & w' & Hrun & Hclk' & Htr' & Hlen & Hmx' & Httl'
            & Hout & Hin & Hcache).
      { intros idx' Hin'. rewrite length_insert. apply Hidx. now right. }
      { exact Hnd. }
      exists ds', c', w'. split; [exact Hrun|].
      split; [exact Hclk'|]. split; [exact Htr'|].
      split; [rewrite Hlen; apply length_insert|].
      split; [exact Hmx'|]. split; [exact Httl'|]. split; [|split].
      * intros j Hj. rewrite not_elem_of_cons in Hj. destruct Hj as [Hne Hj].
        rewrite (Hout j Hj). apply list_lookup_insert_ne. congruence.
      * intros k idx' o' Hk Ho'. destruct k as [|k].
        -- cbn in Hk. inversion Hk; subst idx'.
           rewrite Ho in Ho'. inversion Ho'; subst o'.
           rewrite (Hout idx Hnotin), Nat.add_0_r, Hd.
           apply list_lookup_insert_eq. exact Hlt.
        -- cbn in Hk. replace (i + S k)%nat with (S i + k)%nat by lia.
           apply Hin; assumption.
      * intros key e He. destruct (Hcache key e He) as [Hold | Hnew];
          [now left|].
        destruct Hnew as (Hc & Hh & k & idx' & o' & Hk & Ho' & Hkey & Hdk).
        right. split; [exact Hc|]. split; [exact Hh|].
        exists (S k), idx', o'.
        replace (i + S k)%nat with (S i + k)%nat by lia.
        repeat split; assumption.
Qed.

Lemma uncached_indices_NoDup `{Runtime} `{External} (c0 : DecisionCache)
    (now : Z) (obs : list Observation) :
  forall i, NoDup (uncached_indices c0 now i obs).
Proof.
  induction obs as [|o rest IH]; intros i; cbn [uncached_indices].
  - constructor.
  - destruct (fresh c0 now (hashObservation o)); [apply IH|].
    apply NoDup_cons. split; [|apply IH].
    intros Hin. apply elem_of_uncached_indices in Hin.
    destruct Hin as (j & o' & Hij & _). lia.
Qed.

Lemma uncached_indices_lookup `{Runtime} `{External} (c0 : DecisionCache)
    (now : Z) (obs : list Observation) (k idx : nat) :
  uncached_indices c0 now 0 obs !! k = Some idx ->
  exists o, obs !! idx = Some o /\
            fresh c0 now (hashObservation o) = false.
Proof.
  intros Hk.
  assert (Hin : idx ∈ uncached_indices c0 now 0 obs)
    by (apply list_elem_of_lookup; eauto).
  apply elem_of_uncached_indices in Hin.
  destruct Hin as (j & o & -> & Hj & Hmiss). exists o. split; assumption.
Qed.

(** How many of the observations the cache [c0] answers at time [now]. *)
Definition hits `{Runtime} `{External} (c0 : DecisionCache) (now : Z)
    (obs : list Observation) : nat :=
  length (List.filter (fun o => fresh c0 now (hashObservation o)) obs).

Lemma probe_loop_hits `{Runtime} `{External} (c0 : DecisionCache) (now : Z)
    (obs : list Observation) :
  forall (i : nat) (st : Probe) (w : World),
    clock w = now -> cache_sim c0 (pCache st) ->
    pHits (fst (probe_loop i obs st w))
    = pHits st + Z.of_nat (hits c0 now obs).
Proof.
  induction obs as [|o rest IH]; intros i st w Hnow Hsim.
  - cbn. lia.
  - cbn [probe_loop]. unfold hits. cbn [List.filter]. unfold bind at 1.
    pose proof (Get_sim c0 (pCache st) (hashObservation o) w Hsim) as Hget.
    rewrite Hnow in Hget.
    destruct (fresh c0 now (hashObservation o)) eqn:Hfresh.
    + destruct Hget as (e0 & e' & c' & He0 & Hget & Hd & Hsim').
      rewrite Hget. rewrite IH by assumption.
      cbn [pHits length]. unfold hits. lia.
    + rewrite Hget. rewrite IH by assumption. reflexivity.
Qed.

(** [GetBatchDecisions] on a non-empty list and with a context that is not
    done, phase 1 having been run. *)
Lemma GetBatchDecisions_run `{Runtime} `{External} (bds : BatchDecisionSystem)
    (ctx : Context) (observations : list Observation) (w : World) :
  observations <> [] -> Context_Err ctx (clock w) = None ->
  let n := length observations in
  let un := uncached (cache bds) (clock w) observations in
  let idxs := uncached_indices (cache bds) (clock w) 0 observations in
  let total := totalDecisions bds + Z.of_nat n in
  exists st,
    probe_loop 0 observations
      (mkProbe (replicate n None) (replicate n false) [] [] (cache bds)
         (cachHits bds)) w = (st, w) /\
    uncachedObs st = un /\ uncachedIndices st = idxs /\
    GetBatchDecisions bds ctx observations w
    = let bds1 :=
        mkBatchDecisionSystem (manager bds) (pCache st) (batchCalls bds)
          (pHits st) (fallbackUsed bds) total in
      if (length un =? 0)%nat then
        ((Done (mkBatchDecisionResponse (pDecisions st) "" (pFromCache st)
                  None), bds1), w)
      else
        let '(llm, w2) :=
          callLLMWithFallback (manager bds)
            (fst (context_WithTimeout ctx (25 * Second) w))
            (buildFlexibleMultiNPCPrompt un) (Z.of_nat (length un)) w in
        match llm with
        | Panic => ((Panic, bds1), w2)
        | OutOfFuel => ((OutOfFuel, bds1), w2)
        | Done (inr _) =>
            let bds2 :=
              mkBatchDecisionSystem (manager bds) (pCache st) (batchCalls bds)
                (pHits st) (fallbackUsed bds + 1) total in
            match fill_defaults observations idxs (pDecisions st) with
            | Done ds =>
                ((Done (mkBatchDecisionResponse ds "" (pFromCache st) None),
                  bds2), w2)
            | Panic => ((Panic, bds2), w2)
            | OutOfFuel => ((OutOfFuel, bds2), w2)
            end
        | Done (inl llmResponse) =>
            let bds3 (c : DecisionCache) :=
              mkBatchDecisionSystem (manager bds) c (batchCalls bds + 1)
                (pHits st) (fallbackUsed bds) total in
            match parseMultiNPCResponse llmResponse un with
            | Done decisions =>
                let '((res, c), w3) :=
                  distribute observations decisions 0 idxs (pDecisions st)
                    (pCache st) w2 in
                match res with
                | Done ds =>
                    ((Done (mkBatchDecisionResponse ds "" (pFromCache st)
                              None), bds3 c), w3)
                | Panic => ((Panic, bds3 c), w3)
                | OutOfFuel => ((OutOfFuel, bds3 c), w3)
                end
            | Panic => ((Panic, bds3 (pCache st)), w2)
            | OutOfFuel => ((OutOfFuel, bds3 (pCache st)), w2)
            end
        end.
Proof.
  intros Hne Hctx. cbn zeta.
  assert (Hlen : (length observations =? 0)%nat = false)
    by (destruct observations; [congruence | reflexivity]).
  destruct (probe_loop_spec (cache bds) (clock w) observations 0
              (mkProbe (replicate (length observations) None)
                 (replicate (length observations) false) [] []
                 (cache bds) (cachHits bds)) w eq_refl
              (cache_sim_refl _))
    as (st & Hprobe & _ & Hobs & Hidx & _).
  cbn [uncachedObs uncachedIndices app] in Hobs, Hidx.
  exists st. split; [exact Hprobe|]. split; [exact Hobs|].
  split; [exact Hidx|].
  unfold GetBatchDecisions. cbn zeta. rewrite Hlen.
  unfold bind at 1. unfold ctx_Err at 1. rewrite Hctx.
  unfold bind at 1. rewrite Hprobe, Hobs, Hidx.
  destruct (length (uncached (cache bds) (clock w) observations) =? 0)%nat;
    [reflexivity|].
  unfold bind at 1. unfold ctx_Err at 1. rewrite Hctx.
  unfold bind at 1. unfold context_WithTimeout. cbn [fst].
  unfold bind at 1.
  match goal with |- context [callLLMWithFallback ?m ?c ?p ?k w] =>
    destruct (callLLMWithFallback m c p k w) as [llm w2]
  end.
  destruct llm as [[llmResponse | err]| |]; try reflexivity.
  - destruct (parseMultiNPCResponse llmResponse _) as [decisions| |];
      try reflexivity.
    unfold bind at 1.
    destruct (distribute observations decisions 0 _ _ _ w2)
      as [[res c] w3].
    destruct res; reflexivity.
  - destruct (fill_defaults observations _ (pDecisions st)); reflexivity.
Qed.

(** What phase 1 leaves in slot [i], the observation there being [o]. *)
Definition probed `{Runtime} `{External} (bds : BatchDecisionSystem)
    (w : World) (st : Probe) (i : nat) (o : Observation) : Prop :=
  if fresh (cache bds) (clock w) (hashObservation o)
  then exists e0,
         entries (cache bds) !! hashObservation o = Some e0 /\
         pDecisions st !! i = Some (Some (CDecision e0)) /\
         pFromCache st !! i = Some true
  else pFromCache st !! i = Some false.

Lemma probe_slots `{Runtime} `{External} (bds : BatchDecisionSystem)
    (observations : list Observation) (w : World) (st : Probe) :
  probe_loop 0 observations
    (mkProbe (replicate (length observations) None)
       (replicate (length observations) false) [] [] (cache bds)
       (cachHits bds)) w = (st, w) ->
  cache_sim (cache bds) (pCache st) /\
  length (pDecisions st) = length observations /\
  length (pFromCache st) = length observations /\
  pHits st
  = cachHits bds + Z.of_nat (hits (cache bds) (clock w) observations) /\
  forall i o, observations !! i = Some o -> probed bds w st i o.
Proof.
  intros Hprobe.
  destruct (probe_loop_spec (cache bds) (clock w) observations 0
              (mkProbe (replicate (length observations) None)
                 (replicate (length observations) false) [] []
                 (cache bds) (cachHits bds)) w eq_refl
              (cache_sim_refl _))
    as (st' & Hprobe' & Hsim & _ & _ & Hlen1 & Hlen2 & _ & Hpos).
  pose proof (probe_loop_hits (cache bds) (clock w) observations 0
                (mkProbe (replicate (length observations) None)
                   (replicate (length observations) false) [] []
                   (cache bds) (cachHits bds)) w eq_refl
                (cache_sim_refl _)) as Hhits.
  rewrite Hprobe in Hprobe', Hhits. inversion Hprobe'; subst st'.
  cbn [pDecisions pFromCache pHits fst] in *.
  rewrite length_replicate in Hlen1. rewrite length_replicate in Hlen2.
  split; [exact Hsim|]. split; [exact Hlen1|]. split; [exact Hlen2|].
  split; [exact Hhits|].
  intros i o Hi. pose proof (lookup_lt_Some _ _ _ Hi) as Hlt.
  specialize (Hpos i o Hi). rewrite !length_replicate in Hpos.
  cbn [Nat.add] in Hpos. specialize (Hpos Hlt Hlt). unfold probed.
  destruct (fresh (cache bds) (clock w) (hashObservation o));
    [exact Hpos|].
  destruct Hpos as [_ ->]. now apply lookup_replicate_2.
Qed.

Lemma uncached_all_fresh `{Runtime} `{External} (c0 : DecisionCache)
    (now : Z) (obs : list Observation) :
  uncached c0 now obs = [] ->
  forall i o, obs !! i = Some o -> fresh c0 now (hashObservation o) = true.
Proof.
  induction obs as [|o0 rest IH]; intros Hnil i o Hi;
    [destruct i; discriminate Hi|].
  cbn [uncached] in Hnil.
  destruct (fresh c0 now (hashObservation o0)) eqn:Hfresh; [|discriminate].
  destruct i as [|i]; cbn in Hi.
  - inversion Hi; subst. exact Hfresh.
  - now apply (IH Hnil i).
Qed.

Lemma uncached_indices_bounds `{Runtime} `{External} (c0 : DecisionCache)
    (now : Z) (obs : list Observation) (len : nat) :
  len = length obs ->
  forall idx, idx ∈ uncached_indices c0 now 0 obs ->
    (idx < len)%nat /\ is_Some (obs !! idx).
Proof.
  intros -> idx Hin. apply elem_of_uncached_indices in Hin.
  destruct Hin as (j & o & -> & Hj & _). cbn [Nat.add].
  split; [eapply lookup_lt_Some, Hj | eauto].
Qed.

Lemma fresh_not_uncached `{Runtime} `{External} (c0 : DecisionCache)
    (now : Z) (obs : list Observation) (i : nat) (o : Observation) :
  obs !! i = Some o ->
  (i ∈ uncached_indices c0 now 0 obs
   <-> fresh c0 now (hashObservation o) = false).
Proof.
  intros Hi. rewrite elem_of_uncached_indices. split.
  - intros (j & o' & Hij & Hj & Hmiss). cbn [Nat.add] in Hij. subst j.
    rewrite Hi in Hj. inversion Hj; subst. exact Hmiss.
  - intros Hmiss. exists i, o. split; [reflexivity | split; assumption].
Qed.

(** When the combined call succeeds, [GetBatchDecisions] counts a batch
    call and hands out the parsed decisions in order: the [k]-th
    observation that missed the cache gets the [k]-th decision, or the
    default decision when the parser returned fewer, and is flagged as not
    from the cache; the others get their cached decisions.  Every entry of
    the cache afterwards is an entry it had before (hit counter apart) or
    was created by this call, at the time the call returned, under the
    fingerprint of an observation that missed the cache and with the
    decision handed to it. *)
Theorem successful_call_hands_out_in_order `{Runtime} `{External}
    (bds : BatchDecisionSystem) (ctx : Context)
    (observations : list Observation) (w w2 : World)
    (llmResponse : string) (decisions : list Decision) :
  observations <> [] ->
  Context_Err ctx (clock w) = None ->
  uncached (cache bds) (clock w) observations <> [] ->
  callLLMWithFallback (manager bds)
    (fst (context_WithTimeout ctx (25 * Second) w))
    (buildFlexibleMultiNPCPrompt
       (uncached (cache bds) (clock w) observations))
    (Z.of_nat (length (uncached (cache bds) (clock w) observations))) w
  = (Done (inl llmResponse), w2) ->
  parseMultiNPCResponse llmResponse
    (uncached (cache bds) (clock w) observations) = Done decisions ->
  exists resp bds' w3,
    GetBatchDecisions bds ctx observations w = ((Done resp, bds'), w3) /\
    clock w3 = clock w2 /\ trace w3 = trace w2 /\
    Error resp = None /\
    batchCalls bds' = batchCalls bds + 1 /\
    fallbackUsed bds' = fallbackUsed bds /\
    totalDecisions bds'
    = totalDecisions bds + Z.of_nat (length observations) /\
    length (Decisions resp) = length observations /\
    length (FromCache resp) = length observations /\
    (forall i o, observations !! i = Some o ->
       fresh (cache bds) (clock w) (hashObservation o) = true ->
       exists e,
         entries (cache bds) !! hashObservation o = Some e /\
         Decisions resp !! i = Some (Some (CDecision e)) /\
         FromCache resp !! i = Some true) /\
    (forall k idx o,
       uncached_indices (cache bds) (clock w) 0 observations !! k
       = Some idx ->
       observations !! idx = Some o ->
       Decisions resp !! idx
       = Some (Some (default (DefaultDecision o) (decisions !! k))) /\
       FromCache resp !! idx = Some false) /\
    (forall key e, entries (cache bds') !! key = Some e ->
       (exists e0, entries (cache bds) !! key = Some e0 /\ same_entry e0 e) \/
       (CreatedAt e = clock w2 /\ HitCount e = 0 /\
        exists k idx o,
          uncached_indices (cache bds) (clock w) 0 observations !! k
          = Some idx /\
          observations !! idx = Some o /\ key = hashObservation o /\
          decisions !! k = Some (CDecision e))).
Proof.
  intros Hne Hctx Hsome Hcall Hparse.
  destruct (GetBatchDecisions_run bds ctx observations w Hne Hctx)
    as (st & Hprobe & Hobs & Hidx & Hrun).
  cbn zeta in Hrun. rewrite Hrun. clear Hrun.
  destruct (probe_slots bds observations w st Hprobe)
    as (Hsim & Hl1 & Hl2 & _ & Hpos).
  assert (Hlen : (length (uncached (cache bds) (clock w) observations)
                  =? 0)%nat = false)
    by (destruct (uncached _ _ observations); [congruence | reflexivity]).
  rewrite Hlen, Hcall, Hparse.
  destruct (distribute_spec observations decisions
              (uncached_indices (cache bds) (clock w) 0 observations) 0
              (pDecisions st) (pCache st) w2)
    as (ds & c' & w3 & Hdist & Hclk & Htr & Hlen' & _ & _ & Hout & Hin
        & Hcache).
  { now apply uncached_indices_bounds. }
  { apply uncached_indices_NoDup. }
  rewrite Hdist.
  do 3 eexists. split; [reflexivity|].
  cbn [Error batchCalls fallbackUsed totalDecisions Decisions FromCache
       cache].
  split; [exact Hclk|]. split; [exact Htr|].
  repeat (split; [reflexivity|]).
  split; [congruence|]. split; [exact Hl2|]. split; [|split].
  - intros i o Hi Hfresh. specialize (Hpos i o Hi). unfold probed in Hpos.
    rewrite Hfresh in Hpos. destruct Hpos as (e & He & Hd & Hf).
    exists e. split; [exact He|]. split; [|exact Hf].
    rewrite Hout; [exact Hd|].
    rewrite (fresh_not_uncached _ _ _ _ _ Hi). congruence.
  - intros k idx o Hk Ho. split; [exact (Hin k idx o Hk Ho)|].
    destruct (uncached_indices_lookup _ _ _ _ _ Hk) as (o' & Ho' & Hmiss).
    rewrite Ho in Ho'. inversion Ho'; subst o'.
    specialize (Hpos idx o Ho). unfold probed in Hpos.
    now rewrite Hmiss in Hpos.
  - intros key e He. destruct (Hcache key e He) as [Hold | Hnew].
    + left. destruct Hsim as [_ Hsim]. specialize (Hsim key).
      rewrite Hold in Hsim.
      destruct (entries (cache bds) !! key) as [e0|]; [|contradiction].
      exists e0. split; [reflexivity | exact Hsim].
    + right. exact Hnew.
Qed.

(** An outside world in which the provider answers after three seconds
    and the parser lets every NPC wait. *)
Definition answering : External :=
  {| callProvider_reply := fun _ _ _ => (inl "{}", 0);
     callWithContext_reply := fun _ _ _ _ => (inl "{}", 3 * Second);
     sha256_json := name_digest;
     sha256_json_length := name_digest_length;
     buildFlexibleMultiNPCPrompt := fun _ => "prompt";
     parseMultiNPCResponse :=
       fun _ obs =>
         Done (map (fun o => <["action" := VString "wait"]> (DefaultDecision o))
                 obs) |}.

Lemma successful_call_hands_out_in_order_witness :
  exists resp bds' w3,
    GetBatchDecisions (H := amd64) (H0 := answering) a_system live_ctx
      [obs_k1; obs_new] (mkWorld 7 [] 0)
    = ((Done resp, bds'), w3) /\
    clock w3 = 7 + 3 * Second /\
    Error resp = None /\ batchCalls bds' = 0 + 1 /\
    length (Decisions resp) = 2%nat.
Proof.
  destruct (successful_call_hands_out_in_order (H := amd64) (H0 := answering)
              a_system live_ctx [obs_k1; obs_new] (mkWorld 7 [] 0)
              (mkWorld (7 + 3 * Second) [EvCallWithContext "groq" "prompt"] 0)
              "{}"
              [<["action" := VString "wait"]> (DefaultDecision obs_new)])
    as (resp & bds' & w3 & Hrun & Hclk & _ & Herr & Hcalls & _ & _ & Hlen & _).
  - discriminate.
  - reflexivity.
  - vm_compute. discriminate.
  - vm_compute. reflexivity.
  - vm_compute. reflexivity.
  - exists resp, bds', w3. repeat split; assumption.
Defined.

Lemma probe_loop_maxSize `{Runtime} `{External} (obs : list Observation) :
  forall (i : nat) (st : Probe) (w : World),
    maxSize (pCache (fst (probe_loop i obs st w))) = maxSize (pCache st).
Proof.
  induction obs as [|o rest IH]; intros i st w; [reflexivity|].
  cbn [probe_loop]. unfold bind at 1. rewrite CacheFacts.Get_unfold.
  destruct (entries (pCache st) !! hashObservation o) as [entry|];
    [|cbv beta iota zeta; now rewrite IH].
  destruct (clock w - CreatedAt entry >? ttl (pCache st));
    cbv beta iota zeta; now rewrite IH.
Qed.

(** How often the observations ask for a key. *)
Definition asked `{Runtime} `{External} (key : string)
    (observations : list Observation) : nat :=
  count_occ string_dec (map hashObservation observations) key.

(** Phase 1 adds to the hit counter of an entry one for every observation
    that asks for it while it is fresh, and nothing otherwise. *)
Lemma probe_loop_counts `{Runtime} `{External} (c0 : DecisionCache) (now : Z)
    (obs : list Observation) :
  forall (i : nat) (st : Probe) (w : World),
    clock w = now -> cache_sim c0 (pCache st) ->
    forall key e,
      entries (pCache st) !! key = Some e ->
      exists e',
        entries (pCache (fst (probe_loop i obs st w))) !! key = Some e' /\
        HitCount e'
        = HitCount e + (if fresh c0 now key then Z.of_nat (asked key obs)
                        else 0).
Proof.
  induction obs as [|o rest IH]; intros i st w Hnow Hsim key e He.
  - exists e. split; [exact He|]. unfold asked. cbn [map count_occ].
    destruct (fresh c0 now key); lia.
  - cbn [probe_loop]. unfold bind at 1.
    pose proof (Get_sim c0 (pCache st) (hashObservation o) w Hsim) as Hget.
    rewrite Hnow in Hget.
    unfold asked. cbn [map].
    destruct (fresh c0 now (hashObservation o)) eqn:Hfresh.
    + destruct Hget as (e0 & e1 & c' & He0 & Hget & Hd & Hsim').
      rewrite Hget.
      pose proof Hget as Hshape. rewrite CacheFacts.Get_unfold in Hshape.
      destruct (entries (pCache st) !! hashObservation o) as [entry|]
        eqn:Hentry; [|discriminate Hshape].
      destruct (clock w - CreatedAt entry >? ttl (pCache st));
        [discriminate Hshape|].
      cbn zeta in Hshape. inversion Hshape; subst e1 c'. clear Hshape.
      destruct (decide (hashObservation o = key)) as [Hkey | Hkey].
      * subst key. rewrite Hentry in He. inversion He; subst entry.
        destruct (IH (S i)
                    (mkProbe (<[i := Some (CDecision
                                             (mkCachedDecision (CDecision e)
                                                (CreatedAt e)
                                                (HitCount e + 1)))]>
                                (pDecisions st))
                       (<[i := true]> (pFromCache st))
                       (uncachedIndices st) (uncachedObs st)
                       (mkDecisionCache
                          (<[hashObservation o :=
                               mkCachedDecision (CDecision e) (CreatedAt e)
                                 (HitCount e + 1)]> (entries (pCache st)))
                          (maxSize (pCache st)) (ttl (pCache st)))
                       (pHits st + 1)) w Hnow Hsim' (hashObservation o)
                    (mkCachedDecision (CDecision e) (CreatedAt e)
                       (HitCount e + 1)))
          as (e' & He' & Hcount).
        { cbn [pCache entries]. apply lookup_insert_eq. }
        exists e'. split; [exact He'|].
        rewrite Hcount, Hfresh. cbn [HitCount].
        rewrite count_occ_cons_eq by reflexivity. unfold asked. lia.
      * destruct (IH (S i)
                    (mkProbe (<[i := Some (CDecision
                                             (mkCachedDecision
                                                (CDecision entry)
                                                (CreatedAt entry)
                                                (HitCount entry + 1)))]>
                                (pDecisions st))
                       (<[i := true]> (pFromCache st))
                       (uncachedIndices st) (uncachedObs st)
                       (mkDecisionCache
                          (<[hashObservation o :=
                               mkCachedDecision (CDecision entry)
                                 (CreatedAt entry) (HitCount entry + 1)]>
                             (entries (pCache st)))
                          (maxSize (pCache st)) (ttl (pCache st)))
                       (pHits st + 1)) w Hnow Hsim' key e)
          as (e' & He' & Hcount).
        { cbn [pCache entries]. now rewrite lookup_insert_ne. }
        exists e'. split; [exact He'|].
        rewrite Hcount. rewrite count_occ_cons_neq by exact Hkey.
        reflexivity.
    + rewrite Hget.
      destruct (IH (S i)
                  (mkProbe (pDecisions st) (pFromCache st)
                     (uncachedIndices st ++ [i]) (uncachedObs st ++ [o])
                     (pCache st) (pHits st)) w Hnow Hsim key e He)
        as (e' & He' & Hcount).
      exists e'. split; [exact He'|]. rewrite Hcount.
      destruct (decide (hashObservation o = key)) as [Hkey | Hkey].
      * subst key. rewrite Hfresh. reflexivity.
      * rewrite count_occ_cons_neq by exact Hkey. reflexivity.
Qed.

(** When the combined call fails, nothing is cached: the cache afterwards
    holds the entries it held, with the decisions and creation times they
    had, and the hit counter of an entry has grown by the number of
    observations that asked for it if it was fresh, and not at all if it
    had expired.  The call still counts the observations and the hits, and
    it counts one fallback and no batch call. *)
Theorem failed_call_caches_nothing `{Runtime} `{External}
    (bds : BatchDecisionSystem) (ctx : Context)
    (observations : list Observation) (w w2 : World) (err : error) :
  observations <> [] ->
  Context_Err ctx (clock w) = None ->
  uncached (cache bds) (clock w) observations <> [] ->
  callLLMWithFallback (manager bds)
    (fst (context_WithTimeout ctx (25 * Second) w))
    (buildFlexibleMultiNPCPrompt
       (uncached (cache bds) (clock w) observations))
    (Z.of_nat (length (uncached (cache bds) (clock w) observations))) w
  = (Done (inr err), w2) ->
  exists resp bds',
    GetBatchDecisions bds ctx observations w = ((Done resp, bds'), w2) /\
    maxSize (cache bds') = maxSize (cache bds) /\
    ttl (cache bds') = ttl (cache bds) /\
    (forall key, entries (cache bds) !! key = None ->
                 entries (cache bds') !! key = None) /\
    (forall key e, entries (cache bds) !! key = Some e ->
       exists e',
         entries (cache bds') !! key = Some e' /\
         CDecision e' = CDecision e /\ CreatedAt e' = CreatedAt e /\
         HitCount e'
         = HitCount e
           + (if clock w - CreatedAt e >? ttl (cache bds) then 0
              else Z.of_nat
                     (count_occ string_dec
                        (map hashObservation observations) key))) /\
    manager bds' = manager bds /\
    totalDecisions bds'
    = totalDecisions bds + Z.of_nat (length observations) /\
    cachHits bds'
    = cachHits bds + Z.of_nat (hits (cache bds) (clock w) observations) /\
    fallbackUsed bds' = fallbackUsed bds + 1 /\
    batchCalls bds' = batchCalls bds.
Proof.
  intros Hne Hctx Hsome Hcall.
  destruct (GetBatchDecisions_run bds ctx observations w Hne Hctx)
    as (st & Hprobe & Hobs & Hidx & Hrun).
  cbn zeta in Hrun. rewrite Hrun. clear Hrun.
  destruct (probe_slots bds observations w st Hprobe)
    as (Hsim & Hl1 & Hl2 & Hhits & Hpos).
  assert (Hlen : (length (uncached (cache bds) (clock w) observations)
                  =? 0)%nat = false)
    by (destruct (uncached _ _ observations); [congruence | reflexivity]).
  rewrite Hlen, Hcall.
  destruct (fill_defaults_spec observations
              (uncached_indices (cache bds) (clock w) 0 observations)
              (pDecisions st))
    as (ds & Hfill & _).
  { now apply uncached_indices_bounds. }
  rewrite Hfill. do 2 eexists. split; [reflexivity|].
  cbn [cache manager totalDecisions cachHits fallbackUsed batchCalls].
  assert (Hmax : maxSize (pCache st) = maxSize (cache bds)).
  { match type of Hprobe with
    | probe_loop ?i ?o ?s ?w0 = _ =>
        pose proof (probe_loop_maxSize o i s w0) as Hm
    end.
    rewrite Hprobe in Hm. exact Hm. }
  split; [exact Hmax|]. split; [exact (proj1 Hsim)|].
  split; [|split].
  - intros key Hkey. destruct Hsim as [_ Hsim]. specialize (Hsim key).
    rewrite Hkey in Hsim.
    destruct (entries (pCache st) !! key); [contradiction | reflexivity].
  - intros key e He.
    destruct (probe_loop_counts (cache bds) (clock w) observations 0
                (mkProbe (replicate (length observations) None)
                   (replicate (length observations) false) [] []
                   (cache bds) (cachHits bds)) w eq_refl
                (cache_sim_refl _) key e He) as (e' & He' & Hcount).
    rewrite Hprobe in He'. cbn [fst] in He'.
    exists e'. split; [exact He'|].
    destruct Hsim as [_ Hsim]. specialize (Hsim key).
    rewrite He, He' in Hsim. destruct Hsim as [Hd Ht].
    split; [exact Hd|]. split; [exact Ht|].
    rewrite Hcount. unfold fresh, asked. rewrite He.
    now destruct (clock w - CreatedAt e >? ttl (cache bds)).
  - split; [reflexivity|]. split; [reflexivity|].
    split; [exact Hhits|]. split; reflexivity.
Qed.

Lemma failed_call_caches_nothing_witness :
  exists resp bds',
    GetBatchDecisions (H := amd64) (H0 := all_down) a_system live_ctx
      [obs_k1; obs_new; obs_k1] (mkWorld 7 [] 0)
    = ((Done resp, bds'),
       mkWorld 7 [EvCallWithContext "groq" "prompt"] 0) /\
    (exists e', entries (cache bds') !! fp obs_k1 = Some e' /\
                HitCount e' = 0 + 2) /\
    (exists e', entries (cache bds') !! fp obs_k2 = Some e' /\
                HitCount e' = 1 + 0) /\
    entries (cache bds') !! fp obs_new = None /\
    fallbackUsed bds' = 0 + 1 /\ batchCalls bds' = 0.
Proof.
  destruct (failed_call_caches_nothing (H := amd64) (H0 := all_down) a_system
              live_ctx [obs_k1; obs_new; obs_k1] (mkWorld 7 [] 0)
              (mkWorld 7 [EvCallWithContext "groq" "prompt"] 0)
              all_providers_failed)
    as (resp & bds' & Hrun & _ & _ & Hnone & Hkept & _ & _ & _ & Hfb & Hbc).
  - discriminate.
  - reflexivity.
  - vm_compute. discriminate.
  - vm_compute. reflexivity.
  - exists resp, bds'. split; [exact Hrun|].
    split; [|split; [|split; [|split; assumption]]].
    + destruct (Hkept (fp obs_k1) (mkCachedDecision explore 5 0)
                  ltac:(vm_compute; reflexivity)) as (e' & He' & _ & _ & Hc).
      exists e'. split; [exact He'|]. rewrite Hc. vm_compute. reflexivity.
    + destruct (Hkept (fp obs_k2) (mkCachedDecision explore 3 1)
                  ltac:(vm_compute; reflexivity)) as (e' & He' & _ & _ & Hc).
      exists e'. split; [exact He'|]. rewrite Hc. vm_compute. reflexivity.
    + apply Hnone. vm_compute. reflexivity.
Defined.

End BatchMore.

(* ===================================================================== *)
(** * Part XIII. The manager: rotation, pacing, parsers                     *)
(* ===================================================================== *)

Module ManagerFacts.
Import Go Api Fixtures RouterFacts RouterMore BatchFacts BatchMore.

(** ** [Manager.GetProviderForNPC] *)

(** [k] consecutive calls for the same NPC: the providers returned and the
    manager left behind. *)
Fixpoint providers_for (k : nat) (m : ManagerState) (npcName : string)
    : Res (list (option Provider)) * ManagerState :=
  match k with
  | O => (Done [], m)
  | S k' =>
      match GetProviderForNPC m npcName with
      | (Done p, m1) =>
          match providers_for k' m1 npcName with
          | (Done ps, m2) => (Done (p :: ps), m2)
          | other => other
          end
      | (Panic, m1) => (Panic, m1)
      | (OutOfFuel, m1) => (OutOfFuel, m1)
      end
  end.

Lemma GetProviderForNPC_next (m : ManagerState) (npcName : string) :
  npcProviders m !! npcName = None ->
  slmProviders (core m) <> [] ->
  0 <= providerIndex m < int64_max ->
  GetProviderForNPC m npcName
  = (Done (slmProviders (core m)
             !! Z.to_nat (providerIndex m
                          mod Z.of_nat (length (slmProviders (core m))))),
     with_index m (providerIndex m + 1)).
Proof.
  intros Hnone Hne Hidx. unfold GetProviderForNPC. rewrite Hnone.
  destruct (slmProviders (core m)) as [|p0 ps] eqn:Eps; [congruence|].
  rewrite <- Eps in *.
  assert (Hlen : 0 < Z.of_nat (length (slmProviders (core m))))
    by (rewrite Eps; cbn [length]; lia).
  destruct (Nat.eqb_spec (length (slmProviders (core m))) 0); [lia|].
  rewrite Z.rem_mod_nonneg by lia.
  pose proof (Z.mod_pos_bound (providerIndex m)
                (Z.of_nat (length (slmProviders (core m)))) Hlen) as Hb.
  destruct (Z.ltb_spec (providerIndex m
                        mod Z.of_nat (length (slmProviders (core m)))) 0);
    [lia|].
  destruct (slmProviders (core m)
              !! Z.to_nat (providerIndex m
                           mod Z.of_nat (length (slmProviders (core m)))))
    as [p|] eqn:Ep.
  - rewrite wrap64_small; [reflexivity|]. unfold int64_max in Hidx. lia.
  - apply lookup_ge_None in Ep. lia.
Qed.

(** An NPC with an assignment always gets its provider and the rotation
    does not move.  Without assignment and without providers it gets nil.
    Otherwise successive calls go round the list: the [j]-th call from now
    returns the provider at position [(providerIndex + j) mod len], and the
    index has moved by the number of calls. *)
Theorem GetProviderForNPC_goes_round (m : ManagerState) (npcName : string)
    (k : nat) :
  (forall p, npcProviders m !! npcName = Some p ->
     GetProviderForNPC m npcName = (Done (Some p), m)) /\
  (npcProviders m !! npcName = None -> slmProviders (core m) = [] ->
   GetProviderForNPC m npcName = (Done None, m)) /\
  (npcProviders m !! npcName = None -> slmProviders (core m) <> [] ->
   0 <= providerIndex m -> providerIndex m + Z.of_nat k <= int64_max ->
   providers_for k m npcName
   = (Done (map (fun j =>
                   slmProviders (core m)
                     !! Z.to_nat ((providerIndex m + Z.of_nat j)
                                  mod Z.of_nat (length (slmProviders (core m)))))
              (seq 0 k)),
      with_index m (providerIndex m + Z.of_nat k))).
Proof.
  split; [|split].
  - intros p Hp. unfold GetProviderForNPC. now rewrite Hp.
  - intros Hnone Hnil. unfold GetProviderForNPC. now rewrite Hnone, Hnil.
  - revert m. induction k as [|k IH]; intros m Hnone Hne Hlo Hhi.
    + cbn. destruct m; cbn. unfold with_index. cbn.
      now rewrite Z.add_0_r.
    + cbn [providers_for].
      rewrite GetProviderForNPC_next
        by (try assumption; unfold int64_max in *; lia).
      rewrite IH; cbn [with_index core npcProviders providerIndex];
        try assumption; try lia.
      cbn [seq map]. rewrite Z.add_0_r. rewrite <- seq_shift, map_map.
      f_equal; [f_equal|].
      * f_equal. apply map_ext. intros j.
        do 3 f_equal. lia.
      * unfold with_index. cbn. f_equal. lia.
Qed.

Definition two_providers : ManagerState :=
  mkManagerState
    (mkManager [groq; mkProvider "nebius" "" "key" "m" true] (Some groq))
    [] None ∅ 1
    (Llm.mkRateLimiter 5%float 5%float 1%float 0) zero_Time
    (500 * Millisecond) ∅ ∅ ∅.

Lemma GetProviderForNPC_goes_round_witness :
  providers_for 3 two_providers "Scout"
  = (Done (map (fun j =>
                  slmProviders (core two_providers)
                    !! Z.to_nat ((1 + Z.of_nat j) mod 2))
             (seq 0 3)),
     with_index two_providers (1 + 3)).
Proof.
  apply (proj2 (proj2 (GetProviderForNPC_goes_round two_providers "Scout" 3)));
    [reflexivity | discriminate | vm_compute; discriminate
     | vm_compute; discriminate].
Defined.

(** ** [throttle] *)

(** After [throttle] the time of the last call is the clock, and the clock
    is at least [minCallInterval] past the previous call: [throttle]
    sleeps for what is missing and not at all when enough time has passed.
    Nothing else in the manager changes. *)
Theorem throttle_keeps_calls_apart (m : ManagerState) (w : World) :
  0 <= minCallInterval m <= int64_max -> lastCallTime m <= clock w ->
  exists m' w',
    throttle m w = (m', w') /\
    lastCallTime m' = clock w' /\
    clock w' = Z.max (clock w) (lastCallTime m + minCallInterval m) /\
    trace w'
    = (trace w ++
       (if clock w - lastCallTime m <? minCallInterval m
        then [EvSleep (minCallInterval m - (clock w - lastCallTime m))]
        else []))%list /\
    with_limits m' (rateLimiter m') (lastCallTime m)
    = with_limits m (rateLimiter m) (lastCallTime m).
Proof.
  intros Hmin Hlast. unfold throttle, bind, time_Now, ret, time_Sub.
  unfold int64_max, int64_min in *.
  destruct (Z.ltb_spec (clock w - lastCallTime m) (minCallInterval m))
    as [Hshort | Hlong].
  - assert (Hel : Z.max (- 2 ^ 63) (Z.min (2 ^ 63 - 1)
                                      (clock w - lastCallTime m))
                  = clock w - lastCallTime m) by lia.
    rewrite Hel.
    destruct (Z.ltb_spec (clock w - lastCallTime m) (minCallInterval m));
      [|lia].
    rewrite wrap64_small by lia.
    unfold time_Sleep, bind, emit, advance_clock. cbn.
    do 2 eexists. split; [reflexivity|]. cbn.
    split; [reflexivity|]. split; [lia|]. split; reflexivity.
  - destruct (Z.ltb_spec
                (Z.max (- 2 ^ 63) (Z.min (2 ^ 63 - 1)
                                     (clock w - lastCallTime m)))
                (minCallInterval m)); [lia|].
    do 2 eexists. split; [reflexivity|]. cbn.
    split; [reflexivity|]. split; [lia|].
    split; [now rewrite app_nil_r | reflexivity].
Qed.

Lemma throttle_keeps_calls_apart_witness :
  exists m' w',
    throttle (with_limits two_providers (rateLimiter two_providers) 100)
      (mkWorld 300 [] 0) = (m', w') /\
    lastCallTime m' = clock w' /\
    clock w' = Z.max 300 (100 + 500 * Millisecond) /\
    trace w' = [EvSleep (500 * Millisecond - (300 - 100))].
Proof.
  destruct (throttle_keeps_calls_apart
              (with_limits two_providers (rateLimiter two_providers) 100)
              (mkWorld 300 [] 0))
    as (m' & w' & Hrun & Hlast & Hclk & Htr & _).
  - vm_compute. split; discriminate.
  - vm_compute. discriminate.
  - exists m', w'. repeat split; assumption.
Defined.

(** ** [truncateForLog], [truncateError] *)

Lemma newlines_to_spaces_length (s : string) :
  String.length (newlines_to_spaces s) = String.length s.
Proof.
  induction s as [|c s IH]; [reflexivity|].
  cbn [newlines_to_spaces String.length]. now rewrite IH.
Qed.

Lemma newlines_to_spaces_clean (s : string) :
  ~ In "010"%char (list_ascii_of_string (newlines_to_spaces s)).
Proof.
  induction s as [|c s IH]; [intros []|].
  cbn [newlines_to_spaces list_ascii_of_string]. intros [Hc | Hin].
  - destruct (Ascii.eqb_spec c "010"); [discriminate | congruence].
  - exact (IH Hin).
Qed.

Lemma In_substring_0 (c : ascii) (n : nat) (s : string) :
  In c (list_ascii_of_string (substring 0 n s)) ->
  In c (list_ascii_of_string s).
Proof.
  revert s. induction n as [|n IH]; intros s.
  - destruct s; intros [].
  - destruct s as [|a s]; [intros []|].
    cbn [substring list_ascii_of_string]. intros [Ha | Hin].
    + now left.
    + right. now apply IH.
Qed.

Lemma In_append (c : ascii) (s t : string) :
  In c (list_ascii_of_string (s ++ t)) ->
  In c (list_ascii_of_string s) \/ In c (list_ascii_of_string t).
Proof.
  induction s as [|a s IH]; [now right|].
  change (String a s ++ t) with (String a (s ++ t)).
  cbn [list_ascii_of_string]. intros [Ha | Hin].
  - left. now left.
  - destruct (IH Hin) as [Hs | Ht]; [left; now right | now right].
Qed.

(** [truncateForLog] panics for every negative [maxLen].  Otherwise its
    result holds no newline and is at most [maxLen + 3] bytes long: the
    string with its newlines replaced when that fits, else the first
    [maxLen] bytes of it and three dots.  [truncateError] returns an error
    of at most 100 bytes as it is and cuts a longer one to 100 bytes and
    three dots. *)
Theorem truncateForLog_truncateError_bounds (s : string) (maxLen : Z)
    (err : error) :
  (maxLen < 0 -> truncateForLog s maxLen = Panic) /\
  (0 <= maxLen ->
   exists r,
     truncateForLog s maxLen = Done r /\
     ~ In "010"%char (list_ascii_of_string r) /\
     Z.of_nat (String.length r) <= maxLen + 3 /\
     (Z.of_nat (String.length s) <= maxLen -> r = newlines_to_spaces s) /\
     (maxLen < Z.of_nat (String.length s) ->
      r = substring 0 (Z.to_nat maxLen) (newlines_to_spaces s) ++ "..." /\
      Z.of_nat (String.length r) = maxLen + 3)) /\
  (String.length (truncateError err) <= 103)%nat /\
  ((String.length err <= 100)%nat -> truncateError err = err) /\
  ((100 < String.length err)%nat ->
   truncateError err = substring 0 100 err ++ "..." /\
   String.length (truncateError err) = 103%nat).
Proof.
  split; [|split; [|split; [|split]]].
  - intros Hneg. unfold truncateForLog.
    destruct (Z.gtb_spec (Z.of_nat (String.length (newlines_to_spaces s)))
                maxLen); [|lia].
    destruct (Z.ltb_spec maxLen 0); [reflexivity | lia].
  - intros Hpos. unfold truncateForLog.
    pose proof (newlines_to_spaces_length s) as Hlen.
    destruct (Z.gtb_spec (Z.of_nat (String.length (newlines_to_spaces s)))
                maxLen) as [Hlong | Hfits].
    + destruct (Z.ltb_spec maxLen 0); [lia|].
      eexists. split; [reflexivity|].
      assert (Hcut : String.length
                       (substring 0 (Z.to_nat maxLen) (newlines_to_spaces s)
                        ++ "...")
                     = (Z.to_nat maxLen + 3)%nat).
      { rewrite length_append, length_substring_0 by lia. reflexivity. }
      split; [|split; [lia|split; [lia|]]].
      * intros Hin. apply In_append in Hin. destruct Hin as [Hin | Hin].
        -- apply In_substring_0 in Hin.
           exact (newlines_to_spaces_clean s Hin).
        -- cbn in Hin. destruct Hin as [Hd | [Hd | [Hd | []]]];
             discriminate.
      * intros _. split; [reflexivity | lia].
    + eexists. split; [reflexivity|].
      split; [apply newlines_to_spaces_clean|].
      split; [lia|]. split; [reflexivity | lia].
  - unfold truncateError.
    destruct (Nat.ltb_spec 100 (String.length err)); [|lia].
    rewrite length_append, length_substring_0 by lia. cbn. lia.
  - intros Hshort. unfold truncateError.
    destruct (Nat.ltb_spec 100 (String.length err)); [lia | reflexivity].
  - intros Hlong. unfold truncateError.
    destruct (Nat.ltb_spec 100 (String.length err)); [|lia].
    split; [reflexivity|].
    rewrite length_append, length_substring_0 by lia. reflexivity.
Qed.

(** ** [parseBatchResponse] *)

Lemma lookup_map {A B : Type} (f : A -> B) (l : list A) (i : nat) (x : A) :
  l !! i = Some x -> map f l !! i = Some (f x).
Proof.
  intros Hx. change (map f l) with (f <$> l).
  now rewrite list_lookup_fmap, Hx.
Qed.

Lemma DefaultDecision_npc_id (obs : Observation) :
  DefaultDecision obs !! "npc_id" = Some (default VNil (obs !! "npc_id")).
Proof. unfold DefaultDecision, Decision. now rewrite lookup_insert_eq. Qed.

Lemma batch_decision_spec (decs : list BatchItem) (obs : Observation) :
  batch_decision decs obs !! "npc_id" = Some (default VNil (obs !! "npc_id")) /\
  (batch_decision decs obs = DefaultDecision obs /\
   Forall (fun dec => itemNPC dec <> getString obs "name") decs \/
   exists before dec rest,
     decs = (before ++ dec :: rest)%list /\
     Forall (fun dec' => itemNPC dec' <> getString obs "name") before /\
     itemNPC dec = getString obs "name" /\
     batch_decision decs obs !! "action" = Some (VString (itemAction dec)) /\
     batch_decision decs obs !! "target" = Some (itemTarget dec) /\
     batch_decision decs obs !! "reason" = Some (VString (itemReason dec))).
Proof.
  unfold batch_decision, Decision.
  induction decs as [|dec0 decs IH].
  - cbn [find]. split; [apply DefaultDecision_npc_id|]. left.
    split; [reflexivity | constructor].
  - cbn [find]. destruct (String.eqb_spec (itemNPC dec0) (getString obs "name"))
      as [Heq | Hne].
    + cbv beta iota. split; [now rewrite lookup_insert_eq|]. right.
      exists [], dec0, decs. split; [reflexivity|]. split; [constructor|].
      split; [exact Heq|].
      split; [|split].
      * rewrite lookup_insert_ne by discriminate.
        now rewrite lookup_insert_eq.
      * do 2 (rewrite lookup_insert_ne by discriminate).
        now rewrite lookup_insert_eq.
      * do 3 (rewrite lookup_insert_ne by discriminate).
        now rewrite lookup_insert_eq.
    + cbv beta iota. destruct IH as [Hid IH]. split; [exact Hid|].
      destruct IH as [[Hdef Hall] | (before & dec & rest & Hd & Hb & IH)].
      * left. split; [exact Hdef | now constructor].
      * right. exists (dec0 :: before), dec, rest.
        split; [now rewrite Hd|]. split; [now constructor | exact IH].
Qed.

Lemma batch_decision_exact (decs : list BatchItem) (obs : Observation) :
  (Forall (fun dec => itemNPC dec <> getString obs "name") decs /\
   batch_decision decs obs = DefaultDecision obs) \/
  exists before dec rest,
    decs = (before ++ dec :: rest)%list /\
    Forall (fun dec' => itemNPC dec' <> getString obs "name") before /\
    itemNPC dec = getString obs "name" /\
    batch_decision decs obs
    = <["npc_id" := default VNil (obs !! "npc_id")]>
        (<["action" := VString (itemAction dec)]>
           (<["target" := itemTarget dec]>
              (<["reason" := VString (itemReason dec)]> ∅))).
Proof.
  unfold batch_decision, Decision.
  induction decs as [|dec0 decs IH].
  - left. split; [constructor | reflexivity].
  - cbn [find].
    destruct (String.eqb_spec (itemNPC dec0) (getString obs "name"))
      as [Heq | Hne]; cbv beta iota.
    + right. exists [], dec0, decs.
      split; [reflexivity|]. split; [constructor|].
      split; [exact Heq | reflexivity].
    + destruct IH as [[Hall Hdef] | (before & dec & rest & Hd & Hb & Hn & Hr)].
      * left. split; [now constructor | exact Hdef].
      * right. exists (dec0 :: before), dec, rest.
        split; [now rewrite Hd|]. split; [now constructor|].
        split; [exact Hn | exact Hr].
Qed.

(** [parseBatchResponse] returns one decision per observation, in order,
    and each carries the [npc_id] of its observation.  When the response
    has a brace pair that decodes, the decision of an observation is built
    from the first decoded element whose [npc] is the name of the
    observation: it holds the [npc_id] of the observation and the action,
    target and reason of that element.  It is the default decision exactly
    when no element bears that name.  When the response has no brace pair
    or does not decode, every decision is the default one, which holds the
    [npc_id], the action [explore] and the reason "Looking around...". *)
Theorem parseBatchResponse_one_per_observation `{Codec} (response : string)
    (observations : list Observation) :
  length (parseBatchResponse response observations) = length observations /\
  (forall i o, observations !! i = Some o ->
     exists d,
       parseBatchResponse response observations !! i = Some d /\
       d !! "npc_id" = Some (default VNil (o !! "npc_id"))) /\
  (forall decs,
     0 <= index_byte "{" response < last_index_byte "}" response ->
     json_Unmarshal_batch
       (slice response (index_byte "{" response)
          (last_index_byte "}" response + 1)) = Some decs ->
     forall i o, observations !! i = Some o ->
       (Forall (fun dec => itemNPC dec <> getString o "name") decs /\
        parseBatchResponse response observations !! i
        = Some (DefaultDecision o)) \/
       (exists before dec rest,
          decs = (before ++ dec :: rest)%list /\
          Forall (fun dec' => itemNPC dec' <> getString o "name") before /\
          itemNPC dec = getString o "name" /\
          parseBatchResponse response observations !! i
          = Some (<["npc_id" := default VNil (o !! "npc_id")]>
                    (<["action" := VString (itemAction dec)]>
                       (<["target" := itemTarget dec]>
                          (<["reason" := VString (itemReason dec)]> ∅)))))) /\
  (index_byte "{" response < 0 \/
   last_index_byte "}" response <= index_byte "{" response \/
   json_Unmarshal_batch
     (slice response (index_byte "{" response)
        (last_index_byte "}" response + 1)) = None ->
   parseBatchResponse response observations
   = map DefaultDecision observations) /\
  (forall o,
     DefaultDecision o
     = <["npc_id" := default VNil (o !! "npc_id")]>
         (<["action" := VString "explore"]>
            (<["reason" := VString "Looking around..."]> ∅))).
Proof.
  unfold parseBatchResponse, Observation, Decision in *.
  split; [|split; [|split; [|split]]].
  - destruct ((0 <=? index_byte "{" response)
              && (index_byte "{" response <? last_index_byte "}" response));
      [destruct (json_Unmarshal_batch _)|]; apply length_map.
  - intros i o Hi.
    assert (Hdef : exists d,
               map DefaultDecision observations !! i = Some d /\
               d !! "npc_id" = Some (default VNil (o !! "npc_id"))).
    { exists (DefaultDecision o).
      split; [apply lookup_map; exact Hi | apply DefaultDecision_npc_id]. }
    destruct ((0 <=? index_byte "{" response)
              && (index_byte "{" response <? last_index_byte "}" response));
      [|exact Hdef].
    destruct (json_Unmarshal_batch _) as [decs|]; [|exact Hdef].
    exists (batch_decision decs o).
    split; [apply lookup_map; exact Hi|].
    exact (proj1 (batch_decision_spec decs o)).
  - intros decs Hrange Hdecs i o Hi.
    destruct (Z.leb_spec 0 (index_byte "{" response)); [|lia].
    destruct (Z.ltb_spec (index_byte "{" response)
                (last_index_byte "}" response)); [|lia].
    cbn [andb]. rewrite Hdecs.
    pose proof (lookup_map (batch_decision decs) _ _ _ Hi) as Hslot.
    destruct (batch_decision_exact decs o)
      as [[Hall Hdef] | (before & dec & rest & Hd & Hb & Hn & Hr)].
    + left. split; [exact Hall|].
      etransitivity; [exact Hslot | f_equal; exact Hdef].
    + right. exists before, dec, rest.
      split; [exact Hd|]. split; [exact Hb|]. split; [exact Hn|].
      etransitivity; [exact Hslot | f_equal; exact Hr].
  - intros [Hneg | [Hle | Hnone]].
    + destruct (Z.leb_spec 0 (index_byte "{" response)); [lia|]. reflexivity.
    + destruct (Z.ltb_spec (index_byte "{" response)
                  (last_index_byte "}" response)); [lia|].
      now rewrite andb_false_r.
    + rewrite Hnone.
      now destruct ((0 <=? index_byte "{" response)
                    && (index_byte "{" response <? last_index_byte "}" response)).
  - intros o. reflexivity.
Qed.

(** ** [parseActionResponse] *)

(** The object [parseActionResponse] decodes, if it decodes one. *)
Definition decoded_action `{Codec} (response : string)
    : option (gmap string Value) :=
  if (0 <=? first_brace response)
     && (first_brace response <? past_last_brace response)
  then json_Unmarshal_object
         (slice response (first_brace response) (past_last_brace response))
  else None.

Lemma getString_insert_ne (m : gmap string Value) (k key : string)
    (v : Value) :
  k <> key -> getString (<[k := v]> m) key = getString m key.
Proof. intros Hne. unfold getString. now rewrite lookup_insert_ne. Qed.

Lemma getString_insert_eq (m : gmap string Value) (key s : string) :
  getString (<[key := VString s]> m) key = s.
Proof. unfold getString. now rewrite lookup_insert_eq. Qed.

Lemma fix_self_target_spec (action : gmap string Value) (obs : Observation) :
  (forall key, key <> "target" ->
     fix_self_target action obs !! key = action !! key) /\
  (fix_self_target action obs = action \/
   exists v, first_nearby_name obs = Some v /\
             fix_self_target action obs = <["target" := VString v]> action) /\
  (forall v,
     getString action "action" = "talk" \/
     getString action "action" = "taunt" ->
     first_nearby_name obs = Some v ->
     v <> "" -> v <> getString obs "name" ->
     getString (fix_self_target action obs) "target" <> "" /\
     getString (fix_self_target action obs) "target"
     <> getString obs "name").
Proof.
  unfold fix_self_target.
  split; [|split].
  - intros key Hkey.
    destruct (String.eqb (getString action "action") "talk"
              || String.eqb (getString action "action") "taunt");
      [|reflexivity].
    destruct (String.eqb (getString action "target") (getString obs "name")
              || String.eqb (getString action "target") ""); [|reflexivity].
    destruct (first_nearby_name obs); [|reflexivity].
    apply lookup_insert_ne. congruence.
  - destruct (String.eqb (getString action "action") "talk"
              || String.eqb (getString action "action") "taunt");
      [|now left].
    destruct (String.eqb (getString action "target") (getString obs "name")
              || String.eqb (getString action "target") ""); [|now left].
    destruct (first_nearby_name obs) as [v|]; [|now left].
    right. now exists v.
  - intros v Hkind Hv Hne Hself.
    assert (Hk : String.eqb (getString action "action") "talk"
                 || String.eqb (getString action "action") "taunt" = true).
    { destruct Hkind as [-> | ->]; reflexivity. }
    rewrite Hk, Hv.
    destruct (String.eqb_spec (getString action "target")
                (getString obs "name")) as [Hs | Hs]; cbn [orb].
    + rewrite getString_insert_eq. now split.
    + destruct (String.eqb_spec (getString action "target") "") as [He | He].
      * rewrite getString_insert_eq. now split.
      * now split.
Qed.

(** Whatever the response, [parseActionResponse] returns a decision with
    the [npc_id] of the observation.  A decoded object is returned with
    only [npc_id] and possibly [target] replaced, and a decoded talk or
    taunt is never left aimed at nobody or at the speaker when the first
    nearby NPC has another, non-empty name.  Without a decoded object the
    result is the default decision or a taunt at the first nearby NPC (at
    [opponent] without one) whose message is at most 103 bytes long. *)
Theorem parseActionResponse_shapes `{Os} `{Codec} (response : string)
    (obs : Observation) :
  parseActionResponse response obs !! "npc_id" = Some (index obs "npc_id") /\
  (forall action, decoded_action response = Some action ->
     (forall key, key <> "npc_id" -> key <> "target" ->
        parseActionResponse response obs !! key = action !! key) /\
     (parseActionResponse response obs !! "target" = action !! "target" \/
      exists v, first_nearby_name obs = Some v /\
                parseActionResponse response obs !! "target"
                = Some (VString v)) /\
     (forall v,
        getString action "action" = "talk" \/
        getString action "action" = "taunt" ->
        first_nearby_name obs = Some v ->
        v <> "" -> v <> getString obs "name" ->
        getString (parseActionResponse response obs) "target" <> "" /\
        getString (parseActionResponse response obs) "target"
        <> getString obs "name")) /\
  (decoded_action response = None ->
   parseActionResponse response obs = DefaultDecision obs \/
   exists message,
     (String.length message <= 103)%nat /\
     parseActionResponse response obs
     = <["npc_id" := index obs "npc_id"]>
         (<["action" := VString "taunt"]>
            (<["target" :=
                 VString (default "opponent" (first_nearby_name obs))]>
               (<["message" := VString message]> ∅)))).
Proof.
  unfold parseActionResponse. cbn zeta. fold (decoded_action response).
  destruct (decoded_action response) as [action|].
  - destruct (fix_self_target_spec (<["npc_id" := index obs "npc_id"]> action)
                obs) as (Hkeys & Hshape & Hfix).
    split; [|split; [|discriminate]].
    + rewrite Hkeys by discriminate. apply lookup_insert_eq.
    + intros action' Ha. inversion Ha; subst action'. split; [|split].
      * intros key Hid Htarget. rewrite Hkeys by exact Htarget.
        apply lookup_insert_ne. congruence.
      * destruct Hshape as [-> | (v & Hv & ->)].
        -- left. apply lookup_insert_ne. discriminate.
        -- right. exists v. split; [exact Hv | apply lookup_insert_eq].
      * intros v Hkind Hv Hne Hself. apply (Hfix v); try assumption.
        rewrite getString_insert_ne by discriminate. exact Hkind.
  - split; [|split; [discriminate|]].
    + destruct ((5 <? String.length (strings_TrimSpace response))%nat
                && negb (String.prefix "{" (strings_TrimSpace response))).
      * apply lookup_insert_eq.
      * apply DefaultDecision_npc_id.
    + intros _.
      destruct ((5 <? String.length (strings_TrimSpace response))%nat
                && negb (String.prefix "{" (strings_TrimSpace response)));
        [|now left].
      right. eexists. split; [|reflexivity].
      destruct (Nat.ltb_spec 100
                  (String.length
                     (strings_Trim (strings_TrimSpace response) quotes))).
      * rewrite length_append, length_substring_0 by lia. cbn. lia.
      * lia.
Qed.

(** ** [simpleJudge] *)

Lemma coordination_stopped `{Codec} (l : list (string * Value))
    (first : string) (allMatch : bool) :
  fold_left coordination_step l (first, allMatch, true)
  = (first, allMatch, true).
Proof. induction l as [|kv l IH]; [reflexivity | exact IH]. Qed.

Lemma coordination_fold `{Codec} (l : list (string * Value))
    (first : string) :
  first <> "" ->
  fold_left coordination_step l (first, true, false)
  = if forallb (fun kv => String.eqb (fmt_v (snd kv)) first) l
    then (first, true, false) else (first, false, true).
Proof.
  intros Hne. induction l as [|kv l IH]; [reflexivity|].
  cbn [fold_left forallb]. unfold coordination_step at 2.
  destruct (String.eqb_spec first "") as [|_]; [contradiction|].
  destruct (String.eqb (fmt_v (snd kv)) first); cbn [negb andb].
  - exact IH.
  - apply coordination_stopped.
Qed.

Lemma visited_responses `{Runtime} (responses : gmap string Value) (n : nat)
    (kv : string * Value) :
  In kv (map_range n (map_to_list responses))
  <-> responses !! fst kv = Some (snd kv).
Proof.
  rewrite <- list_elem_of_In.
  rewrite (map_range_perm _ n (map_to_list responses)).
  destruct kv as [k v]. apply elem_of_map_to_list.
Qed.

(** The answers all read the same. *)
Definition agree `{Codec} (responses : gmap string Value) : Prop :=
  forall k1 v1 k2 v2,
    responses !! k1 = Some v1 -> responses !! k2 = Some v2 ->
    fmt_v v1 = fmt_v v2.

(** The responses in visiting order, from the first one that does not read
    as the empty string. *)
Fixpoint from_first_said `{Codec} (visited : list (string * Value))
    : list (string * Value) :=
  match visited with
  | [] => []
  | kv :: rest =>
      if String.eqb (fmt_v (snd kv)) "" then from_first_said rest
      else visited
  end.

Lemma coordination_general `{Codec} (visited : list (string * Value)) :
  fold_left coordination_step visited ("", true, false)
  = match from_first_said visited with
    | [] => ("", true, false)
    | kv :: rest =>
        if forallb (fun kv' => String.eqb (fmt_v (snd kv')) (fmt_v (snd kv)))
             rest
        then (fmt_v (snd kv), true, false)
        else (fmt_v (snd kv), false, true)
    end.
Proof.
  induction visited as [|kv rest IH]; [reflexivity|].
  cbn [fold_left from_first_said].
  assert (Hstep : coordination_step ("", true, false) kv
                  = (fmt_v (snd kv), true, false)) by reflexivity.
  rewrite Hstep.
  destruct (String.eqb_spec (fmt_v (snd kv)) "") as [Hempty | Hsaid].
  - rewrite Hempty. exact IH.
  - apply coordination_fold. exact Hsaid.
Qed.

Lemma from_first_said_head `{Codec} (visited : list (string * Value))
    (kv : string * Value) (rest : list (string * Value)) :
  from_first_said visited = kv :: rest -> fmt_v (snd kv) <> "".
Proof.
  induction visited as [|kv0 visited IH]; [discriminate|].
  cbn [from_first_said].
  destruct (String.eqb_spec (fmt_v (snd kv0)) "") as [Hempty | Hsaid];
    [exact IH|].
  intros Heq. inversion Heq; subst. exact Hsaid.
Qed.

(** A memory challenge is correct exactly when some response reads as the
    solution, whatever the order in which the runtime ranges over the
    responses.  The verdict on a coordination challenge is computed from
    the responses in visiting order: those that read as the empty string
    are passed over until one reads otherwise, and the verdict is correct
    exactly when there is such a response and all that follow it read the
    same; without one the challenge is not correct and yet has the
    feedback and score of a perfect one.  So when no response reads as the
    empty string the verdict does not depend on the order: it is correct
    exactly when there is a response and all read the same.  Any other
    challenge is completed with score 0.5. *)
Theorem simpleJudge_verdicts `{Runtime} `{Codec}
    (challenge responses : gmap string Value) (w : World) :
  (getString challenge "type" = "memory" ->
   ((exists k v, responses !! k = Some v /\
                 fmt_v v = getString challenge "solution") ->
    fst (simpleJudge challenge responses w)
    = judgment true "Correct recall!" 1%float) /\
   (~ (exists k v, responses !! k = Some v /\
                   fmt_v v = getString challenge "solution") ->
    fst (simpleJudge challenge responses w)
    = judgment false "Incorrect answer" 0%float)) /\
  (getString challenge "type" = "coordination" ->
   fst (simpleJudge challenge responses w)
   = match from_first_said
             (map_range (ranges w) (map_to_list responses)) with
     | [] => judgment false "Perfect coordination!" 1%float
     | kv :: rest =>
         if forallb
              (fun kv' => String.eqb (fmt_v (snd kv')) (fmt_v (snd kv))) rest
         then judgment true "Perfect coordination!" 1%float
         else judgment false "Different answers given" 0%float
     end) /\
  (getString challenge "type" = "coordination" ->
   (forall k v, responses !! k = Some v -> fmt_v v <> "") ->
   (responses = ∅ ->
    fst (simpleJudge challenge responses w)
    = judgment false "Perfect coordination!" 1%float) /\
   (responses <> ∅ -> agree responses ->
    fst (simpleJudge challenge responses w)
    = judgment true "Perfect coordination!" 1%float) /\
   (~ agree responses ->
    fst (simpleJudge challenge responses w)
    = judgment false "Different answers given" 0%float)) /\
  (getString challenge "type" <> "memory" ->
   getString challenge "type" <> "coordination" ->
   simpleJudge challenge responses w
   = (judgment true "Challenge completed" 0.5%float, w)).
Proof.
  unfold simpleJudge. split; [|split; [|split]].
  - intros Hty. rewrite Hty. cbn [String.eqb Ascii.eqb Bool.eqb].
    cbn [fst].
    destruct (existsb _ _) eqn:Hex.
    + split; [reflexivity|]. intros Hno. exfalso. apply Hno.
      apply existsb_exists in Hex. destruct Hex as ([k v] & Hin & Heq).
      apply visited_responses in Hin. apply String.eqb_eq in Heq.
      now exists k, v.
    + split; [|reflexivity]. intros (k & v & Hkv & Heq).
      assert (Htrue : existsb
                (fun kv : string * Value =>
                   String.eqb (fmt_v (snd kv))
                     (getString challenge "solution"))
                (map_range (ranges w) (map_to_list responses)) = true).
      { apply existsb_exists. exists (k, v).
        split; [now apply visited_responses | now apply String.eqb_eq]. }
      congruence.
  - intros Hty. rewrite Hty. cbn [String.eqb Ascii.eqb Bool.eqb].
    rewrite coordination_general.
    destruct (from_first_said (map_range (ranges w) (map_to_list responses)))
      as [|kv rest] eqn:Hsaid; [reflexivity|].
    apply from_first_said_head in Hsaid.
    destruct (forallb _ rest); cbn [fst andb]; [|reflexivity].
    destruct (String.eqb_spec (fmt_v (snd kv)) ""); [contradiction|].
    reflexivity.
  - intros Hty Hfull. rewrite Hty. cbn [String.eqb Ascii.eqb Bool.eqb].
    pose proof (visited_responses responses (ranges w)) as Hvis.
    destruct (map_range (ranges w) (map_to_list responses)) as [|kv rest]
      eqn:Hlist.
    + assert (Hempty : responses = ∅).
      { apply map_eq. intros k. rewrite lookup_empty.
        destruct (responses !! k) as [v|] eqn:Hk; [|reflexivity].
        destruct (proj2 (Hvis (k, v)) Hk). }
      cbn [fold_left fst]. split; [reflexivity|].
      split; [congruence|]. intros Hno. exfalso. apply Hno.
      intros k1 v1 k2 v2 H1. rewrite Hempty in H1.
      now rewrite lookup_empty in H1.
    + assert (Hkv : responses !! fst kv = Some (snd kv))
        by (apply Hvis; now left).
      assert (Hne : responses <> ∅).
      { intros Hempty. rewrite Hempty in Hkv.
        now rewrite lookup_empty in Hkv. }
      cbn [fold_left].
      assert (Hstep : coordination_step ("", true, false) kv
                      = (fmt_v (snd kv), true, false)) by reflexivity.
      rewrite Hstep.
      pose proof (Hfull _ _ Hkv) as Hfirst.
      rewrite (coordination_fold rest _ Hfirst).
      destruct (forallb _ rest) eqn:Hall.
      * assert (Hagree : agree responses).
        { assert (Hsame : forall k v, responses !! k = Some v ->
                    fmt_v v = fmt_v (snd kv)).
          { intros k v Hk. apply (Hvis (k, v)) in Hk.
            destruct Hk as [Heq | Hin]; [now rewrite Heq|].
            rewrite forallb_forall in Hall.
            apply String.eqb_eq. exact (Hall _ Hin). }
          intros k1 v1 k2 v2 H1 H2.
          now rewrite (Hsame _ _ H1), (Hsame _ _ H2). }
        cbn [fst andb].
        destruct (String.eqb_spec (fmt_v (snd kv)) ""); [contradiction|].
        cbn [negb]. split; [congruence|]. split; [reflexivity|].
        intros Hno. contradiction.
      * cbn [fst andb]. split; [congruence|]. split; [|reflexivity].
        intros _ Hagree. exfalso.
        assert (Htrue : forallb
                  (fun kv0 : string * Value =>
                     String.eqb (fmt_v (snd kv0)) (fmt_v (snd kv))) rest
                = true).
        { apply forallb_forall. intros [k v] Hin. apply String.eqb_eq.
          apply (Hagree k v (fst kv) (snd kv)); [|exact Hkv].
          apply (Hvis (k, v)). now right. }
        congruence.
  - intros Hm Hc.
    destruct (String.eqb_spec (getString challenge "type") "coordination");
      [contradiction|].
    destruct (String.eqb_spec (getString challenge "type") "memory");
      [contradiction|].
    reflexivity.
Qed.

(** ** [parseMultiNPCResponse] *)

(** A decision after the assignment [dec["npc_id"] = npcID] for the
    observation [o]. *)
Definition claimed_by (d : gmap string Value) (o : Observation)
    : gmap string Value :=
  <["npc_id" := VString (getString o "npc_id")]> d.

Lemma claimed_twice (d : gmap string Value) (o o' : Observation) :
  claimed_by (claimed_by d o) o' = claimed_by d o'.
Proof. unfold claimed_by. apply insert_insert_eq. Qed.

Lemma claimed_npc (d : gmap string Value) (o : Observation) :
  getString (claimed_by d o) "npc" = getString d "npc".
Proof. unfold claimed_by. apply getString_insert_ne. discriminate. Qed.

Lemma claimed_npc_id (d : gmap string Value) (o : Observation) :
  getString (claimed_by d o) "npc_id" = getString o "npc_id".
Proof. unfold claimed_by. apply getString_insert_eq. Qed.

(** What [first_match] finds: the first element that matches by [npc_id]
    or by [npc]. *)
Lemma first_match_spec (decs : list (option (gmap string Value)))
    (npcID npcName : string) :
  forall j0 : nat,
  match first_match decs npcID npcName j0 with
  | Some j =>
      (j0 <= j)%nat /\
      exists dec,
        decs !! (j - j0)%nat = Some dec /\
        (getString (default ∅ dec) "npc_id" = npcID \/
         getString (default ∅ dec) "npc" = npcName) /\
        forall j' dec', (j' < j - j0)%nat -> decs !! j' = Some dec' ->
          getString (default ∅ dec') "npc" <> npcName
  | None =>
      forall j' dec', decs !! j' = Some dec' ->
        getString (default ∅ dec') "npc" <> npcName
  end.
Proof.
  induction decs as [|dec decs IH]; intros j0.
  - cbn [first_match]. intros j' dec' Hj'. destruct j'; discriminate Hj'.
  - cbn [first_match]. cbn zeta.
    destruct (String.eqb_spec (getString (default ∅ dec) "npc_id") npcID)
      as [Hid | Hid]; cbn [orb].
    + split; [lia|]. exists dec. rewrite Nat.sub_diag.
      split; [reflexivity|]. split; [now left|]. intros j' dec' Hlt. lia.
    + destruct (String.eqb_spec (getString (default ∅ dec) "npc") npcName)
        as [Hname | Hname].
      * split; [lia|]. exists dec. rewrite Nat.sub_diag.
        split; [reflexivity|]. split; [now right|]. intros j' dec' Hlt. lia.
      * specialize (IH (S j0)).
        destruct (first_match decs npcID npcName (S j0)) as [j|].
        -- destruct IH as (Hle & dec1 & Hdec1 & Hmatch & Hfirst).
           split; [lia|]. exists dec1.
           replace (j - j0)%nat with (S (j - S j0)) by lia.
           split; [exact Hdec1|]. split; [exact Hmatch|].
           intros j' dec' Hlt Hj'. destruct j' as [|j'].
           ++ cbn in Hj'. inversion Hj'; subst dec'. exact Hname.
           ++ apply (Hfirst j' dec'); [lia | exact Hj'].
        -- intros j' dec' Hj'. destruct j' as [|j'].
           ++ cbn in Hj'. inversion Hj'; subst dec'. exact Hname.
           ++ exact (IH j' dec' Hj').
Qed.

(** Why the map [d0] at position [j] was taken for the observation at
    position [i]: it bears the NPC's name, or its [npc_id], or the
    [npc_id] an earlier observation has written to it. *)
Definition matched (observations : list Observation) (slots : list Slot)
    (i : nat) (o : Observation) (j : nat) (d0 : gmap string Value) : Prop :=
  getString d0 "npc" = getString o "name" \/
  getString d0 "npc_id" = getString o "npc_id" \/
  exists k o', (k < i)%nat /\ observations !! k = Some o' /\
               slots !! k = Some (SlotRef j) /\
               getString o' "npc_id" = getString o "npc_id".

Lemma match_loop_shares (observations : list Observation) :
  forall (store : list (option (gmap string Value))) (slots : list Slot),
  Forall is_Some store ->
  exists new store',
    match_loop observations store slots = Done ((slots ++ new)%list, store') /\
    Forall is_Some store' /\
    length new = length observations /\
    (forall j d0, store !! j = Some (Some d0) ->
       (Forall (fun sl => sl <> SlotRef j) new /\
        store' !! j = Some (Some d0)) \/
       exists k o',
         new !! k = Some (SlotRef j) /\
         (forall k', (k < k')%nat -> new !! k' <> Some (SlotRef j)) /\
         observations !! k = Some o' /\
         store' !! j = Some (Some (claimed_by d0 o'))) /\
    (forall i o, observations !! i = Some o ->
       (new !! i = Some (SlotOwn (DefaultDecision o)) /\
        forall j d0, store !! j = Some (Some d0) ->
                     getString d0 "npc" <> getString o "name") \/
       exists j d0,
         new !! i = Some (SlotRef j) /\
         store !! j = Some (Some d0) /\
         matched observations new i o j d0 /\
         forall j' d', (j' < j)%nat -> store !! j' = Some (Some d') ->
                       getString d' "npc" <> getString o "name").
Proof.
  induction observations as [|o rest IH]; intros store slots Hsome.
  - exists [], store. cbn [match_loop]. rewrite app_nil_r.
    split; [reflexivity|]. split; [exact Hsome|]. split; [reflexivity|].
    split; [intros j d0 Hj; left; split; [constructor | exact Hj]|].
    intros i o' Hi. discriminate.
  - cbn [match_loop]. cbn zeta.
    pose proof (first_match_spec store (getString o "npc_id")
                  (getString o "name") 0) as Hfirst.
    destruct (first_match store (getString o "npc_id") (getString o "name") 0)
      as [j|].
    + destruct Hfirst as (_ & dec & Hdec & Hmatch & Hbefore).
      rewrite Nat.sub_0_r in Hdec, Hbefore. rewrite Hdec.
      assert (Hd : is_Some dec)
        by (rewrite Forall_lookup in Hsome; exact (Hsome _ _ Hdec)).
      destruct Hd as [d ->]. cbn [default from_option id] in Hmatch.
      fold (claimed_by d o).
      assert (Hlt : (j < length store)%nat)
        by (apply lookup_lt_is_Some; eauto).
      assert (Hnpc : forall j' d', store !! j' = Some (Some d') ->
                exists d1,
                  <[j := Some (claimed_by d o)]> store !! j' = Some (Some d1) /\
                  getString d1 "npc" = getString d' "npc").
      { intros j' d' Hj'. destruct (Nat.eq_dec j' j) as [-> | Hne].
        - rewrite Hdec in Hj'. inversion Hj'; subst d'.
          exists (claimed_by d o).
          split; [now apply list_lookup_insert_eq | apply claimed_npc].
        - exists d'. rewrite list_lookup_insert_ne by congruence.
          split; [exact Hj' | reflexivity]. }
      destruct (IH (<[j := Some (claimed_by d o)]> store)
                  (slots ++ [SlotRef j])%list)
        as (new & store' & Hrun & Hsome' & Hlen & Hstore & Hslots).
      { apply Forall_insert; [exact Hsome | eauto]. }
      exists (SlotRef j :: new), store'.
      split; [now rewrite Hrun, <- app_assoc|].
      split; [exact Hsome'|]. split; [cbn [length]; now rewrite Hlen|].
      split.
      * intros j0 d0 Hj0. destruct (Nat.eq_dec j0 j) as [-> | Hne].
        -- rewrite Hdec in Hj0. inversion Hj0; subst d0. right.
           destruct (Hstore j (claimed_by d o))
             as [[Hnot Hkeep] | (k & o' & Hk & Hlast & Hok & Hk')].
           ++ now apply list_lookup_insert_eq.
           ++ exists O, o. split; [reflexivity|].
              split; [|split; [reflexivity | exact Hkeep]].
              intros k' Hk' Heq. destruct k' as [|k']; [lia|].
              cbn in Heq. rewrite Forall_lookup in Hnot.
              now apply (Hnot _ _ Heq).
           ++ exists (S k), o'. split; [exact Hk|].
              split; [|split; [exact Hok|]].
              ** intros k' Hk''. destruct k' as [|k']; [lia|].
                 cbn. apply Hlast. lia.
              ** now rewrite claimed_twice in Hk'.
        -- destruct (Hstore j0 d0)
             as [[Hnot Hkeep] | (k & o' & Hk & Hlast & Hok & Hk')].
           ++ rewrite list_lookup_insert_ne by congruence. exact Hj0.
           ++ left. split; [|exact Hkeep].
              constructor; [congruence | exact Hnot].
           ++ right. exists (S k), o'. split; [exact Hk|].
              split; [|split; [exact Hok | exact Hk']].
              intros k' Hk''. destruct k' as [|k']; [lia|].
              cbn. apply Hlast. lia.
      * intros i oi Hi. destruct i as [|i].
        -- inversion Hi; subst oi. right. exists j, d.
           split; [reflexivity|]. split; [exact Hdec|]. split.
           ++ destruct Hmatch as [Hid | Hname]; [right; now left | now left].
           ++ intros j' d' Hj' Hd'. exact (Hbefore j' (Some d') Hj' Hd').
        -- destruct (Hslots i oi Hi)
             as [[Hown Hnone] | (j1 & d1 & Hnew & Hj1 & Hwhy & Hfirst1)].
           ++ left. split; [exact Hown|]. intros j0 d0 Hj0.
              destruct (Hnpc j0 d0 Hj0) as (d0' & Hd0' & Hsame).
              rewrite <- Hsame. exact (Hnone j0 d0' Hd0').
           ++ right.
              assert (Hfirst0 : forall j' d', (j' < j1)%nat ->
                        store !! j' = Some (Some d') ->
                        getString d' "npc" <> getString oi "name").
              { intros j' d' Hj' Hd'.
                destruct (Hnpc j' d' Hd') as (d'' & Hd'' & Hsame).
                rewrite <- Hsame. exact (Hfirst1 j' d'' Hj' Hd''). }
              assert (Hshift : forall d0,
                        (exists k o', (k < i)%nat /\ rest !! k = Some o' /\
                                      new !! k = Some (SlotRef j1) /\
                                      getString o' "npc_id"
                                      = getString oi "npc_id") ->
                        matched (o :: rest) (SlotRef j :: new) (S i) oi j1 d0).
              { intros d0 (k & o' & Hk & Hok & Hnk & Hid).
                right. right. exists (S k), o'.
                split; [lia|]. split; [exact Hok|]. split; assumption. }
              destruct (Nat.eq_dec j1 j) as [-> | Hne].
              ** rewrite list_lookup_insert_eq in Hj1 by exact Hlt.
                 inversion Hj1; subst d1.
                 exists j, d. split; [exact Hnew|]. split; [exact Hdec|].
                 split; [|exact Hfirst0].
                 destruct Hwhy as [Hname | [Hid | Hearlier]].
                 --- left. now rewrite claimed_npc in Hname.
                 --- rewrite claimed_npc_id in Hid.
                     right. right. exists O, o.
                     split; [lia|]. split; [reflexivity|].
                     split; [reflexivity | exact Hid].
                 --- now apply Hshift.
              ** rewrite list_lookup_insert_ne in Hj1 by congruence.
                 exists j1, d1. split; [exact Hnew|]. split; [exact Hj1|].
                 split; [|exact Hfirst0].
                 destruct Hwhy as [Hname | [Hid | Hearlier]].
                 --- now left.
                 --- right. now left.
                 --- now apply Hshift.
    + destruct (IH store (slots ++ [SlotOwn (DefaultDecision o)])%list Hsome)
        as (new & store' & Hrun & Hsome' & Hlen & Hstore & Hslots).
      exists (SlotOwn (DefaultDecision o) :: new), store'.
      split; [now rewrite Hrun, <- app_assoc|].
      split; [exact Hsome'|]. split; [cbn [length]; now rewrite Hlen|].
      split.
      * intros j d0 Hj.
        destruct (Hstore j d0 Hj)
          as [[Hnot Hkeep] | (k & o' & Hk & Hlast & Hok & Hk')].
        -- left. split; [|exact Hkeep].
           constructor; [discriminate | exact Hnot].
        -- right. exists (S k), o'. split; [exact Hk|].
           split; [|split; [exact Hok | exact Hk']].
           intros k' Hk''. destruct k' as [|k']; [lia|].
           cbn. apply Hlast. lia.
      * intros i oi Hi. destruct i as [|i].
        -- inversion Hi; subst oi. left. split; [reflexivity|].
           intros j d0 Hj. exact (Hfirst j (Some d0) Hj).
        -- destruct (Hslots i oi Hi)
             as [[Hown Hnone] | (j1 & d1 & Hnew & Hj1 & Hwhy & Hfirst1)].
           ++ left. split; [exact Hown | exact Hnone].
           ++ right. exists j1, d1. split; [exact Hnew|].
              split; [exact Hj1|]. split; [|exact Hfirst1].
              destruct Hwhy as [Hname | [Hid | (k & o' & Hk & Hok & Hnk & Hid)]].
              ** now left.
              ** right. now left.
              ** right. right. exists (S k), o'.
                 split; [lia|]. split; [exact Hok|]. split; assumption.
Qed.

(** [parseMultiNPCResponse] returns the default decisions when the
    response has no brace pair or does not decode.  When it decodes and no
    element of [decisions] is null, every observation gets a slot: the
    default decision of its own, when no decoded map bears its name, or
    else one of the decoded maps, which bears its name or its [npc_id] (or
    the [npc_id] an earlier observation has written to it) while no
    earlier map bears its name.  The maps are shared, not copied: each
    assignment overwrites the [npc_id] of the map, so the decision
    returned for an observation is the decoded map with the [npc_id] of
    the last observation assigned to that map, and two observations
    assigned to the same map get the same decision.  A null element that
    is matched makes the function panic, as for a first observation
    without [npc_id]. *)
Theorem parseMultiNPCResponse_shares_decoded_maps `{Codec}
    (response : string) (observations : list Observation) :
  (index_byte "{" response < 0 \/
   last_index_byte "}" response < index_byte "{" response \/
   json_Unmarshal_decisions
     (slice response (index_byte "{" response)
        (last_index_byte "}" response + 1)) = None ->
   parseMultiNPCResponse_src response observations
   = Done (map DefaultDecision observations)) /\
  (forall decs,
     0 <= index_byte "{" response <= last_index_byte "}" response ->
     json_Unmarshal_decisions
       (slice response (index_byte "{" response)
          (last_index_byte "}" response + 1)) = Some decs ->
     (Forall is_Some decs ->
      exists (ds : list Decision) (slots : list Slot),
        parseMultiNPCResponse_src response observations = Done ds /\
        length ds = length observations /\
        length slots = length observations /\
        (forall i o, observations !! i = Some o ->
           (slots !! i = Some (SlotOwn (DefaultDecision o)) /\
            ds !! i = Some (DefaultDecision o) /\
            forall j d0, decs !! j = Some (Some d0) ->
                         getString d0 "npc" <> getString o "name") \/
           exists j d0 k o',
             slots !! i = Some (SlotRef j) /\
             decs !! j = Some (Some d0) /\
             matched observations slots i o j d0 /\
             (forall j' d', (j' < j)%nat -> decs !! j' = Some (Some d') ->
                            getString d' "npc" <> getString o "name") /\
             (i <= k)%nat /\ observations !! k = Some o' /\
             slots !! k = Some (SlotRef j) /\
             (forall k', (k < k')%nat -> slots !! k' <> Some (SlotRef j)) /\
             ds !! i
             = Some (<["npc_id" := VString (getString o' "npc_id")]> d0)) /\
        (forall i1 i2 j,
           slots !! i1 = Some (SlotRef j) -> slots !! i2 = Some (SlotRef j) ->
           ds !! i1 = ds !! i2)) /\
     (forall o rest decs',
        observations = o :: rest -> decs = None :: decs' ->
        getString o "npc_id" = "" ->
        parseMultiNPCResponse_src response observations = Panic)).
Proof.
  unfold parseMultiNPCResponse_src, generateDefaultDecisions. cbn zeta.
  split.
  - intros [Hneg | [Hlt | Hnone]].
    + destruct (Z.ltb_spec (index_byte "{" response) 0); [|lia]. reflexivity.
    + destruct (Z.ltb_spec (last_index_byte "}" response)
                  (index_byte "{" response)); [|lia].
      now rewrite orb_true_r.
    + rewrite Hnone. now destruct (_ || _).
  - intros decs Hrange Hdecs.
    destruct (Z.ltb_spec (index_byte "{" response) 0); [lia|].
    destruct (Z.ltb_spec (last_index_byte "}" response)
                (index_byte "{" response)); [lia|].
    cbn [orb]. rewrite Hdecs. split.
    + intros Hsome.
      destruct (match_loop_shares observations decs [] Hsome)
        as (new & store' & Hrun & Hsome' & Hlen & Hstore & Hslots).
      rewrite Hrun. cbn [app]. exists (map (deref store') new), new.
      split; [reflexivity|].
      split; [now rewrite length_map|]. split; [exact Hlen|].
      split.
      * intros i o Hi.
        destruct (Hslots i o Hi)
          as [[Hown Hnone] | (j & d0 & Hnew & Hj & Hwhy & Hfirst)].
        -- left. split; [exact Hown|].
           split; [now rewrite (lookup_map _ _ _ _ Hown) | exact Hnone].
        -- right.
           destruct (Hstore j d0 Hj)
             as [[Hnot _] | (k & o' & Hk & Hlast & Hok & Hk')].
           { rewrite Forall_lookup in Hnot. now destruct (Hnot _ _ Hnew). }
           exists j, d0, k, o'.
           split; [exact Hnew|]. split; [exact Hj|].
           split; [exact Hwhy|]. split; [exact Hfirst|].
           split.
           { destruct (Nat.le_gt_cases i k) as [Hle | Hgt]; [exact Hle|].
             now destruct (Hlast i Hgt). }
           split; [exact Hok|]. split; [exact Hk|]. split; [exact Hlast|].
           rewrite (lookup_map _ _ _ _ Hnew). unfold deref, Decision.
           now rewrite Hk'.
      * intros i1 i2 j Hs1 Hs2.
        now rewrite (lookup_map _ _ _ _ Hs1), (lookup_map _ _ _ _ Hs2).
    + intros o rest decs' -> -> Hid.
      cbn [match_loop first_match]. cbn zeta. rewrite Hid.
      reflexivity.
Qed.

(** ** [GetDecision] *)









(** ** Worked cases *)

(** A process without environment whose trimming leaves strings alone. *)
Definition bare_os : Os :=
  {| os_Getenv := fun _ => "";
     strings_ToUpper := fun s => s;
     strings_EqualFold := String.eqb;
     strings_TrimSpace := fun s => s;
     strings_Trim := fun s _ => s;
     strconv_Atoi := fun _ => None |}.

(** A decoder that knows two documents. *)
Definition two_documents : Codec :=
  {| json_Unmarshal_object :=
       fun s => if String.eqb s "{talk}"
                then Some (<["action" := VString "talk"]> ∅) else None;
     json_Unmarshal_decisions :=
       fun s => if String.eqb s "{k1}"
                then Some [Some (<["npc" := VString "k1"]> ∅)] else None;
     json_Unmarshal_batch :=
       fun s => if String.eqb s "{k1}"
                then Some [mkBatchItem "k1" "wait" VNil "idle"] else None;
     fmt_v := fun v => match v with VString s => s | _ => "?" end;
     buildActionPrompt := fun _ => "prompt" |}.

(** [k1] with [zed] standing next to it, and a second NPC that also calls
    itself [k1]. *)
Definition k1_near_zed : Observation :=
  <["nearby_npcs" := VArray [VObject [("name", VString "zed")]]]> obs_k1.
Definition k1_twin : Observation :=
  <["name" := VString "k1"]> (<["npc_id" := VString "npc-9"]> ∅).

Definition two_lines : string := "one" ++ String "010" "two".

Lemma truncateForLog_truncateError_bounds_witness :
  exists r,
    truncateForLog two_lines 5 = Done r /\
    ~ In "010"%char (list_ascii_of_string r) /\
    Z.of_nat (String.length r) <= 5 + 3.
Proof.
  destruct (proj1 (proj2 (truncateForLog_truncateError_bounds two_lines 5 "")))
    as (r & Hrun & Hclean & Hlen & _).
  - lia.
  - exists r. repeat split; assumption.
Defined.

Lemma parseBatchResponse_one_per_observation_witness :
  parseBatchResponse (H := two_documents) "{k1}" [obs_k1; obs_new] !! 0%nat
  = Some (<["npc_id" := VString "npc-1"]>
            (<["action" := VString "wait"]>
               (<["target" := VNil]> (<["reason" := VString "idle"]> ∅)))) /\
  parseBatchResponse (H := two_documents) "{k1}" [obs_k1; obs_new] !! 1%nat
  = Some (DefaultDecision obs_new).
Proof.
  pose proof (proj1 (proj2 (proj2 (parseBatchResponse_one_per_observation
                                     (H := two_documents) "{k1}"
                                     [obs_k1; obs_new])))
                [mkBatchItem "k1" "wait" VNil "idle"]
                ltac:(vm_compute; split; [discriminate | reflexivity])
                eq_refl) as Hslots.
  split.
  - destruct (Hslots 0%nat obs_k1 eq_refl)
      as [[Hnone _] | (before & dec & rest & Hd & Hb & Hn & Hr)].
    + inversion Hnone as [|? ? Hne _]. now contradiction Hne.
    + destruct before as [|b0 before].
      * inversion Hd; subst dec rest. exact Hr.
      * inversion Hd as [[Hb0 Hrest]]. now destruct before.
  - destruct (Hslots 1%nat obs_new eq_refl)
      as [[_ Hdef] | (before & dec & rest & Hd & Hb & Hn & Hr)];
      [exact Hdef|].
    destruct before as [|b0 before].
    + inversion Hd; subst dec rest. discriminate Hn.
    + inversion Hd as [[Hb0 Hrest]]. now destruct before.
Defined.

Lemma parseActionResponse_shapes_witness :
  getString (parseActionResponse (H := bare_os) (H0 := two_documents)
               "say {talk}" k1_near_zed) "target" <> "" /\
  getString (parseActionResponse (H := bare_os) (H0 := two_documents)
               "say {talk}" k1_near_zed) "target" <> "k1".
Proof.
  apply (proj2 (proj2 (proj1 (proj2 (parseActionResponse_shapes
                                       (H := bare_os) (H0 := two_documents)
                                       "say {talk}" k1_near_zed))
                         (<["action" := VString "talk"]> ∅) eq_refl))
           "zed").
  - now left.
  - reflexivity.
  - discriminate.
  - discriminate.
Defined.

(** A runtime that ranges over a map in the opposite order. *)
Definition backwards : Runtime :=
  {| float64_to_int64_unrepresentable := int64_min;
     map_range := fun V _ l => rev l;
     map_range_perm :=
       fun V _ l => Permutation_sym (Permutation_rev l);
     strings_ToLower := ascii_string_ToLower |}.

(** One NPC says nothing and the other says [left]. *)
Definition one_silent : gmap string Value :=
  <["k1" := VString ""]> (<["zed" := VString "left"]> ∅).

Definition coordination : gmap string Value :=
  <["type" := VString "coordination"]> ∅.

Lemma simpleJudge_verdicts_witness :
  fst (simpleJudge (H := amd64) (H0 := two_documents) coordination
         one_silent w0)
  <> fst (simpleJudge (H := backwards) (H0 := two_documents) coordination
            one_silent w0).
Proof.
  rewrite (proj1 (proj2 (simpleJudge_verdicts (H := amd64)
                           (H0 := two_documents) coordination one_silent w0))
             eq_refl).
  rewrite (proj1 (proj2 (simpleJudge_verdicts (H := backwards)
                           (H0 := two_documents) coordination one_silent w0))
             eq_refl).
  vm_compute. discriminate.
Defined.

Lemma parseMultiNPCResponse_shares_decoded_maps_witness :
  exists d,
    parseMultiNPCResponse_src (H := two_documents) "{k1}" [obs_k1; k1_twin]
    = Done [d; d] /\
    d !! "npc_id" = Some (VString "npc-9").
Proof.
  destruct (proj1 (proj2 (parseMultiNPCResponse_shares_decoded_maps
                            (H := two_documents) "{k1}" [obs_k1; k1_twin])
                     [Some (<["npc" := VString "k1"]> ∅)]
                     ltac:(vm_compute; split; discriminate) eq_refl)
              ltac:(repeat constructor; eauto))
    as (ds & slots & Hrun & _).
  exists (claimed_by (<["npc" := VString "k1"]> ∅) k1_twin).
  split; reflexivity.
Defined.




End ManagerFacts.

(* ===================================================================== *)
(** * Part XIV. The batch decision system as the server calls it           *)
(* ===================================================================== *)

Module ServerFacts.
Import Go Api Fixtures CacheFacts BatchFacts BatchMore ManagerFacts.

Lemma match_loop_length (observations : list Observation) :
  forall (store : list (option (gmap string Value))) (slots : list Slot),
  match match_loop observations store slots with
  | Done (slots', _) =>
      length slots' = (length slots + length observations)%nat
  | Panic => True
  | OutOfFuel => False
  end.
Proof.
  induction observations as [|o rest IH]; intros store slots.
  - cbn [match_loop length]. lia.
  - cbn [match_loop]. cbn zeta.
    destruct (first_match store (getString o "npc_id") (getString o "name") 0)
      as [j|].
    + destruct (store !! j) as [[d|]|]; try exact I.
      specialize (IH (<[j := Some (<["npc_id" :=
                                       VString (getString o "npc_id")]> d)]>
                        store) (slots ++ [SlotRef j])%list).
      destruct (match_loop rest _ _) as [[slots' store']| |]; try exact IH.
      rewrite IH, length_app. cbn [length]. lia.
    + specialize (IH store (slots ++ [SlotOwn (DefaultDecision o)])%list).
      destruct (match_loop rest _ _) as [[slots' store']| |]; try exact IH.
      rewrite IH, length_app. cbn [length]. lia.
Qed.

(** [parseMultiNPCResponse] never runs out of fuel, returns one decision
    per observation, and panics only on a response that decodes to a list
    with a null element. *)
Lemma parseMultiNPCResponse_outcomes `{Codec} (response : string)
    (observations : list Observation) :
  match parseMultiNPCResponse_src response observations with
  | Done ds => length ds = length observations
  | Panic =>
      exists decs,
        json_Unmarshal_decisions
          (slice response (index_byte "{" response)
             (last_index_byte "}" response + 1)) = Some decs /\
        None ∈ decs
  | OutOfFuel => False
  end.
Proof.
  unfold parseMultiNPCResponse_src, generateDefaultDecisions. cbn zeta.
  destruct ((index_byte "{" response <? 0)
            || (last_index_byte "}" response <? index_byte "{" response));
    [apply length_map|].
  destruct (json_Unmarshal_decisions _) as [decs|] eqn:Hdecs;
    [|apply length_map].
  pose proof (match_loop_length observations decs []) as Hlen.
  destruct (decide (Forall is_Some decs)) as [Hsome | Hnull].
  - destruct (match_loop_shares observations decs [] Hsome)
      as (new & store' & Hrun & _).
    rewrite Hrun in *. cbn [app] in *. rewrite length_map. exact Hlen.
  - destruct (match_loop observations decs []) as [[slots store]| |].
    + rewrite length_map. exact Hlen.
    + exists decs. split; [reflexivity|].
      apply not_Forall_Exists in Hnull; [|intros x; apply _].
      apply Exists_exists in Hnull. destruct Hnull as (x & Hx & Hnot).
      destruct x as [d|]; [|exact Hx].
      exfalso. apply Hnot. eauto.
    + exact Hlen.
Qed.

(** As the server calls it, with [context.Background()] and a non-empty
    list, on a manager whose active provider is the first of its list (as
    [NewManager] builds it), [GetBatchDecisions] never runs out of fuel.
    It counts the observations and the hits, counts at most one batch call
    or fallback, and makes no call when the cache answers everything.  It
    returns a response without error that holds a decision for every
    observation, flagged as from the cache exactly when the cache
    answered, unless the model's answer decodes to a list of decisions
    with a null element: that is the only case in which it panics. *)
Theorem GetBatchDecisions_with_background_context `{Runtime} `{External}
    `{Codec} (bds : BatchDecisionSystem) (observations : list Observation)
    (w : World) :
  observations <> [] ->
  activeSLM (manager bds) = head (slmProviders (manager bds)) ->
  (forall r os, parseMultiNPCResponse r os = parseMultiNPCResponse_src r os) ->
  exists res bds' w',
    GetBatchDecisions bds (mkContext false None) observations w
    = ((res, bds'), w') /\
    manager bds' = manager bds /\
    totalDecisions bds'
    = totalDecisions bds + Z.of_nat (length observations) /\
    cachHits bds'
    = cachHits bds + Z.of_nat (hits (cache bds) (clock w) observations) /\
    batchCalls bds <= batchCalls bds' /\
    fallbackUsed bds <= fallbackUsed bds' /\
    batchCalls bds' + fallbackUsed bds'
    <= batchCalls bds + fallbackUsed bds + 1 /\
    (uncached (cache bds) (clock w) observations = [] ->
     w' = w /\ batchCalls bds' = batchCalls bds /\
     fallbackUsed bds' = fallbackUsed bds) /\
    match res with
    | Done resp =>
        Error resp = None /\
        length (Decisions resp) = length observations /\
        length (FromCache resp) = length observations /\
        forall i o, observations !! i = Some o ->
          exists d, Decisions resp !! i = Some (Some d) /\
                    FromCache resp !! i
                    = Some (fresh (cache bds) (clock w) (hashObservation o))
    | Panic =>
        exists llmResponse decs,
          callLLMWithFallback (manager bds)
            (mkContext false (Some (clock w + 25 * Second)))
            (buildFlexibleMultiNPCPrompt
               (uncached (cache bds) (clock w) observations))
            (Z.of_nat (length (uncached (cache bds) (clock w) observations)))
            w
          = (Done (inl llmResponse), w') /\
          json_Unmarshal_decisions
            (slice llmResponse (index_byte "{" llmResponse)
               (last_index_byte "}" llmResponse + 1)) = Some decs /\
          None ∈ decs
    | OutOfFuel => False
    end.
Proof.
  intros Hne Hactive Hparse.
  destruct (GetBatchDecisions_run bds (mkContext false None) observations w
              Hne eq_refl)
    as (st & Hprobe & Hobs & Hidx & Hrun).
  cbn zeta in Hrun. rewrite Hrun. clear Hrun.
  destruct (probe_slots bds observations w st Hprobe)
    as (Hsim & Hl1 & Hl2 & Hhits & Hpos).
  assert (Hflag : forall i o, observations !! i = Some o ->
            pFromCache st !! i
            = Some (fresh (cache bds) (clock w) (hashObservation o))).
  { intros i o Hi. specialize (Hpos i o Hi). unfold probed in Hpos.
    destruct (fresh (cache bds) (clock w) (hashObservation o));
      [destruct Hpos as (e & _ & _ & Hf); exact Hf | exact Hpos]. }
  assert (Hkept : forall (ds : list (option Decision)) i o,
            observations !! i = Some o ->
            fresh (cache bds) (clock w) (hashObservation o) = true ->
            (forall j,
               j ∉ uncached_indices (cache bds) (clock w) 0 observations ->
               ds !! j = pDecisions st !! j) ->
            exists d, ds !! i = Some (Some d)).
  { intros ds i o Hi Hfresh Hout. specialize (Hpos i o Hi).
    unfold probed in Hpos. rewrite Hfresh in Hpos.
    destruct Hpos as (e & _ & Hd & _). exists (CDecision e).
    rewrite Hout; [exact Hd|].
    rewrite (fresh_not_uncached _ _ _ _ _ Hi). congruence. }
  destruct (uncached (cache bds) (clock w) observations) as [|u un] eqn:Hun.
  - (* the cache answers everything *)
    cbn [length Nat.eqb]. do 3 eexists. split; [reflexivity|].
    cbn [Error Decisions FromCache manager totalDecisions cachHits
         batchCalls fallbackUsed].
    split; [reflexivity|]. split; [reflexivity|]. split; [exact Hhits|].
    split; [lia|]. split; [lia|]. split; [lia|].
    split; [intros _; repeat split; reflexivity|].
    split; [reflexivity|]. split; [exact Hl1|]. split; [exact Hl2|].
    intros i o Hi.
    pose proof (uncached_all_fresh _ _ _ Hun i o Hi) as Hfresh.
    destruct (Hkept (pDecisions st) i o Hi Hfresh ltac:(reflexivity))
      as [d Hd].
    exists d. split; [exact Hd | now apply Hflag].
  - rewrite <- Hun. cbn [length Nat.eqb].
    assert (Hlen : (length (uncached (cache bds) (clock w) observations)
                    =? 0)%nat = false) by (rewrite Hun; reflexivity).
    rewrite Hlen.
    assert (Hnot : uncached (cache bds) (clock w) observations = [] ->
              False) by (rewrite Hun; discriminate).
    match goal with |- context [callLLMWithFallback ?m ?c ?p ?k w] =>
      destruct (fallback_loop_no_panic m c p k w Hactive)
        as (res & w2 & Hcall)
    end.
    rewrite Hcall.
    destruct res as [llmResponse | err].
    + rewrite Hparse.
      pose proof (parseMultiNPCResponse_outcomes llmResponse
                    (uncached (cache bds) (clock w) observations)) as Hout.
      destruct (parseMultiNPCResponse_src llmResponse
                  (uncached (cache bds) (clock w) observations))
        as [decisions| |].
      * destruct (distribute_spec observations decisions
                    (uncached_indices (cache bds) (clock w) 0 observations) 0
                    (pDecisions st) (pCache st) w2)
          as (ds & c' & w3 & Hdist & _ & _ & Hlen' & _ & _ & Hkeep & Hin
              & _).
        { now apply uncached_indices_bounds. }
        { apply uncached_indices_NoDup. }
        rewrite Hdist. do 3 eexists. split; [reflexivity|].
        cbn [Error Decisions FromCache manager totalDecisions cachHits
             batchCalls fallbackUsed].
        split; [reflexivity|]. split; [reflexivity|]. split; [exact Hhits|].
        split; [lia|]. split; [lia|]. split; [lia|].
        split; [intros Hnil; now destruct (Hnot Hnil)|].
        split; [reflexivity|]. split; [congruence|]. split; [exact Hl2|].
        intros i o Hi.
        destruct (fresh (cache bds) (clock w) (hashObservation o))
          eqn:Hfresh.
        -- destruct (Hkept ds i o Hi Hfresh Hkeep) as [d Hd].
           exists d. split; [exact Hd|]. rewrite <- Hfresh.
           now apply Hflag.
        -- apply (fresh_not_uncached _ _ _ _ _ Hi) in Hfresh as Hmem.
           apply list_elem_of_lookup in Hmem. destruct Hmem as [k Hk].
           eexists. split; [exact (Hin k i o Hk Hi)|].
           rewrite <- Hfresh. now apply Hflag.
      * do 3 eexists. split; [reflexivity|].
        cbn [manager totalDecisions cachHits batchCalls fallbackUsed].
        split; [reflexivity|]. split; [reflexivity|]. split; [exact Hhits|].
        split; [lia|]. split; [lia|]. split; [lia|].
        split; [intros Hnil; now destruct (Hnot Hnil)|].
        destruct Hout as (decs & Hdecs & Hnull).
        exists llmResponse, decs.
        split; [exact Hcall|]. split; assumption.
      * destruct Hout.
    + destruct (fill_defaults_spec observations
                  (uncached_indices (cache bds) (clock w) 0 observations)
                  (pDecisions st))
        as (ds & Hfill & Hlen' & Hkeep & Hin).
      { now apply uncached_indices_bounds. }
      rewrite Hfill. do 3 eexists. split; [reflexivity|].
      cbn [Error Decisions FromCache manager totalDecisions cachHits
           batchCalls fallbackUsed].
      split; [reflexivity|]. split; [reflexivity|]. split; [exact Hhits|].
      split; [lia|]. split; [lia|]. split; [lia|].
      split; [intros Hnil; now destruct (Hnot Hnil)|].
      split; [reflexivity|]. split; [congruence|]. split; [exact Hl2|].
      intros i o Hi.
      destruct (fresh (cache bds) (clock w) (hashObservation o))
        eqn:Hfresh.
      * destruct (Hkept ds i o Hi Hfresh Hkeep) as [d Hd].
        exists d. split; [exact Hd|]. rewrite <- Hfresh.
        now apply Hflag.
      * apply (fresh_not_uncached _ _ _ _ _ Hi) in Hfresh as Hmem.
        eexists. split; [exact (Hin i o Hmem Hi)|].
        rewrite <- Hfresh. now apply Hflag.
Qed.

(** An outside world in which the provider answers with the document
    [two_documents] knows and the parser is the one of the repository. *)
Definition answers_k1 : External :=
  {| callProvider_reply := fun _ _ _ => (inl "{k1}", 0);
     callWithContext_reply := fun _ _ _ _ => (inl "{k1}", 3 * Second);
     sha256_json := name_digest;
     sha256_json_length := name_digest_length;
     buildFlexibleMultiNPCPrompt := fun _ => "prompt";
     parseMultiNPCResponse :=
       parseMultiNPCResponse_src (H := two_documents) |}.

Lemma GetBatchDecisions_with_background_context_witness :
  exists resp bds' w',
    GetBatchDecisions (H := amd64) (H0 := answers_k1) a_system
      (mkContext false None) [obs_k1; obs_new] (mkWorld 7 [] 0)
    = ((Done resp, bds'), w') /\
    Error resp = None /\
    length (Decisions resp) = 2%nat /\ batchCalls bds' = 1.
Proof.
  destruct (GetBatchDecisions_with_background_context (H := amd64)
              (H0 := answers_k1) (H1 := two_documents) a_system
              [obs_k1; obs_new] (mkWorld 7 [] 0))
    as (res & bds' & w' & Hrun & _).
  - discriminate.
  - reflexivity.
  - intros r os. reflexivity.
  - vm_compute in Hrun. inversion Hrun; subst res bds' w'.
    do 3 eexists. split; [vm_compute; reflexivity|].
    repeat split; reflexivity.
Defined.

End ServerFacts.
